(** * Shelly Dimmer driver: framing, frame parser, dispatch, retries and
      brightness path of [components/shelly_dimmer/shelly_dimmer.cpp].

    The driver is embedded shallowly: the C++ object is a record, every
    member function is a Rocq function that takes the record (and, where the
    function talks to the UART or the clock, the state of the outside world)
    and returns the updated one.  Unsigned integers are [Z] with the
    wrap-around written out, [float] is IEEE-754 binary32 through the
    parametric operations of [SpecFloat] at precision 24. *)

From Stdlib Require Import ZArith Lia Bool.
From Stdlib Require Import Floats.SpecFloat.
From stdpp Require Import base list sorting.

Open Scope Z_scope.

(** ** Machine integers *)

Definition u8 (x : Z) : Z := x mod 2 ^ 8.
Definition u16 (x : Z) : Z := x mod 2 ^ 16.
Definition u32 (x : Z) : Z := x mod 2 ^ 32.

Definition is_u8 (x : Z) : Prop := 0 <= x < 256.

(** ** Single-precision floats *)

Module Float32.

Definition prec : Z := 24.
Definition emax : Z := 128.

Definition f32 : Type := spec_float.

Definition add : f32 -> f32 -> f32 := SFadd prec emax.
Definition sub : f32 -> f32 -> f32 := SFsub prec emax.
Definition mul : f32 -> f32 -> f32 := SFmul prec emax.
Definition div : f32 -> f32 -> f32 := SFdiv prec emax.

(** The comparisons of C++: every one of them is false on a NaN, except
    [!=], which is the negation of [==]. *)
Definition eqb (x y : f32) : bool := SFeqb x y.
Definition ltb (x y : f32) : bool := SFltb x y.
Definition leb (x y : f32) : bool := SFleb x y.
Definition neqb (x y : f32) : bool := negb (SFeqb x y).

(** Conversion of an integer to [float] (round to nearest even). *)
Definition of_Z (n : Z) : f32 := binary_normalize prec emax n 0 false.

(** Conversion of a [float] to an integer type truncates toward zero; it is
    undefined on NaN and the infinities. *)
Definition trunc (x : f32) : option Z :=
  match x with
  | S754_zero _ => Some 0
  | S754_finite s m e => Some (cond_Zopp s (Z.shiftl (Zpos m) e))
  | S754_infinity _ | S754_nan => None
  end.

(** ... and undefined when the truncated value does not fit the target. *)
Definition to_u16 (x : f32) : option Z :=
  match trunc x with
  | Some z => if (0 <=? z) && (z <? 2 ^ 16) then Some z else None
  | None => None
  end.

Definition zero : f32 := S754_zero false.
Definition one : f32 := of_Z 1.

Definition finite (x : f32) : bool :=
  match x with
  | S754_zero _ | S754_finite _ _ _ => true
  | _ => false
  end.

(** The 24-bit mantissa and the exponent of the float that a positive
integer below 2^24 converts to. *)
Definition canon_m (n : positive) : positive :=
  Z.to_pos (Zpos n * 2 ^ (24 - Zpos (digits2_pos n))).
Definition canon_e (n : positive) : Z := Zpos (digits2_pos n) - 24.

(** The integers that convert exactly: magnitude below 2^24. *)
Definition small (z : Z) : Prop := Z.abs z < 2 ^ 24.

(** Twice the integer part of X/B, plus one when X/B is not an integer. *)
Definition sticky (X B : Z) : Z := 2 * (X / B) + (if X mod B =? 0 then 0 else 1).

(** The code of a shift record: mantissa, round bit, sticky bit. *)
Definition code_of (mrs : shr_record) : Z :=
  4 * shr_m mrs + 2 * Z.b2z (shr_r mrs) + Z.b2z (shr_s mrs).

Definition record_of (c : Z) : shr_record :=
  Build_shr_record (c / 4) (Z.odd (c / 2)) (Z.odd c).

(** Rounding to nearest even, on codes. *)
Definition rne (c : Z) : Z :=
  round_nearest_even (shr_m (record_of c)) (loc_of_shr_record (record_of c)).

(** A mantissa of 2^24 after rounding becomes 2^23 at the next exponent. *)
Definition renorm (m e : Z) : Z * Z :=
  if m =? 2 ^ prec then (2 ^ (prec - 1), e + 1) else (m, e).

Definition pack (s : bool) (me : Z * Z) : spec_float :=
  match fst me with
  | Z0 => S754_zero s
  | Zpos p => if snd me <=? emax - prec then S754_finite s p (snd me) else S754_infinity s
  | Zneg _ => S754_nan
  end.

(** The float nearest to the non-negative real [X/B * 2^emin]: the
    exponent [F] of the result is read off the integer part, the code of
    the real at [F] is rounded to nearest even and renormalised. *)
Definition rnd (X B : Z) : spec_float :=
  let F := fexp prec emax (Zdigits2 (X / B) + emin prec emax) in
  pack false (renorm (rne (sticky (2 * X) (B * 2 ^ (F - emin prec emax)))) F).

(** A non-negative finite float in canonical form: what a power reading
    or a mean of power readings is. *)
Definition nonneg_finite (x : spec_float) : bool :=
  match x with
  | S754_zero false => true
  | S754_finite false m e => bounded prec emax m e
  | _ => false
  end.

(** The value of a non-negative finite float, in units of [2^emin]. *)
Definition ulps (x : spec_float) : Z :=
  match x with
  | S754_finite false m e => Zpos m * 2 ^ (e - emin prec emax)
  | _ => 0
  end.

End Float32.

Import Float32.

(** ** Constants of the anonymous namespace *)

(** [0.05f]: the binary32 number nearest to 1/20. *)
Definition CALIBRATION_STEP : f32 := S754_finite false 13421773 (-28).

Definition SHELLY_DIMMER_ACK_TIMEOUT : Z := 200.
Definition SHELLY_DIMMER_MAX_RETRIES : Z := 3.
Definition SHELLY_DIMMER_MAX_BRIGHTNESS : Z := 1000.

Definition SHELLY_DIMMER_PROTO_START_BYTE : Z := 0x01.
Definition SHELLY_DIMMER_PROTO_END_BYTE : Z := 0x04.

Definition SHELLY_DIMMER_PROTO_CMD_SWITCH : Z := 0x01.
Definition SHELLY_DIMMER_PROTO_CMD_POLL : Z := 0x10.
Definition SHELLY_DIMMER_PROTO_CMD_VERSION : Z := 0x11.
Definition SHELLY_DIMMER_PROTO_CMD_SETTINGS : Z := 0x20.

Definition SHELLY_DIMMER_PROTO_CMD_SWITCH_SIZE : Z := 2.
Definition SHELLY_DIMMER_PROTO_CMD_SETTINGS_SIZE : Z := 10.
Definition SHELLY_DIMMER_PROTO_MAX_FRAME_SIZE : Z := 4 + 72 + 3.

Definition POWER_SCALING_FACTOR : f32 := of_Z 880373.
Definition VOLTAGE_SCALING_FACTOR : f32 := of_Z 347800.
Definition CURRENT_SCALING_FACTOR : f32 := of_Z 1448.

(** ** Arrays of bytes

    An array is a list; [a[i]] reads with default 0 and [a[i] = v] is stdpp's
    insert.  Both are only meaningful in bounds (out of bounds the C++ is
    undefined; here a read gives 0 and a write does nothing), so the theorems
    below carry the bounds they need. *)

Definition aget (a : list Z) (i : Z) : Z := default 0 (a !! Z.to_nat i).
Definition aset (a : list Z) (i : Z) (v : Z) : list Z := <[Z.to_nat i := v]> a.

(** [std::memcpy(dst + off, src, n)] *)
Definition memcpy (dst : list Z) (off : Z) (src : list Z) (n : Z) : list Z :=
  take (Z.to_nat off) dst ++ take (Z.to_nat n) src
    ++ drop (Z.to_nat off + Z.to_nat n) dst.

(** ** Helpers of the host framework *)

(** Modelled from the spec: [encode_uint16] of esphome's [helpers.h], which
    is not among the sources; the spec gives the POLL brightness as
    [(payload[3]<<8)|payload[2]] for the call
    [encode_uint16(payload[3], payload[2])]. *)
Definition encode_uint16 (msb lsb : Z) : Z :=
  u16 (Z.lor (Z.shiftl msb 8) lsb).

(** Modelled from the spec: [encode_uint32] of esphome's [helpers.h], which
    is not among the sources; the spec gives each raw as a little-endian u32
    over its four bytes for [encode_uint32(p[i+3], p[i+2], p[i+1], p[i])]. *)
Definition encode_uint32 (byte1 byte2 byte3 byte4 : Z) : Z :=
  u32 (Z.lor (Z.lor (Z.lor (Z.shiftl byte1 24) (Z.shiftl byte2 16))
                    (Z.shiftl byte3 8)) byte4).

(** Modelled from the spec: [remap] of esphome's [helpers.h], which is not
    among the sources; the spec calls it the affine (linear) remap of a
    value from [[min, max]] onto [[min_out, max_out]]:
    [(value - min) * (max_out - min_out) / (max - min) + min_out],
    evaluated left to right in single precision. *)
Definition remap (value min max min_out max_out : f32) : f32 :=
  add (div (mul (sub value min) (sub max_out min_out)) (sub max min)) min_out.

(** [remap<uint16_t, float>]: the output bounds are [uint16_t], so their
    difference is an [int] that is converted to [float], and the [float]
    result is converted back to [uint16_t] on return. *)
Definition remap_u16 (value min max : f32) (min_out max_out : Z) : option Z :=
  to_u16 (add (div (mul (sub value min) (of_Z (max_out - min_out))) (sub max min))
              (of_Z min_out)).

(** ** The checksum *)

(** [std::accumulate<const uint8_t *, uint16_t>(buf, buf + len, 0)]: the
    accumulator is a [uint16_t], every partial sum is truncated to 16 bits. *)
Definition shelly_dimmer_checksum (buf : list Z) (len : Z) : Z :=
  fold_left (fun acc b => u16 (acc + b)) (take (Z.to_nat len) buf) 0.

(** ** The driver object *)

(** A sensor collaborator, seen through what the driver publishes to it: the
    list of published states, the latest first. *)
Definition Sensor : Type := list f32.

(** The members the modelled functions use.  [shelly_dimmer.h] is not among
    the sources: the widths follow the uses in the .cpp ([uint8_t] copies of
    [buffer_pos_] and of the sequence byte, [%d] and [uint16_t] conversions of
    the brightness bounds) and the spec's data model.  A null sensor pointer
    is [None].  [light_brightness_] stands for the light object behind
    [state_]: the brightness its last call was given. *)
Record ShellyDimmer : Type := mkShellyDimmer {
  seq_ : Z;
  buffer_ : list Z;
  buffer_pos_ : Z;
  brightness_ : Z;
  min_brightness_ : Z;
  max_brightness_ : Z;
  version_major_ : Z;
  version_minor_ : Z;
  ready_ : bool;
  calibrating_ : bool;
  calibration_data_ : list f32;
  power_sensor_ : option Sensor;
  voltage_sensor_ : option Sensor;
  current_sensor_ : option Sensor;
  update_interval_ : Z;
  update_interval_original_ : Z;
  rtc_ : option (list f32);
  light_brightness_ : f32
}.

Definition with_seq_ (st : ShellyDimmer) (v : Z) : ShellyDimmer :=
  mkShellyDimmer v (buffer_ st) (buffer_pos_ st) (brightness_ st)
    (min_brightness_ st) (max_brightness_ st) (version_major_ st)
    (version_minor_ st) (ready_ st) (calibrating_ st) (calibration_data_ st)
    (power_sensor_ st) (voltage_sensor_ st) (current_sensor_ st)
    (update_interval_ st) (update_interval_original_ st) (rtc_ st)
    (light_brightness_ st).

Definition with_buffer_ (st : ShellyDimmer) (v : list Z) : ShellyDimmer :=
  mkShellyDimmer (seq_ st) v (buffer_pos_ st) (brightness_ st)
    (min_brightness_ st) (max_brightness_ st) (version_major_ st)
    (version_minor_ st) (ready_ st) (calibrating_ st) (calibration_data_ st)
    (power_sensor_ st) (voltage_sensor_ st) (current_sensor_ st)
    (update_interval_ st) (update_interval_original_ st) (rtc_ st)
    (light_brightness_ st).

Definition with_buffer_pos_ (st : ShellyDimmer) (v : Z) : ShellyDimmer :=
  mkShellyDimmer (seq_ st) (buffer_ st) v (brightness_ st)
    (min_brightness_ st) (max_brightness_ st) (version_major_ st)
    (version_minor_ st) (ready_ st) (calibrating_ st) (calibration_data_ st)
    (power_sensor_ st) (voltage_sensor_ st) (current_sensor_ st)
    (update_interval_ st) (update_interval_original_ st) (rtc_ st)
    (light_brightness_ st).

Definition with_brightness_ (st : ShellyDimmer) (v : Z) : ShellyDimmer :=
  mkShellyDimmer (seq_ st) (buffer_ st) (buffer_pos_ st) v
    (min_brightness_ st) (max_brightness_ st) (version_major_ st)
    (version_minor_ st) (ready_ st) (calibrating_ st) (calibration_data_ st)
    (power_sensor_ st) (voltage_sensor_ st) (current_sensor_ st)
    (update_interval_ st) (update_interval_original_ st) (rtc_ st)
    (light_brightness_ st).

Definition with_version_ (st : ShellyDimmer) (major minor : Z) : ShellyDimmer :=
  mkShellyDimmer (seq_ st) (buffer_ st) (buffer_pos_ st) (brightness_ st)
    (min_brightness_ st) (max_brightness_ st) major minor
    (ready_ st) (calibrating_ st) (calibration_data_ st)
    (power_sensor_ st) (voltage_sensor_ st) (current_sensor_ st)
    (update_interval_ st) (update_interval_original_ st) (rtc_ st)
    (light_brightness_ st).

Definition with_sensors_ (st : ShellyDimmer) (p v c : option Sensor) : ShellyDimmer :=
  mkShellyDimmer (seq_ st) (buffer_ st) (buffer_pos_ st) (brightness_ st)
    (min_brightness_ st) (max_brightness_ st) (version_major_ st)
    (version_minor_ st) (ready_ st) (calibrating_ st) (calibration_data_ st)
    p v c
    (update_interval_ st) (update_interval_original_ st) (rtc_ st)
    (light_brightness_ st).

Definition with_calibration_ (st : ShellyDimmer) (calibrating : bool)
    (data : list f32) (saved : option (list f32)) : ShellyDimmer :=
  mkShellyDimmer (seq_ st) (buffer_ st) (buffer_pos_ st) (brightness_ st)
    (min_brightness_ st) (max_brightness_ st) (version_major_ st)
    (version_minor_ st) (ready_ st) calibrating data
    (power_sensor_ st) (voltage_sensor_ st) (current_sensor_ st)
    (update_interval_ st) (update_interval_original_ st) saved
    (light_brightness_ st).

Definition with_light_ (st : ShellyDimmer) (b : f32) (interval : Z) : ShellyDimmer :=
  mkShellyDimmer (seq_ st) (buffer_ st) (buffer_pos_ st) (brightness_ st)
    (min_brightness_ st) (max_brightness_ st) (version_major_ st)
    (version_minor_ st) (ready_ st) (calibrating_ st) (calibration_data_ st)
    (power_sensor_ st) (voltage_sensor_ st) (current_sensor_ st)
    interval (update_interval_original_ st) (rtc_ st) b.

(** [sensor->publish_state(x)] behind the null check of the caller. *)
Definition publish_state (s : option Sensor) (x : f32) : option Sensor :=
  match s with
  | Some published => Some (x :: published)
  | None => None
  end.

(** ** Framing *)

(** [frame_command_] writes into the caller's array [data] and returns the
    number of bytes of the frame; [payload] is [None] for a null pointer.
    [++this->seq_] wraps at 256 and [data[3] = len] keeps the low byte of
    [len]. *)
Definition frame_command_ (st : ShellyDimmer) (data : list Z) (cmd : Z)
    (payload : option (list Z)) (len : Z) : ShellyDimmer * list Z * Z :=
  let pos := 0 in
  let st := with_seq_ st (u8 (seq_ st + 1)) in
  let data := aset data 0 SHELLY_DIMMER_PROTO_START_BYTE in
  let data := aset data 1 (seq_ st) in
  let data := aset data 2 cmd in
  let data := aset data 3 (u8 len) in
  let pos := pos + 4 in
  let '(data, pos) :=
    match payload with
    | Some p => (memcpy data 4 p len, pos + len)
    | None => (data, pos)
    end in
  let csum := shelly_dimmer_checksum (drop 1 data) (3 + len) in
  let data := aset data pos (u8 (Z.shiftr csum 8)) in
  let data := aset data (pos + 1) (u8 (Z.land csum 0xff)) in
  let data := aset data (pos + 2) SHELLY_DIMMER_PROTO_END_BYTE in
  (st, data, pos + 3).

Section Driver.

(** The size of the receive buffer [buffer_] is a constant of the header,
    which is not among the sources: it is a parameter here. *)
Variable SHELLY_DIMMER_BUFFER_SIZE : Z.

(** ** The frame parser *)

(** The classifier of one received byte; the caller has already stored [c]
    at [buffer_[buffer_pos_]].  Returns 1 (need more), 0 (frame complete)
    or -1 (reset). *)
Definition handle_byte_ (st : ShellyDimmer) (c : Z) : Z :=
  let pos := buffer_pos_ st in
  if pos =? 0 then
    (if c =? SHELLY_DIMMER_PROTO_START_BYTE then 1 else -1)
  else if pos <? 4 then 1
  else
    let payload_len := aget (buffer_ st) 3 in
    if 4 + payload_len + 3 >? SHELLY_DIMMER_BUFFER_SIZE then -1
    else if pos <? 4 + payload_len + 1 then 1
    else if pos =? 4 + payload_len + 1 then
      let csum := u16 (Z.lor (Z.shiftl (aget (buffer_ st) (pos - 1)) 8) c) in
      let csum_verify :=
        shelly_dimmer_checksum (drop 1 (buffer_ st)) (3 + payload_len) in
      if negb (csum =? csum_verify) then -1 else 1
    else if pos =? 4 + payload_len + 2 then
      (if c =? SHELLY_DIMMER_PROTO_END_BYTE then 0 else -1)
    else -1.

(** The local variables of the POLL case of [handle_frame_], which the
    source only logs. *)
Record PollData : Type := mkPollData {
  hw_version : Z;
  brightness : Z;
  power_raw : Z;
  voltage_raw : Z;
  current_raw : Z;
  fade_rate : Z
}.

Definition poll_data (payload : Z -> Z) : PollData :=
  {| hw_version := payload 0;
     brightness := encode_uint16 (payload 3) (payload 2);
     power_raw := encode_uint32 (payload 7) (payload 6) (payload 5) (payload 4);
     voltage_raw :=
       encode_uint32 (payload 11) (payload 10) (payload 9) (payload 8);
     current_raw :=
       encode_uint32 (payload 15) (payload 14) (payload 13) (payload 12);
     fade_rate := payload 16 |}.

(** Dispatch of a complete frame held in [buffer_]. *)
Definition handle_frame_ (st : ShellyDimmer) : bool * ShellyDimmer :=
  let seq := aget (buffer_ st) 1 in
  let cmd := aget (buffer_ st) 2 in
  let payload_len := aget (buffer_ st) 3 in
  if negb (seq =? seq_ st) then (false, st)
  else
    let payload := fun i => aget (buffer_ st) (4 + i) in
    if cmd =? SHELLY_DIMMER_PROTO_CMD_POLL then
      if payload_len <? 16 then (false, st)
      else
        let d := poll_data payload in
        let power :=
          if power_raw d >? 0
          then div POWER_SCALING_FACTOR (of_Z (power_raw d)) else zero in
        let voltage :=
          if voltage_raw d >? 0
          then div VOLTAGE_SCALING_FACTOR (of_Z (voltage_raw d)) else zero in
        let current :=
          if current_raw d >? 0
          then div CURRENT_SCALING_FACTOR (of_Z (current_raw d)) else zero in
        (true, with_sensors_ st (publish_state (power_sensor_ st) power)
                 (publish_state (voltage_sensor_ st) voltage)
                 (publish_state (current_sensor_ st) current))
    else if cmd =? SHELLY_DIMMER_PROTO_CMD_VERSION then
      if payload_len <? 2 then (false, st)
      else (true, with_version_ st (payload 1) (payload 0))
    else if (cmd =? SHELLY_DIMMER_PROTO_CMD_SWITCH)
            || (cmd =? SHELLY_DIMMER_PROTO_CMD_SETTINGS) then
      (negb ((payload_len <? 1) || negb (payload 0 =? 0x01)), st)
    else (false, st).

(** One turn of the [while (available())] loop of [read_frame_] on the byte
    [c] just read: store it, classify it, move the position.  The verdict of
    [handle_frame_] is computed and dropped, as in the source. *)
Definition read_frame_byte (st : ShellyDimmer) (c : Z) : Z * ShellyDimmer :=
  let st := with_buffer_ st (aset (buffer_ st) (buffer_pos_ st) c) in
  let r := handle_byte_ st c in
  if r =? 0 then
    let '(_, st) := handle_frame_ st in (r, with_buffer_pos_ st 0)
  else if r =? -1 then (r, with_buffer_pos_ st 0)
  else if r =? 1 then (r, with_buffer_pos_ st (u8 (buffer_pos_ st + 1)))
  else (r, st).

(** [read_frame_] over the bytes the UART has available: it returns at the
    first completed frame and leaves the rest in the UART. *)
Fixpoint read_frame_loop (st : ShellyDimmer) (avail : list Z)
    : bool * ShellyDimmer * list Z :=
  match avail with
  | [] => (false, st, [])
  | c :: rest =>
      let '(r, st) := read_frame_byte st c in
      if r =? 0 then (true, st, rest) else read_frame_loop st rest
  end.

(** ** The outside world: UART and clock

    [rx] holds the bytes [available()] now; [line] is what the wire will
    deliver, one chunk per elapsed millisecond; [tx] records the
    [write_array] calls and [flushed] counts the [flush] calls.  Time only
    passes in [delay]. *)
Record World : Type := mkWorld {
  millis : Z;
  rx : list Z;
  line : list (list Z);
  tx : list (list Z);
  flushed : Z
}.

Definition write_array (w : World) (frame : list Z) : World :=
  mkWorld (millis w) (rx w) (line w) (tx w ++ [frame]) (flushed w).

Definition flush (w : World) : World :=
  mkWorld (millis w) (rx w) (line w) (tx w) (flushed w + 1).

Definition delay_1 (w : World) : World :=
  mkWorld (u32 (millis w + 1)) (rx w ++ hd [] (line w)) (tl (line w))
          (tx w) (flushed w).

Definition read_frame_ (st : ShellyDimmer) (w : World)
    : bool * ShellyDimmer * World :=
  let '(r, st, rest) := read_frame_loop st (rx w) in
  (r, st, mkWorld (millis w) rest (line w) (tx w) (flushed w)).

(** The inner loop of [send_command_]:
    [while (millis() - tx_time < ACK_TIMEOUT) { if (read_frame_()) return true; delay(1); }].
    [None] when the fuel runs out before the loop ends. *)
Fixpoint await_reply (fuel : nat) (tx_time : Z) (st : ShellyDimmer) (w : World)
    : option (bool * ShellyDimmer * World) :=
  match fuel with
  | O => None
  | S fuel =>
      if u32 (millis w - tx_time) <? SHELLY_DIMMER_ACK_TIMEOUT then
        let '(r, st, w) := read_frame_ st w in
        if r then Some (true, st, w)
        else await_reply fuel tx_time st (delay_1 w)
      else Some (false, st, w)
  end.

(** The outer loop, [while (retries--)], by recursion on [retries]. *)
Fixpoint send_attempts (fuel : nat) (retries : nat) (frame : list Z)
    (st : ShellyDimmer) (w : World) : option (bool * ShellyDimmer * World) :=
  match retries with
  | O => Some (false, st, w)
  | S retries =>
      let w := flush (write_array w frame) in
      let tx_time := millis w in
      match await_reply fuel tx_time st w with
      | Some (true, st, w) => Some (true, st, w)
      | Some (false, st, w) => send_attempts fuel retries frame st w
      | None => None
      end
  end.

(** [send_command_].  The local array [frame] is not initialised in the
    source; [frame_command_] overwrites every byte of the frame it returns
    whenever [payload] is non-null or [len] is 0, which is how every caller
    calls it, so the initial content is taken to be zeros. *)
Definition send_command_ (fuel : nat) (st : ShellyDimmer) (w : World)
    (cmd : Z) (payload : option (list Z)) (len : Z)
    : option (bool * ShellyDimmer * World) :=
  let frame := replicate (Z.to_nat SHELLY_DIMMER_PROTO_MAX_FRAME_SIZE) 0 in
  let '(st, frame, frame_len) := frame_command_ st frame cmd payload len in
  send_attempts fuel (Z.to_nat SHELLY_DIMMER_MAX_RETRIES)
                (take (Z.to_nat frame_len) frame) st w.

(** ** The brightness path *)

Definition convert_brightness_ (st : ShellyDimmer) (brightness : f32)
    : option Z :=
  if eqb brightness zero then Some 0
  else remap_u16 brightness zero one (min_brightness_ st) (max_brightness_ st).

(** The result of [send_command_] is dropped, as in the source. *)
Definition send_brightness_ (fuel : nat) (st : ShellyDimmer) (w : World)
    (brightness : Z) : option (ShellyDimmer * World) :=
  let payload := [u8 (Z.land brightness 0xff); u8 (Z.shiftr brightness 8)] in
  match send_command_ fuel st w SHELLY_DIMMER_PROTO_CMD_SWITCH (Some payload)
                      SHELLY_DIMMER_PROTO_CMD_SWITCH_SIZE with
  | Some (_, st, w) => Some (with_brightness_ st brightness, w)
  | None => None
  end.

(** [calibration_data_[pos]] *)
Definition fget (a : list f32) (i : Z) : f32 :=
  default zero (a !! Z.to_nat i).

(** [for (pos = 0; pos < size; ++pos) if (data[pos] < brightness) break;]
    started at [pos] on the entries from [pos] on. *)
Fixpoint calibration_search (data : list f32) (brightness : f32) (pos : Z) : Z :=
  match data with
  | [] => pos
  | value :: rest =>
      if ltb value brightness then pos
      else calibration_search rest brightness (pos + 1)
  end.

(** The value [write_state] hands to [convert_brightness_]: [brightness]
    itself, or its remap through the calibration table. *)
Definition calibrated_brightness (st : ShellyDimmer) (brightness : f32) : f32 :=
  if negb (calibrating_ st) && neqb (fget (calibration_data_ st) 0) zero
     && neqb brightness (of_Z 0) && neqb brightness one then
    let pos := calibration_search (calibration_data_ st) brightness 0 in
    if (pos =? Z.of_nat (length (calibration_data_ st))) || (pos =? 0) then
      brightness
    else
      let min := fget (calibration_data_ st) pos in
      let max := fget (calibration_data_ st) (pos - 1) in
      let min_out := sub (of_Z 1) (mul (of_Z pos) CALIBRATION_STEP) in
      let max_out := add min_out CALIBRATION_STEP in
      remap brightness min max min_out max_out
  else brightness.

(** [write_state(state)], where [brightness] is what
    [state->current_values_as_brightness] reports.  [None] is undefined
    behaviour of the conversion to [uint16_t], or lack of fuel. *)
Definition write_state (fuel : nat) (st : ShellyDimmer) (w : World)
    (brightness : f32) : option (ShellyDimmer * World) :=
  if negb (ready_ st) then Some (st, w)
  else
    let brightness := calibrated_brightness st brightness in
    match convert_brightness_ st brightness with
    | None => None
    | Some brightness_int =>
        if brightness_int =? brightness_ st then Some (st, w)
        else send_brightness_ fuel st w brightness_int
    end.

(** ** End of the calibration *)

(** [std::sort(begin, end, std::greater{})], as an insertion sort: [x] goes
    in front of the first entry that is not greater than it. *)
Fixpoint insert_desc (x : f32) (l : list f32) : list f32 :=
  match l with
  | [] => [x]
  | y :: l' => if ltb x y then y :: insert_desc x l' else x :: l
  end.

Definition sort_desc (l : list f32) : list f32 := foldr insert_desc [] l.

(** [save_calibration_] hands the table to the preferences store, and
    [set_brightness_no_transition_(1)] and [set_update_interval] go to the
    light and to the poller. *)
Definition complete_calibration_ (st : ShellyDimmer) : ShellyDimmer :=
  let data := sort_desc (calibration_data_ st) in
  let max := fget data 0 in
  let min := fget data (Z.of_nat (length data) - 1) in
  let data := map (fun value => remap value min max zero one) data in
  let st := with_calibration_ st false data (Some data) in
  let update_interval :=
    if update_interval_original_ st =? 0 then 10000
    else update_interval_original_ st in
  with_light_ st (of_Z 1) update_interval.

End Driver.

(** ** Specification vocabulary *)

(** The plain sum of a list of bytes. *)
Definition sum_bytes (l : list Z) : Z := foldr Z.add 0 l.

(** The receive buffer agrees with [frame] on its first [length frame]
    bytes. *)
Definition holds_frame (st : ShellyDimmer) (frame : list Z) : Prop :=
  take (length frame) (buffer_ st) = frame.

(** The bytes of a frame with the given sequence number, command and
    payload, as the data model lays them out. *)
Definition frame_of (seq cmd : Z) (payload : list Z) : list Z :=
  let len := Z.of_nat (length payload) in
  let csum := sum_bytes (seq :: cmd :: len :: payload) mod 2 ^ 16 in
  [SHELLY_DIMMER_PROTO_START_BYTE; seq; cmd; len] ++ payload
    ++ [csum / 256; csum mod 256; SHELLY_DIMMER_PROTO_END_BYTE].


(** The parser after the bytes [cs] have come in, in however many calls of
    [read_frame_]: one turn of its loop per byte. *)
Definition feed (buffer_size : Z) (st : ShellyDimmer) (cs : list Z) : ShellyDimmer :=
  fold_left (fun st c => snd (read_frame_byte buffer_size st c)) cs st.

(** What the parser keeps true of itself over a buffer of [buffer_size]
    bytes: the buffer has its size and holds bytes, the position is inside
    it, and past the header the position is within the frame that the length
    byte announces, which fits the buffer. *)
Definition parser_inv (buffer_size : Z) (st : ShellyDimmer) : Prop :=
  length (buffer_ st) = Z.to_nat buffer_size
  /\ Forall is_u8 (buffer_ st)
  /\ 0 <= buffer_pos_ st < buffer_size
  /\ buffer_pos_ st < 256
  /\ (4 < buffer_pos_ st ->
      buffer_pos_ st <= 4 + aget (buffer_ st) 3 + 2
      /\ 4 + aget (buffer_ st) 3 + 3 <= buffer_size).

(** The two ways the source calls [send_command_]: with a payload array and
    its size, which fits a frame, or with a null pointer and size 0. *)
Definition payload_ok (payload : option (list Z)) (len : Z) : Prop :=
  match payload with
  | Some p => len = Z.of_nat (length p) /\ len <= 72
  | None => len = 0
  end.

(** The UART stays silent: nothing is waiting and nothing will come. *)
Definition silent (w : World) : Prop :=
  rx w = [] /\ Forall (fun chunk => chunk = []) (line w).

(** The order of the sorted calibration table: an earlier entry is not
    smaller than a later one. *)
Definition descending (a b : f32) : Prop := ulps b <= ulps a.

(** ** The calibration run and the settings *)

(** How a call can end in the model: it returns, it runs into undefined
    behaviour of the C++ (a null pointer is dereferenced, an array is
    indexed out of its bounds, a float that does not fit is converted), or
    the fuel given to the wait loops runs out. *)
Inductive Outcome (A : Type) : Type :=
  | Returns (a : A)
  | Undefined
  | OutOfFuel.

Arguments Returns {A} a.
Arguments Undefined {A}.
Arguments OutOfFuel {A}.

(** Modelled from the spec: the sensor collaborator of the host framework,
    which has a reading once a state has been published to it ("if the
    power sensor has no reading yet, skip") and whose [state] is then the
    latest state published; publishing is fire-and-forget. *)
Definition has_state (s : Sensor) : bool :=
  match s with
  | [] => false
  | _ :: _ => true
  end.

Definition state (s : Sensor) : f32 := hd S754_nan s.

(** The members of the object that only the calibration run uses.  Their
    integer types are the header's; no wrap-around is written out for them,
    the run keeps the step between -20 and 20 and the count within the size
    of the measurement array.  That size is the header's as well: it is the
    length of [calibration_measurements_]. *)
Record Calibration : Type := mkCalibration {
  calibration_measurements_ : list f32;
  calibration_measurement_cnt_ : Z;
  calibration_step_ : Z
}.

(** The configuration members that [send_settings_] reads. *)
Record Settings : Type := mkSettings {
  leading_edge_ : bool;
  fade_rate_ : Z;
  warmup_brightness_ : Z;
  warmup_time_ : Z
}.

Definition with_update_interval_original_ (st : ShellyDimmer) (v : Z) : ShellyDimmer :=
  mkShellyDimmer (seq_ st) (buffer_ st) (buffer_pos_ st) (brightness_ st)
    (min_brightness_ st) (max_brightness_ st) (version_major_ st)
    (version_minor_ st) (ready_ st) (calibrating_ st) (calibration_data_ st)
    (power_sensor_ st) (voltage_sensor_ st) (current_sensor_ st)
    (update_interval_ st) v (rtc_ st) (light_brightness_ st).

(** [start_calibration]: the poller is re-armed at one second, the light is
    set to full brightness without transition, both arrays are zeroed. *)
Definition start_calibration (st : ShellyDimmer) (cal : Calibration)
    : ShellyDimmer * Calibration :=
  let st := with_update_interval_original_ st (update_interval_ st) in
  let st := with_light_ st (light_brightness_ st) 1000 in
  let st := with_light_ st (of_Z 1) (update_interval_ st) in
  let st := with_calibration_ st (calibrating_ st)
              (replicate (length (calibration_data_ st)) zero) (rtc_ st) in
  let cal := mkCalibration
               (replicate (length (calibration_measurements_ cal)) zero) 0 (-20) in
  (with_calibration_ st true (calibration_data_ st) (rtc_ st), cal).

Section Calibrating.

Variable SHELLY_DIMMER_BUFFER_SIZE : Z.

(** [complete_calibration_step_]; [cur_brightness] is what
    [state_->current_values_as_brightness] reports.  [None] is a write
    outside [calibration_data_]. *)
Definition complete_calibration_step_ (st : ShellyDimmer) (cal : Calibration)
    (cur_brightness : f32) : option (ShellyDimmer * Calibration) :=
  let result := fold_left add (calibration_measurements_ cal) zero in
  let result :=
    div result (of_Z (Z.of_nat (length (calibration_measurements_ cal)))) in
  let step := calibration_step_ cal in
  if (0 <=? step) && (step <? Z.of_nat (length (calibration_data_ st))) then
    let st := with_calibration_ st (calibrating_ st)
                (<[Z.to_nat step := result]> (calibration_data_ st)) (rtc_ st) in
    let cal := mkCalibration
                 (replicate (length (calibration_measurements_ cal)) zero)
                 0 (step + 1) in
    if u32 (calibration_step_ cal) >=? Z.of_nat (length (calibration_data_ st)) then
      Some (complete_calibration_ st, cal)
    else
      Some (with_light_ st (sub cur_brightness CALIBRATION_STEP)
                        (update_interval_ st), cal)
  else None.

(** [perform_calibration_measurement_].  [None] is undefined behaviour: the
    power sensor pointer is dereferenced without a null check, and the
    measurement is written at [calibration_measurement_cnt_] unchecked. *)
Definition perform_calibration_measurement_ (st : ShellyDimmer)
    (cal : Calibration) (cur_brightness : f32)
    : option (ShellyDimmer * Calibration) :=
  match power_sensor_ st with
  | None => None
  | Some sensor =>
      if negb (has_state sensor) then Some (st, cal)
      else if calibration_step_ cal <? 0 then
        Some (st, mkCalibration (calibration_measurements_ cal)
                                (calibration_measurement_cnt_ cal)
                                (calibration_step_ cal + 1))
      else
        let cnt := calibration_measurement_cnt_ cal in
        if (0 <=? cnt) && (cnt <? Z.of_nat (length (calibration_measurements_ cal)))
        then
          let cal := mkCalibration
                       (<[Z.to_nat cnt := state sensor]> (calibration_measurements_ cal))
                       (cnt + 1) (calibration_step_ cal) in
          if u32 (calibration_measurement_cnt_ cal)
             >=? Z.of_nat (length (calibration_measurements_ cal))
          then complete_calibration_step_ st cal cur_brightness
          else Some (st, cal)
        else None
  end.

(** [update]: poll, then advance the calibration if one is running. *)
Definition update (fuel : nat) (st : ShellyDimmer) (cal : Calibration)
    (w : World) (cur_brightness : f32)
    : Outcome (ShellyDimmer * Calibration * World) :=
  match send_command_ SHELLY_DIMMER_BUFFER_SIZE fuel st w
                      SHELLY_DIMMER_PROTO_CMD_POLL None 0 with
  | None => OutOfFuel
  | Some (_, st, w) =>
      if calibrating_ st then
        match perform_calibration_measurement_ st cal cur_brightness with
        | Some (st, cal) => Returns (st, cal, w)
        | None => Undefined
        end
      else Returns (st, cal, w)
  end.

(** [send_settings_]; [light] is [None] when [state_] is null and otherwise
    what [state_->current_values_as_brightness] reports. *)
Definition send_settings_ (fuel : nat) (cfg : Settings) (st : ShellyDimmer)
    (w : World) (light : option f32) : Outcome (ShellyDimmer * World) :=
  let fade_rate := Z.min 100 (fade_rate_ cfg) in
  let brightness := match light with Some b => b | None => zero end in
  match convert_brightness_ st brightness with
  | None => Undefined
  | Some brightness_int =>
      let payload :=
        [u8 (Z.land brightness_int 0xff); u8 (Z.shiftr brightness_int 8);
         (if leading_edge_ cfg then 0x01 else 0x02);
         0x00;
         u8 (Z.land fade_rate 0xff); u8 (Z.shiftr fade_rate 8);
         u8 (Z.land (warmup_brightness_ cfg) 0xff);
         u8 (Z.shiftr (warmup_brightness_ cfg) 8);
         u8 (Z.land (warmup_time_ cfg) 0xff);
         u8 (Z.shiftr (warmup_time_ cfg) 8)] in
      match send_command_ SHELLY_DIMMER_BUFFER_SIZE fuel st w
                          SHELLY_DIMMER_PROTO_CMD_SETTINGS (Some payload)
                          SHELLY_DIMMER_PROTO_CMD_SETTINGS_SIZE with
      | None => OutOfFuel
      | Some (_, st, w) =>
          match send_brightness_ SHELLY_DIMMER_BUFFER_SIZE fuel st w brightness_int with
          | None => OutOfFuel
          | Some (st, w) => Returns (st, w)
          end
      end
  end.

End Calibrating.

(** [clear_calibration]: the table is zeroed and saved. *)
Definition clear_calibration (st : ShellyDimmer) : ShellyDimmer :=
  let data := replicate (length (calibration_data_ st)) zero in
  with_calibration_ st (calibrating_ st) data (Some data).

(** [is_running_configured_version]; the configured version is a pair of
    macros that the build defines. *)
Definition is_running_configured_version
    (USE_SHD_FIRMWARE_MAJOR_VERSION USE_SHD_FIRMWARE_MINOR_VERSION : Z)
    (st : ShellyDimmer) : bool :=
  (version_major_ st =? USE_SHD_FIRMWARE_MAJOR_VERSION)
  && (version_minor_ st =? USE_SHD_FIRMWARE_MINOR_VERSION).

(** ** Reset and start-up *)

(** The serial configurations that the reset functions select through the
    Arduino [Serial] object. *)
Inductive SerialConfig : Type := SERIAL_8N1 | SERIAL_8E1.

(** The board around the UART: the levels of the two pins that go to the
    dimmer MCU and the configuration of the serial port. *)
Record Board : Type := mkBoard {
  pin_boot0_ : bool;
  pin_nrst_ : bool;
  serial_ : SerialConfig
}.

(** [delay(ms)]: one millisecond at a time. *)
Definition delay (ms : nat) (w : World) : World := Nat.iter ms delay_1 w.

(** [reset_(boot0)]; the loop [while (available()) read();] empties the
    receive side. *)
Definition reset_ (boot0 : bool) (w : World) (b : Board) : World * Board :=
  let b := mkBoard boot0 (pin_nrst_ b) (serial_ b) in
  let b := mkBoard (pin_boot0_ b) false (serial_ b) in
  let w := delay 50 w in
  let w := mkWorld (millis w) [] (line w) (tx w) (flushed w) in
  let b := mkBoard (pin_boot0_ b) true (serial_ b) in
  let w := delay 50 w in
  (w, b).

(** [reset_normal_boot_] and [reset_dfu_boot_] of an Arduino build
    ([USE_ESP_IDF] not defined): [Serial.end()] and
    [Serial.begin(115200, ...)] select the configuration.  What they do to
    bytes that are waiting plays no part: [reset_] discards them. *)
Definition reset_normal_boot_ (w : World) (b : Board) : World * Board :=
  let b := mkBoard (pin_boot0_ b) (pin_nrst_ b) SERIAL_8N1 in
  let w := flush w in
  reset_ false w b.

Definition reset_dfu_boot_ (w : World) (b : Board) : World * Board :=
  let b := mkBoard (pin_boot0_ b) (pin_nrst_ b) SERIAL_8E1 in
  let w := flush w in
  reset_ true w b.

Definition with_ready_ (st : ShellyDimmer) (v : bool) : ShellyDimmer :=
  mkShellyDimmer (seq_ st) (buffer_ st) (buffer_pos_ st) (brightness_ st)
    (min_brightness_ st) (max_brightness_ st) (version_major_ st)
    (version_minor_ st) v (calibrating_ st) (calibration_data_ st)
    (power_sensor_ st) (voltage_sensor_ st) (current_sensor_ st)
    (update_interval_ st) (update_interval_original_ st) (rtc_ st)
    (light_brightness_ st).

Section Startup.

Variable SHELLY_DIMMER_BUFFER_SIZE : Z.

(** [handle_firmware] of a build without a firmware image
    ([USE_SHD_FIRMWARE_DATA] not defined): a version that differs from the
    configured one is only logged. *)
Definition handle_firmware (fuel : nat) (st : ShellyDimmer) (w : World) (b : Board)
    : Outcome (ShellyDimmer * World * Board) :=
  let '(w, b) := reset_normal_boot_ w b in
  match send_command_ SHELLY_DIMMER_BUFFER_SIZE fuel st w
                      SHELLY_DIMMER_PROTO_CMD_VERSION None 0 with
  | Some (_, st, w) => Returns (st, w, b)
  | None => OutOfFuel
  end.

(** [setup] of such a build.  [light] is as for [send_settings_]; [stored]
    is the table that the preferences hold under the key of this light, if
    any: [rtc_] is bound to that entry and [rtc_.load] copies it into
    [calibration_data_]. *)
Definition setup (fuel : nat) (cfg : Settings) (st : ShellyDimmer) (w : World)
    (b : Board) (light : option f32) (stored : option (list f32))
    : Outcome (ShellyDimmer * World * Board) :=
  match handle_firmware fuel st w b with
  | Returns (st, w, b) =>
      match send_settings_ SHELLY_DIMMER_BUFFER_SIZE fuel cfg st w light with
      | Returns (st, w) =>
          match send_command_ SHELLY_DIMMER_BUFFER_SIZE fuel st w
                              SHELLY_DIMMER_PROTO_CMD_POLL None 0 with
          | Some (_, st, w) =>
              let data := replicate (length (calibration_data_ st)) zero in
              let data := match stored with Some table => table | None => data end in
              let st := with_calibration_ st (calibrating_ st) data stored in
              Returns (with_ready_ st true, w, b)
          | None => OutOfFuel
          end
      | Undefined => Undefined
      | OutOfFuel => OutOfFuel
      end
  | Undefined => Undefined
  | OutOfFuel => OutOfFuel
  end.

End Startup.

(** What the parser has checked of the bytes it holds: past position 0 the
    first byte is START, and once the position is that of the END byte the
    two bytes before it are the checksum of the bytes from SEQ through the
    payload, high byte first. *)
Definition parser_checked (st : ShellyDimmer) : Prop :=
  (0 < buffer_pos_ st -> aget (buffer_ st) 0 = SHELLY_DIMMER_PROTO_START_BYTE)
  /\ (buffer_pos_ st = 4 + aget (buffer_ st) 3 + 2 ->
      aget (buffer_ st) (buffer_pos_ st - 2) * 256
      + aget (buffer_ st) (buffer_pos_ st - 1)
      = shelly_dimmer_checksum (drop 1 (buffer_ st)) (3 + aget (buffer_ st) 3)).

(** The driver once the first [k] of the bytes [bytes] are in the receive
    buffer. *)
Definition holding (bytes : list Z) (st : ShellyDimmer) (k : nat) : ShellyDimmer :=
  with_buffer_pos_ (with_buffer_ st (take k bytes ++ drop k (buffer_ st)))
                   (Z.of_nat k).

(** ** What the protocol leaves alone *)

(** A sensor after some more states have been published to it: a null
    sensor stays null, an attached one keeps what it had. *)
Definition sensor_extends (s s' : option Sensor) : Prop :=
  match s, s' with
  | None, None => True
  | Some old, Some new => exists published, new = published ++ old
  | _, _ => False
  end.

(** [st'] differs from [st] at most in what talking to the dimmer can
    change: the sequence counter, the parser, the firmware version and what
    the sensors were told. *)
Definition protocol_only (st st' : ShellyDimmer) : Prop :=
  brightness_ st' = brightness_ st
  /\ min_brightness_ st' = min_brightness_ st
  /\ max_brightness_ st' = max_brightness_ st
  /\ ready_ st' = ready_ st
  /\ calibrating_ st' = calibrating_ st
  /\ calibration_data_ st' = calibration_data_ st
  /\ update_interval_ st' = update_interval_ st
  /\ update_interval_original_ st' = update_interval_original_ st
  /\ rtc_ st' = rtc_ st
  /\ light_brightness_ st' = light_brightness_ st
  /\ sensor_extends (power_sensor_ st) (power_sensor_ st')
  /\ sensor_extends (voltage_sensor_ st) (voltage_sensor_ st')
  /\ sensor_extends (current_sensor_ st) (current_sensor_ st').

(** What [handle_frame_] publishes for a raw POLL reading: the scaling
    factor over the raw value, and 0 for a raw value of 0. *)
Definition reading (scale : f32) (raw : Z) : f32 :=
  if raw >? 0 then div scale (of_Z raw) else zero.

(** The readings a sensor holds are non-negative finite floats, none above
    [scale]. *)
Definition bounded_readings (scale : f32) (s : option Sensor) : Prop :=
  match s with
  | Some readings =>
      Forall (fun x => nonneg_finite x = true /\ ulps x <= ulps scale) readings
  | None => True
  end.

Definition telemetry_ok (st : ShellyDimmer) : Prop :=
  bounded_readings POWER_SCALING_FACTOR (power_sensor_ st)
  /\ bounded_readings VOLTAGE_SCALING_FACTOR (voltage_sensor_ st)
  /\ bounded_readings CURRENT_SCALING_FACTOR (current_sensor_ st).

(** ** Specification vocabulary of the calibration run *)

(** The calibration part of successive [update]s.  Each input is the power
    the poll has just published and the brightness the light reports at
    that moment; [perform_calibration_measurement_] runs while the driver is
    calibrating. *)
Fixpoint calibration_ticks (st : ShellyDimmer) (cal : Calibration)
    (inputs : list (f32 * f32)) : option (ShellyDimmer * Calibration) :=
  match inputs with
  | [] => Some (st, cal)
  | (power, cur_brightness) :: rest =>
      let st := with_sensors_ st (publish_state (power_sensor_ st) power)
                              (voltage_sensor_ st) (current_sensor_ st) in
      if calibrating_ st then
        match perform_calibration_measurement_ st cal cur_brightness with
        | Some (st, cal) => calibration_ticks st cal rest
        | None => None
        end
      else calibration_ticks st cal rest
  end.

(** The mean that [complete_calibration_step_] computes: the measurements
    are added up from 0.0, first to last, and the sum is divided by their
    number. *)
Definition mean (measurements : list f32) : f32 :=
  div (fold_left add measurements zero) (of_Z (Z.of_nat (length measurements))).

(** The run is warming up, with [j] warm-up ticks to go; [orig] is the
    saved update interval, [n] and [m] are the sizes of the table and of
    the measurement array. *)
Definition warming (n m : nat) (orig : Z) (j : nat)
    (st : ShellyDimmer) (cal : Calibration) : Prop :=
  calibrating_ st = true
  /\ power_sensor_ st <> None
  /\ update_interval_original_ st = orig
  /\ calibration_data_ st = replicate n zero
  /\ calibration_step_ cal = - Z.of_nat j
  /\ calibration_measurement_cnt_ cal = 0
  /\ calibration_measurements_ cal = replicate m zero.

(** The run has completed the steps whose means are [means] and has taken
    the measurements [group] of the current step. *)
Definition measuring (n m : nat) (orig : Z) (means group : list f32)
    (st : ShellyDimmer) (cal : Calibration) : Prop :=
  calibrating_ st = true
  /\ power_sensor_ st <> None
  /\ update_interval_original_ st = orig
  /\ calibration_data_ st = means ++ replicate (n - length means) zero
  /\ calibration_step_ cal = Z.of_nat (length means)
  /\ calibration_measurement_cnt_ cal = Z.of_nat (length group)
  /\ calibration_measurements_ cal = group ++ replicate (m - length group) zero.

(** ** Concrete drivers and inputs used by the examples *)

(** A driver right after [setup()]: sequence number 0, an empty parser over
    a receive buffer of [size] bytes, the default brightness range, the three
    sensors attached and nothing published yet, no calibration. *)
Definition fresh_driver (size : nat) : ShellyDimmer :=
  {| seq_ := 0;
     buffer_ := replicate size 0;
     buffer_pos_ := 0;
     brightness_ := 0;
     min_brightness_ := 0;
     max_brightness_ := SHELLY_DIMMER_MAX_BRIGHTNESS;
     version_major_ := 0;
     version_minor_ := 0;
     ready_ := true;
     calibrating_ := false;
     calibration_data_ := replicate 20 zero;
     power_sensor_ := Some [];
     voltage_sensor_ := Some [];
     current_sensor_ := Some [];
     update_interval_ := 10000;
     update_interval_original_ := 0;
     rtc_ := None;
     light_brightness_ := zero |}.

(** A caller's frame array of the maximal frame size. *)
Definition blank_frame : list Z :=
  replicate (Z.to_nat SHELLY_DIMMER_PROTO_MAX_FRAME_SIZE) 0.

(** The POLL payload of the spec's decode scenario (17 bytes). *)
Definition poll_example_payload : list Z :=
  [0x01; 0x00; 0xE8; 0x03; 0x00; 0x00; 0x01; 0x00; 0x00; 0x00; 0x01; 0x00;
   0x00; 0x00; 0x01; 0x00; 0x00].

(** The decoded fields the spec's scenario lists for it. *)
Definition poll_example_claimed : PollData :=
  {| hw_version := 1; brightness := 1000; power_raw := 256;
     voltage_raw := 256; current_raw := 256; fade_rate := 0 |}.

(** The fields the little-endian decoding gives. *)
Definition poll_example_decoded : PollData :=
  {| hw_version := 1; brightness := 1000; power_raw := 65536;
     voltage_raw := 65536; current_raw := 65536; fade_rate := 0 |}.

(** A driver that has sent command number [seq] and whose receive buffer
    holds [frame]. *)
Definition driver_holding (seq : Z) (frame : list Z) : ShellyDimmer :=
  with_seq_ (with_buffer_ (fresh_driver 79)
                          (frame ++ drop (length frame) (replicate 79 0))) seq.

(** A POLL response with a payload of 16 bytes: the first 16 bytes of the
    payload above. *)
Definition poll_short_payload : list Z := take 16 poll_example_payload.

(** A well-formed SWITCH acknowledgement that carries sequence number 7. *)
Definition stale_reply : list Z :=
  frame_of 7 SHELLY_DIMMER_PROTO_CMD_SWITCH [0x01].

(** A world at time 0 with an idle UART on which [chunks] will arrive, one
    chunk per millisecond. *)
Definition world_receiving (chunks : list (list Z)) : World :=
  {| millis := 0; rx := []; line := chunks; tx := []; flushed := 0 |}.

(** The twenty per-step mean powers of the spec's calibration scenario,
    100, 95, ..., 5, in the order the steps measure them. *)
Definition example_means : list f32 :=
  map of_Z [100; 95; 90; 85; 80; 75; 70; 65; 60; 55;
            50; 45; 40; 35; 30; 25; 20; 15; 10; 5].

(** A driver at the end of the last calibration step of that scenario, and
    the same driver once [complete_calibration_] has run. *)
Definition measured_driver : ShellyDimmer :=
  with_calibration_ (fresh_driver 79) true example_means None.

Definition calibrated_driver : ShellyDimmer :=
  complete_calibration_ measured_driver.

(** [0.5f] *)
Definition half : f32 := div (of_Z 1) (of_Z 2).

(** ** More concrete inputs for the examples *)

(** A calibrating driver without a power sensor. *)
Definition sensorless_driver : ShellyDimmer :=
  with_sensors_ measured_driver None (Some []) (Some []).

(** A measurement array of two entries, before [start_calibration]. *)
Definition small_calibration : Calibration :=
  mkCalibration (replicate 2 zero) 7 3.

(** Twenty warm-up readings of 60 W at full brightness, then two readings
    for each of the twenty steps: 100 and 102, 95 and 97, ..., 5 and 7. *)
Definition example_warmup : list (f32 * f32) := replicate 20 (of_Z 60, one).

Definition example_groups : list (list (f32 * f32)) :=
  map (fun p => [(of_Z p, one); (of_Z (p + 2), one)])
      [100; 95; 90; 85; 80; 75; 70; 65; 60; 55;
       50; 45; 40; 35; 30; 25; 20; 15; 10; 5].

(** Trailing edge, a fade rate above the limit, warm-up at 10 % for 20 ms. *)
Definition example_settings : Settings :=
  {| leading_edge_ := false; fade_rate_ := 300;
     warmup_brightness_ := 100; warmup_time_ := 20 |}.

(** The board as [reset_dfu_boot_] leaves it, and a stored table. *)
Definition example_board : Board := mkBoard true true SERIAL_8E1.

Definition example_stored : list f32 := replicate 20 half.

(** ** Single precision: exact operations

    Rounding leaves a representable value alone.  The lemmas of this part
    establish that for the operations of the brightness path on integers:
    conversions, sums and differences of integers below 2^24, and products
    and quotients by 1.0. *)

Lemma iter_pos_nat {A} (f : A -> A) (p : positive) (x : A) :
  SpecFloat.iter_pos f p x = Nat.iter (Pos.to_nat p) f x.
Proof.
  revert x. induction p as [p IH | p IH |]; intros x; cbn [SpecFloat.iter_pos].
  - rewrite !IH, <- Nat.iter_add, <- Nat.iter_succ_r. f_equal. lia.
  - rewrite !IH, <- Nat.iter_add. f_equal. lia.
  - reflexivity.
Qed.

Lemma shr_1_double (n : Z) :
  0 < n ->
  shr_1 (Build_shr_record (2 * n) false false) = Build_shr_record n false false.
Proof. destruct n; try lia. reflexivity. Qed.

Lemma iter_shr_1_exact (k : nat) (n : Z) :
  0 < n ->
  Nat.iter k shr_1 (Build_shr_record (n * 2 ^ Z.of_nat k) false false)
  = Build_shr_record n false false.
Proof.
  intros Hn. induction k as [| k IH].
  { cbn [Nat.iter]. change (Z.of_nat 0) with 0. rewrite Z.pow_0_r, Z.mul_1_r. reflexivity. }
  rewrite Nat.iter_succ_r.
  replace (n * 2 ^ Z.of_nat (S k)) with (2 * (n * 2 ^ Z.of_nat k))
    by (rewrite Nat2Z.inj_succ, Z.pow_succ_r; lia).
  rewrite shr_1_double by lia. exact IH.
Qed.

Lemma digits2_pos_log2 (m : positive) :
  Zpos (digits2_pos m) = Z.log2 (Zpos m) + 1.
Proof.
  induction m as [m IH | m IH |]; cbn [digits2_pos]; try reflexivity.
  - rewrite Pos2Z.inj_succ, IH.
    change (Zpos m~1) with (2 * Zpos m + 1). rewrite Z.log2_succ_double; lia.
  - rewrite Pos2Z.inj_succ, IH.
    change (Zpos m~0) with (2 * Zpos m). rewrite Z.log2_double; lia.
Qed.

Lemma Zdigits2_shift (n k : Z) :
  0 < n -> 0 <= k -> Zdigits2 (n * 2 ^ k) = Zdigits2 n + k.
Proof.
  intros Hn Hk. assert (0 < n * 2 ^ k) by (apply Z.mul_pos_pos; lia).
  destruct n as [| n | n]; try lia.
  destruct (Zpos n * 2 ^ k) as [| m | m] eqn:E; try lia.
  cbn [Zdigits2]. rewrite !digits2_pos_log2, <- E, Z.log2_mul_pow2; lia.
Qed.

Lemma iter_xO_shift (m d : positive) :
  Zpos (Pos.iter xO m d) = Zpos m * 2 ^ Zpos d.
Proof.
  induction d as [| d IH] using Pos.peano_ind.
  - cbn [Pos.iter]. rewrite Z.pow_1_r. lia.
  - rewrite Pos.iter_succ, Pos2Z.inj_succ, Z.pow_succ_r by lia.
    change (Zpos (Pos.iter xO m d)~0) with (2 * Zpos (Pos.iter xO m d)).
    rewrite IH. lia.
Qed.

Lemma fexp_normal (e : Z) : -125 <= e -> fexp prec emax e = e - 24.
Proof. unfold fexp, emin, prec, emax. lia. Qed.

Lemma round_finish_bounded (s : bool) (m : positive) (e : Z) :
  bounded prec emax m e = true ->
  (let '(mrs, e') := shr_fexp prec emax (Zpos m) e loc_Exact in
   match shr_m mrs with
   | Z0 => S754_zero s
   | Zpos m' => if e' <=? emax - prec then S754_finite s m' e' else S754_infinity s
   | Zneg _ => S754_nan
   end) = S754_finite s m e.
Proof.
  unfold bounded, canonical_mantissa. intros H.
  apply andb_prop in H as [Hc He]. apply Z.eqb_eq in Hc.
  unfold shr_fexp. cbn [Zdigits2 shr_record_of_loc].
  rewrite Hc, Z.sub_diag. cbn [shr shr_m]. rewrite He. reflexivity.
Qed.

(** A canonical mantissa at its exponent goes through the rounding
    unchanged. *)
Lemma binary_round_aux_bounded (s : bool) (m : positive) (e : Z) :
  bounded prec emax m e = true ->
  binary_round_aux prec emax s (Zpos m) e loc_Exact = S754_finite s m e.
Proof.
  intros H. pose proof H as H'. unfold bounded, canonical_mantissa in H'.
  apply andb_prop in H' as [Hc He]. apply Z.eqb_eq in Hc.
  unfold binary_round_aux. unfold shr_fexp at 1. cbn [Zdigits2 shr_record_of_loc].
  rewrite Hc, Z.sub_diag. cbn [shr shr_m loc_of_shr_record round_nearest_even].
  apply round_finish_bounded. exact H.
Qed.

(** ... and so does the same value written with [j] more trailing zero
    bits at an exponent [j] lower. *)
Lemma binary_round_aux_scaled (s : bool) (m mz : positive) (e j : Z) :
  bounded prec emax m e = true ->
  0 <= j ->
  Zpos mz = Zpos m * 2 ^ j ->
  binary_round_aux prec emax s (Zpos mz) (e - j) loc_Exact = S754_finite s m e.
Proof.
  intros Hb Hj Hmz.
  destruct (Z.eq_dec j 0) as [-> | Hj0].
  { rewrite Z.pow_0_r, Z.mul_1_r in Hmz. injection Hmz as ->.
    rewrite Z.sub_0_r. apply binary_round_aux_bounded. exact Hb. }
  pose proof Hb as Hb'. unfold bounded, canonical_mantissa in Hb'.
  apply andb_prop in Hb' as [Hc He]. apply Z.eqb_eq in Hc.
  unfold binary_round_aux at 1. unfold shr_fexp at 1.
  rewrite Hmz, Zdigits2_shift by lia. cbn [Zdigits2].
  replace (Zpos (digits2_pos m) + j + (e - j)) with (Zpos (digits2_pos m) + e) by lia.
  rewrite Hc. replace (e - (e - j)) with j by lia.
  destruct j as [| p | p]; try lia.
  cbn [shr shr_record_of_loc]. rewrite iter_pos_nat.
  replace (Zpos m * 2 ^ Zpos p) with (Zpos m * 2 ^ Z.of_nat (Pos.to_nat p))
    by (rewrite positive_nat_Z; reflexivity).
  rewrite iter_shr_1_exact by lia.
  cbn [shr_m loc_of_shr_record round_nearest_even].
  replace (e - Zpos p + Zpos p) with e by lia.
  apply round_finish_bounded. exact Hb.
Qed.



Lemma canon_m_value (n : positive) :
  Zpos (digits2_pos n) <= 24 ->
  Zpos (canon_m n) = Zpos n * 2 ^ (24 - Zpos (digits2_pos n)).
Proof.
  intros Hd. unfold canon_m. rewrite Z2Pos.id; [reflexivity |].
  apply Z.mul_pos_pos; [lia | apply Z.pow_pos_nonneg; lia].
Qed.

Lemma canon_bounded (n : positive) :
  Zpos (digits2_pos n) <= 24 ->
  bounded prec emax (canon_m n) (canon_e n) = true.
Proof.
  intros Hd. unfold bounded, canonical_mantissa.
  assert (Hdig : Zpos (digits2_pos (canon_m n)) = 24).
  { change (Zpos (digits2_pos (canon_m n))) with (Zdigits2 (Zpos (canon_m n))).
    rewrite canon_m_value, Zdigits2_shift by lia. cbn [Zdigits2]. lia. }
  rewrite Hdig. unfold canon_e. rewrite fexp_normal by lia.
  apply andb_true_intro. split; [apply Z.eqb_eq | apply Z.leb_le]; unfold emax, prec; lia.
Qed.

(** An integer of at most 24 bits, written with [k] trailing zero bits at
    exponent [-k], rounds to itself: mantissa normalised to 24 bits. *)
Lemma binary_round_int (s : bool) (n mz : positive) (k : Z) :
  0 <= k ->
  Zpos (digits2_pos n) <= 24 ->
  Zpos mz = Zpos n * 2 ^ k ->
  binary_round prec emax s mz (- k) = S754_finite s (canon_m n) (canon_e n).
Proof.
  intros Hk Hd Hmz. unfold binary_round.
  assert (Hdz : Zpos (digits2_pos mz) = Zpos (digits2_pos n) + k).
  { change (Zpos (digits2_pos mz)) with (Zdigits2 (Zpos mz)).
    rewrite Hmz, Zdigits2_shift by lia. reflexivity. }
  rewrite Hdz.
  replace (Zpos (digits2_pos n) + k + - k) with (Zpos (digits2_pos n)) by lia.
  rewrite fexp_normal by lia.
  pose proof (canon_bounded n Hd) as Hb. pose proof (canon_m_value n Hd) as Hv.
  unfold shl_align.
  destruct (Zpos (digits2_pos n) - 24 - - k) as [| p | p] eqn:Hsh.
  - replace (- k) with (canon_e n - 0) by (unfold canon_e; lia).
    apply binary_round_aux_scaled; [exact Hb | lia |].
    rewrite Hv, Hmz, Z.pow_0_r, Z.mul_1_r. do 2 f_equal. lia.
  - replace (- k) with (canon_e n - Zpos p) by (unfold canon_e; lia).
    apply binary_round_aux_scaled; [exact Hb | lia |].
    rewrite Hv, Hmz, <- Z.mul_assoc, <- Z.pow_add_r by lia. do 2 f_equal. lia.
  - assert (Hm : Pos.iter xO mz p = canon_m n).
    { apply Pos2Z.inj. rewrite iter_xO_shift, Hv, Hmz, <- Z.mul_assoc, <- Z.pow_add_r by lia.
      do 2 f_equal. lia. }
    rewrite Hm. apply binary_round_aux_bounded. exact Hb.
Qed.



Lemma of_Z_pos (n : positive) :
  Zpos (digits2_pos n) <= 24 ->
  of_Z (Zpos n) = S754_finite false (canon_m n) (canon_e n).
Proof.
  intros Hd. unfold of_Z, binary_normalize. change 0 with (- 0).
  apply binary_round_int; [lia | exact Hd | rewrite Z.pow_0_r; lia].
Qed.

Lemma of_Z_neg (n : positive) :
  Zpos (digits2_pos n) <= 24 ->
  of_Z (Zneg n) = S754_finite true (canon_m n) (canon_e n).
Proof.
  intros Hd. unfold of_Z, binary_normalize. change 0 with (- 0).
  apply binary_round_int; [lia | exact Hd | rewrite Z.pow_0_r; lia].
Qed.

Lemma digits_small (n : positive) (k : Z) :
  0 <= k -> Zpos n < 2 ^ k -> Zpos (digits2_pos n) <= k.
Proof.
  intros Hk Hn. rewrite digits2_pos_log2.
  assert (Z.log2 (Zpos n) < k) by (apply Z.log2_lt_pow2; lia). lia.
Qed.


Lemma of_Z_cases (z : Z) :
  small z ->
  z = 0 /\ of_Z z = S754_zero false
  \/ exists n, Z.abs z = Zpos n /\ Zpos (digits2_pos n) <= 24
               /\ of_Z z = S754_finite (z <? 0) (canon_m n) (canon_e n).
Proof.
  unfold small. intros Hz. destruct z as [| n | n].
  - left. split; reflexivity.
  - right. exists n. assert (Hd := digits_small n 24 ltac:(lia) Hz).
    split; [reflexivity |]. split; [exact Hd | apply of_Z_pos; exact Hd].
  - right. exists n. assert (Hd := digits_small n 24 ltac:(lia) Hz).
    split; [reflexivity |]. split; [exact Hd | apply of_Z_neg; exact Hd].
Qed.

Lemma mul_one_l (s : bool) (m : positive) (e : Z) :
  bounded prec emax m e = true ->
  SFmul prec emax one (S754_finite s m e) = S754_finite s m e.
Proof.
  intros Hb. change one with (S754_finite false 8388608 (-23)).
  cbn [SFmul xorb].
  replace (-23 + e) with (e - 23) by lia.
  apply binary_round_aux_scaled; [exact Hb | lia |].
  rewrite Pos.mul_comm, Pos2Z.inj_mul. reflexivity.
Qed.

Lemma div_one_r (s : bool) (m : positive) (e : Z) :
  bounded prec emax m e = true ->
  Zpos (digits2_pos m) = 24 ->
  -148 <= e ->
  SFdiv prec emax (S754_finite s m e) one = S754_finite s m e.
Proof.
  intros Hb Hd He. change one with (S754_finite false 8388608 (-23)).
  cbn [SFdiv]. unfold SFdiv_core_binary. cbn [Zdigits2]. rewrite Hd.
  change (Zpos (digits2_pos 8388608)) with 24.
  replace (24 + e - (24 + -23)) with (e + 23) by lia.
  replace (fexp prec emax (e + 23)) with (e - 1)
    by (unfold fexp, emin, prec, emax; lia).
  rewrite Z.min_l by lia.
  replace (e - -23 - (e - 1)) with 24 by lia.
  rewrite Z.shiftl_mul_pow2 by lia.
  assert (Hq : Z.div_eucl (Zpos m * 2 ^ 24) 8388608 = (2 * Zpos m, 0)).
  { pose proof (Z.div_eucl_eq (Zpos m * 2 ^ 24) 8388608 ltac:(lia)) as Heq.
    pose proof (Z.mod_pos_bound (Zpos m * 2 ^ 24) 8388608 ltac:(lia)) as Hr.
    unfold Z.modulo in Hr.
    destruct (Z.div_eucl (Zpos m * 2 ^ 24) 8388608) as [q r].
    change (2 ^ 24) with 16777216 in Heq. f_equal; lia. }
  rewrite Hq. cbn [xorb]. rewrite xorb_false_r.
  change (new_location 8388608 0) with loc_Exact.
  change (2 * Zpos m) with (Zpos m~0).
  apply binary_round_aux_scaled; [exact Hb | lia |].
  rewrite Z.pow_1_r. lia.
Qed.


Lemma shl_align_value (m : positive) (e ez : Z) :
  ez <= e -> Zpos (fst (shl_align m e ez)) = Zpos m * 2 ^ (e - ez).
Proof.
  intros H. unfold shl_align. destruct (ez - e) as [| p | p] eqn:E; cbn [fst]; try lia.
  - replace (e - ez) with 0 by lia. rewrite Z.pow_0_r. lia.
  - rewrite iter_xO_shift. do 2 f_equal. lia.
Qed.

Lemma canon_aligned (n : positive) (ez : Z) :
  Zpos (digits2_pos n) <= 24 -> ez <= canon_e n ->
  Zpos (fst (shl_align (canon_m n) (canon_e n) ez)) = Zpos n * 2 ^ (- ez).
Proof.
  intros Hd Hez. rewrite shl_align_value, canon_m_value by assumption.
  unfold canon_e in *. rewrite <- Z.mul_assoc, <- Z.pow_add_r by lia.
  do 2 f_equal. lia.
Qed.

Lemma cond_Zopp_abs (z : Z) : cond_Zopp (z <? 0) (Z.abs z) = z.
Proof. destruct z; reflexivity. Qed.

Lemma binary_normalize_int (z k : Z) :
  small z -> 0 <= k ->
  binary_normalize prec emax (z * 2 ^ k) (- k) false = of_Z z.
Proof.
  intros Hz Hk. assert (Hp : 0 < 2 ^ k) by (apply Z.pow_pos_nonneg; lia).
  unfold small in Hz. destruct z as [| n | n].
  - reflexivity.
  - assert (Hd := digits_small n 24 ltac:(lia) Hz).
    rewrite of_Z_pos by exact Hd. unfold binary_normalize.
    destruct (Zpos n * 2 ^ k) as [| mz | mz] eqn:E; try lia.
    apply binary_round_int; [exact Hk | exact Hd | symmetry; exact E].
  - assert (Hd := digits_small n 24 ltac:(lia) Hz).
    rewrite of_Z_neg by exact Hd. unfold binary_normalize.
    destruct (Zneg n * 2 ^ k) as [| mz | mz] eqn:E; try lia.
    apply binary_round_int; [exact Hk | exact Hd | lia].
Qed.

(** Sums and differences of small integers are exact. *)
Lemma add_of_Z (a b : Z) :
  small a -> small b -> small (a + b) ->
  SFadd prec emax (of_Z a) (of_Z b) = of_Z (a + b).
Proof.
  intros Ha Hb Hab.
  destruct (of_Z_cases a Ha) as [[-> Ea] | (na & Hna & Hda & Ea)];
    destruct (of_Z_cases b Hb) as [[-> Eb] | (nb & Hnb & Hdb & Eb)].
  - reflexivity.
  - rewrite Z.add_0_l, Ea, Eb. reflexivity.
  - rewrite Z.add_0_r, Ea, Eb. reflexivity.
  - rewrite Ea, Eb. cbn [SFadd].
    set (ez := Z.min (canon_e na) (canon_e nb)).
    assert (Hez : ez <= 0) by (unfold ez, canon_e; lia).
    rewrite !canon_aligned by (assumption || unfold ez; lia).
    rewrite <- Hna, <- Hnb.
    replace (cond_Zopp (a <? 0) (Z.abs a * 2 ^ (- ez))) with (a * 2 ^ (- ez))
      by (rewrite <- (cond_Zopp_abs a) at 1; destruct (a <? 0); cbn [cond_Zopp]; lia).
    replace (cond_Zopp (b <? 0) (Z.abs b * 2 ^ (- ez))) with (b * 2 ^ (- ez))
      by (rewrite <- (cond_Zopp_abs b) at 1; destruct (b <? 0); cbn [cond_Zopp]; lia).
    rewrite <- Z.mul_add_distr_r.
    replace ez with (- - ez) at 2 by lia.
    apply binary_normalize_int; [exact Hab | lia].
Qed.

Lemma sub_of_Z (a b : Z) :
  small a -> small b -> small (a - b) ->
  SFsub prec emax (of_Z a) (of_Z b) = of_Z (a - b).
Proof.
  intros Ha Hb Hab.
  destruct (of_Z_cases a Ha) as [[-> Ea] | (na & Hna & Hda & Ea)];
    destruct (of_Z_cases b Hb) as [[-> Eb] | (nb & Hnb & Hdb & Eb)].
  - reflexivity.
  - rewrite Ea, Eb. cbn [SFsub]. cbn [Z.sub Z.add] in *.
    destruct b as [| pb | pb]; cbn [Z.abs Z.ltb Z.compare negb Z.opp] in *.
    + lia.
    + injection Hnb as <-. apply eq_sym, of_Z_neg. exact Hdb.
    + injection Hnb as <-. apply eq_sym, of_Z_pos. exact Hdb.
  - rewrite Z.sub_0_r, Ea, Eb. reflexivity.
  - rewrite Ea, Eb. cbn [SFsub].
    set (ez := Z.min (canon_e na) (canon_e nb)).
    assert (Hez : ez <= 0) by (unfold ez, canon_e; lia).
    rewrite !canon_aligned by (assumption || unfold ez; lia).
    rewrite <- Hna, <- Hnb.
    replace (cond_Zopp (a <? 0) (Z.abs a * 2 ^ (- ez))) with (a * 2 ^ (- ez))
      by (rewrite <- (cond_Zopp_abs a) at 1; destruct (a <? 0); cbn [cond_Zopp]; lia).
    replace (cond_Zopp (b <? 0) (Z.abs b * 2 ^ (- ez))) with (b * 2 ^ (- ez))
      by (rewrite <- (cond_Zopp_abs b) at 1; destruct (b <? 0); cbn [cond_Zopp]; lia).
    rewrite <- Z.mul_sub_distr_r.
    replace ez with (- - ez) at 2 by lia.
    apply binary_normalize_int; [exact Hab | lia].
Qed.


(** ** Single precision: rounding

    [binary_round_aux] is characterised as a function [rnd] of the real it
    is given, through integer codes of the shift records; [rnd] is monotone,
    and subtraction and division of non-negative finite floats are [rnd] of
    the exact difference and quotient. *)




Lemma record_of_code (mrs : shr_record) : record_of (code_of mrs) = mrs.
Proof.
  destruct mrs as [m r s]. unfold record_of, code_of. cbn [shr_m shr_r shr_s].
  f_equal.
  - destruct r, s; cbn [Z.b2z]; Z.div_mod_to_equations; lia.
  - replace ((4 * m + 2 * Z.b2z r + Z.b2z s) / 2) with (2 * m + Z.b2z r)
      by (destruct r, s; cbn [Z.b2z]; Z.div_mod_to_equations; lia).
    rewrite Z.add_comm, Z.odd_add_mul_2. destruct r; reflexivity.
  - replace (4 * m + 2 * Z.b2z r + Z.b2z s) with (Z.b2z s + 2 * (2 * m + Z.b2z r)) by lia.
    rewrite Z.odd_add_mul_2. destruct s; reflexivity.
Qed.

Lemma code_of_record (c : Z) : code_of (record_of c) = c.
Proof.
  unfold record_of, code_of. cbn [shr_m shr_r shr_s].
  rewrite <- !Z.bit0_odd, !Z.bit0_mod.
  Z.div_mod_to_equations. lia.
Qed.

Lemma code_of_loc (m : Z) (l : location) :
  code_of (shr_record_of_loc m l)
  = 4 * m + match l with
            | loc_Exact => 0
            | loc_Inexact Lt => 1
            | loc_Inexact Eq => 2
            | loc_Inexact Gt => 3
            end.
Proof. destruct l as [| []]; unfold code_of; cbn; lia. Qed.

(** One shift of a record halves the value its code stands for. *)
Lemma shr_1_code (mrs : shr_record) :
  0 <= shr_m mrs ->
  code_of (shr_1 mrs) = sticky (code_of mrs) 4 /\ 0 <= shr_m (shr_1 mrs).
Proof.
  destruct mrs as [m r s]. cbn [shr_m]. intros Hm. unfold sticky, code_of.
  destruct m as [| [p | p |] |]; try lia; destruct r, s;
    cbn [shr_1 shr_m shr_r shr_s orb Z.b2z]; split; try lia.
  all: match goal with
       | |- context [(?a) mod 4 =? 0] =>
           destruct (Z.eqb_spec (a mod 4) 0); Z.div_mod_to_equations; lia
       end.
Qed.

Lemma sticky_double (X B : Z) :
  0 < B -> sticky (sticky X B) 4 = sticky X (2 * B).
Proof.
  intros HB. unfold sticky.
  pose proof (Z.div_mod X B ltac:(lia)) as HX.
  pose proof (Z.mod_pos_bound X B HB) as Hr.
  set (F := X / B) in *. set (r := X mod B) in *.
  pose proof (Z.div_mod F 2 ltac:(lia)) as HF.
  pose proof (Z.mod_pos_bound F 2 ltac:(lia)) as Hb.
  set (a := F / 2) in *. set (b := F mod 2) in *.
  assert (Hq : X / (2 * B) = a).
  { symmetry. apply (Z.div_unique_pos X (2 * B) a (B * b + r)); nia. }
  assert (Hm : X mod (2 * B) = B * b + r).
  { symmetry. apply (Z.mod_unique_pos X (2 * B) a (B * b + r)); nia. }
  rewrite Hq, Hm.
  destruct (Z.eqb_spec r 0) as [Hr0 | Hr0].
  - replace ((2 * F + 0) / 4) with a by (Z.div_mod_to_equations; lia).
    replace ((2 * F + 0) mod 4) with (2 * b) by (Z.div_mod_to_equations; lia).
    destruct (Z.eqb_spec (2 * b) 0); destruct (Z.eqb_spec (B * b + r) 0); nia.
  - replace ((2 * F + 1) / 4) with a by (Z.div_mod_to_equations; lia).
    replace ((2 * F + 1) mod 4) with (2 * b + 1) by (Z.div_mod_to_equations; lia).
    destruct (Z.eqb_spec (2 * b + 1) 0); destruct (Z.eqb_spec (B * b + r) 0); nia.
Qed.

Lemma sticky_iter (k : nat) (X B : Z) :
  0 < B ->
  Nat.iter k (fun c => sticky c 4) (sticky X B) = sticky X (B * 2 ^ Z.of_nat k).
Proof.
  intros HB. induction k as [| k IH].
  - cbn [Nat.iter]. change (Z.of_nat 0) with 0. rewrite Z.pow_0_r, Z.mul_1_r. reflexivity.
  - rewrite Nat.iter_succ, IH, sticky_double
      by (apply Z.mul_pos_pos; [lia | apply Z.pow_pos_nonneg; lia]).
    f_equal. rewrite Nat2Z.inj_succ, Z.pow_succ_r by lia. lia.
Qed.

Lemma sticky_2 (c : Z) : sticky c 2 = c.
Proof.
  unfold sticky. destruct (Z.eqb_spec (c mod 2) 0); Z.div_mod_to_equations; lia.
Qed.

Lemma sticky_scale (X B j : Z) :
  0 < B -> 0 < j -> sticky (X * j) (B * j) = sticky X B.
Proof.
  intros HB Hj. unfold sticky.
  rewrite Z.div_mul_cancel_r, Z.mul_mod_distr_r by lia.
  destruct (Z.eqb_spec (X mod B * j) 0); destruct (Z.eqb_spec (X mod B) 0); nia.
Qed.

Lemma sticky_mono (X1 B1 X2 B2 : Z) :
  0 < B1 -> 0 < B2 -> X1 * B2 <= X2 * B1 -> sticky X1 B1 <= sticky X2 B2.
Proof.
  intros H1 H2 Hle. unfold sticky.
  pose proof (Z.div_mod X1 B1 ltac:(lia)) as E1.
  pose proof (Z.mod_pos_bound X1 B1 H1) as R1.
  pose proof (Z.div_mod X2 B2 ltac:(lia)) as E2.
  pose proof (Z.mod_pos_bound X2 B2 H2) as R2.
  set (F1 := X1 / B1) in *. set (r1 := X1 mod B1) in *.
  set (F2 := X2 / B2) in *. set (r2 := X2 mod B2) in *.
  assert (HF : F1 <= F2).
  { destruct (Z.le_gt_cases F1 F2) as [H | H]; [exact H | exfalso].
    assert (F2 + 1 <= F1) by lia.
    assert (B1 * B2 * (F2 + 1) <= B1 * B2 * F1) by (apply Z.mul_le_mono_nonneg_l; nia).
    nia. }
  destruct (Z.eqb_spec r1 0); destruct (Z.eqb_spec r2 0); try lia.
  destruct (Z.eq_dec F1 F2) as [E | E]; [| lia]. exfalso. nia.
Qed.

Lemma sticky_nonneg (X B : Z) : 0 <= X -> 0 < B -> 0 <= sticky X B.
Proof.
  intros HX HB. unfold sticky. pose proof (Z.div_pos X B HX HB).
  destruct (X mod B =? 0); lia.
Qed.

Lemma sticky_div4 (X B : Z) : 0 < B -> sticky X B / 4 = X / (2 * B).
Proof.
  intros HB. replace (2 * B) with (B * 2) by lia.
  rewrite <- (Z.div_div X B 2) by lia. unfold sticky.
  destruct (X mod B =? 0); Z.div_mod_to_equations; lia.
Qed.

(** The codes of iterated shifts. *)
Lemma iter_shr_1_code (k : nat) (mrs : shr_record) :
  0 <= shr_m mrs ->
  Nat.iter k shr_1 mrs
  = record_of (sticky (code_of mrs) (2 * 2 ^ Z.of_nat k)).
Proof.
  intros Hm.
  assert (H : code_of (Nat.iter k shr_1 mrs)
              = Nat.iter k (fun c => sticky c 4) (code_of mrs)
              /\ 0 <= shr_m (Nat.iter k shr_1 mrs)).
  { induction k as [| k [IHc IHm]]; [split; [reflexivity | exact Hm] |].
    rewrite !Nat.iter_succ. destruct (shr_1_code _ IHm) as [Hc Hm']. rewrite Hc, IHc.
    split; [reflexivity | exact Hm']. }
  destruct H as [Hc _].
  rewrite <- (record_of_code (Nat.iter k shr_1 mrs)), Hc.
  rewrite <- (sticky_2 (code_of mrs)) at 1. rewrite sticky_iter by lia. reflexivity.
Qed.

(** *** Number of bits *)

Lemma Zdigits2_nonneg (x : Z) : 0 <= Zdigits2 x.
Proof. destruct x; cbn [Zdigits2]; lia. Qed.

Lemma Zdigits2_bounds (x : Z) :
  0 < x -> 2 ^ (Zdigits2 x - 1) <= x < 2 ^ Zdigits2 x.
Proof.
  intros Hx. destruct x as [| p | p]; try lia. cbn [Zdigits2].
  rewrite digits2_pos_log2. pose proof (Z.log2_spec (Zpos p) ltac:(lia)) as H.
  replace (Z.log2 (Zpos p) + 1 - 1) with (Z.log2 (Zpos p)) by lia.
  replace (Z.log2 (Zpos p) + 1) with (Z.succ (Z.log2 (Zpos p))) by lia. exact H.
Qed.

Lemma Zdigits2_le (x k : Z) : 0 <= x < 2 ^ k -> 0 <= k -> Zdigits2 x <= k.
Proof.
  intros Hx Hk. destruct (Z.eq_dec x 0) as [-> | Hne]; [cbn; lia |].
  pose proof (Zdigits2_bounds x ltac:(lia)) as [Hlo _].
  destruct (Z.le_gt_cases (Zdigits2 x) k) as [H | H]; [exact H | exfalso].
  assert (2 ^ k <= 2 ^ (Zdigits2 x - 1)) by (apply Z.pow_le_mono_r; lia). lia.
Qed.

Lemma Zdigits2_ge (x k : Z) : 2 ^ (k - 1) <= x -> 1 <= k -> k <= Zdigits2 x.
Proof.
  intros Hx Hk. assert (0 < 2 ^ (k - 1)) by (apply Z.pow_pos_nonneg; lia).
  pose proof (Zdigits2_bounds x ltac:(lia)) as [_ Hhi].
  destruct (Z.le_gt_cases k (Zdigits2 x)) as [H' | H']; [exact H' | exfalso].
  assert (2 ^ Zdigits2 x <= 2 ^ (k - 1))
    by (apply Z.pow_le_mono_r; [lia | pose proof (Zdigits2_nonneg x); lia]).
  lia.
Qed.

Lemma Zdigits2_eq (x k : Z) : 2 ^ (k - 1) <= x < 2 ^ k -> 1 <= k -> Zdigits2 x = k.
Proof.
  intros Hx Hk. assert (0 < 2 ^ (k - 1)) by (apply Z.pow_pos_nonneg; lia).
  pose proof (Zdigits2_le x k ltac:(lia) ltac:(lia)).
  pose proof (Zdigits2_ge x k ltac:(lia) Hk). lia.
Qed.

(** The bits that a right shift by [n] leaves. *)
Lemma shifted_upper (m n : Z) :
  0 <= m -> 0 <= n -> m / 2 ^ n < 2 ^ Z.max (Zdigits2 m - n) 0.
Proof.
  intros Hm Hn. assert (Hp : 0 < 2 ^ n) by (apply Z.pow_pos_nonneg; lia).
  destruct (Z.eq_dec m 0) as [-> | Hne].
  { rewrite Z.div_0_l by lia. apply Z.pow_pos_nonneg; lia. }
  pose proof (Zdigits2_bounds m ltac:(lia)) as [_ Hhi].
  apply Z.div_lt_upper_bound; [exact Hp |].
  rewrite <- Z.pow_add_r by lia.
  eapply Z.lt_le_trans; [exact Hhi |]. apply Z.pow_le_mono_r; lia.
Qed.

Lemma shifted_lower (m n : Z) :
  0 < m -> 0 <= n -> n < Zdigits2 m -> 2 ^ (Zdigits2 m - n - 1) <= m / 2 ^ n.
Proof.
  intros Hm Hn Hd. assert (Hp : 0 < 2 ^ n) by (apply Z.pow_pos_nonneg; lia).
  pose proof (Zdigits2_bounds m Hm) as [Hlo _].
  apply Z.div_le_lower_bound; [exact Hp |].
  rewrite <- Z.pow_add_r by lia.
  replace (n + (Zdigits2 m - n - 1)) with (Zdigits2 m - 1) by lia. exact Hlo.
Qed.

(** *** Rounding, explicitly *)

Lemma rne_bounds (c : Z) : c / 4 <= rne c <= c / 4 + 1.
Proof.
  unfold rne, record_of. cbn [shr_m loc_of_shr_record].
  destruct (Z.odd (c / 2)), (Z.odd c); cbn [round_nearest_even];
    try destruct (Z.even (c / 4)); lia.
Qed.

Lemma rne_mono (c1 c2 : Z) : c1 <= c2 -> rne c1 <= rne c2.
Proof.
  intros Hle.
  assert (Hm : c1 / 4 <= c2 / 4) by (apply Z.div_le_mono; lia).
  destruct (Z.eq_dec (c1 / 4) (c2 / 4)) as [E | E].
  2: { pose proof (rne_bounds c1). pose proof (rne_bounds c2). lia. }
  unfold rne, record_of. cbn [shr_m loc_of_shr_record]. rewrite <- E.
  assert (H1 : c1 = 4 * (c1 / 4) + 2 * Z.b2z (Z.odd (c1 / 2)) + Z.b2z (Z.odd c1))
    by (rewrite <- !Z.bit0_odd, !Z.bit0_mod; Z.div_mod_to_equations; lia).
  assert (H2 : c2 = 4 * (c1 / 4) + 2 * Z.b2z (Z.odd (c2 / 2)) + Z.b2z (Z.odd c2))
    by (rewrite E, <- !Z.bit0_odd, !Z.bit0_mod; Z.div_mod_to_equations; lia).
  destruct (Z.odd (c1 / 2)), (Z.odd c1), (Z.odd (c2 / 2)), (Z.odd c2);
    cbn [Z.b2z round_nearest_even] in *; try destruct (Z.even (c1 / 4)); lia.
Qed.

Lemma fexp_ge_emin (e : Z) : emin prec emax <= fexp prec emax e.
Proof. unfold fexp. lia. Qed.

Lemma emin_value : emin prec emax = -149.
Proof. reflexivity. Qed.

(** The second normalisation of [binary_round_aux], on a rounded mantissa
    of at most 24 bits that is either normal or at the least exponent. *)
Lemma round_finish (s : bool) (r F : Z) :
  0 <= r <= 2 ^ 24 ->
  F = emin prec emax \/ 2 ^ 23 <= r ->
  emin prec emax <= F ->
  (let '(mrs, e') := shr_fexp prec emax r F loc_Exact in
   match shr_m mrs with
   | Z0 => S754_zero s
   | Zpos m' => if e' <=? emax - prec then S754_finite s m' e' else S754_infinity s
   | Zneg _ => S754_nan
   end) = pack s (renorm r F).
Proof.
  intros Hr Hn HF. unfold renorm, shr_fexp. rewrite emin_value in *.
  destruct (Z.eqb_spec r (2 ^ prec)) as [-> | Hne].
  - change (Zdigits2 (2 ^ prec)) with 25.
    replace (fexp prec emax (25 + F) - F) with 1 by (unfold fexp, emin, prec, emax; lia).
    reflexivity.
  - change (2 ^ prec) with (2 ^ 24) in Hne.
    assert (Hd : Zdigits2 r <= 24) by (apply Zdigits2_le; lia).
    assert (Hs : fexp prec emax (Zdigits2 r + F) - F = 0).
    { destruct Hn as [-> | Hn].
      - unfold fexp, emin, prec, emax. lia.
      - pose proof (Zdigits2_ge r 24 ltac:(exact Hn) ltac:(lia)).
        unfold fexp, emin, prec, emax. lia. }
    rewrite Hs. cbn [shr shr_record_of_loc shr_m]. unfold pack. cbn [fst snd].
    reflexivity.
Qed.

(** After the shift to the exponent of the result, rounding gives at most
    2^24, and at least 2^23 unless the exponent is the least one. *)
Lemma rne_shift_bounds (m e c' : Z) :
  0 <= m ->
  e <= fexp prec emax (Zdigits2 m + e) ->
  c' / 4 = m / 2 ^ (fexp prec emax (Zdigits2 m + e) - e) ->
  0 <= rne c' <= 2 ^ 24
  /\ (fexp prec emax (Zdigits2 m + e) = emin prec emax \/ 2 ^ 23 <= rne c').
Proof.
  intros Hm HF Hm'. set (F := fexp prec emax (Zdigits2 m + e)) in *.
  assert (Hp : 0 < 2 ^ (F - e)) by (apply Z.pow_pos_nonneg; lia).
  pose proof (rne_bounds c') as Hr. rewrite Hm' in Hr.
  pose proof (Z.div_pos m (2 ^ (F - e)) Hm Hp) as Hq0.
  pose proof (shifted_upper m (F - e) Hm ltac:(lia)) as Hup.
  pose proof (fexp_ge_emin (Zdigits2 m + e)) as HFe. fold F in HFe.
  assert (Hcase : F = emin prec emax /\ Z.max (Zdigits2 m - (F - e)) 0 <= 23
                  \/ Zdigits2 m - (F - e) = 24).
  { unfold F, fexp in *. rewrite emin_value in *. unfold prec in *. lia. }
  split.
  - split; [lia |].
    destruct Hcase as [[_ Hd] | Hd].
    + assert (2 ^ Z.max (Zdigits2 m - (F - e)) 0 <= 2 ^ 23) by (apply Z.pow_le_mono_r; lia).
      change (2 ^ 24) with 16777216. change (2 ^ 23) with 8388608 in *. lia.
    + rewrite Hd, Z.max_l in Hup by lia. lia.
  - destruct Hcase as [[HFm _] | Hd]; [left; exact HFm | right].
    assert (0 < m).
    { destruct (Z.eq_dec m 0) as [-> | ]; [cbn in Hd; lia | lia]. }
    pose proof (shifted_lower m (F - e) ltac:(lia) ltac:(lia) ltac:(lia)) as Hlo.
    replace (Zdigits2 m - (F - e) - 1) with 23 in Hlo by lia. lia.
Qed.

(** [binary_round_aux] on a mantissa [m] at an exponent [e] that is not
    above the exponent [F] of the result: shift to [F] keeping round and
    sticky bits, round to nearest even, renormalise. *)
Lemma binary_round_aux_explicit (s : bool) (m e : Z) (l : location) :
  0 <= m ->
  e <= fexp prec emax (Zdigits2 m + e) ->
  binary_round_aux prec emax s m e l
  = let F := fexp prec emax (Zdigits2 m + e) in
    pack s (renorm (rne (sticky (code_of (shr_record_of_loc m l)) (2 * 2 ^ (F - e)))) F).
Proof.
  intros Hm HF. cbv zeta. set (F := fexp prec emax (Zdigits2 m + e)) in *.
  set (c := code_of (shr_record_of_loc m l)).
  assert (Hc4 : c / 4 = m).
  { unfold c. rewrite code_of_loc. destruct l as [| []]; Z.div_mod_to_equations; lia. }
  assert (Hcm : shr_m (shr_record_of_loc m l) = m) by (destruct l as [| []]; reflexivity).
  set (c' := sticky c (2 * 2 ^ (F - e))).
  assert (Hshift : shr (shr_record_of_loc m l) e (F - e) = (record_of c', F)).
  { unfold shr. destruct (F - e) as [| p | p] eqn:En; try lia.
    - unfold c'. rewrite ?En, Z.pow_0_r, Z.mul_1_r, sticky_2. unfold c.
      rewrite record_of_code. f_equal. lia.
    - rewrite iter_pos_nat, iter_shr_1_code by (rewrite Hcm; exact Hm).
      fold c. rewrite positive_nat_Z. unfold c'. rewrite ?En. f_equal. lia. }
  unfold binary_round_aux, shr_fexp at 1. fold F. rewrite Hshift.
  fold (rne c').
  assert (Hp : 0 < 2 ^ (F - e)) by (apply Z.pow_pos_nonneg; lia).
  assert (Hm' : c' / 4 = m / 2 ^ (F - e)).
  { unfold c'. rewrite sticky_div4 by lia.
    rewrite <- Hc4, Z.div_div by lia. f_equal. lia. }
  destruct (rne_shift_bounds m e c' Hm HF Hm') as [Hr Hn].
  apply round_finish; [exact Hr | exact Hn | apply fexp_ge_emin].
Qed.

Lemma sticky_sticky (X B n : Z) :
  0 < B -> 0 <= n -> sticky (sticky X B) (2 * 2 ^ n) = sticky X (B * 2 ^ n).
Proof.
  intros HB Hn. rewrite <- (Z2Nat.id n Hn).
  rewrite <- (sticky_iter (Z.to_nat n) (sticky X B) 2) by lia.
  rewrite sticky_2. apply sticky_iter. exact HB.
Qed.

Lemma fexp_mono (a b : Z) : a <= b -> fexp prec emax a <= fexp prec emax b.
Proof. unfold fexp. lia. Qed.

Lemma fexp_value (z : Z) : fexp prec emax z = Z.max (z - 24) (-149).
Proof. reflexivity. Qed.

Lemma fexp_small (z : Z) : z <= emin prec emax + 24 -> fexp prec emax z = emin prec emax.
Proof. unfold fexp, emin, prec, emax. lia. Qed.

Lemma Zdigits2_scaled_div (X B a : Z) :
  0 < B -> 0 <= a -> 0 < X / B ->
  Zdigits2 (X * 2 ^ a / B) = Zdigits2 (X / B) + a.
Proof.
  intros HB Ha Hm.
  assert (Hp : 0 < 2 ^ a) by (apply Z.pow_pos_nonneg; lia).
  pose proof (Zdigits2_bounds (X / B) Hm) as [Hlo Hhi].
  pose proof (Z.div_mod X B ltac:(lia)) as HX.
  pose proof (Z.mod_pos_bound X B HB) as Hr.
  assert (Hd1 : 1 <= Zdigits2 (X / B)).
  { destruct (X / B) as [| p | p]; try lia. cbn [Zdigits2]. lia. }
  set (m := X / B) in *. set (r := X mod B) in *.
  assert (H1 : B * 2 ^ (Zdigits2 m - 1) <= X) by nia.
  assert (H2 : X < B * 2 ^ Zdigits2 m) by nia.
  apply Zdigits2_eq; [| lia]. split.
  - apply Z.div_le_lower_bound; [exact HB |].
    replace (Zdigits2 m + a - 1) with (Zdigits2 m - 1 + a) by lia.
    rewrite Z.pow_add_r, Z.mul_assoc by lia.
    apply Z.mul_le_mono_nonneg_r; lia.
  - apply Z.div_lt_upper_bound; [exact HB |].
    rewrite Z.pow_add_r, Z.mul_assoc by lia.
    apply Z.mul_lt_mono_pos_r; lia.
Qed.

Lemma Zdigits2_shifted (m b : Z) :
  0 <= b -> 0 < m / 2 ^ b -> Zdigits2 (m / 2 ^ b) = Zdigits2 m - b.
Proof.
  intros Hb Hq. assert (Hp : 0 < 2 ^ b) by (apply Z.pow_pos_nonneg; lia).
  assert (Hm : 0 < m).
  { destruct (Z.le_gt_cases m 0) as [H | H]; [| exact H].
    assert (m / 2 ^ b <= 0) by (apply Z.div_le_upper_bound; nia). lia. }
  assert (Hbd : b < Zdigits2 m).
  { destruct (Z.le_gt_cases (Zdigits2 m) b) as [H | H]; [| lia].
    pose proof (shifted_upper m b ltac:(lia) Hb) as Hup.
    rewrite Z.max_r in Hup by lia. change (2 ^ 0) with 1 in Hup. lia. }
  pose proof (shifted_upper m b ltac:(lia) Hb) as Hup.
  pose proof (shifted_lower m b Hm Hb Hbd) as Hlo.
  rewrite Z.max_l in Hup by lia.
  apply Zdigits2_eq; [split; [exact Hlo | exact Hup] | lia].
Qed.

(** [binary_round_aux] computes [rnd]: on a mantissa and location that are
    the code of the real [X'/B'] at exponent [e], it returns the float
    nearest to [X'/B' * 2^e]. *)
Lemma binary_round_aux_rnd (m e : Z) (l : location) (X' B' : Z) :
  0 <= X' -> 0 < B' ->
  code_of (shr_record_of_loc m l) = sticky (2 * X') B' ->
  e <= fexp prec emax (Zdigits2 m + e) ->
  binary_round_aux prec emax false m e l
  = rnd (X' * 2 ^ Z.max (e - emin prec emax) 0) (B' * 2 ^ Z.max (emin prec emax - e) 0).
Proof.
  intros HX HB Hc HF.
  assert (Hm : m = X' / B').
  { assert (H4 : code_of (shr_record_of_loc m l) / 4 = m)
      by (rewrite code_of_loc; destruct l as [| []]; Z.div_mod_to_equations; lia).
    rewrite <- H4, Hc, sticky_div4 by exact HB.
    rewrite Z.div_mul_cancel_l by lia. reflexivity. }
  assert (Hm0 : 0 <= m) by (rewrite Hm; apply Z.div_pos; lia).
  rewrite binary_round_aux_explicit by assumption. cbv zeta.
  rewrite Hc. unfold rnd. cbv zeta.
  set (F := fexp prec emax (Zdigits2 m + e)) in *.
  pose proof (fexp_ge_emin (Zdigits2 m + e)) as HFe. fold F in HFe.
  rewrite sticky_sticky by lia.
  destruct (Z.le_gt_cases (emin prec emax) e) as [Hge | Hlt].
  - rewrite (Z.max_l (e - _) 0), (Z.max_r (_ - e) 0) by lia.
    rewrite Z.pow_0_r, Z.mul_1_r.
    set (a := e - emin prec emax) in *.
    assert (HF2 : fexp prec emax (Zdigits2 (X' * 2 ^ a / B') + emin prec emax) = F).
    { destruct (Z.eq_dec m 0) as [Hz | Hnz].
      - assert (e = emin prec emax).
        { unfold F in HF. rewrite Hz in HF. cbn [Zdigits2] in HF.
          rewrite fexp_value in HF. rewrite emin_value in *. lia. }
        unfold a. replace (e - emin prec emax) with 0 by lia.
        rewrite Z.pow_0_r, Z.mul_1_r, <- Hm. unfold F. f_equal. lia.
      - rewrite Zdigits2_scaled_div by (unfold a; lia).
        rewrite <- Hm. unfold F. f_equal. unfold a. lia. }
    rewrite HF2.
    replace (F - emin prec emax) with (F - e + a) by (unfold a; lia).
    rewrite Z.pow_add_r by (unfold a; lia).
    replace (2 * (X' * 2 ^ a)) with (2 * X' * 2 ^ a) by lia.
    rewrite Z.mul_assoc.
    rewrite (sticky_scale (2 * X') (B' * 2 ^ (F - e)) (2 ^ a));
      [reflexivity | | apply Z.pow_pos_nonneg; unfold a; lia].
    apply Z.mul_pos_pos; [lia | apply Z.pow_pos_nonneg; lia].
  - rewrite (Z.max_r (e - _) 0), (Z.max_l (_ - e) 0) by lia.
    rewrite Z.pow_0_r, Z.mul_1_r.
    set (b := emin prec emax - e) in *.
    assert (Hpb : 0 < 2 ^ b) by (apply Z.pow_pos_nonneg; unfold b; lia).
    assert (Hq : X' / (B' * 2 ^ b) = m / 2 ^ b) by (rewrite Hm, Z.div_div by lia; reflexivity).
    assert (HF2 : fexp prec emax (Zdigits2 (X' / (B' * 2 ^ b)) + emin prec emax) = F).
    { rewrite Hq. destruct (Z.eq_dec (m / 2 ^ b) 0) as [Hz | Hnz].
      - rewrite Hz. cbn [Zdigits2].
        assert (Hmb : m < 2 ^ b).
        { destruct (Z.lt_ge_cases m (2 ^ b)) as [H | H]; [exact H |].
          assert (1 <= m / 2 ^ b) by (apply Z.div_le_lower_bound; lia). lia. }
        pose proof (Zdigits2_le m b ltac:(lia) ltac:(unfold b; lia)).
        unfold F. rewrite !fexp_small by (unfold b in *; lia). reflexivity.
      - pose proof (Z.div_pos m (2 ^ b) Hm0 Hpb).
        rewrite Zdigits2_shifted by (unfold b in *; lia). unfold F. f_equal. unfold b. lia. }
    rewrite HF2.
    rewrite <- Z.mul_assoc, <- Z.pow_add_r by (unfold b; lia).
    replace (b + (F - emin prec emax)) with (F - e) by (unfold b; lia).
    reflexivity.
Qed.

(** *** The rounding is monotone *)

Lemma div_frac_mono (X1 B1 X2 B2 : Z) :
  0 < B1 -> 0 < B2 -> X1 * B2 <= X2 * B1 -> X1 / B1 <= X2 / B2.
Proof.
  intros H1 H2 Hle.
  pose proof (Z.div_mod X1 B1 ltac:(lia)) as E1.
  pose proof (Z.mod_pos_bound X1 B1 H1) as R1.
  pose proof (Z.div_mod X2 B2 ltac:(lia)) as E2.
  pose proof (Z.mod_pos_bound X2 B2 H2) as R2.
  set (F1 := X1 / B1) in *. set (r1 := X1 mod B1) in *.
  set (F2 := X2 / B2) in *. set (r2 := X2 mod B2) in *.
  destruct (Z.le_gt_cases F1 F2) as [H | H]; [exact H | exfalso].
  assert (F2 + 1 <= F1) by lia.
  assert (B1 * B2 * (F2 + 1) <= B1 * B2 * F1) by (apply Z.mul_le_mono_nonneg_l; nia).
  nia.
Qed.

Lemma Zdigits2_mono (a b : Z) : 0 <= a <= b -> Zdigits2 a <= Zdigits2 b.
Proof.
  intros H. destruct (Z.eq_dec a 0) as [-> | Ha]; [apply Zdigits2_nonneg |].
  pose proof (Zdigits2_bounds a ltac:(lia)) as [Hlo _].
  apply Zdigits2_ge; [lia |].
  destruct a as [| p | p]; try lia. cbn [Zdigits2]. lia.
Qed.

Lemma rnd_facts (X B : Z) :
  0 <= X -> 0 < B ->
  let F := fexp prec emax (Zdigits2 (X / B) + emin prec emax) in
  let r := rne (sticky (2 * X) (B * 2 ^ (F - emin prec emax))) in
  0 <= r <= 2 ^ 24 /\ (F = emin prec emax \/ 2 ^ 23 <= r) /\ emin prec emax <= F.
Proof.
  intros HX HB F r.
  pose proof (fexp_ge_emin (Zdigits2 (X / B) + emin prec emax)) as HF. fold F in HF.
  assert (Hp : 0 < 2 ^ (F - emin prec emax)) by (apply Z.pow_pos_nonneg; lia).
  destruct (rne_shift_bounds (X / B) (emin prec emax)
              (sticky (2 * X) (B * 2 ^ (F - emin prec emax)))) as [Hr Hn].
  - apply Z.div_pos; lia.
  - exact HF.
  - fold F. rewrite sticky_div4 by (apply Z.mul_pos_pos; lia).
    rewrite Z.div_mul_cancel_l, Z.div_div by lia. reflexivity.
  - fold F in Hn. fold r in Hr, Hn. repeat split; try lia; assumption.
Qed.

Lemma pack_leb (a1 e1 a2 e2 : Z) :
  0 <= a1 -> 0 <= a2 ->
  a1 = 0 \/ (0 < a2 /\ (e1 < e2 \/ (e1 = e2 /\ a1 <= a2))) ->
  SFleb (pack false (a1, e1)) (pack false (a2, e2)) = true.
Proof.
  intros H1 H2 H. unfold pack, SFleb. cbn [fst snd].
  destruct a1 as [| p1 | p1]; try lia.
  - destruct a2 as [| p2 | p2]; try lia; [reflexivity |].
    destruct (e2 <=? emax - prec); reflexivity.
  - destruct H as [H | [Ha2 H]]; [lia |].
    destruct a2 as [| p2 | p2]; try lia.
    destruct (Z.leb_spec e2 (emax - prec)) as [He2 | He2].
    + destruct (Z.leb_spec e1 (emax - prec)) as [He1 | He1]; [| lia].
      cbn [SFcompare]. destruct (Z.compare_spec e1 e2) as [E | E | E].
      * change (Pos.compare_cont Eq p1 p2) with (Pos.compare p1 p2).
        destruct (Pos.compare_spec p1 p2) as [E' | E' | E']; try reflexivity. lia.
      * reflexivity.
      * lia.
    + destruct (e1 <=? emax - prec); reflexivity.
Qed.

Lemma pack_renorm_leb (r1 F1 r2 F2 : Z) :
  0 <= r1 <= 2 ^ 24 -> 0 <= r2 <= 2 ^ 24 ->
  (F1 = F2 /\ r1 <= r2) \/ (F1 < F2 /\ 2 ^ 23 <= r2) ->
  SFleb (pack false (renorm r1 F1)) (pack false (renorm r2 F2)) = true.
Proof.
  intros H1 H2 H. unfold renorm. change (2 ^ prec) with (2 ^ 24).
  change (2 ^ (prec - 1)) with (2 ^ 23). change (2 ^ 24) with 16777216 in *.
  change (2 ^ 23) with 8388608 in *.
  destruct (Z.eqb_spec r1 16777216); destruct (Z.eqb_spec r2 16777216);
    apply pack_leb; lia.
Qed.

Lemma rnd_mono (X1 B1 X2 B2 : Z) :
  0 <= X1 -> 0 < B1 -> 0 < B2 -> X1 * B2 <= X2 * B1 ->
  SFleb (rnd X1 B1) (rnd X2 B2) = true.
Proof.
  intros HX1 HB1 HB2 Hle.
  assert (HX2 : 0 <= X2) by nia.
  pose proof (div_frac_mono X1 B1 X2 B2 HB1 HB2 Hle) as Hm.
  pose proof (Z.div_pos X1 B1 HX1 HB1) as Hm1.
  pose proof (Zdigits2_mono (X1 / B1) (X2 / B2) ltac:(lia)) as Hd.
  destruct (rnd_facts X1 B1 HX1 HB1) as (Hr1 & Hn1 & HF1).
  destruct (rnd_facts X2 B2 HX2 HB2) as (Hr2 & Hn2 & HF2).
  unfold rnd. cbv zeta.
  set (F1 := fexp prec emax (Zdigits2 (X1 / B1) + emin prec emax)) in *.
  set (F2 := fexp prec emax (Zdigits2 (X2 / B2) + emin prec emax)) in *.
  assert (HF : F1 <= F2) by (apply fexp_mono; lia).
  apply pack_renorm_leb; [exact Hr1 | exact Hr2 |].
  destruct (Z.eq_dec F1 F2) as [E | E].
  - left. split; [exact E |]. apply rne_mono. rewrite <- E.
    assert (Hp : 0 < 2 ^ (F1 - emin prec emax)) by (apply Z.pow_pos_nonneg; lia).
    apply sticky_mono; try (apply Z.mul_pos_pos; lia). nia.
  - right. split; [lia |]. destruct Hn2 as [Hn2 | Hn2]; [lia | exact Hn2].
Qed.

Lemma rnd_scale (X B j : Z) : 0 < B -> 0 < j -> rnd (X * j) (B * j) = rnd X B.
Proof.
  intros HB Hj. unfold rnd. cbv zeta.
  rewrite Z.div_mul_cancel_r by lia.
  set (F := fexp prec emax (Zdigits2 (X / B) + emin prec emax)).
  pose proof (fexp_ge_emin (Zdigits2 (X / B) + emin prec emax)) as HF. fold F in HF.
  assert (Hp : 0 < 2 ^ (F - emin prec emax)) by (apply Z.pow_pos_nonneg; lia).
  replace (2 * (X * j)) with (2 * X * j) by lia.
  replace (B * j * 2 ^ (F - emin prec emax)) with (B * 2 ^ (F - emin prec emax) * j) by lia.
  rewrite sticky_scale; [reflexivity | apply Z.mul_pos_pos; lia | exact Hj].
Qed.


(** *** Non-negative finite floats and their values *)

Lemma bounded_facts (m : positive) (e : Z) :
  bounded prec emax m e = true ->
  emin prec emax <= e <= emax - prec
  /\ Zpos m < 2 ^ 24
  /\ (e = emin prec emax \/ 2 ^ 23 <= Zpos m)
  /\ fexp prec emax (Zpos (digits2_pos m) + e) = e.
Proof.
  unfold bounded, canonical_mantissa. intros H.
  apply andb_prop in H as [Hc He]. apply Z.eqb_eq in Hc. apply Z.leb_le in He.
  pose proof (fexp_ge_emin (Zpos (digits2_pos m) + e)) as Hge. rewrite Hc in Hge.
  pose proof (Zdigits2_bounds (Zpos m) ltac:(lia)) as [Hlo Hhi]. cbn [Zdigits2] in *.
  rewrite fexp_value in Hc. rewrite emin_value in *.
  split; [lia |]. split; [| split; [| rewrite fexp_value; exact Hc]].
  - eapply Z.lt_le_trans; [exact Hhi |]. apply Z.pow_le_mono_r; lia.
  - destruct (Z.eq_dec e (-149)) as [E | E]; [left; exact E | right].
    replace (Zpos (digits2_pos m) - 1) with 23 in Hlo by lia. exact Hlo.
Qed.

Lemma ulps_nonneg (x : spec_float) : 0 <= ulps x.
Proof.
  destruct x as [s | s | | s m e]; try destruct s; cbn [ulps]; lia.
Qed.

Lemma ulps_finite_pos (m : positive) (e : Z) :
  bounded prec emax m e = true -> 0 < ulps (S754_finite false m e).
Proof.
  intros Hb. destruct (bounded_facts m e Hb) as (He & _).
  cbn [ulps]. apply Z.mul_pos_pos; [lia | apply Z.pow_pos_nonneg; lia].
Qed.

(** The order of non-negative finite floats is the order of their values. *)
Lemma compare_ulps (x y : spec_float) :
  nonneg_finite x = true -> nonneg_finite y = true ->
  SFcompare x y = Some (ulps x ?= ulps y).
Proof.
  intros Hx Hy.
  destruct x as [sx | sx | | sx mx ex]; try destruct sx; try discriminate;
    destruct y as [sy | sy | | sy my ey]; try destruct sy; try discriminate.
  - reflexivity.
  - cbn [nonneg_finite] in Hy. pose proof (ulps_finite_pos my ey Hy) as Hp.
    cbn [SFcompare]. change (ulps (S754_zero false)) with 0.
    destruct (Z.compare_spec 0 (ulps (S754_finite false my ey))); try lia. reflexivity.
  - cbn [nonneg_finite] in Hx. pose proof (ulps_finite_pos mx ex Hx) as Hp.
    cbn [SFcompare]. change (ulps (S754_zero false)) with 0.
    destruct (Z.compare_spec (ulps (S754_finite false mx ex)) 0); try lia. reflexivity.
  - cbn [nonneg_finite] in Hx, Hy.
    destruct (bounded_facts mx ex Hx) as (Hex & Hmx & Hnx & _).
    destruct (bounded_facts my ey Hy) as (Hey & Hmy & Hny & _).
    cbn [SFcompare ulps]. f_equal.
    assert (Hstep : forall m1 e1 m2 e2,
               emin prec emax <= e1 -> e1 < e2 -> Zpos m1 < 2 ^ 24 -> 2 ^ 23 <= Zpos m2 ->
               Zpos m1 * 2 ^ (e1 - emin prec emax) < Zpos m2 * 2 ^ (e2 - emin prec emax)).
    { intros m1 e1 m2 e2 H1 H12 Hm1 Hm2.
      replace (e2 - emin prec emax) with (e1 - emin prec emax + (e2 - e1)) by lia.
      rewrite Z.pow_add_r by lia.
      assert (0 < 2 ^ (e1 - emin prec emax)) by (apply Z.pow_pos_nonneg; lia).
      assert (2 ^ 1 <= 2 ^ (e2 - e1)) by (apply Z.pow_le_mono_r; lia).
      change (2 ^ 1) with 2 in *. change (2 ^ 24) with 16777216 in *.
      change (2 ^ 23) with 8388608 in *.
      set (P := 2 ^ (e1 - emin prec emax)) in *. set (Q := 2 ^ (e2 - e1)) in *.
      assert (Zpos m1 * P < 16777216 * P) by nia.
      assert (16777216 <= Zpos m2 * Q) by nia.
      assert (16777216 * P <= Zpos m2 * Q * P) by (apply Z.mul_le_mono_nonneg_r; lia).
      lia. }
    destruct (Z.compare_spec ex ey) as [E | E | E].
    + subst ey. change (Pos.compare_cont Eq mx my) with (Z.compare (Zpos mx) (Zpos my)).
      rewrite <- Zmult_compare_compat_r by (apply Z.lt_gt, Z.pow_pos_nonneg; lia).
      reflexivity.
    + symmetry. apply Z.compare_lt_iff. apply Hstep; lia.
    + symmetry. apply Z.compare_gt_iff. apply Hstep; lia.
Qed.

(** The rounding of a non-negative real is a non-negative finite float, or
    overflows to plus infinity. *)
Lemma rnd_good (X B : Z) :
  0 <= X -> 0 < B ->
  nonneg_finite (rnd X B) = true \/ rnd X B = S754_infinity false.
Proof.
  intros HX HB. destruct (rnd_facts X B HX HB) as (Hr & Hn & HF).
  unfold rnd. cbv zeta in *.
  set (F := fexp prec emax (Zdigits2 (X / B) + emin prec emax)) in *.
  set (r := rne (sticky (2 * X) (B * 2 ^ (F - emin prec emax)))) in *.
  rewrite emin_value in *. unfold renorm. change (2 ^ prec) with 16777216.
  change (2 ^ (prec - 1)) with 8388608. change (2 ^ 24) with 16777216 in *.
  change (2 ^ 23) with 8388608 in *.
  destruct (Z.eqb_spec r 16777216) as [E | E]; unfold pack; cbn [fst snd].
  - destruct (Z.leb_spec (F + 1) (emax - prec)) as [He | He]; [left | right; reflexivity].
    cbn [nonneg_finite]. unfold bounded, canonical_mantissa.
    change (Zpos (digits2_pos 8388608)) with 24.
    apply andb_true_intro. split; [apply Z.eqb_eq | apply Z.leb_le; exact He].
    rewrite fexp_value. lia.
  - destruct r as [| p | p] eqn:Er; try lia; [left; reflexivity |].
    destruct (Z.leb_spec F (emax - prec)) as [He | He]; [left | right; reflexivity].
    cbn [nonneg_finite]. unfold bounded, canonical_mantissa.
    apply andb_true_intro. split; [apply Z.eqb_eq | apply Z.leb_le; exact He].
    change (Zpos (digits2_pos p)) with (Zdigits2 (Zpos p)). rewrite fexp_value.
    pose proof (Zdigits2_le (Zpos p) 24 ltac:(change (2 ^ 24) with 16777216; lia) ltac:(lia)).
    destruct Hn as [Hn | Hn]; [lia |].
    pose proof (Zdigits2_ge (Zpos p) 24 ltac:(change (2 ^ (24 - 1)) with 8388608; lia) ltac:(lia)).
    lia.
Qed.

(** A non-negative finite float is the rounding of its own value. *)
Lemma rnd_ulps (x : spec_float) :
  nonneg_finite x = true -> rnd (ulps x) 1 = x.
Proof.
  intros Hx. destruct x as [s | s | | s m e]; try destruct s; try discriminate.
  - reflexivity.
  - cbn [nonneg_finite] in Hx. destruct (bounded_facts m e Hx) as (He & _ & _ & Hc).
    transitivity (binary_round_aux prec emax false (Zpos m) e loc_Exact);
      [| apply binary_round_aux_bounded; exact Hx].
    rewrite (binary_round_aux_rnd (Zpos m) e loc_Exact (Zpos m) 1); try lia.
    + rewrite Z.max_l, Z.max_r, Z.pow_0_r by lia. reflexivity.
    + rewrite code_of_loc. unfold sticky. rewrite Z.mod_1_r, Z.div_1_r. cbn [Z.eqb]. lia.
    + cbn [Zdigits2]. lia.
Qed.

(** ** Single precision: subtraction and division round the exact result *)

Lemma code_exact (m : Z) : code_of (shr_record_of_loc m loc_Exact) = sticky (2 * m) 1.
Proof.
  rewrite code_of_loc. unfold sticky. rewrite Z.mod_1_r, Z.div_1_r. cbn [Z.eqb]. lia.
Qed.

Lemma binary_round_rnd (p : positive) (e : Z) :
  emin prec emax <= e ->
  binary_round prec emax false p e = rnd (Zpos p * 2 ^ (e - emin prec emax)) 1.
Proof.
  intros He. unfold binary_round.
  set (F := fexp prec emax (Zpos (digits2_pos p) + e)).
  pose proof (fexp_ge_emin (Zpos (digits2_pos p) + e)) as HF. fold F in HF.
  unfold shl_align. destruct (F - e) as [| d | d] eqn:Ed.
  - rewrite (binary_round_aux_rnd (Zpos p) e loc_Exact (Zpos p) 1); try lia.
    + rewrite Z.max_l, Z.max_r, Z.pow_0_r by lia. reflexivity.
    + apply code_exact.
    + cbn [Zdigits2]. fold F. lia.
  - rewrite (binary_round_aux_rnd (Zpos p) e loc_Exact (Zpos p) 1); try lia.
    + rewrite Z.max_l, Z.max_r, Z.pow_0_r by lia. reflexivity.
    + apply code_exact.
    + cbn [Zdigits2]. fold F. lia.
  - rewrite (binary_round_aux_rnd (Zpos (Pos.iter xO p d)) F loc_Exact
               (Zpos (Pos.iter xO p d)) 1); try lia.
    + rewrite Z.max_l, Z.max_r, Z.pow_0_r by lia.
      rewrite iter_xO_shift, <- Z.mul_assoc, <- Z.pow_add_r by lia.
      do 3 f_equal. lia.
    + apply code_exact.
    + rewrite iter_xO_shift, Zdigits2_shift by lia. cbn [Zdigits2].
      replace (Zpos (digits2_pos p) + Zpos d + F) with (Zpos (digits2_pos p) + e) by lia.
      fold F. lia.
Qed.

Lemma rnd_0 (B : Z) : 0 < B -> rnd 0 B = S754_zero false.
Proof.
  intros HB. unfold rnd. rewrite Z.div_0_l by lia. cbn [Zdigits2 Z.add].
  change (fexp prec emax (emin prec emax)) with (emin prec emax).
  rewrite Z.sub_diag, Z.pow_0_r, Z.mul_1_r. unfold sticky.
  rewrite Z.div_0_l, Z.mod_0_l by lia. reflexivity.
Qed.

(** The difference of two non-negative finite floats, the larger first, is
    the exact difference rounded. *)
Lemma sub_rnd (a b : spec_float) :
  nonneg_finite a = true -> nonneg_finite b = true -> ulps b <= ulps a ->
  SFsub prec emax a b = rnd (ulps a - ulps b) 1.
Proof.
  intros Ha Hb Hle.
  destruct a as [sa | sa | | sa ma ea]; try destruct sa; try discriminate;
    destruct b as [sb | sb | | sb mb eb]; try destruct sb; try discriminate.
  - reflexivity.
  - cbn [nonneg_finite] in Hb. pose proof (ulps_finite_pos mb eb Hb).
    change (ulps (S754_zero false)) with 0 in Hle. lia.
  - change (ulps (S754_zero false)) with 0. rewrite Z.sub_0_r.
    cbn [SFsub]. symmetry. apply rnd_ulps. exact Ha.
  - cbn [nonneg_finite] in Ha, Hb.
    destruct (bounded_facts ma ea Ha) as (Hea & _).
    destruct (bounded_facts mb eb Hb) as (Heb & _).
    cbn [SFsub cond_Zopp]. set (ez := Z.min ea eb).
    rewrite !shl_align_value by (unfold ez; lia).
    assert (Hu : ulps (S754_finite false ma ea) - ulps (S754_finite false mb eb)
                 = (Zpos ma * 2 ^ (ea - ez) - Zpos mb * 2 ^ (eb - ez))
                   * 2 ^ (ez - emin prec emax)).
    { cbn [ulps]. rewrite Z.mul_sub_distr_r, <- !Z.mul_assoc, <- !Z.pow_add_r
        by (unfold ez; lia).
      do 2 f_equal; f_equal; f_equal; lia. }
    rewrite Hu. assert (Hp : 0 < 2 ^ (ez - emin prec emax))
      by (apply Z.pow_pos_nonneg; unfold ez; lia).
    assert (HS : 0 <= Zpos ma * 2 ^ (ea - ez) - Zpos mb * 2 ^ (eb - ez)).
    { cbn [ulps] in Hle. 
      assert (0 <= (Zpos ma * 2 ^ (ea - ez) - Zpos mb * 2 ^ (eb - ez))
                   * 2 ^ (ez - emin prec emax)) by (rewrite <- Hu; cbn [ulps]; lia).
      nia. }
    destruct (Zpos ma * 2 ^ (ea - ez) - Zpos mb * 2 ^ (eb - ez)) as [| p | p]; try lia.
    + cbn [binary_normalize Z.mul]. symmetry. apply rnd_0. lia.
    + cbn [binary_normalize]. apply binary_round_rnd. unfold ez. lia.
Qed.

Lemma sticky_decomp (X B q r : Z) :
  0 < B -> X = B * q + r -> 0 <= r < B ->
  sticky X B = 2 * q + (if r =? 0 then 0 else 1).
Proof.
  intros HB HX Hr. unfold sticky.
  rewrite <- (Z.div_unique_pos X B q r Hr HX), <- (Z.mod_unique_pos X B q r Hr HX).
  reflexivity.
Qed.

(** The location of a remainder is the low part of the code of the
    quotient. *)
Lemma new_location_code (B q r : Z) :
  0 < B -> 0 <= r < B ->
  code_of (shr_record_of_loc q (new_location B r)) = sticky (2 * (B * q + r)) B.
Proof.
  intros HB Hr. rewrite code_of_loc.
  destruct (Z.eq_dec r 0) as [-> | Hr0].
  { replace (new_location B 0) with loc_Exact
      by (unfold new_location, new_location_even, new_location_odd;
          destruct (Z.even B); reflexivity).
    rewrite (sticky_decomp _ B (2 * q) 0); cbn [Z.eqb]; lia. }
  assert (Hcases : 2 * r < B \/ 2 * r = B \/ B < 2 * r) by lia.
  assert (Hloc : new_location B r
                 = loc_Inexact (if 2 * r <? B then Lt else if 2 * r =? B then Eq else Gt)).
  { unfold new_location. destruct (Z.even B) eqn:Ev.
    - unfold new_location_even. destruct (Z.eqb_spec r 0); [lia |].
      destruct (Z.compare_spec (2 * r) B); destruct (Z.ltb_spec (2 * r) B);
        destruct (Z.eqb_spec (2 * r) B); try lia; reflexivity.
    - assert (Hodd : Z.odd B = true) by (rewrite <- Z.negb_even, Ev; reflexivity).
      apply Z.odd_spec in Hodd as [k Hk].
      unfold new_location_odd. destruct (Z.eqb_spec r 0); [lia |].
      destruct (Z.compare_spec (2 * r + 1) B); destruct (Z.ltb_spec (2 * r) B);
        destruct (Z.eqb_spec (2 * r) B); try lia; reflexivity. }
  rewrite Hloc.
  destruct (Z.ltb_spec (2 * r) B) as [Hlt | Hge].
  - rewrite (sticky_decomp _ B (2 * q) (2 * r)) by lia.
    destruct (Z.eqb_spec (2 * r) 0); lia.
  - destruct (Z.eqb_spec (2 * r) B) as [Heq | Hne].
    + rewrite (sticky_decomp _ B (2 * q + 1) 0) by lia. cbn [Z.eqb]. lia.
    + rewrite (sticky_decomp _ B (2 * q + 1) (2 * r - B)) by lia.
      destruct (Z.eqb_spec (2 * r - B) 0); lia.
Qed.

Lemma rnd_cancel (a b i j k : Z) :
  0 < b -> 0 <= i -> 0 <= j -> 0 <= k ->
  rnd (a * 2 ^ (i + k)) (b * 2 ^ (j + k)) = rnd (a * 2 ^ i) (b * 2 ^ j).
Proof.
  intros Hb Hi Hj Hk. rewrite !Z.pow_add_r, !Z.mul_assoc by lia.
  apply rnd_scale; [| apply Z.pow_pos_nonneg; lia].
  apply Z.mul_pos_pos; [lia | apply Z.pow_pos_nonneg; lia].
Qed.

(** Only the difference of the two exponents matters. *)
Lemma rnd_ratio (a b i j i' j' : Z) :
  0 < b -> 0 <= i -> 0 <= j -> 0 <= i' -> 0 <= j' -> i - j = i' - j' ->
  rnd (a * 2 ^ i) (b * 2 ^ j) = rnd (a * 2 ^ i') (b * 2 ^ j').
Proof.
  intros Hb Hi Hj Hi' Hj' Hd.
  destruct (Z.le_gt_cases i i') as [H | H].
  - replace i' with (i + (i' - i)) by lia. replace j' with (j + (i' - i)) by lia.
    symmetry. apply rnd_cancel; lia.
  - replace i with (i' + (i - i')) by lia. replace j with (j' + (i - i')) by lia.
    apply rnd_cancel; lia.
Qed.

Lemma quotient_digits (m1 m2 s : Z) :
  0 < m1 -> 0 < m2 -> 0 <= s ->
  Zdigits2 m1 + s - Zdigits2 m2 <= Zdigits2 (m1 * 2 ^ s / m2).
Proof.
  intros H1 H2 Hs.
  destruct (Z.le_gt_cases (Zdigits2 m1 + s - Zdigits2 m2) 0) as [H | H].
  { pose proof (Zdigits2_nonneg (m1 * 2 ^ s / m2)). lia. }
  pose proof (Zdigits2_bounds m1 H1) as [Hlo1 _].
  pose proof (Zdigits2_bounds m2 H2) as [_ Hhi2].
  pose proof (Zdigits2_nonneg m2) as Hd2.
  assert (Hd1 : 1 <= Zdigits2 m1) by (destruct m1; cbn [Zdigits2]; lia).
  apply Zdigits2_ge; [| lia].
  apply Z.div_le_lower_bound; [exact H2 |].
  set (t := Zdigits2 m1 + s - Zdigits2 m2 - 1) in *.
  assert (Ht : 0 < 2 ^ t) by (apply Z.pow_pos_nonneg; lia).
  assert (Hps : 0 < 2 ^ s) by (apply Z.pow_pos_nonneg; lia).
  assert (E : 2 ^ (Zdigits2 m1 - 1) * 2 ^ s = 2 ^ t * 2 ^ Zdigits2 m2).
  { rewrite <- !Z.pow_add_r by lia. f_equal. unfold t. lia. }
  assert (m2 * 2 ^ t <= 2 ^ Zdigits2 m2 * 2 ^ t) by (apply Z.mul_le_mono_nonneg_r; lia).
  assert (2 ^ (Zdigits2 m1 - 1) * 2 ^ s <= m1 * 2 ^ s) by (apply Z.mul_le_mono_nonneg_r; lia).
  lia.
Qed.

Lemma shifted_mantissa (m s : Z) :
  0 <= s ->
  match s with
  | Zpos _ => Z.shiftl m s
  | Z0 => m
  | Zneg _ => 0
  end = m * 2 ^ s.
Proof.
  intros Hs. destruct s as [| p | p].
  - rewrite Z.pow_0_r, Z.mul_1_r. reflexivity.
  - apply Z.shiftl_mul_pow2. lia.
  - lia.
Qed.

(** The quotient of two non-negative finite floats is the exact quotient
    rounded. *)
Lemma div_rnd (y d : spec_float) :
  nonneg_finite y = true -> nonneg_finite d = true -> 0 < ulps d ->
  SFdiv prec emax y d = rnd (ulps y * 2 ^ 149) (ulps d).
Proof.
  intros Hy Hd Hpos.
  destruct d as [sd | sd | | sd m2 e2]; try destruct sd; try discriminate.
  destruct y as [sy | sy | | sy m1 e1]; try destruct sy; try discriminate.
  { cbn [SFdiv xorb]. change (ulps (S754_zero false)) with 0.
    rewrite Z.mul_0_l. symmetry. apply rnd_0. exact Hpos. }
  cbn [nonneg_finite] in Hy, Hd.
  destruct (bounded_facts m1 e1 Hy) as (He1 & _).
  destruct (bounded_facts m2 e2 Hd) as (He2 & _).
  rewrite emin_value in *.
  cbn [SFdiv xorb]. unfold SFdiv_core_binary.
  set (d1 := Zdigits2 (Zpos m1)). set (d2 := Zdigits2 (Zpos m2)).
  set (e' := Z.min (fexp prec emax (d1 + e1 - (d2 + e2))) (e1 - e2)).
  set (s := e1 - e2 - e').
  assert (Hs : 0 <= s) by (unfold s, e'; lia).
  assert (Hps : 0 < 2 ^ s) by (apply Z.pow_pos_nonneg; lia).
  assert (Hm' : match s with
                | Zpos _ => Z.shiftl (Zpos m1) s
                | Z0 => Zpos m1
                | Zneg _ => 0
                end = Zpos m1 * 2 ^ s).
  { apply shifted_mantissa. exact Hs. }
  rewrite Hm'.
  assert (Hdiv : Z.div_eucl (Zpos m1 * 2 ^ s) (Zpos m2)
                 = (Zpos m1 * 2 ^ s / Zpos m2, (Zpos m1 * 2 ^ s) mod Zpos m2)).
  { unfold Z.div, Z.modulo. destruct (Z.div_eucl _ _); reflexivity. }
  rewrite Hdiv.
  set (q := Zpos m1 * 2 ^ s / Zpos m2). set (r := (Zpos m1 * 2 ^ s) mod Zpos m2).
  pose proof (Z.div_mod (Zpos m1 * 2 ^ s) (Zpos m2) ltac:(lia)) as Hqr.
  pose proof (Z.mod_pos_bound (Zpos m1 * 2 ^ s) (Zpos m2) ltac:(lia)) as Hr.
  fold q r in Hqr, Hr.
  rewrite (binary_round_aux_rnd q e' (new_location (Zpos m2) r) (Zpos m1 * 2 ^ s) (Zpos m2)).
  - cbn [ulps]. rewrite emin_value.
    replace (Zpos m1 * 2 ^ (e1 - -149) * 2 ^ 149) with (Zpos m1 * 2 ^ (e1 + 298))
      by (rewrite <- Z.mul_assoc, <- Z.pow_add_r by lia; do 2 f_equal; lia).
    rewrite <- Z.mul_assoc, <- Z.pow_add_r by lia.
    apply rnd_ratio; lia.
  - lia.
  - lia.
  - rewrite new_location_code by lia. rewrite <- Hqr. reflexivity.
  - pose proof (quotient_digits (Zpos m1) (Zpos m2) s ltac:(lia) ltac:(lia) Hs) as Hq.
    fold q d1 d2 in Hq.
    eapply Z.le_trans; [apply (Z.le_min_l _ (e1 - e2)) |]. fold e'.
    apply fexp_mono. unfold s in Hq. lia.
Qed.

Lemma mul_one_r (y : spec_float) :
  nonneg_finite y = true -> SFmul prec emax y one = y.
Proof.
  intros Hy. destruct y as [s | s | | s m e]; try destruct s; try discriminate.
  - reflexivity.
  - cbn [nonneg_finite] in Hy. change one with (S754_finite false 8388608 (-23)).
    cbn [SFmul xorb]. replace (e + -23) with (e - 23) by lia.
    apply binary_round_aux_scaled; [exact Hy | lia |].
    rewrite Pos2Z.inj_mul. reflexivity.
Qed.

Lemma add_zero_r (y : spec_float) :
  nonneg_finite y = true -> SFadd prec emax y (S754_zero false) = y.
Proof.
  intros Hy. destruct y as [s | s | | s m e]; try destruct s; try discriminate; reflexivity.
Qed.

(** ** The normalising remap of the calibration is monotone *)

Lemma leb_ulps (x y : f32) :
  nonneg_finite x = true -> nonneg_finite y = true ->
  leb x y = true <-> ulps x <= ulps y.
Proof.
  intros Hx Hy. unfold leb, SFleb. rewrite (compare_ulps x y Hx Hy).
  destruct (Z.compare_spec (ulps x) (ulps y)); split; intros; try lia; try reflexivity;
    discriminate.
Qed.

Lemma ltb_ulps (x y : f32) :
  nonneg_finite x = true -> nonneg_finite y = true ->
  ltb x y = true <-> ulps x < ulps y.
Proof.
  intros Hx Hy. unfold ltb, SFltb. rewrite (compare_ulps x y Hx Hy).
  destruct (Z.compare_spec (ulps x) (ulps y)); split; intros; try lia; try reflexivity;
    discriminate.
Qed.

(** Two non-negative finite floats of the same value are the same float. *)
Lemma ulps_inj (x y : f32) :
  nonneg_finite x = true -> nonneg_finite y = true -> ulps x = ulps y -> x = y.
Proof.
  intros Hx Hy E. pose proof (compare_ulps x y Hx Hy) as Hc.
  rewrite E, Z.compare_refl in Hc.
  destruct x as [sx | sx | | sx mx ex]; try destruct sx; try discriminate;
    destruct y as [sy | sy | | sy my ey]; try destruct sy; try discriminate.
  - reflexivity.
  - cbn [SFcompare] in Hc.
    destruct (Z.compare_spec ex ey) as [He | He | He]; try discriminate.
    injection Hc as Hc. apply Pos.compare_eq in Hc. subst. reflexivity.
Qed.

(** What is below a finite float is finite. *)
Lemma leb_finite (x v : f32) :
  nonneg_finite x = true \/ x = S754_infinity false ->
  nonneg_finite v = true -> leb x v = true -> nonneg_finite x = true.
Proof.
  intros [Hx | ->] Hv Hle; [exact Hx |].
  destruct v as [s | s | | s m e]; try destruct s; discriminate.
Qed.

Lemma rnd_le_finite (X B : Z) (v : f32) :
  0 <= X -> 0 < B -> nonneg_finite v = true -> X <= ulps v * B ->
  nonneg_finite (rnd X B) = true /\ ulps (rnd X B) <= ulps v.
Proof.
  intros HX HB Hv Hle.
  assert (Hl : leb (rnd X B) v = true).
  { rewrite <- (rnd_ulps v Hv) at 1. apply rnd_mono; lia. }
  assert (Hg : nonneg_finite (rnd X B) = true)
    by (eapply leb_finite; [apply rnd_good | exact Hv | exact Hl]; assumption).
  split; [exact Hg |]. apply leb_ulps; assumption.
Qed.

Lemma rnd_pos (X : Z) :
  0 < X -> nonneg_finite (rnd X 1) = true -> 0 < ulps (rnd X 1).
Proof.
  intros HX Hg.
  assert (Hl : leb (rnd 1 1) (rnd X 1) = true) by (apply rnd_mono; lia).
  change (rnd 1 1) with (S754_finite false 1 (-149)) in Hl.
  apply leb_ulps in Hl; [| reflexivity | exact Hg].
  change (ulps (S754_finite false 1 (-149))) with 1 in Hl. lia.
Qed.

Section Normalise.

Variables lo hi : f32.
Hypothesis Hlo : nonneg_finite lo = true.
Hypothesis Hhi : nonneg_finite hi = true.
Hypothesis Hspan : ulps lo < ulps hi.

(** The width of the raw range, as the code computes it. *)
Local Abbreviation width := (rnd (ulps hi - ulps lo) 1).

Lemma width_finite : nonneg_finite width = true /\ 0 < ulps width.
Proof.
  pose proof (ulps_nonneg lo).
  destruct (rnd_le_finite (ulps hi - ulps lo) 1 hi) as [Hg _]; try lia; try assumption.
  split; [exact Hg | apply rnd_pos; [lia | exact Hg]].
Qed.

(** The offset of a value in the range is finite and at most the width. *)
Lemma offset_finite (v : f32) :
  nonneg_finite v = true -> ulps lo <= ulps v <= ulps hi ->
  nonneg_finite (rnd (ulps v - ulps lo) 1) = true
  /\ ulps (rnd (ulps v - ulps lo) 1) <= ulps width.
Proof.
  intros Hv Hr. pose proof (ulps_nonneg lo).
  destruct (rnd_le_finite (ulps v - ulps lo) 1 v) as [Hg _]; try lia; try assumption.
  split; [exact Hg |]. destruct width_finite as [Hw _].
  apply leb_ulps; [exact Hg | exact Hw |]. apply rnd_mono; lia.
Qed.

(** [remap(value, min, max, 0.0f, 1.0f)] is the quotient of the rounded
    offset by the rounded width, rounded. *)
Lemma remap_unit (v : f32) :
  nonneg_finite v = true -> ulps lo <= ulps v <= ulps hi ->
  remap v lo hi zero one
  = rnd (ulps (rnd (ulps v - ulps lo) 1) * 2 ^ 149) (ulps width)
  /\ nonneg_finite (remap v lo hi zero one) = true.
Proof.
  intros Hv Hr. destruct width_finite as [Hw Hwp].
  destruct (offset_finite v Hv Hr) as [Ho Hole].
  pose proof (ulps_nonneg (rnd (ulps v - ulps lo) 1)) as Hon.
  assert (Hq : nonneg_finite
                 (rnd (ulps (rnd (ulps v - ulps lo) 1) * 2 ^ 149) (ulps width)) = true).
  { apply (rnd_le_finite _ _ one); [lia | lia | reflexivity |].
    change (ulps one) with (2 ^ 149). lia. }
  assert (E : remap v lo hi zero one
              = rnd (ulps (rnd (ulps v - ulps lo) 1) * 2 ^ 149) (ulps width)).
  { unfold remap, sub, mul, div, add. change (SFsub prec emax one zero) with one.
    rewrite (sub_rnd v lo), (sub_rnd hi lo) by (assumption || lia).
    rewrite mul_one_r by exact Ho. rewrite div_rnd by assumption.
    apply add_zero_r. exact Hq. }
  split; [exact E |]. rewrite E. exact Hq.
Qed.

(** The remap keeps the order of the values of the range. *)
Lemma remap_unit_mono (v w : f32) :
  nonneg_finite v = true -> nonneg_finite w = true ->
  ulps lo <= ulps w -> ulps w <= ulps v -> ulps v <= ulps hi ->
  leb (remap w lo hi zero one) (remap v lo hi zero one) = true.
Proof.
  intros Hv Hw H1 H2 H3. destruct width_finite as [Hg Hwp].
  destruct (remap_unit v Hv ltac:(lia)) as [-> _].
  destruct (remap_unit w Hw ltac:(lia)) as [-> _].
  destruct (offset_finite v Hv ltac:(lia)) as [Hov _].
  destruct (offset_finite w Hw ltac:(lia)) as [How _].
  assert (Hle : ulps (rnd (ulps w - ulps lo) 1) <= ulps (rnd (ulps v - ulps lo) 1)).
  { apply leb_ulps; [exact How | exact Hov |].
    pose proof (ulps_nonneg lo). apply rnd_mono; lia. }
  pose proof (ulps_nonneg (rnd (ulps w - ulps lo) 1)).
  apply rnd_mono; try lia.
  apply Z.mul_le_mono_nonneg_r; [lia |]. apply Z.mul_le_mono_nonneg_r; lia.
Qed.

(** The maximum goes to 1.0 and the minimum to 0.0. *)
Lemma remap_unit_max : remap hi lo hi zero one = one.
Proof.
  destruct width_finite as [Hg Hwp].
  destruct (remap_unit hi Hhi ltac:(lia)) as [-> _].
  replace (ulps width * 2 ^ 149) with (2 ^ 149 * ulps width) by lia.
  rewrite <- (Z.mul_1_l (ulps width)) at 2.
  rewrite rnd_scale by lia. reflexivity.
Qed.

Lemma remap_unit_min : remap lo lo hi zero one = zero.
Proof.
  destruct width_finite as [Hg Hwp].
  destruct (remap_unit lo Hlo ltac:(lia)) as [-> _].
  rewrite Z.sub_diag. rewrite (rnd_0 1) by lia.
  change (ulps (S754_zero false)) with 0. rewrite Z.mul_0_l. apply rnd_0. exact Hwp.
Qed.

End Normalise.

(** ** The sort of the calibration table *)

Lemma insert_desc_perm (x : f32) (l : list f32) : insert_desc x l ≡ₚ x :: l.
Proof.
  induction l as [| y l IH]; cbn [insert_desc]; [reflexivity |].
  destruct (ltb x y); [| reflexivity].
  rewrite IH. apply Permutation_swap.
Qed.

Lemma sort_desc_perm (l : list f32) : sort_desc l ≡ₚ l.
Proof.
  induction l as [| x l IH]; [reflexivity |].
  unfold sort_desc in *. cbn [foldr]. rewrite insert_desc_perm, IH. reflexivity.
Qed.

Lemma insert_desc_sorted (x : f32) (l : list f32) :
  nonneg_finite x = true ->
  Forall (fun y => nonneg_finite y = true) l ->
  StronglySorted descending l ->
  StronglySorted descending (insert_desc x l).
Proof.
  intros Hx Hl Hs. induction l as [| y l IH]; cbn [insert_desc].
  - repeat constructor.
  - apply Forall_cons in Hl as [Hy Hl].
    apply StronglySorted_cons in Hs as [Hall Hs].
    destruct (ltb x y) eqn:Hxy.
    + apply ltb_ulps in Hxy; [| assumption | assumption].
      apply StronglySorted_cons. split; [| apply IH; assumption].
      rewrite insert_desc_perm. constructor; [unfold descending; lia | exact Hall].
    + assert (Hyx : ulps y <= ulps x).
      { destruct (Z.le_gt_cases (ulps y) (ulps x)) as [H | H]; [exact H |].
        apply ltb_ulps in H; [| assumption | assumption]. congruence. }
      apply StronglySorted_cons. split; [| apply StronglySorted_cons; split; assumption].
      constructor; [exact Hyx |].
      eapply Forall_impl; [exact Hall |]. unfold descending. intros z Hz. lia.
Qed.

Lemma sort_desc_sorted (l : list f32) :
  Forall (fun y => nonneg_finite y = true) l ->
  StronglySorted descending (sort_desc l).
Proof.
  induction l as [| x l IH]; intros Hl; [constructor |].
  apply Forall_cons in Hl as [Hx Hl]. unfold sort_desc in *. cbn [foldr].
  apply insert_desc_sorted; [exact Hx | | apply IH; exact Hl].
  fold (sort_desc l). rewrite sort_desc_perm. exact Hl.
Qed.

Lemma sorted_lookup (l : list f32) (i j : nat) (a b : f32) :
  StronglySorted descending l ->
  l !! i = Some a -> l !! j = Some b -> (i <= j)%nat -> ulps b <= ulps a.
Proof.
  intros Hs. revert i j. induction Hs as [| x l Hs IH Hall]; intros i j Hi Hj Hij.
  - discriminate.
  - destruct i as [| i]; destruct j as [| j]; cbn in Hi, Hj; try lia.
    + injection Hi as <-. injection Hj as <-. lia.
    + injection Hi as <-. rewrite Forall_forall in Hall.
      apply Hall. eapply list_elem_of_lookup_2. exact Hj.
    + apply (IH i j); [assumption | assumption | lia].
Qed.

Lemma fget_map (f : f32 -> f32) (l : list f32) (i : nat) (x : f32) :
  l !! i = Some x -> fget (map f l) (Z.of_nat i) = f x.
Proof.
  intros H. unfold fget. rewrite Nat2Z.id.
  change (map f l) with (f <$> l). rewrite list_lookup_fmap, H. reflexivity.
Qed.
(** * Proofs *)

(** ** Arithmetic of bytes and words *)

Lemma u8_id x : is_u8 x -> u8 x = x.
Proof. unfold is_u8, u8. intros H. apply Z.mod_small. lia. Qed.

Lemma u8_range x : is_u8 (u8 x).
Proof. unfold is_u8, u8. pose proof (Z.mod_pos_bound x (2 ^ 8)). lia. Qed.

Lemma u16_range x : 0 <= u16 x < 65536.
Proof. unfold u16. pose proof (Z.mod_pos_bound x (2 ^ 16)). lia. Qed.

Lemma lor_shiftl_8 hi lo : 0 <= lo < 256 -> Z.lor (Z.shiftl hi 8) lo = hi * 256 + lo.
Proof.
  intros Hlo. rewrite Z.shiftl_mul_pow2 by lia. change (2 ^ 8) with 256.
  rewrite <- Z.lxor_lor, <- Z.add_nocarry_lxor; try reflexivity.
  all: apply Z.bits_inj'; intros n Hn; rewrite Z.land_spec, Z.bits_0.
  all: destruct (Z.lt_ge_cases n 8) as [Hlt | Hge].
  all: try (replace (hi * 256) with (hi * 2 ^ 8) by reflexivity;
            rewrite Z.mul_pow2_bits_low by lia; reflexivity).
  all: rewrite (Z.bits_above_log2 lo n), andb_false_r; try reflexivity; try lia.
  all: destruct (Z.eq_dec lo 0) as [-> | Hne]; [simpl; lia |].
  all: apply Z.log2_lt_pow2; try lia.
  all: apply Z.lt_le_trans with (2 ^ 8); [simpl; lia | apply Z.pow_le_mono_r; lia].
Qed.

(** A 16-bit word is put back together from the two bytes the framing
    splits it into. *)
Lemma csum_bytes_join csum :
  0 <= csum < 65536 ->
  u16 (Z.lor (Z.shiftl (u8 (Z.shiftr csum 8)) 8) (u8 (Z.land csum 255))) = csum.
Proof.
  intros H. rewrite Z.shiftr_div_pow2 by lia.
  change 255 with (Z.ones 8). rewrite Z.land_ones by lia.
  change (2 ^ 8) with 256. unfold u8. change (2 ^ 8) with 256.
  rewrite (Z.mod_small (csum / 256)) by (split; [apply Z.div_pos; lia | apply Z.div_lt_upper_bound; lia]).
  rewrite Z.mod_mod by lia.
  rewrite lor_shiftl_8 by (apply Z.mod_pos_bound; lia).
  unfold u16. rewrite Z.mod_small; [| change (2 ^ 16) with 65536; pose proof (Z.div_mod csum 256); pose proof (Z.mod_pos_bound csum 256); lia].
  pose proof (Z.div_mod csum 256). lia.
Qed.

Lemma csum_word_split cs :
  0 <= cs < 2 ^ 16 -> u16 (Z.lor (Z.shiftl (cs / 256) 8) (cs mod 256)) = cs.
Proof.
  intros H. rewrite lor_shiftl_8 by (apply Z.mod_pos_bound; lia).
  unfold u16. pose proof (Z.div_mod cs 256).
  rewrite Z.mod_small; lia.
Qed.

Lemma checksum_fold_from (l : list Z) (acc : Z) :
  fold_left (fun a b => u16 (a + b)) l (u16 acc) = u16 (acc + sum_bytes l).
Proof.
  revert acc. induction l as [| b l IH]; intros acc; simpl.
  - f_equal. lia.
  - replace (u16 (u16 acc + b)) with (u16 (acc + b)).
    + rewrite IH. f_equal. lia.
    + unfold u16. rewrite Zplus_mod_idemp_l. reflexivity.
Qed.

(** The checksum is the sum of the bytes modulo 2^16. *)
Lemma checksum_is_sum (buf : list Z) (len : Z) :
  shelly_dimmer_checksum buf len = sum_bytes (take (Z.to_nat len) buf) mod 2 ^ 16.
Proof.
  unfold shelly_dimmer_checksum.
  change 0 with (u16 0) at 1. rewrite checksum_fold_from. reflexivity.
Qed.

(** ** The frame that [frame_command_] builds *)

Lemma csum_hi_byte csum :
  0 <= csum < 65536 -> u8 (Z.shiftr csum 8) = csum / 256.
Proof.
  intros H. rewrite Z.shiftr_div_pow2 by lia. change (2 ^ 8) with 256.
  apply u8_id. unfold is_u8.
  split; [apply Z.div_pos; lia | apply Z.div_lt_upper_bound; lia].
Qed.

Lemma csum_lo_byte csum : u8 (Z.land csum 255) = csum mod 256.
Proof.
  change 255 with (Z.ones 8). rewrite Z.land_ones by lia.
  unfold u8. change (2 ^ 8) with 256. apply Z.mod_mod. lia.
Qed.

Lemma memcpy_after_header (a b c d : Z) (rest payload : list Z) :
  memcpy (a :: b :: c :: d :: rest) 4 payload (Z.of_nat (length payload))
  = a :: b :: c :: d :: payload ++ drop (length payload) rest.
Proof.
  unfold memcpy. rewrite Nat2Z.id. change (Z.to_nat 4) with 4%nat.
  rewrite (take_ge payload) by lia. reflexivity.
Qed.

Lemma insert_trailer (payload : list Z) (r0 r1 r2 x0 x1 x2 : Z) (rest : list Z) :
  <[(length payload + 2)%nat := x2]>
    (<[(length payload + 1)%nat := x1]>
       (<[(length payload + 0)%nat := x0]> (payload ++ r0 :: r1 :: r2 :: rest)))
  = payload ++ x0 :: x1 :: x2 :: rest.
Proof.
  rewrite !insert_app_r. reflexivity.
Qed.

Lemma frame_command_frame (st : ShellyDimmer) (data : list Z) (cmd : Z)
    (payload : list Z) :
  (length payload + 7 <= length data)%nat ->
  (length payload < 256)%nat ->
  frame_command_ st data cmd (Some payload) (Z.of_nat (length payload))
  = (with_seq_ st (u8 (seq_ st + 1)),
     frame_of (u8 (seq_ st + 1)) cmd payload
       ++ drop (length payload + 7) data,
     Z.of_nat (length payload) + 7).
Proof.
  intros Hlen Hp.
  destruct data as [| d0 [| d1 [| d2 [| d3 rest]]]]; simpl in Hlen; try lia.
  unfold frame_command_, frame_of.
  set (len := Z.of_nat (length payload)).
  set (seq := u8 (seq_ st + 1)).
  assert (Hulen : u8 len = len) by (apply u8_id; unfold is_u8; lia).
  cbn [seq_ with_seq_]. fold seq. rewrite Hulen.
  change (aset (aset (aset (aset (d0 :: d1 :: d2 :: d3 :: rest) 0
            SHELLY_DIMMER_PROTO_START_BYTE) 1 seq) 2 cmd) 3 len)
    with (SHELLY_DIMMER_PROTO_START_BYTE :: seq :: cmd :: len :: rest).
  rewrite !(memcpy_after_header _ _ _ _ rest payload : memcpy _ 4 payload len = _).
  assert (Hrest : exists r0 r1 r2 rest',
             drop (length payload) rest = r0 :: r1 :: r2 :: rest').
  { assert (3 <= length (drop (length payload) rest))%nat
      by (rewrite length_drop; lia).
    destruct (drop (length payload) rest) as [| r0 [| r1 [| r2 rest']]];
      simpl in *; try lia. eauto. }
  destruct Hrest as (r0 & r1 & r2 & rest' & Hrest). rewrite Hrest.
  assert (Hcsum : shelly_dimmer_checksum
            (drop 1 (SHELLY_DIMMER_PROTO_START_BYTE :: seq :: cmd :: len
                       :: payload ++ r0 :: r1 :: r2 :: rest')) (3 + len)
          = sum_bytes (seq :: cmd :: len :: payload) mod 2 ^ 16).
  { rewrite checksum_is_sum. f_equal. f_equal.
    replace (Z.to_nat (3 + len)) with (3 + length payload)%nat by lia.
    cbn [drop take Init.Nat.add]. do 3 f_equal.
    rewrite take_app_length. reflexivity. }
  rewrite Hcsum.
  set (csum := sum_bytes (seq :: cmd :: len :: payload) mod 2 ^ 16).
  assert (Hc : 0 <= csum < 65536) by (apply Z.mod_pos_bound; lia).
  rewrite csum_hi_byte, csum_lo_byte by exact Hc.
  f_equal; [| lia]. f_equal.
  unfold aset.
  replace (Z.to_nat (0 + 4 + len)) with (4 + (length payload + 0))%nat by lia.
  replace (Z.to_nat (0 + 4 + len + 1)) with (4 + (length payload + 1))%nat by lia.
  replace (Z.to_nat (0 + 4 + len + 2)) with (4 + (length payload + 2))%nat by lia.
  cbn [Init.Nat.add]. cbn [insert list_insert].
  change (list_insert ?i ?x ?l) with (<[i:=x]> l).
  rewrite insert_trailer.
  replace (drop (length payload + 7) (d0 :: d1 :: d2 :: d3 :: rest)) with rest'.
  - cbn [app]. rewrite <- app_assoc. reflexivity.
  - replace (length payload + 7)%nat with (4 + (length payload + 3))%nat by lia.
    cbn [drop Init.Nat.add]. rewrite <- drop_drop, Hrest. reflexivity.
Qed.

(** ** The parser accepts the frames of [frame_of] *)

Lemma take_eq_lookup {A} (l1 l2 : list A) (n i : nat) :
  take n l1 = take n l2 -> (i < n)%nat -> l1 !! i = l2 !! i.
Proof.
  intros H Hi.
  rewrite <- (lookup_take_lt l1 n i), <- (lookup_take_lt l2 n i) by lia.
  rewrite H. reflexivity.
Qed.

Lemma take_eq_le {A} (l1 l2 : list A) (n m : nat) :
  take n l1 = take n l2 -> (m <= n)%nat -> take m l1 = take m l2.
Proof.
  intros H Hm.
  replace m with (min m n) by lia.
  rewrite <- (take_take l1 m n), <- (take_take l2 m n).
  rewrite H. reflexivity.
Qed.

Lemma take_insert_extend {A} (l f : list A) (k : nat) (c : A) :
  take k l = take k f -> f !! k = Some c -> (k < length l)%nat ->
  take (S k) (<[k := c]> l) = take (S k) f.
Proof.
  intros H Hf Hk.
  rewrite (take_S_r _ _ c) by (apply list_lookup_insert_eq; exact Hk).
  rewrite (take_S_r f _ c) by exact Hf.
  rewrite take_insert_ge by lia. rewrite H. reflexivity.
Qed.

Lemma aget_lookup (a : list Z) (i : nat) (x : Z) :
  a !! i = Some x -> aget a (Z.of_nat i) = x.
Proof. unfold aget. rewrite Nat2Z.id. intros ->. reflexivity. Qed.

Lemma handle_frame_buffer (st : ShellyDimmer) :
  buffer_ (snd (handle_frame_ st)) = buffer_ st
  /\ seq_ (snd (handle_frame_ st)) = seq_ st.
Proof.
  unfold handle_frame_.
  repeat match goal with
         | |- context [if ?b then _ else _] => destruct b
         end; split; reflexivity.
Qed.

Section Accept.

Variable SHELLY_DIMMER_BUFFER_SIZE : Z.
Variables (seq cmd : Z) (payload : list Z).

Local Abbreviation len := (Z.of_nat (length payload)).
Local Abbreviation csum := (sum_bytes (seq :: cmd :: len :: payload) mod 2 ^ 16).
Local Abbreviation frame := (frame_of seq cmd payload).

Hypothesis Hfits : len + 7 <= SHELLY_DIMMER_BUFFER_SIZE.
Hypothesis Hlen : len + 7 <= 256.

Lemma frame_of_length : length frame = (length payload + 7)%nat.
Proof.
  unfold frame_of. rewrite !length_app. simpl. lia.
Qed.

Lemma frame_of_start : frame !! 0%nat = Some SHELLY_DIMMER_PROTO_START_BYTE.
Proof. reflexivity. Qed.

Lemma frame_of_len : frame !! 3%nat = Some len.
Proof. reflexivity. Qed.

Lemma frame_of_csum_hi : frame !! (length payload + 4)%nat = Some (csum / 256).
Proof.
  unfold frame_of.
  rewrite lookup_app_r by (simpl; lia).
  rewrite lookup_app_r by (simpl; lia).
  replace (length payload + 4 - length [SHELLY_DIMMER_PROTO_START_BYTE; seq; cmd; Z.of_nat (length payload)] - length payload)%nat with 0%nat by (simpl; lia).
  reflexivity.
Qed.

Lemma frame_of_csum_lo : frame !! (length payload + 5)%nat = Some (csum mod 256).
Proof.
  unfold frame_of.
  rewrite lookup_app_r by (simpl; lia).
  rewrite lookup_app_r by (simpl; lia).
  replace (length payload + 5 - length [SHELLY_DIMMER_PROTO_START_BYTE; seq; cmd; Z.of_nat (length payload)] - length payload)%nat with 1%nat by (simpl; lia).
  reflexivity.
Qed.

Lemma frame_of_end :
  frame !! (length payload + 6)%nat = Some SHELLY_DIMMER_PROTO_END_BYTE.
Proof.
  unfold frame_of.
  rewrite lookup_app_r by (simpl; lia).
  rewrite lookup_app_r by (simpl; lia).
  replace (length payload + 6 - length [SHELLY_DIMMER_PROTO_START_BYTE; seq; cmd; Z.of_nat (length payload)] - length payload)%nat with 2%nat by (simpl; lia).
  reflexivity.
Qed.

Lemma frame_of_checksummed :
  take (3 + length payload) (drop 1 frame) = seq :: cmd :: len :: payload.
Proof.
  unfold frame_of. cbn [app drop take Init.Nat.add].
  do 3 f_equal. apply take_app_length.
Qed.

(** On the byte [c] at offset [k] of the frame, with the buffer already
    holding the frame up to and including that byte, the classifier asks
    for more until the last byte, which completes the frame. *)
Lemma handle_byte_on_frame (st : ShellyDimmer) (k : nat) (c : Z) :
  buffer_pos_ st = Z.of_nat k ->
  take (S k) (buffer_ st) = take (S k) frame ->
  frame !! k = Some c ->
  handle_byte_ SHELLY_DIMMER_BUFFER_SIZE st c
  = if (k =? length payload + 6)%nat then 0 else 1.
Proof.
  intros Hpos Hbuf Hc.
  assert (Hk : (k < length payload + 7)%nat).
  { rewrite <- frame_of_length. eapply lookup_lt_Some; eauto. }
  unfold handle_byte_. rewrite Hpos.
  destruct (Z.eqb_spec (Z.of_nat k) 0) as [H0 | H0].
  { assert (k = 0%nat) by lia. subst k.
    rewrite frame_of_start in Hc. injection Hc as <-.
    destruct (Nat.eqb_spec 0 (length payload + 6)); [lia | reflexivity]. }
  destruct (Z.ltb_spec (Z.of_nat k) 4) as [H4 | H4].
  { destruct (Nat.eqb_spec k (length payload + 6)); [lia | reflexivity]. }
  assert (Hl : aget (buffer_ st) 3 = len).
  { change 3 with (Z.of_nat 3). apply aget_lookup.
    rewrite (take_eq_lookup _ _ _ 3 Hbuf) by lia. apply frame_of_len. }
  rewrite Hl.
  destruct (Z.gtb_spec (4 + len + 3) SHELLY_DIMMER_BUFFER_SIZE) as [Hb | Hb]; [lia |].
  destruct (Z.ltb_spec (Z.of_nat k) (4 + len + 1)) as [H5 | H5].
  { destruct (Nat.eqb_spec k (length payload + 6)); [lia | reflexivity]. }
  destruct (Z.eqb_spec (Z.of_nat k) (4 + len + 1)) as [H6 | H6].
  { assert (Hk5 : k = (length payload + 5)%nat) by lia. subst k.
    assert (Hlo : c = csum mod 256)
      by (rewrite frame_of_csum_lo in Hc; congruence).
    assert (Hhi : aget (buffer_ st) (Z.of_nat (length payload + 5) - 1) = csum / 256).
    { replace (Z.of_nat (length payload + 5) - 1) with (Z.of_nat (length payload + 4)) by lia.
      apply aget_lookup.
      rewrite (take_eq_lookup _ _ _ (length payload + 4) Hbuf) by lia.
      apply frame_of_csum_hi. }
    assert (Hv : shelly_dimmer_checksum (drop 1 (buffer_ st)) (3 + len) = csum).
    { rewrite checksum_is_sum.
      replace (Z.to_nat (3 + len)) with (3 + length payload)%nat by lia.
      rewrite take_drop_commute.
      rewrite (take_eq_le _ _ _ (1 + (3 + length payload)) Hbuf) by lia.
      rewrite <- take_drop_commute, frame_of_checksummed. reflexivity. }
    rewrite Hhi, Hv, Hlo.
    rewrite csum_word_split by (apply Z.mod_pos_bound; lia).
    rewrite Z.eqb_refl. simpl.
    destruct (Nat.eqb_spec (length payload + 5) (length payload + 6)); [lia | reflexivity]. }
  assert (Hk6 : k = (length payload + 6)%nat) by lia. subst k.
  rewrite frame_of_end in Hc. injection Hc as <-.
  destruct (Z.eqb_spec (Z.of_nat (length payload + 6)) (4 + len + 2)); [| lia].
  rewrite Nat.eqb_refl. reflexivity.
Qed.

(** Fed with the frame from offset [k] on, a parser that already holds
    the first [k] bytes completes it on the last byte and on no earlier
    one: nothing of the input is left. *)
Lemma read_frame_loop_on_frame (n k : nat) (st : ShellyDimmer) :
  (n + k = length frame)%nat -> (0 < n)%nat ->
  buffer_pos_ st = Z.of_nat k ->
  take k (buffer_ st) = take k frame ->
  (length frame <= length (buffer_ st))%nat ->
  exists st',
    read_frame_loop SHELLY_DIMMER_BUFFER_SIZE st (drop k frame) = (true, st', [])
    /\ holds_frame st' frame /\ buffer_pos_ st' = 0 /\ seq_ st' = seq_ st.
Proof.
  revert k st. induction n as [| n IH]; intros k st Hn Hpos Hk Hbuf Hsize; [lia |].
  pose proof frame_of_length as Hfl.
  destruct (lookup_lt_is_Some_2 frame k) as [c Hc]; [lia |].
  rewrite (drop_S _ _ _ Hc). cbn [read_frame_loop].
  unfold read_frame_byte.
  set (st1 := with_buffer_ st (aset (buffer_ st) (buffer_pos_ st) c)).
  assert (Hbuf1 : take (S k) (buffer_ st1) = take (S k) frame).
  { unfold st1, aset. cbn [buffer_ with_buffer_]. rewrite Hk, Nat2Z.id.
    apply take_insert_extend; [exact Hbuf | exact Hc | lia]. }
  assert (Hsize1 : length (buffer_ st1) = length (buffer_ st)).
  { unfold st1, aset. cbn [buffer_ with_buffer_]. apply length_insert. }
  rewrite (handle_byte_on_frame st1 k c Hk Hbuf1 Hc).
  destruct (Nat.eqb_spec k (length payload + 6)) as [Hlast | Hmore].
  - cbn [Z.eqb]. destruct (handle_frame_ st1) as [b st2] eqn:Hf.
    pose proof (handle_frame_buffer st1) as [Hb2 Hs2]. rewrite Hf in Hb2, Hs2.
    cbn [snd] in Hb2, Hs2. cbn [Z.eqb].
    exists (with_buffer_pos_ st2 0). split; [| split; [| split]].
    + rewrite drop_ge by lia. reflexivity.
    + unfold holds_frame. cbn [buffer_ with_buffer_pos_]. rewrite Hb2.
      replace (length frame) with (S k) by lia. rewrite Hbuf1.
      apply take_ge. lia.
    + reflexivity.
    + cbn [seq_ with_buffer_pos_]. rewrite Hs2. reflexivity.
  - cbn [Z.eqb].
    destruct (IH (S k) (with_buffer_pos_ st1 (u8 (buffer_pos_ st1 + 1))))
      as (st' & Hrun & Hholds & Hpos' & Hseq'); try lia.
    + cbn [buffer_pos_ with_buffer_pos_ with_buffer_ st1]. rewrite Hk.
      rewrite u8_id by (unfold is_u8; lia). lia.
    + exact Hbuf1.
    + cbn [buffer_ with_buffer_pos_]. lia.
    + exists st'. repeat split; assumption.
Qed.

End Accept.

(** ** Framing: the claims *)

(** C1. Round trip of framing: for every command and every payload of at
    most 72 bytes, the bytes [frame_command_] produces, fed to the frame
    parser of a driver whose parser is at position 0 and whose receive buffer
    takes a maximal frame, are accepted on the last byte (the parser returns
    true with no input left); the receive buffer then holds the command at
    offset 2 and the payload from offset 4; and the two checksum bytes of the
    frame, high byte first, are the sum modulo 2^16 of the bytes from SEQ
    through the last payload byte. *)
Theorem frame_roundtrip (SHELLY_DIMMER_BUFFER_SIZE : Z) (st rx0 : ShellyDimmer)
    (data : list Z) (cmd : Z) (payload : list Z) :
  (length payload <= 72)%nat ->
  length data = Z.to_nat SHELLY_DIMMER_PROTO_MAX_FRAME_SIZE ->
  SHELLY_DIMMER_PROTO_MAX_FRAME_SIZE <= SHELLY_DIMMER_BUFFER_SIZE ->
  length (buffer_ rx0) = Z.to_nat SHELLY_DIMMER_BUFFER_SIZE ->
  buffer_pos_ rx0 = 0 ->
  let len := Z.of_nat (length payload) in
  let '(_, data', frame_len) := frame_command_ st data cmd (Some payload) len in
  let frame := take (Z.to_nat frame_len) data' in
  (exists rx',
      read_frame_loop SHELLY_DIMMER_BUFFER_SIZE rx0 frame = (true, rx', [])
      /\ aget (buffer_ rx') 2 = cmd
      /\ take (length payload) (drop 4 (buffer_ rx')) = payload)
  /\ aget frame (4 + len) * 256 + aget frame (4 + len + 1)
     = sum_bytes (take (3 + length payload) (drop 1 frame)) mod 2 ^ 16.
Proof.
  intros Hp Hdata Hsize Hbuf Hpos len.
  change (Z.to_nat SHELLY_DIMMER_PROTO_MAX_FRAME_SIZE) with 79%nat in Hdata.
  change SHELLY_DIMMER_PROTO_MAX_FRAME_SIZE with 79 in Hsize.
  unfold len. rewrite frame_command_frame by lia.
  set (seq := u8 (seq_ st + 1)).
  set (frame := frame_of seq cmd payload).
  assert (Hfl : length frame = (length payload + 7)%nat)
    by apply frame_of_length.
  replace (Z.to_nat (Z.of_nat (length payload) + 7)) with (length frame) by lia.
  rewrite take_app_length.
  split.
  - destruct (read_frame_loop_on_frame SHELLY_DIMMER_BUFFER_SIZE seq cmd payload
                ltac:(lia) ltac:(lia) (length frame) 0 rx0)
      as (rx' & Hrun & Hholds & _ & _).
    + fold frame. lia.
    + fold frame. lia.
    + rewrite Hpos. reflexivity.
    + reflexivity.
    + fold frame. lia.
    + exists rx'. split; [exact Hrun |]. unfold holds_frame in Hholds.
      fold frame in Hholds. split.
      * change 2 with (Z.of_nat 2). apply aget_lookup.
        rewrite <- (lookup_take_lt _ (length frame)) by lia.
        rewrite Hholds. reflexivity.
      * rewrite take_drop_commute.
        replace (4 + length payload)%nat with (min (4 + length payload) (length frame)) by lia.
        rewrite <- (take_take (buffer_ rx')), Hholds. unfold frame, frame_of. cbn [app take drop Init.Nat.add].
        apply take_app_length.
  - unfold frame. rewrite (frame_of_checksummed seq cmd payload).
    replace (4 + Z.of_nat (length payload)) with (Z.of_nat (length payload + 4)) by lia.
    replace (Z.of_nat (length payload + 4) + 1) with (Z.of_nat (length payload + 5)) by lia.
    rewrite (aget_lookup _ _ _ (frame_of_csum_hi seq cmd payload)).
    rewrite (aget_lookup _ _ _ (frame_of_csum_lo seq cmd payload)).
    match goal with |- ?a / 256 * 256 + _ = _ => pose proof (Z.div_mod a 256) end.
    lia.
Qed.

Lemma frame_roundtrip_witness :
  (length [0xE8; 0x03] <= 72)%nat
  /\ let '(_, data', frame_len) :=
       frame_command_ (fresh_driver 79) blank_frame
                      SHELLY_DIMMER_PROTO_CMD_SWITCH (Some [0xE8; 0x03]) 2 in
     let frame := take (Z.to_nat frame_len) data' in
     (exists rx',
         read_frame_loop 79 (fresh_driver 79) frame = (true, rx', [])
         /\ aget (buffer_ rx') 2 = SHELLY_DIMMER_PROTO_CMD_SWITCH
         /\ take 2 (drop 4 (buffer_ rx')) = [0xE8; 0x03])
     /\ aget frame (4 + 2) * 256 + aget frame (4 + 2 + 1)
        = sum_bytes (take 5 (drop 1 frame)) mod 2 ^ 16.
Proof.
  split; [simpl; lia |].
  apply (frame_roundtrip 79 (fresh_driver 79) (fresh_driver 79) blank_frame
           SHELLY_DIMMER_PROTO_CMD_SWITCH [0xE8; 0x03]);
    [simpl; lia | reflexivity | vm_compute; discriminate | reflexivity | reflexivity].
Defined.

(** C2. With the sequence counter at 0, framing a SWITCH command with
    payload E8 03 increments the counter to 1 and produces the 9 bytes
    01 01 01 02 E8 03 00 EF 04: START, the pre-incremented SEQ, CMD, LEN, the
    payload, the checksum high byte 00, its low byte EF, END. *)
Theorem frame_switch_example (st : ShellyDimmer) (data : list Z) :
  seq_ st = 0 ->
  length data = Z.to_nat SHELLY_DIMMER_PROTO_MAX_FRAME_SIZE ->
  let '(st', data', frame_len) :=
    frame_command_ st data SHELLY_DIMMER_PROTO_CMD_SWITCH (Some [0xE8; 0x03]) 2 in
  seq_ st' = 1 /\ frame_len = 9
  /\ take (Z.to_nat frame_len) data'
     = [0x01; 0x01; 0x01; 0x02; 0xE8; 0x03; 0x00; 0xEF; 0x04].
Proof.
  intros Hseq Hdata.
  change (Z.to_nat SHELLY_DIMMER_PROTO_MAX_FRAME_SIZE) with 79%nat in Hdata.
  change 2 with (Z.of_nat (length [0xE8; 0x03])).
  rewrite (frame_command_frame st data SHELLY_DIMMER_PROTO_CMD_SWITCH [0xE8; 0x03])
    by (simpl; lia).
  rewrite Hseq. cbn [seq_ with_seq_]. repeat split.
Qed.

Lemma frame_switch_example_witness :
  seq_ (fresh_driver 79) = 0
  /\ let '(st', data', frame_len) :=
       frame_command_ (fresh_driver 79) blank_frame
                      SHELLY_DIMMER_PROTO_CMD_SWITCH (Some [0xE8; 0x03]) 2 in
     seq_ st' = 1 /\ frame_len = 9
     /\ take (Z.to_nat frame_len) data'
        = [0x01; 0x01; 0x01; 0x02; 0xE8; 0x03; 0x00; 0xEF; 0x04].
Proof.
  split; [reflexivity |].
  apply (frame_switch_example (fresh_driver 79) blank_frame); reflexivity.
Defined.

(** ** The parser stays inside its buffer *)

Lemma handle_frame_parser (st : ShellyDimmer) :
  buffer_ (snd (handle_frame_ st)) = buffer_ st
  /\ buffer_pos_ (snd (handle_frame_ st)) = buffer_pos_ st.
Proof.
  unfold handle_frame_.
  repeat match goal with
         | |- context [if ?b then _ else _] => destruct b
         end; split; reflexivity.
Qed.

Lemma aget_u8 (a : list Z) (i : Z) : Forall is_u8 a -> is_u8 (aget a i).
Proof.
  intros H. unfold aget. destruct (a !! Z.to_nat i) as [x |] eqn:E; simpl.
  - rewrite Forall_lookup in H. exact (H _ _ E).
  - unfold is_u8. lia.
Qed.

Lemma aget_aset_ne (a : list Z) (i j v : Z) :
  0 <= i -> 0 <= j -> i <> j -> aget (aset a i v) j = aget a j.
Proof.
  intros Hi Hj Hne. unfold aget, aset.
  rewrite list_lookup_insert_ne by lia. reflexivity.
Qed.

Lemma u8_succ (x : Z) :
  0 <= x < 256 -> u8 (x + 1) = x + 1 /\ x + 1 < 256 \/ u8 (x + 1) = 0.
Proof.
  intros H. destruct (Z.eq_dec x 255) as [-> | Hne].
  - right. reflexivity.
  - left. split; [apply u8_id; unfold is_u8 |]; lia.
Qed.

Section Bounds.

Variable SHELLY_DIMMER_BUFFER_SIZE : Z.
Hypothesis Hsize : 5 <= SHELLY_DIMMER_BUFFER_SIZE.

Lemma parser_inv_reset (st : ShellyDimmer) :
  length (buffer_ st) = Z.to_nat SHELLY_DIMMER_BUFFER_SIZE ->
  Forall is_u8 (buffer_ st) ->
  parser_inv SHELLY_DIMMER_BUFFER_SIZE (with_buffer_pos_ st 0).
Proof.
  intros Hl Hb. unfold parser_inv. cbn [buffer_ buffer_pos_ with_buffer_pos_].
  repeat split; try assumption; lia.
Qed.

(** One received byte keeps the invariant. *)
Lemma read_frame_byte_inv (st : ShellyDimmer) (c : Z) :
  is_u8 c ->
  parser_inv SHELLY_DIMMER_BUFFER_SIZE st ->
  parser_inv SHELLY_DIMMER_BUFFER_SIZE
             (snd (read_frame_byte SHELLY_DIMMER_BUFFER_SIZE st c)).
Proof.
  intros Hc (Hl & Hb & Hpos & Hpos8 & Hframe).
  unfold read_frame_byte.
  set (st1 := with_buffer_ st (aset (buffer_ st) (buffer_pos_ st) c)).
  assert (Hl1 : length (buffer_ st1) = Z.to_nat SHELLY_DIMMER_BUFFER_SIZE).
  { unfold st1, aset. cbn [buffer_ with_buffer_]. rewrite length_insert. exact Hl. }
  assert (Hb1 : Forall is_u8 (buffer_ st1)).
  { unfold st1, aset. cbn [buffer_ with_buffer_]. apply Forall_insert; assumption. }
  assert (Hp1 : buffer_pos_ st1 = buffer_pos_ st) by reflexivity.
  assert (Hlen1 : 4 <= buffer_pos_ st -> aget (buffer_ st1) 3 = aget (buffer_ st) 3).
  { intros H4. unfold st1. cbn [buffer_ with_buffer_].
    apply aget_aset_ne; lia. }
  pose proof (aget_u8 (buffer_ st1) 3 Hb1) as Hlen8. unfold is_u8 in Hlen8.
  assert (Hreset : parser_inv SHELLY_DIMMER_BUFFER_SIZE (with_buffer_pos_ st1 0))
    by (apply parser_inv_reset; assumption).
  assert (Hnext : buffer_pos_ st + 1 < SHELLY_DIMMER_BUFFER_SIZE ->
                  (4 < buffer_pos_ st + 1 ->
                   buffer_pos_ st + 1 <= 4 + aget (buffer_ st1) 3 + 2
                   /\ 4 + aget (buffer_ st1) 3 + 3 <= SHELLY_DIMMER_BUFFER_SIZE) ->
                  parser_inv SHELLY_DIMMER_BUFFER_SIZE
                    (with_buffer_pos_ st1 (u8 (buffer_pos_ st1 + 1)))).
  { intros Hlt Hfr. rewrite Hp1.
    destruct (u8_succ (buffer_pos_ st)) as [[-> H256] | ->]; [lia | |].
    - unfold parser_inv. cbn [buffer_ buffer_pos_ with_buffer_pos_].
      repeat split; try assumption; try lia; apply Hfr; assumption.
    - exact Hreset. }
  unfold handle_byte_. rewrite Hp1.
  destruct (Z.eqb_spec (buffer_pos_ st) 0) as [H0 | H0].
  { destruct (Z.eqb_spec c SHELLY_DIMMER_PROTO_START_BYTE); cbn [Z.eqb snd].
    - apply Hnext; lia.
    - exact Hreset. }
  destruct (Z.ltb_spec (buffer_pos_ st) 4) as [H4 | H4].
  { cbn [Z.eqb snd]. apply Hnext; lia. }
  destruct (Z.gtb_spec (4 + aget (buffer_ st1) 3 + 3) SHELLY_DIMMER_BUFFER_SIZE)
    as [Hbig | Hfit].
  { cbn [Z.eqb snd]. exact Hreset. }
  destruct (Z.ltb_spec (buffer_pos_ st) (4 + aget (buffer_ st1) 3 + 1)) as [H5 | H5].
  { cbn [Z.eqb snd]. apply Hnext; lia. }
  destruct (Z.eqb_spec (buffer_pos_ st) (4 + aget (buffer_ st1) 3 + 1)) as [H6 | H6].
  { match goal with |- context [negb ?b] => destruct b end; cbn [negb Z.eqb snd].
    - apply Hnext; lia.
    - exact Hreset. }
  destruct (Z.eqb_spec (buffer_pos_ st) (4 + aget (buffer_ st1) 3 + 2)) as [H7 | H7].
  { destruct (Z.eqb_spec c SHELLY_DIMMER_PROTO_END_BYTE); cbn [Z.eqb snd].
    - pose proof (handle_frame_parser st1) as [Hfb Hfp].
      destruct (handle_frame_ st1) as [b st2]. cbn [snd] in *.
      apply parser_inv_reset; rewrite Hfb; assumption.
    - exact Hreset. }
  cbn [Z.eqb snd]. exact Hreset.
Qed.

Lemma feed_inv (cs : list Z) (st : ShellyDimmer) :
  Forall is_u8 cs ->
  parser_inv SHELLY_DIMMER_BUFFER_SIZE st ->
  parser_inv SHELLY_DIMMER_BUFFER_SIZE (feed SHELLY_DIMMER_BUFFER_SIZE st cs).
Proof.
  revert st. induction cs as [| c cs IH]; intros st Hcs Hinv; [exact Hinv |].
  inversion Hcs; subst. cbn [feed fold_left]. apply IH; [assumption |].
  apply read_frame_byte_inv; assumption.
Qed.

End Bounds.

(** C10. Receive-buffer bounds: whatever bytes come in, a parser started at
    position 0 over a buffer of [SHELLY_DIMMER_BUFFER_SIZE] bytes (79 in the
    claim; any size from 5 up here) keeps [buffer_pos_] non-negative and
    strictly below the buffer size, so the store [buffer_[buffer_pos_] = c]
    of the next byte is inside the buffer, and never beyond [4 + LEN + 2];
    and past the header the classifier resets the parser whenever
    [4 + LEN + 3] exceeds the buffer size. *)
Theorem parser_stays_in_buffer (SHELLY_DIMMER_BUFFER_SIZE : Z)
    (st0 : ShellyDimmer) (cs : list Z) :
  5 <= SHELLY_DIMMER_BUFFER_SIZE ->
  length (buffer_ st0) = Z.to_nat SHELLY_DIMMER_BUFFER_SIZE ->
  Forall is_u8 (buffer_ st0) ->
  buffer_pos_ st0 = 0 ->
  Forall is_u8 cs ->
  let st := feed SHELLY_DIMMER_BUFFER_SIZE st0 cs in
  0 <= buffer_pos_ st < SHELLY_DIMMER_BUFFER_SIZE
  /\ (Z.to_nat (buffer_pos_ st) < length (buffer_ st))%nat
  /\ buffer_pos_ st <= 4 + aget (buffer_ st) 3 + 2
  /\ (forall c,
        let st1 := with_buffer_ st (aset (buffer_ st) (buffer_pos_ st) c) in
        4 <= buffer_pos_ st ->
        4 + aget (buffer_ st1) 3 + 3 > SHELLY_DIMMER_BUFFER_SIZE ->
        read_frame_byte SHELLY_DIMMER_BUFFER_SIZE st c = (-1, with_buffer_pos_ st1 0)).
Proof.
  intros Hsize Hl Hb Hpos Hcs st.
  assert (Hinv0 : parser_inv SHELLY_DIMMER_BUFFER_SIZE st0).
  { unfold parser_inv. rewrite Hpos. repeat split; try assumption; lia. }
  pose proof (feed_inv SHELLY_DIMMER_BUFFER_SIZE Hsize cs st0 Hcs Hinv0)
    as (Hl' & Hb' & Hp' & Hp8 & Hfr).
  fold st in Hl', Hb', Hp', Hp8, Hfr.
  pose proof (aget_u8 (buffer_ st) 3 Hb') as Hlen. unfold is_u8 in Hlen.
  split; [exact Hp' |]. split; [lia |]. split.
  - destruct (Z.lt_ge_cases 4 (buffer_pos_ st)) as [H4 | H4]; [apply Hfr; exact H4 | lia].
  - intros c st1 H4 Hbig. unfold read_frame_byte. fold st1.
    assert (Hr : handle_byte_ SHELLY_DIMMER_BUFFER_SIZE st1 c = -1).
    { unfold handle_byte_. change (buffer_pos_ st1) with (buffer_pos_ st).
      destruct (Z.eqb_spec (buffer_pos_ st) 0); [lia |].
      destruct (Z.ltb_spec (buffer_pos_ st) 4); [lia |].
      destruct (Z.gtb_spec (4 + aget (buffer_ st1) 3 + 3) SHELLY_DIMMER_BUFFER_SIZE);
        [reflexivity | lia]. }
    rewrite Hr. reflexivity.
Qed.

Lemma parser_stays_in_buffer_witness :
  let st := feed 79 (fresh_driver 79) [0x01; 0x07; 0x10; 0xFF; 0x2A] in
  0 <= buffer_pos_ st < 79
  /\ (Z.to_nat (buffer_pos_ st) < length (buffer_ st))%nat
  /\ buffer_pos_ st <= 4 + aget (buffer_ st) 3 + 2
  /\ (forall c,
        let st1 := with_buffer_ st (aset (buffer_ st) (buffer_pos_ st) c) in
        4 <= buffer_pos_ st ->
        4 + aget (buffer_ st1) 3 + 3 > 79 ->
        read_frame_byte 79 st c = (-1, with_buffer_pos_ st1 0)).
Proof.
  apply (parser_stays_in_buffer 79 (fresh_driver 79) [0x01; 0x07; 0x10; 0xFF; 0x2A]).
  - lia.
  - reflexivity.
  - apply Forall_replicate. unfold is_u8. lia.
  - reflexivity.
  - repeat constructor; unfold is_u8; lia.
Defined.

(** ** Dispatch of POLL responses *)

Lemma holds_frame_split (st : ShellyDimmer) (frame : list Z) :
  holds_frame st frame ->
  buffer_ st = frame ++ drop (length frame) (buffer_ st).
Proof.
  unfold holds_frame. intros H.
  rewrite <- (take_drop (length frame) (buffer_ st)) at 1. rewrite H. reflexivity.
Qed.

(** C3, on the code: a POLL response with the right sequence number and a
    payload of 16 bytes is not rejected.  [handle_frame_] returns true and
    publishes power, voltage and current; the fade rate it reads at
    [payload[16]] is the first checksum byte. *)
Theorem poll_16_bytes_dispatched :
  let st := driver_holding 1 (frame_of 1 SHELLY_DIMMER_PROTO_CMD_POLL poll_short_payload) in
  aget (buffer_ st) 3 = 16
  /\ fst (handle_frame_ st) = true
  /\ power_sensor_ (snd (handle_frame_ st))
     = Some [div POWER_SCALING_FACTOR (of_Z 65536)]
  /\ voltage_sensor_ (snd (handle_frame_ st))
     = Some [div VOLTAGE_SCALING_FACTOR (of_Z 65536)]
  /\ current_sensor_ (snd (handle_frame_ st))
     = Some [div CURRENT_SCALING_FACTOR (of_Z 65536)].
Proof. vm_compute. repeat split. Qed.

(** C4, as the spec states it, fails: the three raws of the scenario
    payload do not decode to 256. *)
Lemma poll_example_not_256 :
  poll_data (fun i => aget (buffer_ (driver_holding 1
               (frame_of 1 SHELLY_DIMMER_PROTO_CMD_POLL poll_example_payload)))
                        (4 + i))
  <> poll_example_claimed.
Proof. vm_compute. discriminate. Qed.

(** C4, amended. Dispatching a POLL response with the scenario payload
    01 00 E8 03 00 00 01 00 00 00 01 00 00 00 01 00 00 and the expected
    sequence number succeeds and decodes hw_version = 1,
    brightness = 0x03E8 = 1000, power_raw = voltage_raw = current_raw
    = 0x00010000 = 65536 (bytes 00 00 01 00, least significant first) and
    fade_rate = 0; it publishes scaling / 65536 to each sensor. *)
Theorem poll_example_decode (st : ShellyDimmer) :
  holds_frame st (frame_of (seq_ st) SHELLY_DIMMER_PROTO_CMD_POLL poll_example_payload) ->
  poll_data (fun i => aget (buffer_ st) (4 + i)) = poll_example_decoded
  /\ handle_frame_ st
     = (true,
        with_sensors_ st
          (publish_state (power_sensor_ st) (div POWER_SCALING_FACTOR (of_Z 65536)))
          (publish_state (voltage_sensor_ st) (div VOLTAGE_SCALING_FACTOR (of_Z 65536)))
          (publish_state (current_sensor_ st) (div CURRENT_SCALING_FACTOR (of_Z 65536)))).
Proof.
  intros H. apply holds_frame_split in H.
  assert (Hd : poll_data (fun i => aget (buffer_ st) (4 + i)) = poll_example_decoded).
  { rewrite H. reflexivity. }
  split; [exact Hd |].
  unfold handle_frame_. rewrite Hd.
  assert (H1 : aget (buffer_ st) 1 = seq_ st) by (rewrite H; reflexivity).
  assert (H2 : aget (buffer_ st) 2 = SHELLY_DIMMER_PROTO_CMD_POLL) by (rewrite H; reflexivity).
  assert (H3 : aget (buffer_ st) 3 = 17) by (rewrite H; reflexivity).
  rewrite H1, H2, H3, Z.eqb_refl. reflexivity.
Qed.

Lemma poll_example_decode_witness :
  let st := driver_holding 1 (frame_of 1 SHELLY_DIMMER_PROTO_CMD_POLL poll_example_payload) in
  holds_frame st (frame_of (seq_ st) SHELLY_DIMMER_PROTO_CMD_POLL poll_example_payload)
  /\ poll_data (fun i => aget (buffer_ st) (4 + i)) = poll_example_decoded
  /\ handle_frame_ st
     = (true,
        with_sensors_ st
          (publish_state (power_sensor_ st) (div POWER_SCALING_FACTOR (of_Z 65536)))
          (publish_state (voltage_sensor_ st) (div VOLTAGE_SCALING_FACTOR (of_Z 65536)))
          (publish_state (current_sensor_ st) (div CURRENT_SCALING_FACTOR (of_Z 65536)))).
Proof.
  intros st. split; [reflexivity |].
  apply (poll_example_decode st). reflexivity.
Defined.

(** ** Sending a command *)

Lemma frame_command_frame_null (st : ShellyDimmer) (data : list Z) (cmd : Z) :
  (7 <= length data)%nat ->
  frame_command_ st data cmd None 0
  = (with_seq_ st (u8 (seq_ st + 1)),
     frame_of (u8 (seq_ st + 1)) cmd [] ++ drop 7 data, 7).
Proof.
  intros Hlen.
  destruct data as [| d0 [| d1 [| d2 [| d3 [| d4 [| d5 [| d6 rest]]]]]]];
    simpl in Hlen; try lia.
  unfold frame_command_, frame_of. cbn [seq_ with_seq_].
  set (seq := u8 (seq_ st + 1)).
  change (aset (aset (aset (aset (d0 :: d1 :: d2 :: d3 :: d4 :: d5 :: d6 :: rest) 0
            SHELLY_DIMMER_PROTO_START_BYTE) 1 seq) 2 cmd) 3 (u8 0))
    with (SHELLY_DIMMER_PROTO_START_BYTE :: seq :: cmd :: 0 :: d4 :: d5 :: d6 :: rest).
  rewrite checksum_is_sum.
  change (take (Z.to_nat (3 + 0)) (drop 1 (SHELLY_DIMMER_PROTO_START_BYTE :: seq :: cmd :: 0 :: d4 :: d5 :: d6 :: rest)))
    with [seq; cmd; 0].
  change (Z.of_nat (length (@nil Z))) with 0.
  set (csum := sum_bytes [seq; cmd; 0] mod 2 ^ 16).
  assert (Hc : 0 <= csum < 65536) by (apply Z.mod_pos_bound; lia).
  rewrite csum_hi_byte, csum_lo_byte by exact Hc.
  reflexivity.
Qed.

(** The frame of a call is the one of the data model, with the incremented
    sequence number. *)
Lemma frame_command_ok (st : ShellyDimmer) (cmd : Z) (payload : option (list Z))
    (len : Z) :
  payload_ok payload len ->
  let '(st', data', frame_len) := frame_command_ st blank_frame cmd payload len in
  st' = with_seq_ st (u8 (seq_ st + 1))
  /\ take (Z.to_nat frame_len) data'
     = frame_of (u8 (seq_ st + 1)) cmd (default [] payload).
Proof.
  destruct payload as [p |]; cbn [payload_ok default from_option]; intros H.
  - destruct H as [-> Hp].
    rewrite frame_command_frame
      by (change (length blank_frame) with 79%nat; lia).
    split; [reflexivity |].
    replace (Z.to_nat (Z.of_nat (length p) + 7))
      with (length (frame_of (u8 (seq_ st + 1)) cmd p))
      by (rewrite frame_of_length; lia).
    apply take_app_length.
  - subst len. rewrite frame_command_frame_null by (vm_compute; lia).
    split; reflexivity.
Qed.

Section Send.

Variable SHELLY_DIMMER_BUFFER_SIZE : Z.

Lemma read_frame_byte_seq (st : ShellyDimmer) (c : Z) :
  seq_ (snd (read_frame_byte SHELLY_DIMMER_BUFFER_SIZE st c)) = seq_ st.
Proof.
  unfold read_frame_byte.
  set (st1 := with_buffer_ st (aset (buffer_ st) (buffer_pos_ st) c)).
  destruct (handle_byte_ SHELLY_DIMMER_BUFFER_SIZE st1 c =? 0).
  - pose proof (handle_frame_buffer st1) as [_ Hs].
    destruct (handle_frame_ st1) as [b st2]. cbn [snd] in *. exact Hs.
  - destruct (handle_byte_ SHELLY_DIMMER_BUFFER_SIZE st1 c =? -1); [reflexivity |].
    destruct (handle_byte_ SHELLY_DIMMER_BUFFER_SIZE st1 c =? 1); reflexivity.
Qed.

Lemma read_frame_loop_seq (cs : list Z) (st : ShellyDimmer) :
  seq_ (snd (fst (read_frame_loop SHELLY_DIMMER_BUFFER_SIZE st cs))) = seq_ st.
Proof.
  revert st. induction cs as [| c cs IH]; intros st; [reflexivity |].
  cbn [read_frame_loop].
  pose proof (read_frame_byte_seq st c) as Hs.
  destruct (read_frame_byte SHELLY_DIMMER_BUFFER_SIZE st c) as [r st1]. cbn [snd] in Hs.
  destruct (r =? 0); [exact Hs |]. rewrite IH. exact Hs.
Qed.

(** [read_frame_] only takes bytes out of the UART. *)
Lemma read_frame_frame (st : ShellyDimmer) (w : World) :
  let '(_, st', w') := read_frame_ SHELLY_DIMMER_BUFFER_SIZE st w in
  seq_ st' = seq_ st /\ millis w' = millis w /\ line w' = line w
  /\ tx w' = tx w /\ flushed w' = flushed w.
Proof.
  unfold read_frame_. pose proof (read_frame_loop_seq (rx w) st) as Hs.
  destruct (read_frame_loop SHELLY_DIMMER_BUFFER_SIZE st (rx w)) as [[r st'] rest].
  cbn [fst snd] in Hs. repeat split. exact Hs.
Qed.

Lemma elapsed_after_delay (now tx_time : Z) :
  u32 (now - tx_time) < SHELLY_DIMMER_ACK_TIMEOUT ->
  u32 (u32 (now + 1) - tx_time) = u32 (now - tx_time) + 1.
Proof.
  unfold u32, SHELLY_DIMMER_ACK_TIMEOUT. intros H.
  rewrite Zminus_mod_idemp_l.
  replace (now + 1 - tx_time) with (now - tx_time + 1) by lia.
  rewrite <- Zplus_mod_idemp_l.
  pose proof (Z.mod_pos_bound (now - tx_time) (2 ^ 32) ltac:(lia)).
  apply Z.mod_small. change (2 ^ 32) with 4294967296 in *. lia.
Qed.

(** The wait for a reply ends: the clock advances by one millisecond per
    turn, so 200 turns and the final test are enough fuel.  It leaves the
    sequence number and the transmit side alone. *)
Lemma await_reply_ends (fuel : nat) (tx_time : Z) (st : ShellyDimmer) (w : World) :
  (Z.to_nat (SHELLY_DIMMER_ACK_TIMEOUT - u32 (millis w - tx_time)) < fuel)%nat ->
  exists r st' w',
    await_reply SHELLY_DIMMER_BUFFER_SIZE fuel tx_time st w = Some (r, st', w')
    /\ seq_ st' = seq_ st /\ tx w' = tx w /\ flushed w' = flushed w.
Proof.
  revert st w. induction fuel as [| fuel IH]; intros st w Hfuel; [lia |].
  cbn [await_reply].
  destruct (Z.ltb_spec (u32 (millis w - tx_time)) SHELLY_DIMMER_ACK_TIMEOUT)
    as [Hlt | Hge]; [| eauto 10].
  pose proof (read_frame_frame st w) as Hrf.
  destruct (read_frame_ SHELLY_DIMMER_BUFFER_SIZE st w) as [[r st1] w1].
  destruct Hrf as (Hs & Hm & Hline & Htx & Hfl).
  destruct r; [eauto 10 |].
  destruct (IH st1 (delay_1 w1)) as (r & st' & w' & Hrun & Hs' & Htx' & Hfl').
  - cbn [millis delay_1]. rewrite Hm, elapsed_after_delay by exact Hlt. lia.
  - exists r, st', w'. rewrite Hrun. cbn [tx flushed delay_1] in *.
    repeat split; congruence.
Qed.

(** Every attempt writes the same frame and flushes; there are between one
    and [retries] of them. *)
Lemma send_attempts_frames (fuel retries : nat) (frame : list Z)
    (st : ShellyDimmer) (w : World) :
  (Z.to_nat SHELLY_DIMMER_ACK_TIMEOUT < fuel)%nat -> (0 < retries)%nat ->
  exists r st' w' n,
    send_attempts SHELLY_DIMMER_BUFFER_SIZE fuel retries frame st w = Some (r, st', w')
    /\ seq_ st' = seq_ st
    /\ (1 <= n <= retries)%nat
    /\ tx w' = tx w ++ replicate n frame
    /\ flushed w' = flushed w + Z.of_nat n.
Proof.
  intros Hfuel. revert st w.
  induction retries as [| retries IH]; intros st w Hr; [lia |].
  cbn [send_attempts].
  set (w1 := flush (write_array w frame)).
  destruct (await_reply_ends fuel (millis w1) st w1)
    as (r & st1 & w2 & Hrun & Hs & Htx & Hfl).
  { rewrite Z.sub_diag. change (u32 0) with 0. lia. }
  rewrite Hrun. cbn [tx flushed flush write_array w1] in Htx, Hfl.
  destruct r.
  - exists true, st1, w2, 1%nat. repeat split; try assumption; try lia.
  - destruct retries as [| retries].
    + exists false, st1, w2, 1%nat. repeat split; try assumption; try lia.
    + destruct (IH st1 w2 ltac:(lia)) as (r & st' & w' & n & Hrun' & Hs' & Hn & Htx' & Hfl').
      exists r, st', w', (S n). rewrite Hrun'. repeat split; try lia.
      rewrite Htx', Htx, <- app_assoc. reflexivity.

Qed.

Lemma send_command_frames (fuel : nat) (st : ShellyDimmer) (w : World)
    (cmd : Z) (payload : option (list Z)) (len : Z) :
  (Z.to_nat SHELLY_DIMMER_ACK_TIMEOUT < fuel)%nat ->
  payload_ok payload len ->
  exists r st' w' n,
    send_command_ SHELLY_DIMMER_BUFFER_SIZE fuel st w cmd payload len = Some (r, st', w')
    /\ seq_ st' = u8 (seq_ st + 1)
    /\ (1 <= n <= 3)%nat
    /\ tx w' = tx w ++ replicate n (frame_of (seq_ st') cmd (default [] payload))
    /\ flushed w' = flushed w + Z.of_nat n.
Proof.
  intros Hfuel Hok. unfold send_command_.
  pose proof (frame_command_ok st cmd payload len Hok) as Hf.
  unfold blank_frame in Hf.
  destruct (frame_command_ st _ cmd payload len) as [[st1 data] frame_len].
  destruct Hf as [-> ->].
  destruct (send_attempts_frames fuel (Z.to_nat SHELLY_DIMMER_MAX_RETRIES)
              (frame_of (u8 (seq_ st + 1)) cmd (default [] payload))
              (with_seq_ st (u8 (seq_ st + 1))) w Hfuel)
    as (r & st' & w' & n & Hrun & Hs & Hn & Htx & Hfl).
  { vm_compute. lia. }
  exists r, st', w', n. rewrite Hrun. cbn [seq_ with_seq_] in Hs.
  change (Z.to_nat SHELLY_DIMMER_MAX_RETRIES) with 3%nat in Hn.
  rewrite Hs. repeat split; try assumption; lia.
Qed.

End Send.

Section SilentUart.

Variable SHELLY_DIMMER_BUFFER_SIZE : Z.

Lemma silent_delay (w : World) : silent w -> silent (delay_1 w).
Proof.
  intros [Hrx Hline]. unfold silent. cbn [rx line delay_1]. rewrite Hrx.
  destruct (line w) as [| chunk rest]; cbn [hd tl app].
  - split; [reflexivity | constructor].
  - inversion Hline; subst. split; [reflexivity | assumption].
Qed.

(** On a silent UART the wait runs to the timeout and changes nothing but
    the clock. *)
Lemma await_reply_silent (fuel : nat) (tx_time : Z) (st : ShellyDimmer) (w : World) :
  silent w ->
  u32 (millis w - tx_time) <= SHELLY_DIMMER_ACK_TIMEOUT ->
  (Z.to_nat (SHELLY_DIMMER_ACK_TIMEOUT - u32 (millis w - tx_time)) < fuel)%nat ->
  exists w',
    await_reply SHELLY_DIMMER_BUFFER_SIZE fuel tx_time st w = Some (false, st, w')
    /\ silent w'
    /\ u32 (millis w' - tx_time) = SHELLY_DIMMER_ACK_TIMEOUT
    /\ tx w' = tx w /\ flushed w' = flushed w.
Proof.
  revert w. induction fuel as [| fuel IH]; intros w Hsil He Hfuel; [lia |].
  cbn [await_reply].
  destruct (Z.ltb_spec (u32 (millis w - tx_time)) SHELLY_DIMMER_ACK_TIMEOUT)
    as [Hlt | Hge].
  - unfold read_frame_. destruct Hsil as [Hrx Hline]. rewrite Hrx.
    cbn [read_frame_loop].
    set (w1 := {| millis := millis w; rx := []; line := line w; tx := tx w;
                  flushed := flushed w |}).
    assert (Hsil1 : silent w1) by (split; [reflexivity | exact Hline]).
    destruct (IH (delay_1 w1)) as (w' & Hrun & Hsil' & Hel & Htx & Hfl).
    + apply silent_delay. exact Hsil1.
    + cbn [millis delay_1 w1]. rewrite elapsed_after_delay by exact Hlt. lia.
    + cbn [millis delay_1 w1]. rewrite elapsed_after_delay by exact Hlt. lia.
    + exists w'. rewrite Hrun.
      split; [reflexivity |]. split; [exact Hsil' |]. split; [exact Hel |].
      split; [exact Htx | exact Hfl].
  - exists w. split; [reflexivity |]. split; [exact Hsil |].
    split; [lia |]. split; reflexivity.
Qed.

Lemma send_attempts_silent (fuel retries : nat) (frame : list Z)
    (st : ShellyDimmer) (w : World) :
  (Z.to_nat SHELLY_DIMMER_ACK_TIMEOUT < fuel)%nat ->
  silent w ->
  exists w',
    send_attempts SHELLY_DIMMER_BUFFER_SIZE fuel retries frame st w = Some (false, st, w')
    /\ silent w'
    /\ tx w' = tx w ++ replicate retries frame
    /\ flushed w' = flushed w + Z.of_nat retries.
Proof.
  intros Hfuel. revert w. induction retries as [| retries IH]; intros w Hsil.
  - exists w. cbn [send_attempts replicate]. rewrite app_nil_r.
    split; [reflexivity |]. split; [exact Hsil |]. split; [reflexivity | lia].
  - cbn [send_attempts].
    set (w1 := flush (write_array w frame)).
    destruct (await_reply_silent fuel (millis w1) st w1)
      as (w2 & Hrun & Hsil2 & _ & Htx & Hfl).
    + exact Hsil.
    + rewrite Z.sub_diag. vm_compute. discriminate.
    + rewrite Z.sub_diag. change (u32 0) with 0. lia.
    + rewrite Hrun. destruct (IH w2 Hsil2) as (w' & Hrun' & Hsil' & Htx' & Hfl').
      exists w'. rewrite Hrun'. cbn [tx flushed flush write_array w1] in Htx, Hfl.
      split; [reflexivity |]. split; [exact Hsil' |]. split.
      * rewrite Htx', Htx, <- app_assoc. reflexivity.
      * rewrite Hfl', Hfl. lia.
Qed.

(** Retry exhaustion on a silent UART: the same frame is written and
    flushed three times and the call fails. *)
Lemma send_command_silent (fuel : nat) (st : ShellyDimmer) (w : World)
    (cmd : Z) (payload : option (list Z)) (len : Z) :
  (Z.to_nat SHELLY_DIMMER_ACK_TIMEOUT < fuel)%nat ->
  payload_ok payload len ->
  silent w ->
  exists w',
    send_command_ SHELLY_DIMMER_BUFFER_SIZE fuel st w cmd payload len
    = Some (false, with_seq_ st (u8 (seq_ st + 1)), w')
    /\ tx w' = tx w ++ replicate 3 (frame_of (u8 (seq_ st + 1)) cmd (default [] payload))
    /\ flushed w' = flushed w + 3.
Proof.
  intros Hfuel Hok Hsil. unfold send_command_.
  pose proof (frame_command_ok st cmd payload len Hok) as Hf.
  unfold blank_frame in Hf.
  destruct (frame_command_ st _ cmd payload len) as [[st1 data] frame_len].
  destruct Hf as [-> ->].
  destruct (send_attempts_silent fuel (Z.to_nat SHELLY_DIMMER_MAX_RETRIES)
              (frame_of (u8 (seq_ st + 1)) cmd (default [] payload))
              (with_seq_ st (u8 (seq_ st + 1))) w Hfuel Hsil)
    as (w' & Hrun & _ & Htx & Hfl).
  exists w'. rewrite Hrun. split; [reflexivity |]. split; assumption.
Qed.

End SilentUart.

(** ** Sending a command: the claims *)

(** C7, on the code: a complete, checksum-valid reply whose sequence number
    (7) is not the one of the command just sent (1) ends [send_command_]
    with true after a single write, although [handle_frame_] rejects the
    frame: [read_frame_] drops that verdict. *)
Theorem stale_reply_acknowledged :
  exists st' w',
    send_command_ 79 201 (fresh_driver 79) (world_receiving [stale_reply])
                  SHELLY_DIMMER_PROTO_CMD_SWITCH (Some [0xE8; 0x03]) 2
    = Some (true, st', w')
    /\ seq_ st' = 1
    /\ holds_frame st' stale_reply
    /\ fst (handle_frame_ st') = false
    /\ tx w' = [frame_of 1 SHELLY_DIMMER_PROTO_CMD_SWITCH [0xE8; 0x03]]
    /\ flushed w' = 1.
Proof.
  eexists _, _. split; [vm_compute; reflexivity |]. vm_compute. repeat split.
Qed.

Lemma u8_succ_succ (x : Z) : u8 (u8 (x + 1) + 1) = u8 (x + 2).
Proof.
  unfold u8. rewrite Zplus_mod_idemp_l. f_equal. lia.
Qed.

Lemma frame_of_seq (seq cmd : Z) (payload : list Z) :
  aget (frame_of seq cmd payload) 1 = seq.
Proof. reflexivity. Qed.

(** C8. Sequence numbers: a call of [send_command_] (given fuel for its
    waits) returns; it increments the sequence counter by one modulo 256; it
    writes between one and three frames, all the same frame, whose SEQ byte
    is the incremented counter; and the frames of the next call carry that
    counter plus one, modulo 256. *)
Theorem sequence_monotone (SHELLY_DIMMER_BUFFER_SIZE : Z) (fuel : nat)
    (st : ShellyDimmer) (w : World) (cmd : Z) (payload : option (list Z)) (len : Z) :
  (Z.to_nat SHELLY_DIMMER_ACK_TIMEOUT < fuel)%nat ->
  payload_ok payload len ->
  exists r st' w' n frame,
    send_command_ SHELLY_DIMMER_BUFFER_SIZE fuel st w cmd payload len = Some (r, st', w')
    /\ seq_ st' = u8 (seq_ st + 1)
    /\ (1 <= n <= Z.to_nat SHELLY_DIMMER_MAX_RETRIES)%nat
    /\ tx w' = tx w ++ replicate n frame
    /\ aget frame 1 = u8 (seq_ st + 1)
    /\ forall w1 cmd2 payload2 len2,
         payload_ok payload2 len2 ->
         exists r2 st2 w2 n2 frame2,
           send_command_ SHELLY_DIMMER_BUFFER_SIZE fuel st' w1 cmd2 payload2 len2
           = Some (r2, st2, w2)
           /\ seq_ st2 = u8 (seq_ st + 2)
           /\ (1 <= n2)%nat
           /\ tx w2 = tx w1 ++ replicate n2 frame2
           /\ aget frame2 1 = u8 (seq_ st + 2).
Proof.
  intros Hfuel Hok.
  destruct (send_command_frames SHELLY_DIMMER_BUFFER_SIZE fuel st w cmd payload len Hfuel Hok)
    as (r & st' & w' & n & Hrun & Hs & Hn & Htx & _).
  exists r, st', w', n, (frame_of (seq_ st') cmd (default [] payload)).
  split; [exact Hrun |]. split; [exact Hs |]. split; [exact Hn |].
  split; [exact Htx |]. split; [rewrite frame_of_seq; exact Hs |].
  intros w1 cmd2 payload2 len2 Hok2.
  destruct (send_command_frames SHELLY_DIMMER_BUFFER_SIZE fuel st' w1 cmd2 payload2 len2 Hfuel Hok2)
    as (r2 & st2 & w2 & n2 & Hrun2 & Hs2 & Hn2 & Htx2 & _).
  rewrite Hs, u8_succ_succ in Hs2.
  exists r2, st2, w2, n2, (frame_of (seq_ st2) cmd2 (default [] payload2)).
  split; [exact Hrun2 |]. split; [exact Hs2 |]. split; [lia |].
  split; [exact Htx2 |]. rewrite frame_of_seq. exact Hs2.
Qed.

Lemma sequence_monotone_witness :
  (Z.to_nat SHELLY_DIMMER_ACK_TIMEOUT < 201)%nat
  /\ payload_ok (Some [0xE8; 0x03]) 2
  /\ exists r st' w' n frame,
       send_command_ 79 201 (fresh_driver 79) (world_receiving [])
                     SHELLY_DIMMER_PROTO_CMD_SWITCH (Some [0xE8; 0x03]) 2
       = Some (r, st', w')
       /\ seq_ st' = u8 (seq_ (fresh_driver 79) + 1)
       /\ (1 <= n <= Z.to_nat SHELLY_DIMMER_MAX_RETRIES)%nat
       /\ tx w' = tx (world_receiving []) ++ replicate n frame
       /\ aget frame 1 = u8 (seq_ (fresh_driver 79) + 1)
       /\ forall w1 cmd2 payload2 len2,
            payload_ok payload2 len2 ->
            exists r2 st2 w2 n2 frame2,
              send_command_ 79 201 st' w1 cmd2 payload2 len2 = Some (r2, st2, w2)
              /\ seq_ st2 = u8 (seq_ (fresh_driver 79) + 2)
              /\ (1 <= n2)%nat
              /\ tx w2 = tx w1 ++ replicate n2 frame2
              /\ aget frame2 1 = u8 (seq_ (fresh_driver 79) + 2).
Proof.
  assert (Hfuel : (Z.to_nat SHELLY_DIMMER_ACK_TIMEOUT < 201)%nat) by (vm_compute; lia).
  assert (Hok : payload_ok (Some [0xE8; 0x03]) 2) by (split; [reflexivity | lia]).
  split; [exact Hfuel |]. split; [exact Hok |].
  exact (sequence_monotone 79 201 (fresh_driver 79) (world_receiving [])
           SHELLY_DIMMER_PROTO_CMD_SWITCH (Some [0xE8; 0x03]) 2 Hfuel Hok).
Defined.

(** ** The runtime remap of [write_state] *)

(** The search stops at the first entry below [brightness]: no entry before
    the result is below it, and the result is either the end of the table or
    an entry below it. *)
Lemma calibration_search_spec (data : list f32) (b : f32) (start : Z) :
  let pos := calibration_search data b start in
  start <= pos <= start + Z.of_nat (length data)
  /\ (forall i, (i < Z.to_nat (pos - start))%nat ->
                exists x, data !! i = Some x /\ ltb x b = false)
  /\ (pos < start + Z.of_nat (length data) ->
      exists x, data !! Z.to_nat (pos - start) = Some x /\ ltb x b = true).
Proof.
  revert start. induction data as [| x data IH]; intros start; cbn [calibration_search].
  - cbn [length]. split; [lia |]. split; [intros i Hi; lia | intros H; lia].
  - destruct (ltb x b) eqn:Hx.
    + split; [cbn [length]; lia |]. split.
      * intros i Hi. lia.
      * intros _. rewrite Z.sub_diag. exists x. split; [reflexivity | exact Hx].
    + specialize (IH (start + 1)). cbn zeta in IH.
      set (pos := calibration_search data b (start + 1)) in *.
      destruct IH as (Hr & Hbefore & Hat). cbn [length].
      split; [lia |]. split.
      * intros i Hi. destruct i as [| i].
        -- exists x. split; [reflexivity | exact Hx].
        -- cbn [lookup list_lookup]. apply Hbefore. lia.
      * intros Hlt. destruct (Hat ltac:(lia)) as (y & Hy & Hyb).
        exists y. split; [| exact Hyb].
        replace (Z.to_nat (pos - start)) with (S (Z.to_nat (pos - (start + 1)))) by lia.
        exact Hy.
Qed.

Lemma fget_lookup (a : list f32) (i : Z) (x : f32) :
  a !! Z.to_nat i = Some x -> fget a i = x.
Proof. unfold fget. intros ->. reflexivity. Qed.

Lemma ltb_zero_neqb (b : f32) : ltb zero b = true -> neqb b (of_Z 0) = true.
Proof. destruct b as [s | s | | s m e]; try destruct s; cbn; congruence. Qed.

Lemma ltb_one_neqb (b : f32) : ltb b one = true -> neqb b one = true.
Proof.
  unfold ltb, neqb, SFltb, SFeqb.
  destruct (SFcompare b one) as [[| |] |]; cbn; congruence.
Qed.

(** C6. Runtime remap.  For a ready driver that is not calibrating, has a
    populated table of 20 entries ([table[0] != 0]) and is given a brightness
    [b] strictly between 0 and 1, [write_state] looks for the smallest index
    [pos] with [table[pos] < b] (20 when there is none); when [pos] is 0 or
    20 it converts and sends [b] unchanged, otherwise it converts and sends
    the remap of [b] from [[table[pos], table[pos-1]]] onto
    [[1 - pos*0.05, 1 - pos*0.05 + 0.05]].  A brightness equal to 0.0 or to
    1.0 is left as it is by every driver. *)
Theorem runtime_remap (SHELLY_DIMMER_BUFFER_SIZE : Z) (fuel : nat)
    (st : ShellyDimmer) (w : World) (b : f32) :
  ready_ st = true ->
  calibrating_ st = false ->
  length (calibration_data_ st) = 20%nat ->
  neqb (fget (calibration_data_ st) 0) zero = true ->
  ltb zero b = true -> ltb b one = true ->
  let table := calibration_data_ st in
  let pos := calibration_search table b 0 in
  let min_out := sub (of_Z 1) (mul (of_Z pos) CALIBRATION_STEP) in
  let max_out := add min_out CALIBRATION_STEP in
  let sent :=
    if (pos =? 0) || (pos =? 20) then b
    else remap b (fget table pos) (fget table (pos - 1)) min_out max_out in
  (0 <= pos <= 20
   /\ (forall i, 0 <= i < pos -> ltb (fget table i) b = false)
   /\ (pos < 20 -> ltb (fget table pos) b = true))
  /\ write_state SHELLY_DIMMER_BUFFER_SIZE fuel st w b
     = match convert_brightness_ st sent with
       | None => None
       | Some brightness_int =>
           if brightness_int =? brightness_ st then Some (st, w)
           else send_brightness_ SHELLY_DIMMER_BUFFER_SIZE fuel st w brightness_int
       end
  /\ forall st' edge,
       eqb edge zero = true \/ eqb edge one = true ->
       calibrated_brightness st' edge = edge.
Proof.
  intros Hready Hcal Hlen Hpop H0 H1 table pos min_out max_out sent.
  pose proof (calibration_search_spec table b 0) as Hs. cbn zeta in Hs.
  fold pos in Hs. destruct Hs as (Hr & Hbefore & Hat).
  unfold table in Hr at 1. rewrite Hlen in Hr.
  split; [| split].
  - split; [lia |]. split.
    + intros i Hi. destruct (Hbefore (Z.to_nat i) ltac:(lia)) as (x & Hx & Hxb).
      rewrite (fget_lookup _ _ _ Hx). exact Hxb.
    + intros Hlt. unfold table in Hat at 1. rewrite Hlen in Hat.
      destruct (Hat ltac:(lia)) as (x & Hx & Hxb).
      rewrite Z.sub_0_r in Hx. rewrite (fget_lookup _ _ _ Hx). exact Hxb.
  - unfold write_state. rewrite Hready. cbn [negb].
    assert (Hc : calibrated_brightness st b = sent).
    { unfold calibrated_brightness. rewrite Hcal, Hpop.
      rewrite (ltb_zero_neqb b H0), (ltb_one_neqb b H1). cbn [negb andb].
      rewrite Hlen. fold table. fold pos.
      change (Z.of_nat 20) with 20. rewrite orb_comm. reflexivity. }
    rewrite Hc. reflexivity.
  - intros st' edge Hedge. unfold calibrated_brightness, neqb.
    change (of_Z 0) with zero. unfold eqb in Hedge.
    destruct Hedge as [-> | ->]; cbn [negb]; rewrite ?andb_false_r; reflexivity.
Qed.

Lemma runtime_remap_witness :
  ready_ calibrated_driver = true
  /\ ltb zero half = true /\ ltb half one = true
  /\ let table := calibration_data_ calibrated_driver in
     let pos := calibration_search table half 0 in
     let min_out := sub (of_Z 1) (mul (of_Z pos) CALIBRATION_STEP) in
     let max_out := add min_out CALIBRATION_STEP in
     let sent :=
       if (pos =? 0) || (pos =? 20) then half
       else remap half (fget table pos) (fget table (pos - 1)) min_out max_out in
     (0 <= pos <= 20
      /\ (forall i, 0 <= i < pos -> ltb (fget table i) half = false)
      /\ (pos < 20 -> ltb (fget table pos) half = true))
     /\ write_state 79 201 calibrated_driver (world_receiving []) half
        = match convert_brightness_ calibrated_driver sent with
          | None => None
          | Some brightness_int =>
              if brightness_int =? brightness_ calibrated_driver
              then Some (calibrated_driver, world_receiving [])
              else send_brightness_ 79 201 calibrated_driver (world_receiving [])
                                    brightness_int
          end
     /\ forall st' edge,
          eqb edge zero = true \/ eqb edge one = true ->
          calibrated_brightness st' edge = edge.
Proof.
  split; [reflexivity |]. split; [reflexivity |]. split; [reflexivity |].
  apply (runtime_remap 79 201 calibrated_driver (world_receiving []) half);
    reflexivity.
Defined.

(** ** Conversion of the brightness *)

Lemma small_u16 (z : Z) : 0 <= z < 2 ^ 16 -> small z.
Proof. unfold small. intros H. change (2 ^ 24) with 16777216.
  change (2 ^ 16) with 65536 in H. lia. Qed.

(** A small non-negative integer survives the trip through [float]. *)
Lemma trunc_of_Z (z : Z) : 0 <= z -> small z -> trunc (of_Z z) = Some z.
Proof.
  intros H0 Hs. destruct (of_Z_cases z Hs) as [[-> E] | (n & Hn & Hd & E)].
  - reflexivity.
  - rewrite E. replace (z <? 0) with false by (symmetry; apply Z.ltb_ge; lia).
    cbn [trunc cond_Zopp]. f_equal.
    rewrite canon_m_value by exact Hd. unfold canon_e.
    replace (Zpos (digits2_pos n) - 24) with (- (24 - Zpos (digits2_pos n))) by lia.
    rewrite Z.shiftl_opp_r, Z.shiftr_div_pow2 by lia.
    rewrite Z.div_mul by (apply Z.pow_nonzero; lia). lia.
Qed.

Lemma to_u16_of_Z (z : Z) : 0 <= z < 2 ^ 16 -> to_u16 (of_Z z) = Some z.
Proof.
  intros H. unfold to_u16. rewrite trunc_of_Z by (try apply small_u16; lia).
  destruct (Z.leb_spec 0 z); [| lia]. destruct (Z.ltb_spec z (2 ^ 16)); [| lia].
  reflexivity.
Qed.

(** Scaling an integer by [1.0f] and dividing it by [1.0f] are exact. *)
Lemma mul_one_of_Z (z : Z) : small z -> mul one (of_Z z) = of_Z z.
Proof.
  intros Hs. destruct (of_Z_cases z Hs) as [[-> E] | (n & Hn & Hd & E)].
  - reflexivity.
  - rewrite E. apply mul_one_l. apply canon_bounded. exact Hd.
Qed.

Lemma canon_digits (n : positive) :
  Zpos (digits2_pos n) <= 24 -> Zpos (digits2_pos (canon_m n)) = 24.
Proof.
  intros Hd.
  change (Zpos (digits2_pos (canon_m n))) with (Zdigits2 (Zpos (canon_m n))).
  rewrite canon_m_value, Zdigits2_shift by lia. cbn [Zdigits2]. lia.
Qed.

Lemma div_one_of_Z (z : Z) : small z -> div (of_Z z) one = of_Z z.
Proof.
  intros Hs. destruct (of_Z_cases z Hs) as [[-> E] | (n & Hn & Hd & E)].
  - reflexivity.
  - rewrite E. apply div_one_r.
    + apply canon_bounded. exact Hd.
    + apply canon_digits. exact Hd.
    + unfold canon_e. lia.
Qed.

(** C9. Brightness conversion, for a driver whose brightness bounds are
    16-bit values: an input equal to 0.0 converts to exactly 0; the input
    1.0 converts to exactly [max_brightness_]; and every input that is not
    equal to 0.0 converts to the remap of the input from [[0, 1]] onto
    [[min_brightness_, max_brightness_]], computed in single precision and
    truncated to [uint16_t] ([None] where that truncation is undefined). *)
Theorem convert_brightness_edges (st : ShellyDimmer) :
  0 <= min_brightness_ st < 2 ^ 16 ->
  0 <= max_brightness_ st < 2 ^ 16 ->
  (forall b, eqb b zero = true -> convert_brightness_ st b = Some 0)
  /\ convert_brightness_ st one = Some (max_brightness_ st)
  /\ (forall b, eqb b zero = false ->
        convert_brightness_ st b
        = to_u16 (remap b zero one (of_Z (min_brightness_ st))
                        (of_Z (max_brightness_ st)))).
Proof.
  intros Hmin Hmax.
  assert (Hsmin : small (min_brightness_ st)) by (apply small_u16; exact Hmin).
  assert (Hsmax : small (max_brightness_ st)) by (apply small_u16; exact Hmax).
  assert (Hsd : small (max_brightness_ st - min_brightness_ st)).
  { unfold small. change (2 ^ 16) with 65536 in *. change (2 ^ 24) with 16777216. lia. }
  split; [| split].
  - intros b Hb. unfold convert_brightness_. rewrite Hb. reflexivity.
  - unfold convert_brightness_.
    change (eqb one zero) with false. cbv iota. unfold remap_u16.
    change (sub one zero) with one.
    rewrite mul_one_of_Z, div_one_of_Z by exact Hsd.
    rewrite add_of_Z; try assumption.
    + replace (max_brightness_ st - min_brightness_ st + min_brightness_ st)
        with (max_brightness_ st) by lia.
      apply to_u16_of_Z. exact Hmax.
    + replace (max_brightness_ st - min_brightness_ st + min_brightness_ st)
        with (max_brightness_ st) by lia. exact Hsmax.
  - intros b Hb. unfold convert_brightness_. rewrite Hb.
    unfold remap_u16, remap. rewrite sub_of_Z by assumption. reflexivity.
Qed.

Lemma convert_brightness_edges_witness :
  0 <= min_brightness_ (fresh_driver 79) < 2 ^ 16
  /\ 0 <= max_brightness_ (fresh_driver 79) < 2 ^ 16
  /\ (forall b, eqb b zero = true -> convert_brightness_ (fresh_driver 79) b = Some 0)
  /\ convert_brightness_ (fresh_driver 79) one
     = Some (max_brightness_ (fresh_driver 79))
  /\ (forall b, eqb b zero = false ->
        convert_brightness_ (fresh_driver 79) b
        = to_u16 (remap b zero one (of_Z (min_brightness_ (fresh_driver 79)))
                        (of_Z (max_brightness_ (fresh_driver 79))))).
Proof.
  assert (Hmin : 0 <= min_brightness_ (fresh_driver 79) < 2 ^ 16) by (vm_compute; split; congruence).
  assert (Hmax : 0 <= max_brightness_ (fresh_driver 79) < 2 ^ 16) by (vm_compute; split; congruence).
  split; [exact Hmin |]. split; [exact Hmax |].
  exact (convert_brightness_edges (fresh_driver 79) Hmin Hmax).
Defined.

(** ** End of the calibration: the postcondition *)

(** C5. Calibration finalisation.  For a table of 20 per-step mean powers
    (non-negative finite floats) that are not all equal, the table that
    [complete_calibration_] leaves is the remap of the sorted means from
    [[lo, hi]], the least and the greatest of the means, onto [[0, 1]]; it
    has 20 entries, no entry is greater than the one before it, the first
    entry is exactly 1.0 and the last one exactly 0.0. *)
Theorem calibration_finalised (st : ShellyDimmer) :
  length (calibration_data_ st) = 20%nat ->
  Forall (fun x => nonneg_finite x = true) (calibration_data_ st) ->
  (exists x y, x ∈ calibration_data_ st /\ y ∈ calibration_data_ st /\ x <> y) ->
  let raw := calibration_data_ st in
  let table := calibration_data_ (complete_calibration_ st) in
  exists sorted lo hi,
    sorted ≡ₚ raw
    /\ lo ∈ raw /\ hi ∈ raw
    /\ (forall x, x ∈ raw -> leb lo x = true /\ leb x hi = true)
    /\ table = map (fun value => remap value lo hi zero one) sorted
    /\ length table = 20%nat
    /\ (forall i, 0 <= i < 19 -> leb (fget table (i + 1)) (fget table i) = true)
    /\ fget table 0 = one
    /\ fget table 19 = zero.
Proof.
  intros Hlen Hgood (x0 & y0 & Hx0 & Hy0 & Hne) raw table.
  set (sorted := sort_desc raw).
  assert (Hperm : sorted ≡ₚ raw) by apply sort_desc_perm.
  assert (Hgs : Forall (fun x => nonneg_finite x = true) sorted)
    by (rewrite Hperm; exact Hgood).
  assert (Hss : StronglySorted descending sorted) by (apply sort_desc_sorted; exact Hgood).
  assert (Hls : length sorted = 20%nat) by (rewrite Hperm; exact Hlen).
  destruct (lookup_lt_is_Some_2 sorted 0) as [hi Hhi]; [lia |].
  destruct (lookup_lt_is_Some_2 sorted 19) as [lo Hlo]; [lia |].
  assert (Hg : forall i x, sorted !! i = Some x -> nonneg_finite x = true).
  { intros i x Hi. rewrite Forall_lookup in Hgs. exact (Hgs i x Hi). }
  assert (Hbetween : forall i x, sorted !! i = Some x -> ulps lo <= ulps x <= ulps hi).
  { intros i x Hi.
    assert (Hlt : (i < 20)%nat) by (rewrite <- Hls; eapply lookup_lt_Some; exact Hi).
    split.
    - apply (sorted_lookup sorted i 19 x lo Hss Hi Hlo). lia.
    - apply (sorted_lookup sorted 0 i hi x Hss Hhi Hi). lia. }
  assert (Hspan : ulps lo < ulps hi).
  { destruct (Z.lt_ge_cases (ulps lo) (ulps hi)) as [H | H]; [exact H | exfalso].
    assert (Hall : forall x, x ∈ raw -> x = lo).
    { intros x Hx. rewrite <- Hperm in Hx.
      apply list_elem_of_lookup in Hx as [i Hi].
      pose proof (Hbetween i x Hi). apply ulps_inj; [eapply Hg; eauto | eapply Hg; eauto | lia]. }
    apply Hne. rewrite (Hall x0 Hx0), (Hall y0 Hy0). reflexivity. }
  assert (Htable : table = map (fun value => remap value lo hi zero one) sorted).
  { unfold table, complete_calibration_. cbn [calibration_data_ with_light_ with_calibration_].
    fold raw. fold sorted. rewrite Hls.
    rewrite (fget_lookup sorted 0 hi Hhi), (fget_lookup sorted (Z.of_nat 20 - 1) lo Hlo).
    reflexivity. }
  exists sorted, lo, hi.
  split; [exact Hperm |].
  split; [rewrite <- Hperm; eapply list_elem_of_lookup_2; exact Hlo |].
  split; [rewrite <- Hperm; eapply list_elem_of_lookup_2; exact Hhi |].
  split.
  { intros x Hx. rewrite <- Hperm in Hx. apply list_elem_of_lookup in Hx as [i Hi].
    pose proof (Hbetween i x Hi).
    split; apply leb_ulps; try lia; eapply Hg; eauto. }
  split; [exact Htable |].
  split; [rewrite Htable, length_map; exact Hls |].
  split.
  { intros i Hi. rewrite Htable.
    destruct (lookup_lt_is_Some_2 sorted (Z.to_nat i)) as [v Hv]; [lia |].
    destruct (lookup_lt_is_Some_2 sorted (Z.to_nat (i + 1))) as [w Hw]; [lia |].
    replace (fget (map (fun value => remap value lo hi zero one) sorted) (i + 1))
      with (remap w lo hi zero one)
      by (rewrite <- (Z2Nat.id (i + 1)) by lia; symmetry;
          apply (fget_map (fun value => remap value lo hi zero one)); exact Hw).
    replace (fget (map (fun value => remap value lo hi zero one) sorted) i)
      with (remap v lo hi zero one)
      by (rewrite <- (Z2Nat.id i) at 1 by lia; symmetry;
          apply (fget_map (fun value => remap value lo hi zero one)); exact Hv).
    pose proof (Hbetween _ _ Hv). pose proof (Hbetween _ _ Hw).
    apply remap_unit_mono; try lia; try (eapply Hg; eauto).
    apply (sorted_lookup sorted (Z.to_nat i) (Z.to_nat (i + 1)) v w Hss Hv Hw). lia. }
  split.
  - rewrite Htable. change 0 with (Z.of_nat 0). rewrite (fget_map (fun value => remap value lo hi zero one) sorted _ hi Hhi).
    apply remap_unit_max; try (eapply Hg; eauto). exact Hspan.
  - rewrite Htable. change 19 with (Z.of_nat 19). rewrite (fget_map (fun value => remap value lo hi zero one) sorted _ lo Hlo).
    apply remap_unit_min; try (eapply Hg; eauto). exact Hspan.
Qed.

Lemma calibration_finalised_witness :
  length (calibration_data_ measured_driver) = 20%nat
  /\ Forall (fun x => nonneg_finite x = true) (calibration_data_ measured_driver)
  /\ (exists x y, x ∈ calibration_data_ measured_driver
                  /\ y ∈ calibration_data_ measured_driver /\ x <> y)
  /\ let raw := calibration_data_ measured_driver in
     let table := calibration_data_ (complete_calibration_ measured_driver) in
     exists sorted lo hi,
       sorted ≡ₚ raw
       /\ lo ∈ raw /\ hi ∈ raw
       /\ (forall x, x ∈ raw -> leb lo x = true /\ leb x hi = true)
       /\ table = map (fun value => remap value lo hi zero one) sorted
       /\ length table = 20%nat
       /\ (forall i, 0 <= i < 19 -> leb (fget table (i + 1)) (fget table i) = true)
       /\ fget table 0 = one
       /\ fget table 19 = zero.
Proof.
  assert (H1 : length (calibration_data_ measured_driver) = 20%nat) by reflexivity.
  assert (H2 : Forall (fun x => nonneg_finite x = true)
                      (calibration_data_ measured_driver))
    by (vm_compute; repeat (constructor; [reflexivity |]); constructor).
  assert (H3 : exists x y, x ∈ calibration_data_ measured_driver
                           /\ y ∈ calibration_data_ measured_driver /\ x <> y).
  { exists (of_Z 100), (of_Z 95). split; [| split].
    - apply list_elem_of_here.
    - apply list_elem_of_further, list_elem_of_here.
    - vm_compute. discriminate. }
  split; [exact H1 |]. split; [exact H2 |]. split; [exact H3 |].
  exact (calibration_finalised measured_driver H1 H2 H3).
Defined.
(** * The frame parser: what it accepts and what it drops *)

Lemma aget_aset_eq (a : list Z) (i v : Z) :
  0 <= i -> (Z.to_nat i < length a)%nat -> aget (aset a i v) i = v.
Proof.
  intros Hi Hlt. unfold aget, aset.
  rewrite list_lookup_insert_eq by exact Hlt. reflexivity.
Qed.

Lemma checksum_aset_after (a : list Z) (i v len : Z) :
  0 <= len -> 1 + len <= i ->
  shelly_dimmer_checksum (drop 1 (aset a i v)) len
  = shelly_dimmer_checksum (drop 1 a) len.
Proof.
  intros Hlen Hi. unfold shelly_dimmer_checksum, aset.
  f_equal. rewrite !take_drop_commute.
  f_equal. apply take_insert_ge. lia.
Qed.

Section Checked.

Variable SHELLY_DIMMER_BUFFER_SIZE : Z.
Hypothesis Hsize : 5 <= SHELLY_DIMMER_BUFFER_SIZE.

Lemma read_frame_byte_checked (st : ShellyDimmer) (c : Z) :
  is_u8 c ->
  parser_inv SHELLY_DIMMER_BUFFER_SIZE st ->
  parser_checked st ->
  parser_checked (snd (read_frame_byte SHELLY_DIMMER_BUFFER_SIZE st c)).
Proof.
  intros Hc (Hl & Hb & Hpos & Hpos8 & Hframe) [Hstart Hsum].
  unfold read_frame_byte.
  set (st1 := with_buffer_ st (aset (buffer_ st) (buffer_pos_ st) c)).
  assert (Hb1 : Forall is_u8 (buffer_ st1)).
  { unfold st1, aset. cbn [buffer_ with_buffer_]. apply Forall_insert; assumption. }
  assert (Hp1 : buffer_pos_ st1 = buffer_pos_ st) by reflexivity.
  assert (Hin : (Z.to_nat (buffer_pos_ st) < length (buffer_ st))%nat) by lia.
  assert (Hlen1 : 4 <= buffer_pos_ st -> aget (buffer_ st1) 3 = aget (buffer_ st) 3).
  { intros H4. unfold st1. cbn [buffer_ with_buffer_]. apply aget_aset_ne; lia. }
  pose proof (aget_u8 (buffer_ st1) 3 Hb1) as Hlen8. unfold is_u8 in Hlen8.
  assert (Hreset : forall s,
             buffer_ s = buffer_ st1 -> parser_checked (with_buffer_pos_ s 0)).
  { intros s Hs. unfold parser_checked. cbn [buffer_ buffer_pos_ with_buffer_pos_].
    rewrite Hs. split; intros; lia. }
  assert (Hnext : (buffer_pos_ st = 0 -> c = SHELLY_DIMMER_PROTO_START_BYTE) ->
                  (buffer_pos_ st + 1 = 4 + aget (buffer_ st1) 3 + 2 ->
                   aget (buffer_ st1) (buffer_pos_ st - 1) * 256 + c
                   = shelly_dimmer_checksum (drop 1 (buffer_ st1))
                                            (3 + aget (buffer_ st1) 3)) ->
                  parser_checked (with_buffer_pos_ st1 (u8 (buffer_pos_ st1 + 1)))).
  { intros H0 Hcs. rewrite Hp1.
    destruct (u8_succ (buffer_pos_ st)) as [[-> H256] | ->]; [lia | |].
    - unfold parser_checked. cbn [buffer_ buffer_pos_ with_buffer_pos_]. split.
      + intros _. destruct (Z.eq_dec (buffer_pos_ st) 0) as [E | E].
        * unfold st1. cbn [buffer_ with_buffer_]. rewrite E in *.
          rewrite aget_aset_eq by lia. apply H0. reflexivity.
        * unfold st1. cbn [buffer_ with_buffer_].
          rewrite aget_aset_ne by lia. apply Hstart. lia.
      + intros E. rewrite <- (Hcs E).
        replace (buffer_pos_ st + 1 - 2) with (buffer_pos_ st - 1) by lia.
        replace (buffer_pos_ st + 1 - 1) with (buffer_pos_ st) by lia.
        f_equal. unfold st1. cbn [buffer_ with_buffer_].
        apply aget_aset_eq; lia.
    - apply Hreset. reflexivity. }
  unfold handle_byte_. rewrite Hp1.
  destruct (Z.eqb_spec (buffer_pos_ st) 0) as [H0 | H0].
  { destruct (Z.eqb_spec c SHELLY_DIMMER_PROTO_START_BYTE); cbn [Z.eqb snd].
    - apply Hnext; [intros; assumption | lia].
    - apply Hreset. reflexivity. }
  destruct (Z.ltb_spec (buffer_pos_ st) 4) as [H4 | H4].
  { cbn [Z.eqb snd]. apply Hnext; lia. }
  destruct (Z.gtb_spec (4 + aget (buffer_ st1) 3 + 3) SHELLY_DIMMER_BUFFER_SIZE)
    as [Hbig | Hfit].
  { cbn [Z.eqb snd]. apply Hreset. reflexivity. }
  destruct (Z.ltb_spec (buffer_pos_ st) (4 + aget (buffer_ st1) 3 + 1)) as [H5 | H5].
  { cbn [Z.eqb snd]. apply Hnext; lia. }
  destruct (Z.eqb_spec (buffer_pos_ st) (4 + aget (buffer_ st1) 3 + 1)) as [H6 | H6].
  { match goal with |- context [negb (?x =? ?y)] =>
      destruct (Z.eqb_spec x y) as [Hcs | Hcs] end; cbn [negb Z.eqb snd].
    - apply Hnext; [lia |]. intros _. rewrite <- Hcs.
      pose proof (aget_u8 (buffer_ st1) (buffer_pos_ st - 1) Hb1) as Hhi.
      unfold is_u8 in Hhi, Hc.
      rewrite lor_shiftl_8 by exact Hc. unfold u16.
      rewrite Z.mod_small; [reflexivity |]. change (2 ^ 16) with 65536. lia.
    - apply Hreset. reflexivity. }
  destruct (Z.eqb_spec (buffer_pos_ st) (4 + aget (buffer_ st1) 3 + 2)) as [H7 | H7].
  { destruct (Z.eqb_spec c SHELLY_DIMMER_PROTO_END_BYTE); cbn [Z.eqb snd].
    - pose proof (handle_frame_parser st1) as [Hfb Hfp].
      destruct (handle_frame_ st1) as [b st2]. cbn [snd] in *.
      apply Hreset. exact Hfb.
    - apply Hreset. reflexivity. }
  cbn [Z.eqb snd]. apply Hreset. reflexivity.
Qed.

Lemma feed_checked (cs : list Z) (st : ShellyDimmer) :
  Forall is_u8 cs ->
  parser_inv SHELLY_DIMMER_BUFFER_SIZE st ->
  parser_checked st ->
  parser_checked (feed SHELLY_DIMMER_BUFFER_SIZE st cs).
Proof.
  revert st. induction cs as [| c cs IH]; intros st Hcs Hinv Hchk; [exact Hchk |].
  apply Forall_cons in Hcs as [Hc Hcs]. cbn [feed fold_left].
  apply IH; [exact Hcs | |].
  - apply read_frame_byte_inv; assumption.
  - apply read_frame_byte_checked; assumption.
Qed.

End Checked.

Lemma take_frame_shape (l : list Z) (n : nat) :
  (n + 7 <= length l)%nat ->
  take (n + 7) l
  = [aget l 0; aget l 1; aget l 2; aget l 3] ++ take n (drop 4 l)
    ++ [aget l (4 + Z.of_nat n); aget l (4 + Z.of_nat n + 1);
        aget l (4 + Z.of_nat n + 2)].
Proof.
  intros Hlen.
  destruct l as [| a [| b [| c [| d rest]]]]; cbn [length] in Hlen; try lia.
  assert (Hrest : (n + 3 <= length rest)%nat) by lia.
  replace (n + 7)%nat with (S (S (S (S (n + 3))))) by lia.
  cbn [take drop app]. unfold aget at 1 2 3 4. cbn [lookup list_lookup Z.to_nat default].
  change (Z.to_nat 1) with 1%nat. change (Z.to_nat 2) with 2%nat.
  change (Z.to_nat 3) with 3%nat.
  cbn [lookup list_lookup Pos.to_nat Pos.iter_op Nat.add default from_option].
  do 4 f_equal.
  assert (Hget : forall k : nat, (k < 3)%nat ->
             aget (a :: b :: c :: d :: rest) (4 + Z.of_nat n + Z.of_nat k)
             = default 0 (rest !! (n + k)%nat)).
  { intros k Hk. unfold aget.
    replace (Z.to_nat (4 + Z.of_nat n + Z.of_nat k)) with (S (S (S (S (n + k))))) by lia.
    reflexivity. }
  pose proof (Hget 0%nat ltac:(lia)) as H0.
  pose proof (Hget 1%nat ltac:(lia)) as H1.
  pose proof (Hget 2%nat ltac:(lia)) as H2.
  change (Z.of_nat 0) with 0 in H0. rewrite Z.add_0_r in H0.
  change (Z.of_nat 1) with 1 in H1. change (Z.of_nat 2) with 2 in H2.
  rewrite H0, H1, H2. clear H0 H1 H2 Hget.
  rewrite <- (take_drop n rest) at 1.
  rewrite take_app_ge by (rewrite length_take; lia).
  rewrite length_take. replace (n + 3 - n `min` length rest)%nat with 3%nat by lia.
  f_equal.
  rewrite <- !(lookup_drop rest n).
  assert (Hd : (3 <= length (drop n rest))%nat) by (rewrite length_drop; lia).
  destruct (drop n rest) as [| x [| y [| z tail]]]; cbn [length] in Hd; try lia.
  reflexivity.
Qed.

Lemma take_checksummed (l : list Z) (n : nat) :
  (4 <= length l)%nat ->
  take (3 + n) (drop 1 l) = aget l 1 :: aget l 2 :: aget l 3 :: take n (drop 4 l).
Proof.
  intros Hlen.
  destruct l as [| a [| b [| c [| d rest]]]]; cbn [length] in Hlen; try lia.
  reflexivity.
Qed.

(** X1. The parser completes a frame only on a well-formed one: whatever
    bytes have come in since a reset, when a byte makes [read_frame_]
    report a complete frame, the receive buffer holds START, a sequence
    number, a command, the length of the payload, the payload, the sum
    modulo 2^16 of the bytes from the sequence number through the payload
    (high byte first) and END; it is this frame that [handle_frame_] is
    given, and the frame fits the buffer. *)
Theorem parser_completes_only_frames (SHELLY_DIMMER_BUFFER_SIZE : Z)
    (st0 : ShellyDimmer) (cs : list Z) (c : Z) :
  5 <= SHELLY_DIMMER_BUFFER_SIZE ->
  length (buffer_ st0) = Z.to_nat SHELLY_DIMMER_BUFFER_SIZE ->
  Forall is_u8 (buffer_ st0) ->
  buffer_pos_ st0 = 0 ->
  Forall is_u8 cs -> is_u8 c ->
  fst (read_frame_byte SHELLY_DIMMER_BUFFER_SIZE
                       (feed SHELLY_DIMMER_BUFFER_SIZE st0 cs) c) = 0 ->
  exists seq cmd payload held,
    holds_frame held (frame_of seq cmd payload)
    /\ Z.of_nat (length payload) + 7 <= SHELLY_DIMMER_BUFFER_SIZE
    /\ snd (read_frame_byte SHELLY_DIMMER_BUFFER_SIZE
                            (feed SHELLY_DIMMER_BUFFER_SIZE st0 cs) c)
       = with_buffer_pos_ (snd (handle_frame_ held)) 0.
Proof.
  intros Hsize Hl0 Hb0 Hp0 Hcs Hc.
  assert (Hinv0 : parser_inv SHELLY_DIMMER_BUFFER_SIZE st0).
  { unfold parser_inv. repeat split; try assumption; lia. }
  assert (Hchk0 : parser_checked st0).
  { unfold parser_checked. rewrite Hp0. split; [lia |].
    pose proof (aget_u8 (buffer_ st0) 3 Hb0) as H3. unfold is_u8 in H3. lia. }
  pose proof (feed_inv SHELLY_DIMMER_BUFFER_SIZE Hsize cs st0 Hcs Hinv0) as Hinv.
  pose proof (feed_checked SHELLY_DIMMER_BUFFER_SIZE Hsize cs st0 Hcs Hinv0 Hchk0) as Hchk.
  set (st := feed SHELLY_DIMMER_BUFFER_SIZE st0 cs) in *.
  destruct Hinv as (Hl & Hb & Hpos & Hpos8 & Hframe).
  destruct Hchk as [Hstart Hsum].
  unfold read_frame_byte.
  set (st1 := with_buffer_ st (aset (buffer_ st) (buffer_pos_ st) c)).
  assert (Hl1 : length (buffer_ st1) = Z.to_nat SHELLY_DIMMER_BUFFER_SIZE).
  { unfold st1, aset. cbn [buffer_ with_buffer_]. rewrite length_insert. exact Hl. }
  assert (Hb1 : Forall is_u8 (buffer_ st1)).
  { unfold st1, aset. cbn [buffer_ with_buffer_]. apply Forall_insert; assumption. }
  assert (Hp1 : buffer_pos_ st1 = buffer_pos_ st) by reflexivity.
  pose proof (aget_u8 (buffer_ st1) 3 Hb1) as Hlen8. unfold is_u8 in Hlen8.
  destruct (handle_byte_ SHELLY_DIMMER_BUFFER_SIZE st1 c =? 0) eqn:Hr.
  2:{ intros Hfst. exfalso. apply Z.eqb_neq in Hr. apply Hr.
      revert Hfst.
      destruct (handle_byte_ SHELLY_DIMMER_BUFFER_SIZE st1 c =? -1);
        [intros H; exact H |].
      destruct (handle_byte_ SHELLY_DIMMER_BUFFER_SIZE st1 c =? 1);
        intros H; exact H. }
  intros _. apply Z.eqb_eq in Hr.
  assert (Hshape : 4 <= buffer_pos_ st
                   /\ buffer_pos_ st = 4 + aget (buffer_ st1) 3 + 2
                   /\ 4 + aget (buffer_ st1) 3 + 3 <= SHELLY_DIMMER_BUFFER_SIZE
                   /\ c = SHELLY_DIMMER_PROTO_END_BYTE).
  { revert Hr. unfold handle_byte_. rewrite Hp1.
    destruct (Z.eqb_spec (buffer_pos_ st) 0);
      [destruct (c =? SHELLY_DIMMER_PROTO_START_BYTE); discriminate |].
    destruct (Z.ltb_spec (buffer_pos_ st) 4); [discriminate |].
    destruct (Z.gtb_spec (4 + aget (buffer_ st1) 3 + 3) SHELLY_DIMMER_BUFFER_SIZE);
      [discriminate |].
    destruct (Z.ltb_spec (buffer_pos_ st) (4 + aget (buffer_ st1) 3 + 1));
      [discriminate |].
    destruct (Z.eqb_spec (buffer_pos_ st) (4 + aget (buffer_ st1) 3 + 1)).
    { match goal with |- context [negb ?b] => destruct b end; discriminate. }
    destruct (Z.eqb_spec (buffer_pos_ st) (4 + aget (buffer_ st1) 3 + 2));
      [| discriminate].
    destruct (Z.eqb_spec c SHELLY_DIMMER_PROTO_END_BYTE); [| discriminate].
    intros _. repeat split; assumption. }
  destruct Hshape as (H4 & Hend & Hfit & HcE).
  assert (Hlen1 : aget (buffer_ st1) 3 = aget (buffer_ st) 3).
  { unfold st1. cbn [buffer_ with_buffer_]. apply aget_aset_ne; lia. }
  set (n := Z.to_nat (aget (buffer_ st1) 3)).
  assert (Hn : Z.of_nat n = aget (buffer_ st1) 3) by (unfold n; lia).
  set (payload := take n (drop 4 (buffer_ st1))).
  assert (Hpl : length payload = n).
  { unfold payload. rewrite length_take, length_drop. lia. }
  exists (aget (buffer_ st1) 1), (aget (buffer_ st1) 2), payload, st1.
  split; [| split].
  - unfold holds_frame.
    assert (Hfl : length (frame_of (aget (buffer_ st1) 1) (aget (buffer_ st1) 2) payload)
                  = (n + 7)%nat).
    { unfold frame_of. cbn [length app]. rewrite length_app, Hpl. cbn [length]. lia. }
    rewrite Hfl, take_frame_shape by lia.
    unfold frame_of. rewrite Hpl, Hn.
    replace (aget (buffer_ st1) 0) with SHELLY_DIMMER_PROTO_START_BYTE.
    2:{ unfold st1. cbn [buffer_ with_buffer_]. rewrite aget_aset_ne by lia.
        symmetry. apply Hstart. lia. }
    cbn [app]. do 4 f_equal. fold payload. f_equal.
    assert (Hsum1 : aget (buffer_ st1) (4 + aget (buffer_ st1) 3) * 256
                    + aget (buffer_ st1) (4 + aget (buffer_ st1) 3 + 1)
                    = sum_bytes (aget (buffer_ st1) 1 :: aget (buffer_ st1) 2
                                 :: aget (buffer_ st1) 3 :: payload) mod 2 ^ 16).
    { rewrite Hlen1 in Hend. specialize (Hsum Hend).
      rewrite checksum_is_sum in Hsum.
      replace (4 + aget (buffer_ st1) 3) with (buffer_pos_ st - 2) by lia.
      replace (buffer_pos_ st - 2 + 1) with (buffer_pos_ st - 1) by lia.
      assert (Hkeep : forall j, 0 <= j < buffer_pos_ st ->
                 aget (buffer_ st1) j = aget (buffer_ st) j).
      { intros j Hj. unfold st1. cbn [buffer_ with_buffer_].
        apply aget_aset_ne; lia. }
      rewrite (Hkeep (buffer_pos_ st - 2)), (Hkeep (buffer_pos_ st - 1)) by lia.
      rewrite Hsum. f_equal. f_equal.
      assert (Hsame : take (Z.to_nat (3 + aget (buffer_ st) 3)) (drop 1 (buffer_ st))
                      = take (Z.to_nat (3 + aget (buffer_ st) 3)) (drop 1 (buffer_ st1))).
      { unfold st1, aset. cbn [buffer_ with_buffer_].
        rewrite !take_drop_commute. f_equal. symmetry. apply take_insert_ge. lia. }
      rewrite Hsame.
      replace (Z.to_nat (3 + aget (buffer_ st) 3)) with (3 + n)%nat by lia.
      apply take_checksummed. lia. }
    set (hi := aget (buffer_ st1) (4 + aget (buffer_ st1) 3)) in *.
    set (lo := aget (buffer_ st1) (4 + aget (buffer_ st1) 3 + 1)) in *.
    assert (Hhi : is_u8 hi) by (apply aget_u8; exact Hb1).
    assert (Hlo : is_u8 lo) by (apply aget_u8; exact Hb1).
    unfold is_u8 in Hhi, Hlo.
    rewrite <- Hsum1.
    replace ((hi * 256 + lo) / 256) with hi by (Z.div_mod_to_equations; lia).
    replace ((hi * 256 + lo) mod 256) with lo by (Z.div_mod_to_equations; lia).
    do 2 f_equal.
    replace (4 + aget (buffer_ st1) 3 + 2) with (buffer_pos_ st) by lia.
    unfold st1. cbn [buffer_ with_buffer_]. rewrite aget_aset_eq by lia.
    rewrite HcE. reflexivity.
  - rewrite Hpl, Hn. lia.
  - destruct (handle_frame_ st1) as [b st2]. reflexivity.
Qed.

Lemma parser_completes_only_frames_witness :
  fst (read_frame_byte 79 (feed 79 (fresh_driver 79)
                             [0x01; 0x01; 0x01; 0x02; 0xE8; 0x03; 0x00; 0xEF]) 0x04) = 0
  /\ exists seq cmd payload held,
       holds_frame held (frame_of seq cmd payload)
       /\ Z.of_nat (length payload) + 7 <= 79
       /\ snd (read_frame_byte 79 (feed 79 (fresh_driver 79)
                                     [0x01; 0x01; 0x01; 0x02; 0xE8; 0x03; 0x00; 0xEF]) 0x04)
          = with_buffer_pos_ (snd (handle_frame_ held)) 0.
Proof.
  split; [reflexivity |].
  apply (parser_completes_only_frames 79 (fresh_driver 79)
           [0x01; 0x01; 0x01; 0x02; 0xE8; 0x03; 0x00; 0xEF] 0x04).
  - lia.
  - reflexivity.
  - apply Forall_replicate. unfold is_u8. lia.
  - reflexivity.
  - repeat constructor; unfold is_u8; lia.
  - unfold is_u8. lia.
  - reflexivity.
Defined.

(** ** Feeding the parser byte by byte *)

Lemma read_frame_loop_app (size : Z) (l1 l2 : list Z) (st st' : ShellyDimmer) :
  read_frame_loop size st l1 = (false, st', []) ->
  read_frame_loop size st (l1 ++ l2) = read_frame_loop size st' l2.
Proof.
  revert st. induction l1 as [| c l1 IH]; intros st H.
  - cbn [read_frame_loop] in H. injection H as <-. reflexivity.
  - cbn [read_frame_loop app] in *.
    destruct (read_frame_byte size st c) as [r st1].
    destruct (r =? 0); [discriminate |]. apply IH. exact H.
Qed.

Lemma read_frame_loop_app_done (size : Z) (l1 l2 : list Z) (st st' : ShellyDimmer) :
  read_frame_loop size st l1 = (true, st', []) ->
  read_frame_loop size st (l1 ++ l2) = (true, st', l2).
Proof.
  revert st. induction l1 as [| c l1 IH]; intros st H.
  - cbn [read_frame_loop] in H. discriminate.
  - cbn [read_frame_loop app] in *.
    destruct (read_frame_byte size st c) as [r st1].
    destruct (r =? 0).
    + injection H as <- ->. reflexivity.
    + apply IH. exact H.
Qed.

(** Storing the next byte of [bytes] extends the prefix the buffer holds. *)
Lemma insert_extend_prefix {A} (bytes buf : list A) (k : nat) (c : A) :
  bytes !! k = Some c -> (k < length buf)%nat ->
  <[k := c]> (take k bytes ++ drop k buf) = take (S k) bytes ++ drop (S k) buf.
Proof.
  intros Hc Hk.
  assert (Hkb : (k < length bytes)%nat) by (eapply lookup_lt_Some; eauto).
  assert (Hlt : length (take k bytes) = k) by (rewrite length_take; lia).
  rewrite insert_app_r_alt by lia. rewrite Hlt, Nat.sub_diag.
  rewrite (take_S_r _ _ _ Hc), <- app_assoc. f_equal.
  destruct (lookup_lt_is_Some_2 buf k Hk) as [x Hx].
  rewrite (drop_S _ _ _ Hx). reflexivity.
Qed.

Section Feeding.

Variable SHELLY_DIMMER_BUFFER_SIZE : Z.

(** The bytes on the wire: a header that starts with START and announces a
    payload of [len] bytes that fits the buffer. *)
Variables (bytes : list Z) (len : Z).
Hypothesis Hstart : bytes !! 0%nat = Some SHELLY_DIMMER_PROTO_START_BYTE.
Hypothesis Hlen : bytes !! 3%nat = Some len.
Hypothesis Hlen0 : 0 <= len.
Hypothesis Hfits : 4 + len + 3 <= SHELLY_DIMMER_BUFFER_SIZE.
Hypothesis Hbyte : 4 + len + 3 <= 256.

Lemma holding_store (st : ShellyDimmer) (k : nat) (c : Z) :
  bytes !! k = Some c -> (k < length (buffer_ st))%nat ->
  buffer_ (with_buffer_ (holding bytes st k)
       (aset (buffer_ (holding bytes st k)) (buffer_pos_ (holding bytes st k)) c))
  = take (S k) bytes ++ drop (S k) (buffer_ st).
Proof.
  intros Hc Hk. unfold holding, aset.
  cbn [buffer_ buffer_pos_ with_buffer_ with_buffer_pos_].
  rewrite Nat2Z.id, (insert_extend_prefix _ _ _ _ Hc Hk). reflexivity.
Qed.

Lemma holding_len (st : ShellyDimmer) (k : nat) :
  (4 <= k)%nat -> (k <= length bytes)%nat ->
  aget (take k bytes ++ drop k (buffer_ st)) 3 = len.
Proof.
  intros Hk Hkb. change 3 with (Z.of_nat 3). apply aget_lookup.
  rewrite lookup_app_l by (rewrite length_take; lia).
  rewrite lookup_take_lt by lia. exact Hlen.
Qed.

(** Up to and including the high checksum byte the parser asks for more. *)
Lemma read_frame_byte_body (st : ShellyDimmer) (k : nat) (c : Z) :
  bytes !! k = Some c -> (k < length (buffer_ st))%nat ->
  Z.of_nat k < 4 + len + 1 ->
  read_frame_byte SHELLY_DIMMER_BUFFER_SIZE (holding bytes st k) c
  = (1, holding bytes st (S k)).
Proof.
  intros Hc Hk Hbody.
  assert (Hkb : (k < length bytes)%nat) by (eapply lookup_lt_Some; eauto).
  unfold read_frame_byte.
  pose proof (holding_store st k c Hc Hk) as Hbuf.
  set (st1 := with_buffer_ (holding bytes st k)
                (aset (buffer_ (holding bytes st k)) (buffer_pos_ (holding bytes st k)) c)) in *.
  assert (Hp1 : buffer_pos_ st1 = Z.of_nat k) by reflexivity.
  assert (Hr : handle_byte_ SHELLY_DIMMER_BUFFER_SIZE st1 c = 1).
  { unfold handle_byte_. rewrite Hp1, Hbuf.
    destruct (Z.eqb_spec (Z.of_nat k) 0) as [H0 | H0].
    { assert (k = 0%nat) by lia. subst k. rewrite Hstart in Hc. injection Hc as <-.
      reflexivity. }
    destruct (Z.ltb_spec (Z.of_nat k) 4) as [H4 | H4]; [reflexivity |].
    rewrite holding_len by lia.
    destruct (Z.gtb_spec (4 + len + 3) SHELLY_DIMMER_BUFFER_SIZE); [lia |].
    destruct (Z.ltb_spec (Z.of_nat k) (4 + len + 1)); [reflexivity | lia]. }
  rewrite Hr. cbn [Z.eqb]. rewrite Hp1.
  rewrite u8_id by (unfold is_u8; lia).
  f_equal. unfold st1, holding, aset.
  cbn [buffer_ buffer_pos_ with_buffer_ with_buffer_pos_].
  rewrite Nat2Z.id, (insert_extend_prefix _ _ _ _ Hc Hk).
  replace (Z.of_nat k + 1) with (Z.of_nat (S k)) by lia. reflexivity.
Qed.

Lemma read_frame_loop_body (m k : nat) (st : ShellyDimmer) :
  (k + m <= length bytes)%nat -> (k + m <= length (buffer_ st))%nat ->
  Z.of_nat (k + m) <= 4 + len + 1 ->
  read_frame_loop SHELLY_DIMMER_BUFFER_SIZE (holding bytes st k) (take m (drop k bytes))
  = (false, holding bytes st (k + m), []).
Proof.
  revert k. induction m as [| m IH]; intros k Hb Hbuf Hbody.
  - rewrite Nat.add_0_r. reflexivity.
  - destruct (lookup_lt_is_Some_2 bytes k) as [c Hc]; [lia |].
    rewrite (drop_S _ _ _ Hc). cbn [take read_frame_loop].
    rewrite (read_frame_byte_body st k c Hc) by lia. cbn [Z.eqb].
    replace (k + S m)%nat with (S k + m)%nat by lia.
    apply IH; lia.
Qed.

(** The verdict on the low checksum byte, at position [4 + len + 1]. *)
Lemma handle_byte_checksum (st : ShellyDimmer) (k : nat) (hi lo : Z) :
  Z.of_nat k = 4 + len + 1 ->
  bytes !! (k - 1)%nat = Some hi -> bytes !! k = Some lo ->
  is_u8 hi -> is_u8 lo ->
  (k < length (buffer_ st))%nat ->
  handle_byte_ SHELLY_DIMMER_BUFFER_SIZE
    (with_buffer_ (holding bytes st k)
       (aset (buffer_ (holding bytes st k)) (buffer_pos_ (holding bytes st k)) lo)) lo
  = if hi * 256 + lo
       =? sum_bytes (take (Z.to_nat (3 + len)) (drop 1 bytes)) mod 2 ^ 16
    then 1 else -1.
Proof.
  intros Hk Hhi Hlo Hhi8 Hlo8 Hbuf.
  assert (Hkb : (k < length bytes)%nat) by (eapply lookup_lt_Some; eauto).
  pose proof (holding_store st k lo Hlo Hbuf) as Hb1.
  set (st1 := with_buffer_ (holding bytes st k)
                (aset (buffer_ (holding bytes st k)) (buffer_pos_ (holding bytes st k)) lo)) in *.
  assert (Hp1 : buffer_pos_ st1 = Z.of_nat k) by reflexivity.
  unfold handle_byte_. rewrite Hp1, Hb1.
  destruct (Z.eqb_spec (Z.of_nat k) 0); [lia |].
  destruct (Z.ltb_spec (Z.of_nat k) 4); [lia |].
  rewrite holding_len by lia.
  destruct (Z.gtb_spec (4 + len + 3) SHELLY_DIMMER_BUFFER_SIZE); [lia |].
  destruct (Z.ltb_spec (Z.of_nat k) (4 + len + 1)); [lia |].
  destruct (Z.eqb_spec (Z.of_nat k) (4 + len + 1)); [| lia].
  assert (Hh : aget (take (S k) bytes ++ drop (S k) (buffer_ st)) (Z.of_nat k - 1) = hi).
  { replace (Z.of_nat k - 1) with (Z.of_nat (k - 1)) by lia. apply aget_lookup.
    rewrite lookup_app_l by (rewrite length_take; lia).
    rewrite lookup_take_lt by lia. exact Hhi. }
  rewrite Hh. unfold is_u8 in Hhi8, Hlo8.
  rewrite lor_shiftl_8 by exact Hlo8.
  unfold u16 at 1. rewrite (Z.mod_small (hi * 256 + lo))
    by (change (2 ^ 16) with 65536; lia).
  rewrite checksum_is_sum.
  assert (Hsame : take (Z.to_nat (3 + len))
                       (drop 1 (take (S k) bytes ++ drop (S k) (buffer_ st)))
                  = take (Z.to_nat (3 + len)) (drop 1 bytes)).
  { rewrite !take_drop_commute. f_equal.
    rewrite take_app_le by (rewrite length_take; lia).
    rewrite take_take. f_equal. lia. }
  rewrite Hsame.
  destruct (Z.eqb_spec (hi * 256 + lo)
              (sum_bytes (take (Z.to_nat (3 + len)) (drop 1 bytes)) mod 2 ^ 16));
    reflexivity.
Qed.

End Feeding.

Lemma holding_0 (bytes : list Z) (st : ShellyDimmer) :
  buffer_pos_ st = 0 -> holding bytes st 0 = st.
Proof.
  intros H. destruct st. cbn in H. subst. reflexivity.
Qed.

Section Frames.

Variable SHELLY_DIMMER_BUFFER_SIZE : Z.
Variables (seq cmd : Z) (payload : list Z).

Local Abbreviation len := (Z.of_nat (length payload)).
Local Abbreviation frame := (frame_of seq cmd payload).

Hypothesis Hfits : len + 7 <= SHELLY_DIMMER_BUFFER_SIZE.
Hypothesis Hbyte : len + 7 <= 256.

(** The driver that holds the whole frame, with the parser at its END
    byte: what [handle_frame_] is given. *)
Lemma frame_sum :
  sum_bytes (take (Z.to_nat (3 + len)) (drop 1 frame)) mod 2 ^ 16
  = sum_bytes (seq :: cmd :: len :: payload) mod 2 ^ 16.
Proof.
  replace (Z.to_nat (3 + len)) with (3 + length payload)%nat by lia.
  rewrite frame_of_checksummed. reflexivity.
Qed.

Lemma read_frame_byte_frame (st : ShellyDimmer) (k : nat) (c : Z) :
  frame !! k = Some c -> (k < length payload + 6)%nat ->
  (length payload + 7 <= length (buffer_ st))%nat ->
  read_frame_byte SHELLY_DIMMER_BUFFER_SIZE (holding frame st k) c
  = (1, holding frame st (S k)).
Proof.
  intros Hc Hk Hbuf.
  destruct (Z.ltb_spec (Z.of_nat k) (4 + len + 1)) as [Hbody | Hlo].
  { apply (read_frame_byte_body SHELLY_DIMMER_BUFFER_SIZE frame len);
      try assumption; try lia.
    - apply frame_of_start.
    - apply frame_of_len. }
  assert (Hk5 : k = (length payload + 5)%nat) by lia.
  unfold read_frame_byte.
  set (cs := sum_bytes (seq :: cmd :: len :: payload) mod 2 ^ 16).
  assert (Hcs : 0 <= cs < 65536) by (apply Z.mod_pos_bound; lia).
  assert (Hlo8 : c = cs mod 256).
  { subst k. rewrite frame_of_csum_lo in Hc. injection Hc as <-. reflexivity. }
  rewrite handle_byte_checksum with (hi := cs / 256) (len := Z.of_nat (length payload));
    try assumption; try lia; try apply frame_of_len.
  - rewrite frame_sum. fold cs.
    replace (cs / 256 * 256 + c) with cs by (rewrite Hlo8; Z.div_mod_to_equations; lia).
    rewrite Z.eqb_refl. cbn [Z.eqb].
    cbn [buffer_pos_ with_buffer_ with_buffer_pos_ holding].
    rewrite u8_id by (unfold is_u8; lia).
    f_equal. unfold holding, aset.
    cbn [buffer_ buffer_pos_ with_buffer_ with_buffer_pos_].
    rewrite Nat2Z.id, (insert_extend_prefix _ _ _ _ Hc) by lia.
    replace (Z.of_nat k + 1) with (Z.of_nat (S k)) by lia. reflexivity.
  - subst k. replace (length payload + 5 - 1)%nat with (length payload + 4)%nat by lia.
    apply frame_of_csum_hi.
  - unfold is_u8. Z.div_mod_to_equations; lia.
  - unfold is_u8. rewrite Hlo8. Z.div_mod_to_equations; lia.
Qed.

(** A part of the frame that stops short of its END byte leaves the
    parser waiting, with the bytes so far in the buffer. *)
Lemma read_frame_loop_partial (m k : nat) (st : ShellyDimmer) :
  (k + m < length payload + 7)%nat ->
  (length payload + 7 <= length (buffer_ st))%nat ->
  read_frame_loop SHELLY_DIMMER_BUFFER_SIZE (holding frame st k) (take m (drop k frame))
  = (false, holding frame st (k + m), []).
Proof.
  revert k. induction m as [| m IH]; intros k Hkm Hbuf.
  - rewrite Nat.add_0_r. reflexivity.
  - pose proof (frame_of_length seq cmd payload) as Hfl.
    destruct (lookup_lt_is_Some_2 frame k) as [c Hc]; [lia |].
    rewrite (drop_S _ _ _ Hc). cbn [take read_frame_loop].
    rewrite (read_frame_byte_frame st k c Hc) by lia. cbn [Z.eqb].
    replace (k + S m)%nat with (S k + m)%nat by lia.
    apply IH; lia.
Qed.

(** The END byte completes the frame: [handle_frame_] runs on the driver
    that holds it and the parser starts over. *)
Lemma read_frame_byte_end (st : ShellyDimmer) :
  (length payload + 7 <= length (buffer_ st))%nat ->
  read_frame_byte SHELLY_DIMMER_BUFFER_SIZE (holding frame st (length payload + 6))
                  SHELLY_DIMMER_PROTO_END_BYTE
  = (0, with_buffer_pos_
          (snd (handle_frame_
                  (with_buffer_pos_
                     (with_buffer_ st (frame ++ drop (length payload + 7) (buffer_ st)))
                     (len + 6)))) 0).
Proof.
  intros Hbuf. pose proof (frame_of_length seq cmd payload) as Hfl.
  pose proof (frame_of_end seq cmd payload) as Hend.
  unfold read_frame_byte.
  set (st1 := with_buffer_ (holding frame st (length payload + 6))
                (aset (buffer_ (holding frame st (length payload + 6)))
                      (buffer_pos_ (holding frame st (length payload + 6)))
                      SHELLY_DIMMER_PROTO_END_BYTE)).
  assert (Hst1 : st1 = with_buffer_pos_
                         (with_buffer_ st (frame ++ drop (length payload + 7) (buffer_ st)))
                         (len + 6)).
  { unfold st1, holding, aset.
    cbn [buffer_ buffer_pos_ with_buffer_ with_buffer_pos_].
    rewrite Nat2Z.id, (insert_extend_prefix _ _ _ _ Hend) by lia.
    replace (S (length payload + 6)) with (length payload + 7)%nat by lia.
    rewrite (take_ge frame (length payload + 7)) by (rewrite Hfl; lia).
    replace (Z.of_nat (length payload + 6)) with (len + 6) by lia. reflexivity. }
  assert (Hr : handle_byte_ SHELLY_DIMMER_BUFFER_SIZE st1
                            SHELLY_DIMMER_PROTO_END_BYTE = 0).
  { rewrite (handle_byte_on_frame SHELLY_DIMMER_BUFFER_SIZE seq cmd payload Hfits
               st1 (length payload + 6) SHELLY_DIMMER_PROTO_END_BYTE).
    - rewrite Nat.eqb_refl. reflexivity.
    - rewrite Hst1. cbn [buffer_pos_ with_buffer_pos_]. lia.
    - rewrite Hst1. cbn [buffer_ with_buffer_ with_buffer_pos_].
      rewrite take_app_le by lia. reflexivity.
    - exact Hend. }
  rewrite Hr. cbn [Z.eqb]. rewrite Hst1.
  destruct (handle_frame_ _) as [b st2]. reflexivity.
Qed.

(** The rest of the frame completes it. *)
Lemma read_frame_loop_rest (k : nat) (st : ShellyDimmer) :
  (k < length payload + 7)%nat ->
  (length payload + 7 <= length (buffer_ st))%nat ->
  read_frame_loop SHELLY_DIMMER_BUFFER_SIZE (holding frame st k) (drop k frame)
  = (true,
     with_buffer_pos_
       (snd (handle_frame_
               (with_buffer_pos_
                  (with_buffer_ st (frame ++ drop (length payload + 7) (buffer_ st)))
                  (len + 6)))) 0,
     []).
Proof.
  intros Hk Hbuf. pose proof (frame_of_length seq cmd payload) as Hfl.
  set (m := (length payload + 6 - k)%nat).
  replace (drop k frame)
    with (take m (drop k frame) ++ [SHELLY_DIMMER_PROTO_END_BYTE]).
  2:{ rewrite <- (take_drop m (drop k frame)) at 2. f_equal.
      rewrite drop_drop.
      replace (k + m)%nat with (length payload + 6)%nat by (unfold m; lia).
      rewrite (drop_S _ _ _ (frame_of_end seq cmd payload)).
      rewrite drop_ge by lia. reflexivity. }
  rewrite (read_frame_loop_app _ _ _ _ _ (read_frame_loop_partial m k st ltac:(unfold m; lia) Hbuf)).
  replace (k + m)%nat with (length payload + 6)%nat by (unfold m; lia).
  cbn [read_frame_loop]. rewrite read_frame_byte_end by exact Hbuf. reflexivity.
Qed.

End Frames.

Lemma read_frame_loop_noise (size : Z) (junk : list Z) (st : ShellyDimmer) :
  buffer_pos_ st = 0 ->
  Forall (fun c => c <> SHELLY_DIMMER_PROTO_START_BYTE) junk ->
  exists buf,
    length buf = length (buffer_ st)
    /\ read_frame_loop size st junk = (false, with_buffer_ st buf, []).
Proof.
  intros Hpos Hjunk. revert st Hpos.
  induction Hjunk as [| c junk Hc _ IH]; intros st Hpos.
  - exists (buffer_ st). split; [reflexivity |]. destruct st; reflexivity.
  - assert (Hstep : read_frame_byte size st c
                    = (-1, with_buffer_pos_ (with_buffer_ st (aset (buffer_ st) 0 c)) 0)).
    { unfold read_frame_byte, handle_byte_.
      cbn [buffer_pos_ with_buffer_]. rewrite Hpos. cbn [Z.eqb].
      destruct (Z.eqb_spec c SHELLY_DIMMER_PROTO_START_BYTE) as [E | _];
        [contradiction | reflexivity]. }
    cbn [read_frame_loop]. rewrite Hstep. cbn [Z.eqb].
    destruct (IH (with_buffer_pos_ (with_buffer_ st (aset (buffer_ st) 0 c)) 0))
      as (buf & Hbl & Hrun); [reflexivity |].
    exists buf. split.
    + rewrite Hbl. unfold aset. cbn [buffer_ with_buffer_ with_buffer_pos_].
      apply length_insert.
    + rewrite Hrun. destruct st. cbn in Hpos. subst. reflexivity.
Qed.

(** A frame whose checksum bytes are wrong is consumed without a report. *)
Lemma read_frame_loop_bad_checksum (SHELLY_DIMMER_BUFFER_SIZE : Z) (st : ShellyDimmer)
    (seq cmd : Z) (payload : list Z) (hi lo : Z) (rest : list Z) :
  let len := Z.of_nat (length payload) in
  buffer_pos_ st = 0 ->
  (length payload + 7 <= length (buffer_ st))%nat ->
  len + 7 <= SHELLY_DIMMER_BUFFER_SIZE ->
  len + 7 <= 256 ->
  is_u8 hi -> is_u8 lo ->
  hi * 256 + lo <> sum_bytes (seq :: cmd :: len :: payload) mod 2 ^ 16 ->
  exists buf,
    length buf = length (buffer_ st)
    /\ read_frame_loop SHELLY_DIMMER_BUFFER_SIZE st
         ([SHELLY_DIMMER_PROTO_START_BYTE; seq; cmd; len] ++ payload
            ++ [hi; lo; SHELLY_DIMMER_PROTO_END_BYTE] ++ rest)
       = read_frame_loop SHELLY_DIMMER_BUFFER_SIZE (with_buffer_ st buf) rest.
Proof.
  intros len Hpos Hbuf Hfits Hbyte Hhi Hlo Hbad.
  set (bytes := [SHELLY_DIMMER_PROTO_START_BYTE; seq; cmd; len] ++ payload
                  ++ [hi; lo; SHELLY_DIMMER_PROTO_END_BYTE]).
  assert (Hbl : length bytes = (length payload + 7)%nat).
  { unfold bytes. cbn [length app]. rewrite length_app. cbn [length]. lia. }
  assert (Hb0 : bytes !! 0%nat = Some SHELLY_DIMMER_PROTO_START_BYTE) by reflexivity.
  assert (Hb3 : bytes !! 3%nat = Some len) by reflexivity.
  assert (Hbhi : bytes !! (length payload + 4)%nat = Some hi).
  { unfold bytes. rewrite lookup_app_r by (cbn [length]; lia). cbn [length].
    rewrite lookup_app_r by lia.
    replace (length payload + 4 - 4 - length payload)%nat with 0%nat by lia.
    reflexivity. }
  assert (Hblo : bytes !! (length payload + 5)%nat = Some lo).
  { unfold bytes. rewrite lookup_app_r by (cbn [length]; lia). cbn [length].
    rewrite lookup_app_r by lia.
    replace (length payload + 5 - 4 - length payload)%nat with 1%nat by lia.
    reflexivity. }
  assert (Hsplit : [SHELLY_DIMMER_PROTO_START_BYTE; seq; cmd; len] ++ payload
                     ++ [hi; lo; SHELLY_DIMMER_PROTO_END_BYTE] ++ rest
                   = take (length payload + 5) (drop 0 bytes)
                       ++ lo :: SHELLY_DIMMER_PROTO_END_BYTE :: rest).
  { assert (Hd : drop (length payload + 5) bytes = [lo; SHELLY_DIMMER_PROTO_END_BYTE]).
    { unfold bytes. rewrite drop_app_ge by (cbn [length]; lia). cbn [length].
      rewrite drop_app_ge by lia.
      replace (length payload + 5 - 4 - length payload)%nat with 1%nat by lia.
      reflexivity. }
    cbn [drop]. transitivity (bytes ++ rest).
    { unfold bytes. rewrite <- !app_assoc. reflexivity. }
    rewrite <- (take_drop (length payload + 5) bytes) at 1.
    rewrite Hd, <- app_assoc. reflexivity. }
  rewrite Hsplit.
  assert (Hbody : read_frame_loop SHELLY_DIMMER_BUFFER_SIZE (holding bytes st 0)
                    (take (length payload + 5) (drop 0 bytes))
                  = (false, holding bytes st (0 + (length payload + 5)), [])).
  { apply read_frame_loop_body with (len := len); try assumption; lia. }
  rewrite holding_0 in Hbody by exact Hpos.
  rewrite (read_frame_loop_app _ _ _ _ _ Hbody).
  change (0 + (length payload + 5))%nat with (length payload + 5)%nat.
  set (st1 := with_buffer_pos_
                (with_buffer_ (holding bytes st (length payload + 5))
                   (aset (buffer_ (holding bytes st (length payload + 5)))
                      (buffer_pos_ (holding bytes st (length payload + 5))) lo)) 0).
  assert (Hsum : sum_bytes (take (Z.to_nat (3 + len)) (drop 1 bytes)) mod 2 ^ 16
                 = sum_bytes (seq :: cmd :: len :: payload) mod 2 ^ 16).
  { unfold bytes. cbn [app drop].
    replace (Z.to_nat (3 + len)) with (3 + length payload)%nat by lia.
    cbn [take Nat.add]. rewrite take_app_le by lia. rewrite take_ge by lia.
    reflexivity. }
  assert (Hstep : read_frame_loop SHELLY_DIMMER_BUFFER_SIZE
                    (holding bytes st (length payload + 5)) [lo]
                  = (false, st1, [])).
  { cbn [read_frame_loop]. unfold read_frame_byte.
    rewrite handle_byte_checksum with (hi := hi) (len := len);
      try assumption; try lia.
    2:{ replace (length payload + 5 - 1)%nat with (length payload + 4)%nat by lia.
        exact Hbhi. }
    rewrite Hsum.
    destruct (Z.eqb_spec (hi * 256 + lo)
                (sum_bytes (seq :: cmd :: len :: payload) mod 2 ^ 16)) as [E | _];
      [contradiction | reflexivity]. }
  destruct (read_frame_loop_noise SHELLY_DIMMER_BUFFER_SIZE
              [SHELLY_DIMMER_PROTO_END_BYTE] st1) as (buf & Hlb & Hrun);
    [reflexivity | repeat constructor; discriminate |].
  change (lo :: SHELLY_DIMMER_PROTO_END_BYTE :: rest)
    with ([lo] ++ [SHELLY_DIMMER_PROTO_END_BYTE] ++ rest).
  rewrite (read_frame_loop_app _ _ _ _ _ Hstep), (read_frame_loop_app _ _ _ _ _ Hrun).
  exists buf. split.
  - rewrite Hlb. unfold st1, holding, aset.
    cbn [buffer_ buffer_pos_ with_buffer_ with_buffer_pos_].
    rewrite length_insert, length_app, length_take, length_drop. lia.
  - f_equal. unfold st1. destruct st. cbn in Hpos. subst. reflexivity.
Qed.

(** X2. A frame with a wrong checksum is dropped: when the sixteen bits
    after the payload differ from the sum modulo 2^16 of the bytes from the
    sequence number through the payload, [read_frame_] consumes the whole
    frame without reporting it and without calling [handle_frame_] (nothing
    of the driver changes but the content of the receive buffer, the parser
    is back at position 0), and goes on with the bytes that follow. *)
Theorem bad_checksum_dropped (SHELLY_DIMMER_BUFFER_SIZE : Z) (st : ShellyDimmer)
    (seq cmd : Z) (payload : list Z) (hi lo : Z) (rest : list Z) :
  let len := Z.of_nat (length payload) in
  buffer_pos_ st = 0 ->
  (length payload + 7 <= length (buffer_ st))%nat ->
  len + 7 <= SHELLY_DIMMER_BUFFER_SIZE ->
  len + 7 <= 256 ->
  is_u8 hi -> is_u8 lo ->
  hi * 256 + lo <> sum_bytes (seq :: cmd :: len :: payload) mod 2 ^ 16 ->
  exists buf,
    length buf = length (buffer_ st)
    /\ read_frame_loop SHELLY_DIMMER_BUFFER_SIZE st
         ([SHELLY_DIMMER_PROTO_START_BYTE; seq; cmd; len] ++ payload
            ++ [hi; lo; SHELLY_DIMMER_PROTO_END_BYTE] ++ rest)
       = read_frame_loop SHELLY_DIMMER_BUFFER_SIZE (with_buffer_ st buf) rest.
Proof.
  intros len. apply read_frame_loop_bad_checksum.
Qed.

Lemma bad_checksum_dropped_witness :
  0x00 * 256 + 0xEE <> sum_bytes [1; 1; 2; 0xE8; 0x03] mod 2 ^ 16
  /\ exists buf,
       length buf = length (buffer_ (fresh_driver 79))
       /\ read_frame_loop 79 (fresh_driver 79)
            ([SHELLY_DIMMER_PROTO_START_BYTE; 1; 1; 2] ++ [0xE8; 0x03]
               ++ [0x00; 0xEE; SHELLY_DIMMER_PROTO_END_BYTE] ++ [0x01; 0x02])
          = read_frame_loop 79 (with_buffer_ (fresh_driver 79) buf) [0x01; 0x02].
Proof.
  assert (Hbad : 0x00 * 256 + 0xEE <> sum_bytes [1; 1; 2; 0xE8; 0x03] mod 2 ^ 16)
    by (vm_compute; discriminate).
  split; [exact Hbad |].
  apply (bad_checksum_dropped 79 (fresh_driver 79) 1 1 [0xE8; 0x03] 0x00 0xEE
           [0x01; 0x02]).
  - reflexivity.
  - simpl. lia.
  - simpl. lia.
  - simpl. lia.
  - unfold is_u8. lia.
  - unfold is_u8. lia.
  - exact Hbad.
Defined.

(** X3. Line noise before a frame is skipped, and what follows the frame
    stays in the UART: with the parser at position 0, bytes other than START
    are consumed one by one without moving it; a well-formed frame after
    them is then accepted on its END byte, and [read_frame_] returns there,
    leaving the bytes behind the frame unread. *)
Theorem noise_then_frame (SHELLY_DIMMER_BUFFER_SIZE : Z) (st : ShellyDimmer)
    (junk : list Z) (seq cmd : Z) (payload rest : list Z) :
  let len := Z.of_nat (length payload) in
  buffer_pos_ st = 0 ->
  (length payload + 7 <= length (buffer_ st))%nat ->
  len + 7 <= SHELLY_DIMMER_BUFFER_SIZE ->
  len + 7 <= 256 ->
  Forall (fun c => c <> SHELLY_DIMMER_PROTO_START_BYTE) junk ->
  exists st',
    read_frame_loop SHELLY_DIMMER_BUFFER_SIZE st
                    (junk ++ frame_of seq cmd payload ++ rest)
    = (true, st', rest)
    /\ holds_frame st' (frame_of seq cmd payload)
    /\ buffer_pos_ st' = 0.
Proof.
  intros len Hpos Hbuf Hfits Hbyte Hjunk.
  destruct (read_frame_loop_noise SHELLY_DIMMER_BUFFER_SIZE junk st Hpos Hjunk)
    as (buf & Hlb & Hrun).
  rewrite (read_frame_loop_app _ _ _ _ _ Hrun).
  pose proof (frame_of_length seq cmd payload) as Hfl.
  pose proof (read_frame_loop_rest SHELLY_DIMMER_BUFFER_SIZE seq cmd payload
                Hfits Hbyte 0 (with_buffer_ st buf) ltac:(lia)
                ltac:(cbn [buffer_ with_buffer_]; lia)) as Hacc.
  rewrite holding_0 in Hacc by exact Hpos. cbn [drop] in Hacc.
  rewrite (read_frame_loop_app_done _ _ _ _ _ Hacc).
  eexists. split; [reflexivity |]. split; [| reflexivity].
  unfold holds_frame. cbn [buffer_ with_buffer_pos_].
  destruct (handle_frame_buffer
              (with_buffer_pos_
                 (with_buffer_ (with_buffer_ st buf)
                    (frame_of seq cmd payload
                       ++ drop (length payload + 7) (buffer_ (with_buffer_ st buf))))
                 (Z.of_nat (length payload) + 6))) as [Hb _].
  rewrite Hb. cbn [buffer_ with_buffer_ with_buffer_pos_].
  rewrite take_app_le by lia. apply take_ge. lia.
Qed.

Lemma noise_then_frame_witness :
  Forall (fun c => c <> SHELLY_DIMMER_PROTO_START_BYTE) [0x00; 0xFF; 0x04]
  /\ exists st',
       read_frame_loop 79 (fresh_driver 79)
         ([0x00; 0xFF; 0x04] ++ frame_of 7 SHELLY_DIMMER_PROTO_CMD_SWITCH [0x01]
            ++ [0x01; 0x08])
       = (true, st', [0x01; 0x08])
       /\ holds_frame st' (frame_of 7 SHELLY_DIMMER_PROTO_CMD_SWITCH [0x01])
       /\ buffer_pos_ st' = 0.
Proof.
  assert (Hjunk : Forall (fun c => c <> SHELLY_DIMMER_PROTO_START_BYTE)
                         [0x00; 0xFF; 0x04])
    by (repeat constructor; discriminate).
  split; [exact Hjunk |].
  apply (noise_then_frame 79 (fresh_driver 79) [0x00; 0xFF; 0x04] 7
           SHELLY_DIMMER_PROTO_CMD_SWITCH [0x01] [0x01; 0x08]).
  - reflexivity.
  - simpl. lia.
  - simpl. lia.
  - simpl. lia.
  - exact Hjunk.
Defined.

Lemma sum_bytes_perm (l1 l2 : list Z) : l1 ≡ₚ l2 -> sum_bytes l1 = sum_bytes l2.
Proof.
  unfold sum_bytes. induction 1; cbn [foldr]; lia.
Qed.

Lemma sum_bytes_insert (l : list Z) (i : nat) (a b : Z) :
  l !! i = Some a -> sum_bytes (<[i := b]> l) = sum_bytes l - a + b.
Proof.
  revert i. induction l as [| x l IH]; intros [| i] H; try discriminate.
  - injection H as ->. cbn [insert list_insert sum_bytes foldr]. lia.
  - cbn [lookup list_lookup] in H. specialize (IH i H).
    change (<[S i := b]> (x :: l)) with (x :: <[i := b]> l).
    change (sum_bytes (x :: <[i := b]> l)) with (x + sum_bytes (<[i := b]> l)).
    change (sum_bytes (x :: l)) with (x + sum_bytes l). lia.
Qed.

(** X4. The checksum does not see the order of the bytes: buffers whose
    checksummed bytes are a rearrangement of one another have the same
    checksum, so a frame whose payload bytes were permuted on the wire still
    passes the check of [handle_byte_] and is dispatched with the permuted
    payload. *)
Theorem reordered_payload_accepted (SHELLY_DIMMER_BUFFER_SIZE : Z)
    (st : ShellyDimmer) (seq cmd : Z) (payload payload' : list Z) :
  let len := Z.of_nat (length payload) in
  payload' ≡ₚ payload ->
  buffer_pos_ st = 0 ->
  (length payload + 7 <= length (buffer_ st))%nat ->
  len + 7 <= SHELLY_DIMMER_BUFFER_SIZE ->
  len + 7 <= 256 ->
  shelly_dimmer_checksum (seq :: cmd :: len :: payload') (3 + len)
  = shelly_dimmer_checksum (seq :: cmd :: len :: payload) (3 + len)
  /\ exists st',
       read_frame_loop SHELLY_DIMMER_BUFFER_SIZE st
         ([SHELLY_DIMMER_PROTO_START_BYTE; seq; cmd; len] ++ payload'
            ++ drop (4 + length payload) (frame_of seq cmd payload))
       = (true, st', [])
       /\ take (length payload) (drop 4 (buffer_ st')) = payload'.
Proof.
  intros len Hperm Hpos Hbuf Hfits Hbyte.
  assert (Hl : length payload' = length payload) by (rewrite Hperm; reflexivity).
  assert (Hsum : sum_bytes (seq :: cmd :: len :: payload')
                 = sum_bytes (seq :: cmd :: len :: payload)).
  { apply sum_bytes_perm. rewrite Hperm. reflexivity. }
  split.
  { rewrite !checksum_is_sum.
    replace (Z.to_nat (3 + len)) with (3 + length payload)%nat by lia.
    cbn [take Nat.add]. rewrite !take_ge by lia. rewrite Hsum. reflexivity. }
  assert (Hframe : [SHELLY_DIMMER_PROTO_START_BYTE; seq; cmd; len] ++ payload'
                     ++ drop (4 + length payload) (frame_of seq cmd payload)
                   = frame_of seq cmd payload').
  { unfold frame_of. rewrite Hl. fold len. rewrite Hsum.
    cbn [app]. do 4 f_equal.
    replace (4 + length payload)%nat with (S (S (S (S (length payload))))) by lia.
    cbn [drop]. rewrite drop_app_length. reflexivity. }
  rewrite Hframe.
  pose proof (read_frame_loop_rest SHELLY_DIMMER_BUFFER_SIZE seq cmd payload'
                ltac:(lia) ltac:(lia) 0 st ltac:(lia) ltac:(lia)) as Hacc.
  rewrite holding_0 in Hacc by exact Hpos. cbn [drop] in Hacc.
  eexists. split; [exact Hacc |].
  cbn [buffer_ with_buffer_pos_].
  match goal with |- context [handle_frame_ ?s] =>
    destruct (handle_frame_buffer s) as [Hb _] end.
  rewrite Hb. cbn [buffer_ with_buffer_ with_buffer_pos_].
  unfold frame_of. cbn [app drop]. rewrite drop_0, <- app_assoc.
  rewrite take_app_le by lia. apply take_ge. lia.
Qed.

Lemma reordered_payload_accepted_witness :
  [0x03; 0xE8] ≡ₚ [0xE8; 0x03]
  /\ shelly_dimmer_checksum (1 :: 1 :: 2 :: [0x03; 0xE8]) (3 + 2)
     = shelly_dimmer_checksum (1 :: 1 :: 2 :: [0xE8; 0x03]) (3 + 2)
  /\ exists st',
       read_frame_loop 79 (fresh_driver 79)
         ([SHELLY_DIMMER_PROTO_START_BYTE; 1; 1; 2] ++ [0x03; 0xE8]
            ++ drop (4 + 2) (frame_of 1 1 [0xE8; 0x03]))
       = (true, st', [])
       /\ take 2 (drop 4 (buffer_ st')) = [0x03; 0xE8].
Proof.
  assert (Hperm : [0x03; 0xE8] ≡ₚ [0xE8; 0x03]) by apply perm_swap.
  split; [exact Hperm |].
  apply (reordered_payload_accepted 79 (fresh_driver 79) 1 1 [0xE8; 0x03] [0x03; 0xE8]).
  - exact Hperm.
  - reflexivity.
  - simpl. lia.
  - simpl. lia.
  - simpl. lia.
Defined.

(** X5. One wrong byte is always caught: when one byte of the payload of a
    well-formed frame is replaced by a different byte, the checksum no
    longer matches and [read_frame_] drops the frame without calling
    [handle_frame_]. *)
Theorem corrupted_byte_detected (SHELLY_DIMMER_BUFFER_SIZE : Z)
    (st : ShellyDimmer) (seq cmd : Z) (payload : list Z) (i : nat) (a b : Z)
    (rest : list Z) :
  let len := Z.of_nat (length payload) in
  payload !! i = Some a ->
  is_u8 a -> is_u8 b -> a <> b ->
  buffer_pos_ st = 0 ->
  (length payload + 7 <= length (buffer_ st))%nat ->
  len + 7 <= SHELLY_DIMMER_BUFFER_SIZE ->
  len + 7 <= 256 ->
  exists buf,
    length buf = length (buffer_ st)
    /\ read_frame_loop SHELLY_DIMMER_BUFFER_SIZE st
         ([SHELLY_DIMMER_PROTO_START_BYTE; seq; cmd; len] ++ <[i := b]> payload
            ++ drop (4 + length payload) (frame_of seq cmd payload) ++ rest)
       = read_frame_loop SHELLY_DIMMER_BUFFER_SIZE (with_buffer_ st buf) rest.
Proof.
  intros len Ha Ha8 Hb8 Hab Hpos Hbuf Hfits Hbyte.
  set (cs := sum_bytes (seq :: cmd :: len :: payload) mod 2 ^ 16).
  assert (Hcs : 0 <= cs < 65536) by (apply Z.mod_pos_bound; lia).
  assert (Htrail : drop (4 + length payload) (frame_of seq cmd payload)
                   = [cs / 256; cs mod 256; SHELLY_DIMMER_PROTO_END_BYTE]).
  { unfold frame_of.
    replace (4 + length payload)%nat with (S (S (S (S (length payload))))) by lia.
    cbn [app drop]. rewrite drop_app_length. reflexivity. }
  rewrite Htrail.
  pose proof (read_frame_loop_bad_checksum SHELLY_DIMMER_BUFFER_SIZE st seq cmd
                (<[i := b]> payload) (cs / 256) (cs mod 256) rest) as Hdrop.
  cbn zeta in Hdrop. rewrite length_insert in Hdrop. fold len in Hdrop.
  apply Hdrop; try assumption.
  - unfold is_u8. Z.div_mod_to_equations; lia.
  - unfold is_u8. Z.div_mod_to_equations; lia.
  - replace (cs / 256 * 256 + cs mod 256) with cs by (Z.div_mod_to_equations; lia).
    unfold cs. cbn [sum_bytes foldr]. fold (sum_bytes payload).
    fold (sum_bytes (<[i := b]> payload)).
    rewrite (sum_bytes_insert payload i a b Ha).
    unfold is_u8 in Ha8, Hb8. intros E.
    apply (f_equal (fun z => (z - (seq + (cmd + (len + (sum_bytes payload - a + b))))) mod 2 ^ 16)) in E.
    rewrite Zminus_mod_idemp_l, Zminus_mod_idemp_l in E.
    rewrite Z.sub_diag in E.
    replace (seq + (cmd + (len + sum_bytes payload))
             - (seq + (cmd + (len + (sum_bytes payload - a + b))))) with (a - b) in E by lia.
    change (2 ^ 16) with 65536 in E. change (0 mod 65536) with 0 in E.
    Z.div_mod_to_equations. lia.
Qed.

Lemma corrupted_byte_detected_witness :
  [0xE8; 0x03] !! 1%nat = Some 0x03
  /\ exists buf,
       length buf = length (buffer_ (fresh_driver 79))
       /\ read_frame_loop 79 (fresh_driver 79)
            ([SHELLY_DIMMER_PROTO_START_BYTE; 1; 1; 2] ++ <[1%nat := 0x02]> [0xE8; 0x03]
               ++ drop (4 + 2) (frame_of 1 1 [0xE8; 0x03]) ++ [])
          = read_frame_loop 79 (with_buffer_ (fresh_driver 79) buf) [].
Proof.
  split; [reflexivity |].
  apply (corrupted_byte_detected 79 (fresh_driver 79) 1 1 [0xE8; 0x03] 1 0x03 0x02 []).
  - reflexivity.
  - unfold is_u8. lia.
  - unfold is_u8. lia.
  - discriminate.
  - reflexivity.
  - simpl. lia.
  - simpl. lia.
  - simpl. lia.
Defined.

(** * Sending a command: timeout and acknowledgement *)

Section Clock.

Variable SHELLY_DIMMER_BUFFER_SIZE : Z.

(** On a silent UART the wait for a reply runs the clock to the timeout. *)
Lemma await_reply_silent_clock (fuel : nat) (tx_time : Z) (st : ShellyDimmer)
    (w : World) :
  silent w ->
  u32 (millis w - tx_time) <= SHELLY_DIMMER_ACK_TIMEOUT ->
  (Z.to_nat (SHELLY_DIMMER_ACK_TIMEOUT - u32 (millis w - tx_time)) < fuel)%nat ->
  exists w',
    await_reply SHELLY_DIMMER_BUFFER_SIZE fuel tx_time st w = Some (false, st, w')
    /\ silent w'
    /\ u32 (millis w' - millis w)
       = SHELLY_DIMMER_ACK_TIMEOUT - u32 (millis w - tx_time)
    /\ tx w' = tx w /\ flushed w' = flushed w.
Proof.
  revert w. induction fuel as [| fuel IH]; intros w Hsil He Hfuel; [lia |].
  cbn [await_reply].
  destruct (Z.ltb_spec (u32 (millis w - tx_time)) SHELLY_DIMMER_ACK_TIMEOUT)
    as [Hlt | Hge].
  - unfold read_frame_. destruct Hsil as [Hrx Hline]. rewrite Hrx.
    cbn [read_frame_loop].
    set (w1 := {| millis := millis w; rx := []; line := line w; tx := tx w;
                  flushed := flushed w |}).
    assert (Hsil1 : silent w1) by (split; [reflexivity | exact Hline]).
    pose proof (elapsed_after_delay (millis w) tx_time Hlt) as Hel1.
    destruct (IH (delay_1 w1)) as (w' & Hrun & Hsil' & Hel & Htx & Hfl).
    + apply silent_delay. exact Hsil1.
    + cbn [millis delay_1 w1]. rewrite Hel1. lia.
    + cbn [millis delay_1 w1]. rewrite Hel1. lia.
    + exists w'. rewrite Hrun.
      split; [reflexivity |]. split; [exact Hsil' |]. split; [| split; assumption].
      cbn [millis delay_1 w1] in Hel. rewrite Hel1 in Hel.
      unfold SHELLY_DIMMER_ACK_TIMEOUT in *. unfold u32 in *.
      change (2 ^ 32) with 4294967296 in *.
      Z.div_mod_to_equations. lia.
  - exists w. split; [reflexivity |]. split; [exact Hsil |].
    split; [| split; reflexivity].
    rewrite Z.sub_diag. change (u32 0) with 0. lia.
Qed.

Lemma send_attempts_silent_clock (fuel retries : nat) (frame : list Z)
    (st : ShellyDimmer) (w : World) :
  (Z.to_nat SHELLY_DIMMER_ACK_TIMEOUT < fuel)%nat ->
  (retries <= 3)%nat ->
  silent w ->
  exists w',
    send_attempts SHELLY_DIMMER_BUFFER_SIZE fuel retries frame st w = Some (false, st, w')
    /\ silent w'
    /\ u32 (millis w' - millis w) = SHELLY_DIMMER_ACK_TIMEOUT * Z.of_nat retries
    /\ tx w' = tx w ++ replicate retries frame
    /\ flushed w' = flushed w + Z.of_nat retries.
Proof.
  intros Hfuel. revert w. induction retries as [| retries IH]; intros w Hret Hsil.
  - exists w. cbn [send_attempts replicate]. rewrite app_nil_r.
    split; [reflexivity |]. split; [exact Hsil |].
    split; [rewrite Z.sub_diag; reflexivity |]. split; [reflexivity | lia].
  - cbn [send_attempts].
    set (w1 := flush (write_array w frame)).
    destruct (await_reply_silent_clock fuel (millis w1) st w1)
      as (w2 & Hrun & Hsil2 & Hel & Htx & Hfl).
    + exact Hsil.
    + rewrite Z.sub_diag. vm_compute. discriminate.
    + rewrite Z.sub_diag. change (u32 0) with 0. lia.
    + rewrite Hrun.
      destruct (IH w2 ltac:(lia) Hsil2) as (w' & Hrun' & Hsil' & Hel' & Htx' & Hfl').
      exists w'. rewrite Hrun'. cbn [tx flushed flush write_array w1] in Htx, Hfl.
      split; [reflexivity |]. split; [exact Hsil' |]. split; [| split].
      * rewrite Z.sub_diag in Hel. change (u32 0) with 0 in Hel.
        change (millis w1) with (millis w) in Hel.
        unfold SHELLY_DIMMER_ACK_TIMEOUT in *. unfold u32 in *.
        change (2 ^ 32) with 4294967296 in *.
        Z.div_mod_to_equations. lia.
      * rewrite Htx', Htx, <- app_assoc. reflexivity.
      * rewrite Hfl', Hfl. lia.
Qed.

End Clock.



Section Reply.

Variable SHELLY_DIMMER_BUFFER_SIZE : Z.
Variables (seq cmd : Z) (payload : list Z).

Local Abbreviation len := (Z.of_nat (length payload)).
Local Abbreviation reply := (frame_of seq cmd payload).

Hypothesis Hfits : len + 7 <= SHELLY_DIMMER_BUFFER_SIZE.
Hypothesis Hbyte : len + 7 <= 256.

(** The wait for a reply while the reply comes in, in pieces: [k] bytes of
    it are in the buffer, the next piece is waiting in the UART and the
    others follow, one per millisecond. *)
Lemma await_reply_fragments (chunks : list (list Z)) (fuel : nat) (tx_time : Z)
    (st : ShellyDimmer) (k : nat) (w : World) (later : list (list Z)) :
  (length payload + 7 <= length (buffer_ st))%nat ->
  (k < length payload + 7)%nat ->
  line w = chunks ++ later ->
  rx w ++ concat chunks = drop k reply ->
  u32 (millis w - tx_time) + Z.of_nat (length chunks) < SHELLY_DIMMER_ACK_TIMEOUT ->
  (length chunks < fuel)%nat ->
  exists w',
    await_reply SHELLY_DIMMER_BUFFER_SIZE fuel tx_time (holding reply st k) w
    = Some (true,
            with_buffer_pos_
              (snd (handle_frame_
                      (with_buffer_pos_
                         (with_buffer_ st (reply ++ drop (length payload + 7) (buffer_ st)))
                         (len + 6)))) 0,
            w')
    /\ tx w' = tx w /\ flushed w' = flushed w.
Proof.
  intros Hbuf. revert fuel k w.
  induction chunks as [| chunk chunks IH]; intros fuel k w Hk Hline Hrx Hel Hfuel.
  - destruct fuel as [| fuel]; [cbn [length] in Hfuel; lia |].
    cbn [await_reply].
    destruct (Z.ltb_spec (u32 (millis w - tx_time)) SHELLY_DIMMER_ACK_TIMEOUT)
      as [_ | Hge]; [| cbn [length] in Hel; lia].
    cbn [concat] in Hrx. rewrite app_nil_r in Hrx.
    unfold read_frame_. rewrite Hrx.
    rewrite (read_frame_loop_rest SHELLY_DIMMER_BUFFER_SIZE seq cmd payload
               Hfits Hbyte k st Hk Hbuf).
    eexists. split; [reflexivity |]. split; reflexivity.
  - destruct fuel as [| fuel]; [cbn [length] in Hfuel; lia |].
    cbn [length] in Hel, Hfuel.
    cbn [await_reply].
    destruct (Z.ltb_spec (u32 (millis w - tx_time)) SHELLY_DIMMER_ACK_TIMEOUT)
      as [Hlt | Hge]; [| lia].
    pose proof (frame_of_length seq cmd payload) as Hfl.
    cbn [concat] in Hrx.
    assert (Hlen : (length (rx w) + length chunk + length (concat chunks)
                    = length payload + 7 - k)%nat).
    { apply (f_equal length) in Hrx. rewrite !length_app, length_drop, Hfl in Hrx. lia. }
    destruct (Nat.eq_dec (length chunk + length (concat chunks))%nat 0%nat) as [Hdone | Hmore].
    + (* the waiting piece ends the frame *)
      assert (Hc0 : chunk ++ concat chunks = []).
      { apply length_zero_iff_nil. rewrite length_app. exact Hdone. }
      rewrite Hc0, app_nil_r in Hrx.
      unfold read_frame_. rewrite Hrx.
      rewrite (read_frame_loop_rest SHELLY_DIMMER_BUFFER_SIZE seq cmd payload
                 Hfits Hbyte k st Hk Hbuf).
      eexists. split; [reflexivity |]. split; reflexivity.
    + set (m := length (rx w)).
      assert (Hseg : rx w = take m (drop k reply)).
      { rewrite <- Hrx. unfold m. rewrite take_app_length. reflexivity. }
      unfold read_frame_. rewrite Hseg.
      rewrite (read_frame_loop_partial SHELLY_DIMMER_BUFFER_SIZE seq cmd payload
                 Hfits Hbyte m k st ltac:(unfold m; lia) Hbuf).
      set (w1 := {| millis := millis w; rx := []; line := line w; tx := tx w;
                    flushed := flushed w |}).
      destruct (IH fuel (k + m)%nat (delay_1 w1)) as (w' & Hrun & Htx & Hfl').
      * unfold m. lia.
      * cbn [line delay_1 w1]. rewrite Hline. reflexivity.
      * cbn [rx line delay_1 w1 app]. rewrite Hline. cbn [hd app].
        rewrite <- drop_drop, <- Hrx. unfold m. rewrite drop_app_length. reflexivity.
      * cbn [millis delay_1 w1]. rewrite elapsed_after_delay by exact Hlt. lia.
      * lia.
      * exists w'. rewrite Hrun. split; [reflexivity |]. split; assumption.
Qed.

End Reply.

(** The command is acknowledged on its first attempt when a frame comes in,
    in whatever pieces, within the timeout: [handle_frame_] has run on the
    driver that holds the frame. *)
Lemma send_command_reply (SHELLY_DIMMER_BUFFER_SIZE : Z) (fuel : nat)
    (st : ShellyDimmer) (w : World) (cmd : Z) (payload : option (list Z)) (len : Z)
    (rseq rcmd : Z) (rpayload : list Z) (chunks later : list (list Z)) :
  (Z.to_nat SHELLY_DIMMER_ACK_TIMEOUT < fuel)%nat ->
  payload_ok payload len ->
  buffer_pos_ st = 0 ->
  (length rpayload + 7 <= length (buffer_ st))%nat ->
  Z.of_nat (length rpayload) + 7 <= SHELLY_DIMMER_BUFFER_SIZE ->
  Z.of_nat (length rpayload) + 7 <= 256 ->
  line w = chunks ++ later ->
  rx w ++ concat chunks = frame_of rseq rcmd rpayload ->
  (length chunks < 200)%nat ->
  exists w',
    send_command_ SHELLY_DIMMER_BUFFER_SIZE fuel st w cmd payload len
    = Some (true,
            with_buffer_pos_
              (snd (handle_frame_
                      (with_buffer_pos_
                         (with_buffer_
                            (with_seq_ st (u8 (seq_ st + 1)))
                            (frame_of rseq rcmd rpayload
                               ++ drop (length rpayload + 7) (buffer_ st)))
                         (Z.of_nat (length rpayload) + 6)))) 0,
            w')
    /\ tx w' = tx w ++ [frame_of (u8 (seq_ st + 1)) cmd (default [] payload)]
    /\ flushed w' = flushed w + 1.
Proof.
  intros Hfuel Hok Hpos Hbuf Hfits Hbyte Hline Hrx Hchunks. unfold send_command_.
  pose proof (frame_command_ok st cmd payload len Hok) as Hf.
  unfold blank_frame in Hf.
  destruct (frame_command_ st _ cmd payload len) as [[st1 data] frame_len].
  destruct Hf as [-> ->].
  change (Z.to_nat SHELLY_DIMMER_MAX_RETRIES) with 3%nat. cbn [send_attempts].
  set (sent := frame_of (u8 (seq_ st + 1)) cmd (default [] payload)).
  set (w1 := flush (write_array w sent)).
  set (st1 := with_seq_ st (u8 (seq_ st + 1))).
  destruct (await_reply_fragments SHELLY_DIMMER_BUFFER_SIZE rseq rcmd rpayload
              Hfits Hbyte chunks fuel (millis w1) st1 0 w1 later)
    as (w' & Hrun & Htx & Hfl).
  - exact Hbuf.
  - lia.
  - exact Hline.
  - cbn [drop]. exact Hrx.
  - rewrite Z.sub_diag. change (u32 0) with 0.
    unfold SHELLY_DIMMER_ACK_TIMEOUT. lia.
  - unfold SHELLY_DIMMER_ACK_TIMEOUT in Hfuel. lia.
  - rewrite holding_0 in Hrun by exact Hpos. rewrite Hrun.
    exists w'. split; [reflexivity |]. split.
    + rewrite Htx. reflexivity.
    + rewrite Hfl. reflexivity.
Qed.

(** ** What an acknowledged reply does to the driver *)

Lemma aget_frame_payload (seq cmd : Z) (payload rest : list Z) (i : Z) :
  0 <= i < Z.of_nat (length payload) ->
  aget (frame_of seq cmd payload ++ rest) (4 + i) = aget payload i.
Proof.
  intros Hi. unfold aget, frame_of. cbv zeta. rewrite <- !app_assoc.
  rewrite lookup_app_r by (cbn [length]; lia). cbn [length].
  replace (Z.to_nat (4 + i) - 4)%nat with (Z.to_nat i) by lia.
  rewrite lookup_app_l by lia. reflexivity.
Qed.

Lemma aget_frame_header (seq cmd : Z) (payload rest : list Z) :
  aget (frame_of seq cmd payload ++ rest) 1 = seq
  /\ aget (frame_of seq cmd payload ++ rest) 2 = cmd
  /\ aget (frame_of seq cmd payload ++ rest) 3 = Z.of_nat (length payload).
Proof.
  repeat split.
Qed.

(** X7. A VERSION reply is recorded: when the reply to a VERSION command
    comes in within the timeout, whole or in pieces, carrying the sequence
    number of the command and the two payload bytes minor, major,
    [send_command_] returns true after a single write and the driver's
    version is major.minor, so that [is_running_configured_version] holds
    exactly for that configured version; nothing else of the driver changes
    but the sequence counter and the content of the receive buffer. *)
Theorem version_reply_recorded (SHELLY_DIMMER_BUFFER_SIZE : Z) (fuel : nat)
    (st : ShellyDimmer) (w : World) (chunks later : list (list Z)) (minor major : Z) :
  let seq := u8 (seq_ st + 1) in
  let reply := frame_of seq SHELLY_DIMMER_PROTO_CMD_VERSION [minor; major] in
  (Z.to_nat SHELLY_DIMMER_ACK_TIMEOUT < fuel)%nat ->
  buffer_pos_ st = 0 ->
  (9 <= length (buffer_ st))%nat ->
  9 <= SHELLY_DIMMER_BUFFER_SIZE ->
  line w = chunks ++ later ->
  rx w ++ concat chunks = reply ->
  (length chunks < 200)%nat ->
  exists st' w',
    send_command_ SHELLY_DIMMER_BUFFER_SIZE fuel st w
                  SHELLY_DIMMER_PROTO_CMD_VERSION None 0
    = Some (true, st', w')
    /\ st' = with_version_
               (with_buffer_ (with_seq_ st seq) (reply ++ drop 9 (buffer_ st)))
               major minor
    /\ (forall configured_major configured_minor,
          is_running_configured_version configured_major configured_minor st'
          = (major =? configured_major) && (minor =? configured_minor))
    /\ tx w' = tx w ++ [frame_of seq SHELLY_DIMMER_PROTO_CMD_VERSION []]
    /\ flushed w' = flushed w + 1.
Proof.
  intros seq reply Hfuel Hpos Hbuf Hsize Hline Hrx Hchunks.
  destruct (send_command_reply SHELLY_DIMMER_BUFFER_SIZE fuel st w
              SHELLY_DIMMER_PROTO_CMD_VERSION None 0
              seq SHELLY_DIMMER_PROTO_CMD_VERSION [minor; major] chunks later)
    as (w' & Hrun & Htx & Hfl); try assumption; try reflexivity;
    try (cbn [length]; lia).
  assert (Hst : with_buffer_pos_
                  (snd (handle_frame_
                          (with_buffer_pos_
                             (with_buffer_ (with_seq_ st (u8 (seq_ st + 1)))
                                (frame_of seq SHELLY_DIMMER_PROTO_CMD_VERSION
                                          [minor; major]
                                   ++ drop (length [minor; major] + 7) (buffer_ st)))
                             (Z.of_nat (length [minor; major]) + 6)))) 0
                = with_version_
                    (with_buffer_ (with_seq_ st seq) (reply ++ drop 9 (buffer_ st)))
                    major minor).
  { cbn [length Nat.add]. fold seq. unfold reply.
    change (Z.of_nat 2 + 6) with 8.
    unfold handle_frame_.
    cbn [buffer_ seq_ with_buffer_ with_buffer_pos_ with_seq_].
    destruct (aget_frame_header seq SHELLY_DIMMER_PROTO_CMD_VERSION [minor; major]
                (drop 9 (buffer_ st))) as (-> & -> & ->).
    rewrite !(aget_frame_payload seq SHELLY_DIMMER_PROTO_CMD_VERSION [minor; major])
      by (cbn [length]; lia).
    rewrite Z.eqb_refl. cbn [negb length].
    change (SHELLY_DIMMER_PROTO_CMD_VERSION =? SHELLY_DIMMER_PROTO_CMD_POLL) with false.
    rewrite Z.eqb_refl. change (Z.of_nat 2 <? 2) with false. cbv iota.
    cbn [snd]. destruct st. cbn in Hpos. subst. reflexivity. }
  rewrite Hst in Hrun.
  eexists _, w'. split; [exact Hrun |]. split; [reflexivity |].
  split; [| split; assumption].
  intros cmaj cmin. reflexivity.
Qed.

Lemma version_reply_recorded_witness :
  let st := fresh_driver 79 in
  let w := world_receiving [[0x01; 0x01; 0x11]; []; [0x02; 0x35; 0x02; 0x00]; [0x4B; 0x04]] in
  rx w ++ concat [[0x01; 0x01; 0x11]; []; [0x02; 0x35; 0x02; 0x00]; [0x4B; 0x04]]
  = frame_of (u8 (seq_ st + 1)) SHELLY_DIMMER_PROTO_CMD_VERSION [0x35; 0x02]
  /\ exists st' w',
       send_command_ 79 201 st w SHELLY_DIMMER_PROTO_CMD_VERSION None 0
       = Some (true, st', w')
       /\ st' = with_version_
                  (with_buffer_ (with_seq_ st (u8 (seq_ st + 1)))
                     (frame_of (u8 (seq_ st + 1)) SHELLY_DIMMER_PROTO_CMD_VERSION
                               [0x35; 0x02] ++ drop 9 (buffer_ st)))
                  0x02 0x35
       /\ (forall configured_major configured_minor,
             is_running_configured_version configured_major configured_minor st'
             = (0x02 =? configured_major) && (0x35 =? configured_minor))
       /\ tx w' = tx w ++ [frame_of (u8 (seq_ st + 1)) SHELLY_DIMMER_PROTO_CMD_VERSION []]
       /\ flushed w' = flushed w + 1.
Proof.
  intros st w.
  assert (Hrx : rx w ++ concat [[0x01; 0x01; 0x11]; []; [0x02; 0x35; 0x02; 0x00];
                                [0x4B; 0x04]]
                = frame_of (u8 (seq_ st + 1)) SHELLY_DIMMER_PROTO_CMD_VERSION
                           [0x35; 0x02]) by reflexivity.
  split; [exact Hrx |].
  apply (version_reply_recorded 79 201 st w
           [[0x01; 0x01; 0x11]; []; [0x02; 0x35; 0x02; 0x00]; [0x4B; 0x04]] []
           0x35 0x02).
  - vm_compute. lia.
  - reflexivity.
  - simpl. lia.
  - lia.
  - reflexivity.
  - exact Hrx.
  - simpl. lia.
Defined.

(** * What talking to the dimmer cannot change *)

Lemma sensor_extends_refl (s : option Sensor) : sensor_extends s s.
Proof.
  destruct s as [l |]; cbn; [exists []; reflexivity | exact I].
Qed.

Lemma sensor_extends_trans (s1 s2 s3 : option Sensor) :
  sensor_extends s1 s2 -> sensor_extends s2 s3 -> sensor_extends s1 s3.
Proof.
  destruct s1 as [l1 |], s2 as [l2 |], s3 as [l3 |]; cbn; try tauto.
  intros [p1 ->] [p2 ->]. exists (p2 ++ p1). rewrite app_assoc. reflexivity.
Qed.

Lemma sensor_extends_publish (s : option Sensor) (x : f32) :
  sensor_extends s (publish_state s x).
Proof.
  destruct s as [l |]; cbn; [exists [x]; reflexivity | exact I].
Qed.

Lemma protocol_only_refl (st : ShellyDimmer) : protocol_only st st.
Proof.
  unfold protocol_only. repeat split; apply sensor_extends_refl.
Qed.

Lemma protocol_only_trans (st1 st2 st3 : ShellyDimmer) :
  protocol_only st1 st2 -> protocol_only st2 st3 -> protocol_only st1 st3.
Proof.
  unfold protocol_only.
  intros (A1 & A2 & A3 & A4 & A5 & A6 & A7 & A8 & A9 & A10 & A11 & A12 & A13)
         (B1 & B2 & B3 & B4 & B5 & B6 & B7 & B8 & B9 & B10 & B11 & B12 & B13).
  repeat split; try congruence; eapply sensor_extends_trans; eassumption.
Qed.

Lemma handle_frame_protocol_only (st : ShellyDimmer) :
  protocol_only st (snd (handle_frame_ st)).
Proof.
  unfold handle_frame_.
  destruct (negb _); [apply protocol_only_refl |].
  destruct (_ =? SHELLY_DIMMER_PROTO_CMD_POLL).
  { destruct (_ <? 16); [apply protocol_only_refl |].
    unfold protocol_only. cbn [snd]. repeat split; apply sensor_extends_publish. }
  destruct (_ =? SHELLY_DIMMER_PROTO_CMD_VERSION).
  { destruct (_ <? 2); [apply protocol_only_refl |].
    unfold protocol_only. cbn [snd]. repeat split; apply sensor_extends_refl. }
  destruct (_ || _); apply protocol_only_refl.
Qed.

Section ProtocolOnly.

Variable SHELLY_DIMMER_BUFFER_SIZE : Z.

Lemma read_frame_byte_protocol_only (st : ShellyDimmer) (c : Z) :
  protocol_only st (snd (read_frame_byte SHELLY_DIMMER_BUFFER_SIZE st c)).
Proof.
  unfold read_frame_byte.
  set (st1 := with_buffer_ st (aset (buffer_ st) (buffer_pos_ st) c)).
  assert (H1 : protocol_only st st1).
  { unfold protocol_only, st1. repeat split; apply sensor_extends_refl. }
  assert (Hpos : forall s v, protocol_only st s -> protocol_only st (with_buffer_pos_ s v)).
  { intros s v Hs. eapply protocol_only_trans; [exact Hs |].
    unfold protocol_only. repeat split; apply sensor_extends_refl. }
  destruct (handle_byte_ SHELLY_DIMMER_BUFFER_SIZE st1 c =? 0).
  { pose proof (handle_frame_protocol_only st1) as H2.
    destruct (handle_frame_ st1) as [b st2]. cbn [snd] in *.
    apply Hpos. exact (protocol_only_trans _ _ _ H1 H2). }
  destruct (handle_byte_ SHELLY_DIMMER_BUFFER_SIZE st1 c =? -1);
    [apply Hpos; exact H1 |].
  destruct (handle_byte_ SHELLY_DIMMER_BUFFER_SIZE st1 c =? 1);
    [apply Hpos; exact H1 | exact H1].
Qed.

Lemma read_frame_loop_protocol_only (cs : list Z) (st : ShellyDimmer) :
  protocol_only st (snd (fst (read_frame_loop SHELLY_DIMMER_BUFFER_SIZE st cs))).
Proof.
  revert st. induction cs as [| c cs IH]; intros st; [apply protocol_only_refl |].
  cbn [read_frame_loop].
  pose proof (read_frame_byte_protocol_only st c) as H1.
  destruct (read_frame_byte SHELLY_DIMMER_BUFFER_SIZE st c) as [r st1]. cbn [snd] in H1.
  destruct (r =? 0); [exact H1 |].
  eapply protocol_only_trans; [exact H1 | apply IH].
Qed.

Lemma await_reply_protocol_only (fuel : nat) (tx_time : Z) (st : ShellyDimmer)
    (w : World) (r : bool) (st' : ShellyDimmer) (w' : World) :
  await_reply SHELLY_DIMMER_BUFFER_SIZE fuel tx_time st w = Some (r, st', w') ->
  protocol_only st st'.
Proof.
  revert st w. induction fuel as [| fuel IH]; intros st w; [discriminate |].
  cbn [await_reply].
  destruct (_ <? SHELLY_DIMMER_ACK_TIMEOUT).
  2:{ intros H. injection H as _ <- _. apply protocol_only_refl. }
  unfold read_frame_.
  pose proof (read_frame_loop_protocol_only (rx w) st) as H1.
  destruct (read_frame_loop SHELLY_DIMMER_BUFFER_SIZE st (rx w)) as [[b st1] rest].
  cbn [fst snd] in H1.
  destruct b.
  - intros H. injection H as _ <- _. exact H1.
  - intros H. eapply protocol_only_trans; [exact H1 | eapply IH; exact H].
Qed.

Lemma send_attempts_protocol_only (fuel retries : nat) (frame : list Z)
    (st : ShellyDimmer) (w : World) (r : bool) (st' : ShellyDimmer) (w' : World) :
  send_attempts SHELLY_DIMMER_BUFFER_SIZE fuel retries frame st w = Some (r, st', w') ->
  protocol_only st st'.
Proof.
  revert st w. induction retries as [| retries IH]; intros st w.
  - cbn [send_attempts]. intros H. injection H as _ <- _. apply protocol_only_refl.
  - cbn [send_attempts].
    destruct (await_reply _ _ _ _ _) as [[[b st1] w1] |] eqn:Ha; [| discriminate].
    pose proof (await_reply_protocol_only _ _ _ _ _ _ _ Ha) as H1.
    destruct b.
    + intros H. injection H as _ <- _. exact H1.
    + intros H. eapply protocol_only_trans; [exact H1 | eapply IH; exact H].
Qed.

Lemma send_command_protocol_only (fuel : nat) (st : ShellyDimmer) (w : World)
    (cmd : Z) (payload : option (list Z)) (len : Z)
    (r : bool) (st' : ShellyDimmer) (w' : World) :
  send_command_ SHELLY_DIMMER_BUFFER_SIZE fuel st w cmd payload len = Some (r, st', w') ->
  protocol_only st st'.
Proof.
  unfold send_command_.
  destruct (frame_command_ st _ cmd payload len) as [[st1 data] frame_len] eqn:Hf.
  assert (H1 : protocol_only st st1).
  { unfold frame_command_ in Hf. destruct payload; injection Hf as <- _ _;
      unfold protocol_only; repeat split; apply sensor_extends_refl. }
  intros H. eapply protocol_only_trans; [exact H1 |].
  eapply send_attempts_protocol_only. exact H.
Qed.

End ProtocolOnly.

(** X8. Replies cannot touch the settings: whatever the UART delivers while
    [send_command_] waits, the call leaves the brightness last sent, the
    brightness bounds, the ready and calibrating flags, the calibration
    table, the saved table, the update intervals and the light untouched; a
    sensor is never detached and only gains readings.  Only the sequence
    counter, the parser, the firmware version and the sensor readings can
    differ afterwards. *)
Theorem replies_cannot_change_settings (SHELLY_DIMMER_BUFFER_SIZE : Z) (fuel : nat)
    (st : ShellyDimmer) (w : World) (cmd : Z) (payload : option (list Z)) (len : Z)
    (r : bool) (st' : ShellyDimmer) (w' : World) :
  send_command_ SHELLY_DIMMER_BUFFER_SIZE fuel st w cmd payload len = Some (r, st', w') ->
  protocol_only st st'.
Proof.
  apply send_command_protocol_only.
Qed.

Lemma replies_cannot_change_settings_witness :
  exists r st' w',
    send_command_ 79 201 (fresh_driver 79) (world_receiving [stale_reply])
                  SHELLY_DIMMER_PROTO_CMD_SWITCH (Some [0xE8; 0x03]) 2
    = Some (r, st', w')
    /\ protocol_only (fresh_driver 79) st'.
Proof.
  destruct (send_command_ 79 201 (fresh_driver 79) (world_receiving [stale_reply])
                          SHELLY_DIMMER_PROTO_CMD_SWITCH (Some [0xE8; 0x03]) 2)
    as [[[r st'] w'] |] eqn:H.
  - exists r, st', w'. split; [reflexivity |].
    exact (replies_cannot_change_settings 79 201 (fresh_driver 79)
             (world_receiving [stale_reply]) SHELLY_DIMMER_PROTO_CMD_SWITCH
             (Some [0xE8; 0x03]) 2 r st' w' H).
  - vm_compute in H. discriminate.
Defined.

(** X9. A brightness is sent once: after [write_state] has returned for a
    brightness of the light, whether or not the dimmer acknowledged the
    SWITCH command it may have sent, a second [write_state] for the same
    brightness sends nothing and changes nothing, whatever the UART holds by
    then.  In particular a SWITCH command that was lost is not repeated. *)
Theorem write_state_sends_once (SHELLY_DIMMER_BUFFER_SIZE : Z) (fuel : nat)
    (st : ShellyDimmer) (w : World) (b : f32) (st1 : ShellyDimmer) (w1 w2 : World) :
  write_state SHELLY_DIMMER_BUFFER_SIZE fuel st w b = Some (st1, w1) ->
  write_state SHELLY_DIMMER_BUFFER_SIZE fuel st1 w2 b = Some (st1, w2).
Proof.
  unfold write_state.
  destruct (ready_ st) eqn:Hready; cbn [negb].
  2:{ intros H. injection H as <- _. rewrite Hready. reflexivity. }
  destruct (convert_brightness_ st (calibrated_brightness st b)) as [bi |] eqn:Hconv;
    [| discriminate].
  destruct (Z.eqb_spec bi (brightness_ st)) as [Hsame | Hnew].
  { intros H. injection H as <- _. rewrite Hready, Hconv. cbn [negb].
    rewrite Hsame, Z.eqb_refl. reflexivity. }
  unfold send_brightness_.
  destruct (send_command_ _ _ _ _ _ _ _) as [[[r st'] w'] |] eqn:Hsend; [| discriminate].
  intros H. injection H as <- _.
  pose proof (send_command_protocol_only _ _ _ _ _ _ _ _ _ _ Hsend)
    as (_ & Hmin & Hmax & Hr & Hc & Hd & _).
  cbn [ready_ with_brightness_]. rewrite Hr, Hready. cbn [negb].
  assert (Hcal : calibrated_brightness (with_brightness_ st' bi) b
                 = calibrated_brightness st b).
  { unfold calibrated_brightness.
    cbn [calibrating_ calibration_data_ with_brightness_]. rewrite Hc, Hd. reflexivity. }
  assert (Hcv : forall x, convert_brightness_ (with_brightness_ st' bi) x
                          = convert_brightness_ st x).
  { intros x. unfold convert_brightness_.
    cbn [min_brightness_ max_brightness_ with_brightness_]. rewrite Hmin, Hmax.
    reflexivity. }
  rewrite Hcal, Hcv, Hconv. cbn [brightness_ with_brightness_].
  rewrite Z.eqb_refl. reflexivity.
Qed.

Lemma write_state_sends_once_witness :
  exists st1 w1,
    write_state 79 201 (fresh_driver 79) (world_receiving []) half = Some (st1, w1)
    /\ write_state 79 201 st1 (world_receiving [stale_reply]) half
       = Some (st1, world_receiving [stale_reply]).
Proof.
  destruct (write_state 79 201 (fresh_driver 79) (world_receiving []) half)
    as [[st1 w1] |] eqn:H.
  - exists st1, w1. split; [reflexivity |].
    exact (write_state_sends_once 79 201 (fresh_driver 79) (world_receiving []) half
             st1 w1 (world_receiving [stale_reply]) H).
  - vm_compute in H. discriminate.
Defined.

(** * The periodic poll *)

Lemma handle_frame_poll (st : ShellyDimmer) (p rest : list Z) :
  buffer_ st = frame_of (seq_ st) SHELLY_DIMMER_PROTO_CMD_POLL p ++ rest ->
  (16 <= length p)%nat ->
  let d := poll_data (fun i => aget p i) in
  handle_frame_ st
  = (true,
     with_sensors_ st
       (publish_state (power_sensor_ st) (reading POWER_SCALING_FACTOR (power_raw d)))
       (publish_state (voltage_sensor_ st) (reading VOLTAGE_SCALING_FACTOR (voltage_raw d)))
       (publish_state (current_sensor_ st) (reading CURRENT_SCALING_FACTOR (current_raw d)))).
Proof.
  intros Hbuf Hlen d. unfold handle_frame_. rewrite Hbuf.
  destruct (aget_frame_header (seq_ st) SHELLY_DIMMER_PROTO_CMD_POLL p rest)
    as (-> & -> & ->).
  rewrite !Z.eqb_refl. cbn [negb].
  destruct (Z.ltb_spec (Z.of_nat (length p)) 16) as [Hshort | _]; [lia |].
  assert (Hp : forall i, 0 <= i < 16 ->
             aget (frame_of (seq_ st) SHELLY_DIMMER_PROTO_CMD_POLL p ++ rest) (4 + i)
             = aget p i).
  { intros i Hi. apply aget_frame_payload. lia. }
  unfold poll_data, d. cbn [power_raw voltage_raw current_raw].
  rewrite !Hp by lia. reflexivity.
Qed.

(** X10. A poll publishes the telemetry: when [update] runs and the
    dimmer's POLL reply (a payload of 16 bytes or more, the sequence number
    of the command) comes in within the timeout, whole or in pieces, the
    POLL frame has been written once and each attached sensor has been given
    the scaling factor over its raw little-endian reading (0 for a raw 0); a
    sensor that is not attached stays so and nothing else of the driver has
    changed but the sequence counter and the receive buffer.  A driver that
    is not calibrating is returned like that; a calibrating one is handed,
    with the fresh power reading, to [perform_calibration_measurement_]. *)
Theorem update_publishes_telemetry (SHELLY_DIMMER_BUFFER_SIZE : Z) (fuel : nat)
    (st : ShellyDimmer) (cal : Calibration) (w : World)
    (chunks later : list (list Z)) (p : list Z) (b : f32) :
  let seq := u8 (seq_ st + 1) in
  let reply := frame_of seq SHELLY_DIMMER_PROTO_CMD_POLL p in
  let d := poll_data (fun i => aget p i) in
  let polled :=
    with_sensors_
      (with_buffer_ (with_seq_ st seq) (reply ++ drop (length p + 7) (buffer_ st)))
      (publish_state (power_sensor_ st) (reading POWER_SCALING_FACTOR (power_raw d)))
      (publish_state (voltage_sensor_ st)
                     (reading VOLTAGE_SCALING_FACTOR (voltage_raw d)))
      (publish_state (current_sensor_ st)
                     (reading CURRENT_SCALING_FACTOR (current_raw d))) in
  (Z.to_nat SHELLY_DIMMER_ACK_TIMEOUT < fuel)%nat ->
  buffer_pos_ st = 0 ->
  (16 <= length p <= 72)%nat ->
  (length p + 7 <= length (buffer_ st))%nat ->
  Z.of_nat (length p) + 7 <= SHELLY_DIMMER_BUFFER_SIZE ->
  line w = chunks ++ later ->
  rx w ++ concat chunks = reply ->
  (length chunks < 200)%nat ->
  exists w',
    update SHELLY_DIMMER_BUFFER_SIZE fuel st cal w b
    = (if calibrating_ st then
         match perform_calibration_measurement_ polled cal b with
         | Some (st', cal') => Returns (st', cal', w')
         | None => Undefined
         end
       else Returns (polled, cal, w'))
    /\ tx w' = tx w ++ [frame_of seq SHELLY_DIMMER_PROTO_CMD_POLL []]
    /\ flushed w' = flushed w + 1.
Proof.
  intros seq reply d polled Hfuel Hpos Hlen Hbuf Hsize Hline Hrx Hchunks.
  destruct (send_command_reply SHELLY_DIMMER_BUFFER_SIZE fuel st w
              SHELLY_DIMMER_PROTO_CMD_POLL None 0
              seq SHELLY_DIMMER_PROTO_CMD_POLL p chunks later)
    as (w' & Hrun & Htx & Hfl); try assumption; try reflexivity; try lia.
  exists w'. split; [| split; assumption].
  unfold update. rewrite Hrun. fold seq. fold reply.
  set (held := with_buffer_pos_ _ (Z.of_nat (length p) + 6)).
  rewrite (handle_frame_poll held p (drop (length p + 7) (buffer_ st)))
    by (try reflexivity; lia).
  cbn [snd].
  assert (Hpolled : with_buffer_pos_
                      (with_sensors_ held
                         (publish_state (power_sensor_ held)
                            (reading POWER_SCALING_FACTOR
                               (power_raw (poll_data (fun i => aget p i)))))
                         (publish_state (voltage_sensor_ held)
                            (reading VOLTAGE_SCALING_FACTOR
                               (voltage_raw (poll_data (fun i => aget p i)))))
                         (publish_state (current_sensor_ held)
                            (reading CURRENT_SCALING_FACTOR
                               (current_raw (poll_data (fun i => aget p i)))))) 0
                    = polled).
  { unfold polled, held, d. destruct st. cbn in Hpos. subst. reflexivity. }
  rewrite Hpolled. reflexivity.
Qed.

Lemma update_publishes_telemetry_witness :
  let st := fresh_driver 79 in
  let cal := small_calibration in
  let reply := frame_of 1 SHELLY_DIMMER_PROTO_CMD_POLL poll_example_payload in
  let w := world_receiving [take 10 reply; drop 10 reply] in
  let d := poll_data (fun i => aget poll_example_payload i) in
  let polled :=
    with_sensors_
      (with_buffer_ (with_seq_ st 1) (reply ++ drop 24 (buffer_ st)))
      (publish_state (power_sensor_ st) (reading POWER_SCALING_FACTOR (power_raw d)))
      (publish_state (voltage_sensor_ st)
                     (reading VOLTAGE_SCALING_FACTOR (voltage_raw d)))
      (publish_state (current_sensor_ st)
                     (reading CURRENT_SCALING_FACTOR (current_raw d))) in
  rx w ++ concat [take 10 reply; drop 10 reply] = reply
  /\ exists w',
       update 79 201 st cal w half
       = (if calibrating_ st then
            match perform_calibration_measurement_ polled cal half with
            | Some (st', cal') => Returns (st', cal', w')
            | None => Undefined
            end
          else Returns (polled, cal, w'))
       /\ tx w' = tx w ++ [frame_of 1 SHELLY_DIMMER_PROTO_CMD_POLL []]
       /\ flushed w' = flushed w + 1.
Proof.
  intros st cal reply w d polled.
  assert (Hrx : rx w ++ concat [take 10 reply; drop 10 reply] = reply) by reflexivity.
  split; [exact Hrx |].
  apply (update_publishes_telemetry 79 201 st cal w
           [take 10 reply; drop 10 reply] [] poll_example_payload half).
  - vm_compute. lia.
  - reflexivity.
  - simpl. lia.
  - simpl. lia.
  - simpl. lia.
  - reflexivity.
  - exact Hrx.
  - simpl. lia.
Defined.

(** X11. Calibrating without a power sensor is undefined: [update] on a
    calibrating driver whose power sensor is not attached dereferences the
    null sensor pointer in [perform_calibration_measurement_], whatever the
    dimmer answers to the poll. *)
Theorem update_without_power_sensor (SHELLY_DIMMER_BUFFER_SIZE : Z) (fuel : nat)
    (st : ShellyDimmer) (cal : Calibration) (w : World) (b : f32) :
  (Z.to_nat SHELLY_DIMMER_ACK_TIMEOUT < fuel)%nat ->
  calibrating_ st = true ->
  power_sensor_ st = None ->
  update SHELLY_DIMMER_BUFFER_SIZE fuel st cal w b = Undefined.
Proof.
  intros Hfuel Hcal Hnull. unfold update.
  destruct (send_command_frames SHELLY_DIMMER_BUFFER_SIZE fuel st w
              SHELLY_DIMMER_PROTO_CMD_POLL None 0 Hfuel)
    as (r & st' & w' & n & Hrun & _); [reflexivity |].
  rewrite Hrun.
  pose proof (send_command_protocol_only _ _ _ _ _ _ _ _ _ _ Hrun)
    as (_ & _ & _ & _ & Hc & _ & _ & _ & _ & _ & Hp & _).
  rewrite Hc, Hcal. unfold perform_calibration_measurement_.
  rewrite Hnull in Hp. destruct (power_sensor_ st') as [s |]; [destruct Hp |].
  reflexivity.
Qed.

Lemma update_without_power_sensor_witness :
  calibrating_ sensorless_driver = true
  /\ power_sensor_ sensorless_driver = None
  /\ update 79 201 sensorless_driver small_calibration (world_receiving []) one
     = Undefined.
Proof.
  split; [reflexivity |]. split; [reflexivity |].
  apply (update_without_power_sensor 79 201 sensorless_driver small_calibration
           (world_receiving []) one).
  - vm_compute. lia.
  - reflexivity.
  - reflexivity.
Defined.

(** X22. A reply to another command changes nothing: when a well-formed
    frame comes in whose sequence number is not that of the command just
    sent, [handle_frame_] does not look at its payload: after
    [send_command_] only the sequence counter and the receive buffer of the
    driver have changed; no version is recorded and nothing is published
    (the call itself still reports success). *)
Theorem stale_reply_changes_nothing (SHELLY_DIMMER_BUFFER_SIZE : Z) (fuel : nat)
    (st : ShellyDimmer) (w : World) (cmd : Z) (payload : option (list Z)) (len : Z)
    (rseq rcmd : Z) (rpayload : list Z) (chunks later : list (list Z)) :
  let seq := u8 (seq_ st + 1) in
  let reply := frame_of rseq rcmd rpayload in
  (Z.to_nat SHELLY_DIMMER_ACK_TIMEOUT < fuel)%nat ->
  payload_ok payload len ->
  rseq <> seq ->
  buffer_pos_ st = 0 ->
  (length rpayload + 7 <= length (buffer_ st))%nat ->
  Z.of_nat (length rpayload) + 7 <= SHELLY_DIMMER_BUFFER_SIZE ->
  Z.of_nat (length rpayload) + 7 <= 256 ->
  line w = chunks ++ later ->
  rx w ++ concat chunks = reply ->
  (length chunks < 200)%nat ->
  exists w',
    send_command_ SHELLY_DIMMER_BUFFER_SIZE fuel st w cmd payload len
    = Some (true,
            with_buffer_ (with_seq_ st seq)
                         (reply ++ drop (length rpayload + 7) (buffer_ st)),
            w')
    /\ tx w' = tx w ++ [frame_of seq cmd (default [] payload)].
Proof.
  intros seq reply Hfuel Hok Hseq Hpos Hbuf Hsize Hbyte Hline Hrx Hchunks.
  destruct (send_command_reply SHELLY_DIMMER_BUFFER_SIZE fuel st w cmd payload len
              rseq rcmd rpayload chunks later)
    as (w' & Hrun & Htx & _); try assumption.
  exists w'. split; [| exact Htx].
  rewrite Hrun. do 3 f_equal. fold seq. fold reply.
  unfold handle_frame_.
  cbn [buffer_ seq_ with_buffer_ with_buffer_pos_ with_seq_].
  destruct (aget_frame_header rseq rcmd rpayload
              (drop (length rpayload + 7) (buffer_ st))) as (Hs & _).
  unfold reply. rewrite Hs.
  destruct (Z.eqb_spec rseq seq) as [E | _]; [contradiction |].
  cbn [negb snd]. destruct st. cbn in Hpos. subst. reflexivity.
Qed.

Lemma stale_reply_changes_nothing_witness :
  let st := fresh_driver 79 in
  let w := world_receiving [stale_reply] in
  7 <> u8 (seq_ st + 1)
  /\ exists w',
       send_command_ 79 201 st w SHELLY_DIMMER_PROTO_CMD_VERSION None 0
       = Some (true,
               with_buffer_ (with_seq_ st (u8 (seq_ st + 1)))
                            (stale_reply ++ drop (1 + 7) (buffer_ st)),
               w')
       /\ tx w' = tx w ++ [frame_of (u8 (seq_ st + 1)) SHELLY_DIMMER_PROTO_CMD_VERSION
                                    (default [] None)].
Proof.
  intros st w.
  assert (Hseq : 7 <> u8 (seq_ st + 1)) by (vm_compute; discriminate).
  split; [exact Hseq |].
  apply (stale_reply_changes_nothing 79 201 st w SHELLY_DIMMER_PROTO_CMD_VERSION None 0
           7 SHELLY_DIMMER_PROTO_CMD_SWITCH [0x01] [stale_reply] []).
  - vm_compute. lia.
  - reflexivity.
  - exact Hseq.
  - reflexivity.
  - simpl. lia.
  - simpl. lia.
  - simpl. lia.
  - reflexivity.
  - reflexivity.
  - simpl. lia.
Defined.

(** * The calibration run *)

Lemma calibration_ticks_app (l1 l2 : list (f32 * f32)) (st : ShellyDimmer)
    (cal : Calibration) :
  calibration_ticks st cal (l1 ++ l2)
  = match calibration_ticks st cal l1 with
    | Some (st', cal') => calibration_ticks st' cal' l2
    | None => None
    end.
Proof.
  revert st cal. induction l1 as [| [r b] l1 IH]; intros st cal; [reflexivity |].
  cbn [calibration_ticks app].
  destruct (calibrating_ _).
  - destruct (perform_calibration_measurement_ _ cal b) as [[st1 cal1] |];
      [apply IH | reflexivity].
  - apply IH.
Qed.

Lemma u32_small (x : Z) : 0 <= x < 2 ^ 32 -> u32 x = x.
Proof.
  intros H. unfold u32. apply Z.mod_small. exact H.
Qed.

Lemma insert_next {A} (l : list A) (k : nat) (x z : A) :
  <[length l := x]> (l ++ replicate (S k) z) = (l ++ [x]) ++ replicate k z.
Proof.
  rewrite insert_app_r_alt by lia. rewrite Nat.sub_diag, <- app_assoc. reflexivity.
Qed.

Section Run.

Variables (n m : nat) (orig : Z).
Hypothesis Hn : Z.of_nat n < 2 ^ 32.
Hypothesis Hm : Z.of_nat m < 2 ^ 32.

Local Abbreviation published st r :=
  (with_sensors_ st (publish_state (power_sensor_ st) r)
                 (voltage_sensor_ st) (current_sensor_ st)).

Lemma published_sensor (st : ShellyDimmer) (r : f32) :
  power_sensor_ st <> None ->
  exists old, power_sensor_ (published st r) = Some (r :: old).
Proof.
  intros H. cbn [power_sensor_ with_sensors_].
  destruct (power_sensor_ st) as [old |]; [| contradiction].
  exists old. reflexivity.
Qed.

(** A warm-up tick only counts. *)
Lemma tick_warming (j : nat) (st : ShellyDimmer) (cal : Calibration) (r b : f32) :
  warming n m orig (S j) st cal ->
  exists st' cal',
    calibration_ticks st cal [(r, b)] = Some (st', cal')
    /\ warming n m orig j st' cal'.
Proof.
  intros (Hc & Hs & Ho & Hd & Hstep & Hcnt & Hms).
  destruct (published_sensor st r Hs) as [old Hpub].
  cbn [calibration_ticks]. cbn [calibrating_ with_sensors_]. rewrite Hc.
  unfold perform_calibration_measurement_. rewrite Hpub. cbn [has_state negb].
  rewrite Hstep.
  destruct (Z.ltb_spec (- Z.of_nat (S j)) 0) as [_ | Hge]; [| lia].
  eexists _, _. split; [reflexivity |].
  unfold warming. cbn [calibrating_ power_sensor_ update_interval_original_
    calibration_data_ with_sensors_ calibration_step_ calibration_measurement_cnt_
    calibration_measurements_].
  repeat split; try assumption.
  - destruct (power_sensor_ st); [discriminate | contradiction].
  - lia.
Qed.

Lemma ticks_warming (warmup : list (f32 * f32)) (j : nat) (st : ShellyDimmer)
    (cal : Calibration) :
  warming n m orig (length warmup + j) st cal ->
  exists st' cal',
    calibration_ticks st cal warmup = Some (st', cal')
    /\ warming n m orig j st' cal'.
Proof.
  revert st cal. induction warmup as [| [r b] warmup IH]; intros st cal H.
  - exists st, cal. split; [reflexivity | exact H].
  - cbn [length Nat.add] in H.
    destruct (tick_warming _ st cal r b H) as (st1 & cal1 & Hrun & H1).
    destruct (IH st1 cal1 H1) as (st2 & cal2 & Hrun2 & H2).
    exists st2, cal2. split; [| exact H2].
    change ((r, b) :: warmup) with ([(r, b)] ++ warmup).
    rewrite calibration_ticks_app, Hrun. exact Hrun2.
Qed.

(** A measurement that does not fill the array is stored. *)
Lemma tick_measuring (means group : list f32) (st : ShellyDimmer)
    (cal : Calibration) (r b : f32) :
  measuring n m orig means group st cal ->
  (length group + 1 < m)%nat ->
  exists st' cal',
    calibration_ticks st cal [(r, b)] = Some (st', cal')
    /\ measuring n m orig means (group ++ [r]) st' cal'.
Proof.
  intros (Hc & Hs & Ho & Hd & Hstep & Hcnt & Hms) Hroom.
  destruct (published_sensor st r Hs) as [old Hpub].
  cbn [calibration_ticks]. cbn [calibrating_ with_sensors_]. rewrite Hc.
  unfold perform_calibration_measurement_. rewrite Hpub. cbn [has_state negb state hd].
  rewrite Hstep, Hcnt, Hms.
  destruct (Z.ltb_spec (Z.of_nat (length means)) 0) as [Hneg | _]; [lia |].
  rewrite length_app, length_replicate.
  destruct (Z.leb_spec 0 (Z.of_nat (length group))) as [_ | Hneg]; [| lia].
  destruct (Z.ltb_spec (Z.of_nat (length group))
              (Z.of_nat (length group + (m - length group)))) as [_ | Hge]; [| lia].
  cbn [andb calibration_measurement_cnt_ calibration_measurements_].
  rewrite length_insert, length_app, length_replicate.
  rewrite u32_small by lia.
  destruct (Z.geb_spec (Z.of_nat (length group) + 1)
              (Z.of_nat (length group + (m - length group)))) as [Hfull | _]; [lia |].
  eexists _, _. split; [reflexivity |].
  unfold measuring. cbn [calibrating_ power_sensor_ update_interval_original_
    calibration_data_ with_sensors_ calibration_step_ calibration_measurement_cnt_
    calibration_measurements_].
  repeat split; try assumption.
  - destruct (power_sensor_ st); [discriminate | contradiction].
  - rewrite length_app. cbn [length]. lia.
  - rewrite Nat2Z.id.
    replace (m - length group)%nat with (S (m - length (group ++ [r]))).
    + apply insert_next.
    + rewrite length_app. cbn [length]. lia.
Qed.

(** The measurement that fills the array ends the step: the mean goes into
    the table, and after the last step the table is finalised. *)
Lemma tick_filling (means group : list f32) (st : ShellyDimmer)
    (cal : Calibration) (r b : f32) :
  measuring n m orig means group st cal ->
  (length group + 1 = m)%nat ->
  (length means < n)%nat ->
  exists st' cal',
    calibration_ticks st cal [(r, b)] = Some (st', cal')
    /\ if (length means + 1 <? n)%nat
       then measuring n m orig (means ++ [mean (group ++ [r])]) [] st' cal'
       else exists s,
              st' = complete_calibration_ s
              /\ calibration_data_ s = means ++ [mean (group ++ [r])]
              /\ update_interval_original_ s = orig.
Proof.
  intros (Hc & Hs & Ho & Hd & Hstep & Hcnt & Hms) Hfill Hsteps.
  destruct (published_sensor st r Hs) as [old Hpub].
  cbn [calibration_ticks]. cbn [calibrating_ with_sensors_]. rewrite Hc.
  unfold perform_calibration_measurement_. rewrite Hpub. cbn [has_state negb state hd].
  rewrite Hstep, Hcnt, Hms.
  destruct (Z.ltb_spec (Z.of_nat (length means)) 0) as [Hneg | _]; [lia |].
  rewrite length_app, length_replicate.
  destruct (Z.leb_spec 0 (Z.of_nat (length group))) as [_ | Hneg]; [| lia].
  destruct (Z.ltb_spec (Z.of_nat (length group))
              (Z.of_nat (length group + (m - length group)))) as [_ | Hge]; [| lia].
  cbn [andb calibration_measurement_cnt_ calibration_measurements_].
  rewrite length_insert, length_app, length_replicate.
  rewrite u32_small by lia.
  destruct (Z.geb_spec (Z.of_nat (length group) + 1)
              (Z.of_nat (length group + (m - length group)))) as [_ | Hroom]; [| lia].
  assert (Hfull : <[Z.to_nat (Z.of_nat (length group)) := r]>
                    (group ++ replicate (m - length group) zero) = group ++ [r]).
  { rewrite Nat2Z.id. replace (m - length group)%nat with 1%nat by lia.
    rewrite (insert_next group 0 r zero). cbn [replicate]. apply app_nil_r. }
  rewrite Hfull.
  unfold complete_calibration_step_.
  cbn [calibration_step_ calibration_measurements_ calibration_data_ with_sensors_].
  rewrite Hd, length_app, length_replicate.
  destruct (Z.leb_spec 0 (Z.of_nat (length means))) as [_ | Hneg]; [| lia].
  destruct (Z.ltb_spec (Z.of_nat (length means))
              (Z.of_nat (length means + (n - length means)))) as [_ | Hge]; [| lia].
  cbn [andb calibration_data_ with_calibration_].
  rewrite length_insert, length_app, length_replicate, Nat2Z.id.
  rewrite u32_small by lia.
  fold (mean (group ++ [r])).
  assert (Hdata : <[length means := mean (group ++ [r])]>
                    (means ++ replicate (n - length means) zero)
                  = (means ++ [mean (group ++ [r])])
                      ++ replicate (n - length (means ++ [mean (group ++ [r])])) zero).
  { replace (n - length means)%nat
      with (S (n - length (means ++ [mean (group ++ [r])]))).
    - apply insert_next.
    - rewrite length_app. cbn [length]. lia. }
  rewrite Hdata.
  destruct (Z.geb_spec (Z.of_nat (length means) + 1)
              (Z.of_nat (length means + (n - length means)))) as [Hlast | Hmore].
  - destruct (Nat.ltb_spec (length means + 1) n) as [Hlt | _]; [lia |].
    eexists _, _. split; [reflexivity |].
    eexists. split; [reflexivity |].
    cbn [calibration_data_ update_interval_original_ with_calibration_ with_sensors_].
    split; [| exact Ho].
    replace (n - length (means ++ [mean (group ++ [r])]))%nat with 0%nat
      by (rewrite length_app; cbn [length]; lia).
    cbn [replicate]. apply app_nil_r.
  - destruct (Nat.ltb_spec (length means + 1) n) as [_ | Hge]; [| lia].
    eexists _, _. split; [reflexivity |].
    unfold measuring. cbn [calibrating_ power_sensor_ update_interval_original_
      calibration_data_ with_sensors_ with_calibration_ with_light_
      calibration_step_ calibration_measurement_cnt_ calibration_measurements_].
    repeat split; try assumption.
    + destruct (power_sensor_ st); [discriminate | contradiction].
    + rewrite length_app. cbn [length]. lia.
    + cbn [app length]. rewrite length_app. cbn [length].
      rewrite Nat.sub_0_r. f_equal. lia.
Qed.

(** The measurements of one step. *)
Lemma ticks_step (g : list (f32 * f32)) (means group : list f32)
    (st : ShellyDimmer) (cal : Calibration) :
  measuring n m orig means group st cal ->
  (length group + length g = m)%nat ->
  (0 < length g)%nat ->
  (length means < n)%nat ->
  exists st' cal',
    calibration_ticks st cal g = Some (st', cal')
    /\ if (length means + 1 <? n)%nat
       then measuring n m orig (means ++ [mean (group ++ map fst g)]) [] st' cal'
       else exists s,
              st' = complete_calibration_ s
              /\ calibration_data_ s = means ++ [mean (group ++ map fst g)]
              /\ update_interval_original_ s = orig.
Proof.
  revert group st cal. induction g as [| [r b] g IH]; intros group st cal H Hlen Hg Hsteps;
    [cbn [length] in Hg; lia |].
  destruct g as [| rb g].
  - cbn [length] in Hlen. cbn [map fst].
    apply tick_filling; [exact H | lia | exact Hsteps].
  - cbn [length] in Hlen.
    destruct (tick_measuring means group st cal r b H ltac:(lia))
      as (st1 & cal1 & Hrun1 & H1).
    destruct (IH (group ++ [r]) st1 cal1 H1) as (st2 & cal2 & Hrun2 & H2).
    + rewrite length_app. cbn [length]. lia.
    + cbn [length]. lia.
    + exact Hsteps.
    + exists st2, cal2. split.
      * change ((r, b) :: rb :: g) with ([(r, b)] ++ rb :: g).
        rewrite calibration_ticks_app, Hrun1. exact Hrun2.
      * cbn [map fst] in *. rewrite <- app_assoc in H2. exact H2.
Qed.

(** All the steps that are left. *)
Lemma ticks_steps (groups : list (list (f32 * f32))) (means : list f32)
    (st : ShellyDimmer) (cal : Calibration) :
  measuring n m orig means [] st cal ->
  (0 < m)%nat ->
  Forall (fun g => length g = m) groups ->
  (length means + length groups = n)%nat ->
  (0 < length groups)%nat ->
  exists s cal',
    calibration_ticks st cal (concat groups) = Some (complete_calibration_ s, cal')
    /\ calibration_data_ s = means ++ map (fun g => mean (map fst g)) groups
    /\ update_interval_original_ s = orig.
Proof.
  intros H Hm0 Hgroups. revert means st cal H.
  induction Hgroups as [| g groups Hg _ IH]; intros means st cal H Hlen Hpos;
    [cbn [length] in Hpos; lia |].
  cbn [length] in Hlen. cbn [concat map].
  destruct (ticks_step g means [] st cal H) as (st1 & cal1 & Hrun1 & H1);
    [cbn [length]; lia | lia | lia |].
  rewrite calibration_ticks_app, Hrun1. cbn [app] in H1.
  destruct (Nat.ltb_spec (length means + 1) n) as [Hmore | Hlast].
  - destruct (IH (means ++ [mean (map fst g)]) st1 cal1 H1)
      as (s & cal2 & Hrun2 & Hdata & Ho).
    + rewrite length_app. cbn [length]. lia.
    + lia.
    + exists s, cal2. split; [exact Hrun2 |]. split; [| exact Ho].
      rewrite Hdata, <- app_assoc. reflexivity.
  - destruct H1 as (s & -> & Hdata & Ho).
    assert (groups = []) by (apply length_zero_iff_nil; lia). subst groups.
    exists s, cal1. split; [reflexivity |]. split; [exact Hdata | exact Ho].
Qed.

End Run.

Lemma start_calibration_warming (st : ShellyDimmer) (cal : Calibration) :
  power_sensor_ st <> None ->
  warming (length (calibration_data_ st)) (length (calibration_measurements_ cal))
          (update_interval_ st) 20
          (fst (start_calibration st cal)) (snd (start_calibration st cal)).
Proof.
  intros Hs. unfold warming, start_calibration.
  cbn [fst snd calibrating_ power_sensor_ update_interval_original_ calibration_data_
       with_calibration_ with_light_ with_update_interval_original_ update_interval_
       light_brightness_ rtc_
       calibration_step_ calibration_measurement_cnt_ calibration_measurements_].
  repeat split. exact Hs.
Qed.

(** X12. A calibration run measures every step and ends finalised: after
    [start_calibration], on a driver with a power sensor, twenty ticks with
    a power reading only warm up; then each step takes as many readings as
    the measurement array holds and stores their mean (the sum from 0.0,
    first to last, over their number); with the last step the table of
    these means is finalised by [complete_calibration_], which also clears
    the calibrating flag, saves the table and restores the update interval
    that [start_calibration] had saved (10 s if that was 0).  No tick on the
    way writes outside the table or the measurement array, whatever the
    readings and the brightness the light reports. *)
Theorem calibration_run (st : ShellyDimmer) (cal : Calibration)
    (warmup : list (f32 * f32)) (groups : list (list (f32 * f32))) :
  let n := length (calibration_data_ st) in
  let m := length (calibration_measurements_ cal) in
  let started := start_calibration st cal in
  let inputs := warmup ++ concat groups in
  power_sensor_ st <> None ->
  (0 < n)%nat -> Z.of_nat n < 2 ^ 32 ->
  (0 < m)%nat -> Z.of_nat m < 2 ^ 32 ->
  length warmup = 20%nat ->
  length groups = n ->
  Forall (fun g => length g = m) groups ->
  (exists s cal',
      calibration_ticks (fst started) (snd started) inputs
      = Some (complete_calibration_ s, cal')
      /\ calibration_data_ s = map (fun g => mean (map fst g)) groups
      /\ calibrating_ (complete_calibration_ s) = false
      /\ rtc_ (complete_calibration_ s)
         = Some (calibration_data_ (complete_calibration_ s))
      /\ update_interval_ (complete_calibration_ s)
         = (if update_interval_ st =? 0 then 10000 else update_interval_ st))
  /\ forall k, calibration_ticks (fst started) (snd started) (take k inputs) <> None.
Proof.
  intros n m started inputs Hs Hn0 Hn Hm0 Hm Hw Hg Hgs.
  pose proof (start_calibration_warming st cal Hs) as H0.
  fold n m started in H0.
  destruct (ticks_warming n m (update_interval_ st) warmup 0
              (fst started) (snd started)) as (st1 & cal1 & Hrun1 & H1).
  { rewrite Hw. exact H0. }
  assert (H1' : measuring n m (update_interval_ st) [] [] st1 cal1).
  { destruct H1 as (A1 & A2 & A3 & A4 & A5 & A6 & A7).
    unfold measuring. cbn [app length]. rewrite !Nat.sub_0_r.
    repeat split; assumption. }
  destruct (ticks_steps n m (update_interval_ st) Hn Hm groups [] st1 cal1 H1' Hm0 Hgs)
    as (s & cal2 & Hrun2 & Hdata & Ho); [cbn [length]; lia | lia |].
  assert (Hrun : calibration_ticks (fst started) (snd started) inputs
                 = Some (complete_calibration_ s, cal2)).
  { unfold inputs. rewrite calibration_ticks_app, Hrun1. exact Hrun2. }
  split.
  - exists s, cal2. split; [exact Hrun |]. split; [exact Hdata |].
    unfold complete_calibration_.
    cbn [calibrating_ rtc_ calibration_data_ update_interval_ update_interval_original_
         with_calibration_ with_light_].
    rewrite Ho. repeat split.
  - intros k Hnone.
    rewrite <- (take_drop k inputs), calibration_ticks_app, Hnone in Hrun.
    discriminate.
Qed.

Lemma calibration_run_witness :
  let st := fresh_driver 79 in
  let started := start_calibration st small_calibration in
  let inputs := example_warmup ++ concat example_groups in
  power_sensor_ st <> None
  /\ Forall (fun g => length g = 2%nat) example_groups
  /\ (exists s cal',
         calibration_ticks (fst started) (snd started) inputs
         = Some (complete_calibration_ s, cal')
         /\ calibration_data_ s = map (fun g => mean (map fst g)) example_groups
         /\ calibrating_ (complete_calibration_ s) = false
         /\ rtc_ (complete_calibration_ s)
            = Some (calibration_data_ (complete_calibration_ s))
         /\ update_interval_ (complete_calibration_ s)
            = (if update_interval_ st =? 0 then 10000 else update_interval_ st))
  /\ forall k, calibration_ticks (fst started) (snd started) (take k inputs) <> None.
Proof.
  intros st started inputs.
  assert (Hs : power_sensor_ st <> None) by discriminate.
  assert (Hg : Forall (fun g => length g = 2%nat) example_groups)
    by (repeat constructor).
  split; [exact Hs |]. split; [exact Hg |].
  apply (calibration_run st small_calibration example_warmup example_groups).
  - exact Hs.
  - simpl. lia.
  - simpl. lia.
  - simpl. lia.
  - simpl. lia.
  - reflexivity.
  - reflexivity.
  - exact Hg.
Defined.

(** * Pushing the settings *)

Lemma byte_of_small (x : Z) :
  0 <= x < 256 -> u8 (Z.land x 0xff) = x /\ u8 (Z.shiftr x 8) = 0.
Proof.
  intros Hx. split.
  - change 0xff with 255. rewrite csum_lo_byte. apply Z.mod_small. lia.
  - rewrite Z.shiftr_div_pow2 by lia. change (2 ^ 8) with 256.
    rewrite Z.div_small by lia. reflexivity.
Qed.

(** X13. The settings go out before the brightness: [send_settings_] sends
    one SETTINGS command and then one SWITCH command, with consecutive
    sequence numbers, each written one to three times.  The SETTINGS
    payload is the brightness (low byte first), the edge mode (1 leading, 2
    trailing), a zero byte, the fade rate limited to 100 (so its high byte
    is 0), the warm-up brightness and the warm-up time; the SWITCH repeats
    the brightness, which is then recorded as sent.  With no light attached
    the brightness is 0. *)
Theorem settings_then_brightness (SHELLY_DIMMER_BUFFER_SIZE : Z) (fuel : nat)
    (cfg : Settings) (st : ShellyDimmer) (w : World) (light : option f32)
    (brightness_int : Z) :
  let brightness := match light with Some b => b | None => zero end in
  let settings :=
    [u8 (Z.land brightness_int 0xff); u8 (Z.shiftr brightness_int 8);
     (if leading_edge_ cfg then 0x01 else 0x02); 0x00;
     Z.min 100 (fade_rate_ cfg); 0x00;
     u8 (Z.land (warmup_brightness_ cfg) 0xff);
     u8 (Z.shiftr (warmup_brightness_ cfg) 8);
     u8 (Z.land (warmup_time_ cfg) 0xff);
     u8 (Z.shiftr (warmup_time_ cfg) 8)] in
  (Z.to_nat SHELLY_DIMMER_ACK_TIMEOUT < fuel)%nat ->
  0 <= fade_rate_ cfg ->
  convert_brightness_ st brightness = Some brightness_int ->
  (light = None -> brightness_int = 0)
  /\ exists st' w' n1 n2,
       send_settings_ SHELLY_DIMMER_BUFFER_SIZE fuel cfg st w light = Returns (st', w')
       /\ (1 <= n1 <= 3)%nat /\ (1 <= n2 <= 3)%nat
       /\ tx w' = tx w
                  ++ replicate n1 (frame_of (u8 (seq_ st + 1))
                                            SHELLY_DIMMER_PROTO_CMD_SETTINGS settings)
                  ++ replicate n2 (frame_of (u8 (seq_ st + 2))
                                            SHELLY_DIMMER_PROTO_CMD_SWITCH
                                            [u8 (Z.land brightness_int 0xff);
                                             u8 (Z.shiftr brightness_int 8)])
       /\ seq_ st' = u8 (seq_ st + 2)
       /\ brightness_ st' = brightness_int.
Proof.
  intros brightness settings Hfuel Hfade Hconv. split.
  { intros ->. cbn in Hconv. injection Hconv as <-. reflexivity. }
  unfold send_settings_. fold brightness. rewrite Hconv.
  destruct (byte_of_small (Z.min 100 (fade_rate_ cfg)) ltac:(lia)) as [-> ->].
  fold settings.
  destruct (send_command_frames SHELLY_DIMMER_BUFFER_SIZE fuel st w
              SHELLY_DIMMER_PROTO_CMD_SETTINGS (Some settings)
              SHELLY_DIMMER_PROTO_CMD_SETTINGS_SIZE Hfuel)
    as (r1 & st1 & w1 & n1 & Hrun1 & Hseq1 & Hn1 & Htx1 & _).
  { split; [reflexivity | vm_compute; discriminate]. }
  rewrite Hrun1. unfold send_brightness_.
  destruct (send_command_frames SHELLY_DIMMER_BUFFER_SIZE fuel st1 w1
              SHELLY_DIMMER_PROTO_CMD_SWITCH
              (Some [u8 (Z.land brightness_int 0xff); u8 (Z.shiftr brightness_int 8)])
              SHELLY_DIMMER_PROTO_CMD_SWITCH_SIZE Hfuel)
    as (r2 & st2 & w2 & n2 & Hrun2 & Hseq2 & Hn2 & Htx2 & _).
  { split; [reflexivity | vm_compute; discriminate]. }
  rewrite Hrun2.
  exists (with_brightness_ st2 brightness_int), w2, n1, n2.
  split; [reflexivity |]. split; [exact Hn1 |]. split; [exact Hn2 |].
  assert (Hs2 : seq_ st2 = u8 (seq_ st + 2)).
  { rewrite Hseq2, Hseq1. apply u8_succ_succ. }
  split; [| split; [exact Hs2 | reflexivity]].
  rewrite Htx2, Htx1, Hs2, Hseq1, <- app_assoc. reflexivity.
Qed.

Lemma settings_then_brightness_witness :
  convert_brightness_ (fresh_driver 79) half = Some 500
  /\ exists st' w' n1 n2,
       send_settings_ 79 201 example_settings (fresh_driver 79) (world_receiving [])
                      (Some half)
       = Returns (st', w')
       /\ (1 <= n1 <= 3)%nat /\ (1 <= n2 <= 3)%nat
       /\ tx w' = tx (world_receiving [])
                  ++ replicate n1
                       (frame_of (u8 (seq_ (fresh_driver 79) + 1))
                                 SHELLY_DIMMER_PROTO_CMD_SETTINGS
                                 [0xF4; 0x01; 0x02; 0x00; 100; 0x00; 100; 0x00; 20; 0x00])
                  ++ replicate n2
                       (frame_of (u8 (seq_ (fresh_driver 79) + 2))
                                 SHELLY_DIMMER_PROTO_CMD_SWITCH [0xF4; 0x01])
       /\ seq_ st' = u8 (seq_ (fresh_driver 79) + 2)
       /\ brightness_ st' = 500.
Proof.
  assert (Hc : convert_brightness_ (fresh_driver 79) half = Some 500) by reflexivity.
  split; [exact Hc |].
  apply (settings_then_brightness 79 201 example_settings (fresh_driver 79)
           (world_receiving []) (Some half) 500).
  - vm_compute. lia.
  - vm_compute. discriminate.
  - exact Hc.
Defined.

(** * The brightness path with a calibrated table *)

Lemma ltb_asym (x y : f32) : ltb x y = true -> ltb y x = false.
Proof.
  unfold ltb, SFltb.
  destruct x as [sx | sx | | sx mx ex], y as [sy | sy | | sy my ey];
    cbn [SFcompare]; try discriminate; try reflexivity;
    try (destruct sx; discriminate || reflexivity);
    try (destruct sy; discriminate || reflexivity);
    try (destruct sx, sy; discriminate || reflexivity).
  destruct sx, sy; try discriminate; try reflexivity;
    change (Pos.compare_cont Eq mx my) with (Pos.compare mx my);
    change (Pos.compare_cont Eq my mx) with (Pos.compare my mx);
    rewrite (Z.compare_antisym ex ey), (Pos.compare_antisym mx my);
    destruct (ex ?= ey); cbn [CompOpp]; try discriminate; try reflexivity;
    destruct (mx ?= my)%positive; cbn [CompOpp]; discriminate || reflexivity.
Qed.

(** X14. With a finalised table every dimmed brightness is remapped: when
    the table begins with 1.0 and ends with 0.0, as [complete_calibration_]
    leaves it, the search of [write_state] for a brightness strictly between
    0 and 1 stops at a position from 1 to 19, so the pass-through with its
    warning is never taken; the entry found is below the brightness and the
    entry before it is not, and these two are the input range of the
    remap. *)
Theorem calibrated_table_always_remaps (st : ShellyDimmer) (b : f32) :
  calibrating_ st = false ->
  length (calibration_data_ st) = 20%nat ->
  fget (calibration_data_ st) 0 = one ->
  fget (calibration_data_ st) 19 = zero ->
  ltb zero b = true -> ltb b one = true ->
  let table := calibration_data_ st in
  let pos := calibration_search table b 0 in
  let min_out := sub (of_Z 1) (mul (of_Z pos) CALIBRATION_STEP) in
  let max_out := add min_out CALIBRATION_STEP in
  1 <= pos <= 19
  /\ ltb (fget table pos) b = true
  /\ ltb (fget table (pos - 1)) b = false
  /\ calibrated_brightness st b
     = remap b (fget table pos) (fget table (pos - 1)) min_out max_out.
Proof.
  intros Hcal Hlen Hfirst Hlast Hpos Hlt table pos min_out max_out.
  destruct (calibration_search_spec table b 0) as (Hrange & Hbefore & Hat).
  fold pos in Hrange, Hbefore, Hat. unfold table in Hrange at 1. rewrite Hlen in Hrange.
  assert (Hget : forall i x, table !! i = Some x -> fget table (Z.of_nat i) = x).
  { intros i x Hx. apply fget_lookup. rewrite Nat2Z.id. exact Hx. }
  assert (Hne0 : pos <> 0).
  { intros E. destruct Hat as (x & Hx & Hxb).
    - unfold table. rewrite Hlen. lia.
    - rewrite E in Hx. cbn in Hx. apply (Hget 0%nat) in Hx.
      change (Z.of_nat 0) with 0 in Hx. unfold table in Hx. rewrite Hfirst in Hx.
      subst x. apply ltb_asym in Hlt. congruence. }
  assert (Hne20 : pos <> 20).
  { intros E. destruct (Hbefore 19%nat) as (x & Hx & Hxb); [lia |].
    apply (Hget 19%nat) in Hx. change (Z.of_nat 19) with 19 in Hx.
    unfold table in Hx. rewrite Hlast in Hx. subst x. congruence. }
  assert (Hin : 1 <= pos <= 19) by lia.
  split; [exact Hin |].
  assert (Hfound : ltb (fget table pos) b = true).
  { destruct Hat as (x & Hx & Hxb); [unfold table; rewrite Hlen; lia |].
    rewrite Z.sub_0_r in Hx. rewrite (fget_lookup _ _ _ Hx). exact Hxb. }
  assert (Hprev : ltb (fget table (pos - 1)) b = false).
  { destruct (Hbefore (Z.to_nat (pos - 1))) as (x & Hx & Hxb); [lia |].
    rewrite (fget_lookup _ _ _ Hx). exact Hxb. }
  split; [exact Hfound |]. split; [exact Hprev |].
  unfold calibrated_brightness. rewrite Hcal. cbn [negb andb].
  fold table. unfold table at 1. rewrite Hfirst.
  change (neqb one zero) with true. cbn [andb].
  rewrite (ltb_zero_neqb b Hpos), (ltb_one_neqb b Hlt). cbn [andb].
  fold table. fold pos. unfold table at 1. rewrite Hlen.
  destruct (Z.eqb_spec pos (Z.of_nat 20)) as [E | _]; [lia |].
  destruct (Z.eqb_spec pos 0) as [E | _]; [lia |].
  reflexivity.
Qed.

Lemma calibrated_table_always_remaps_witness :
  ltb zero half = true /\ ltb half one = true
  /\ let table := calibration_data_ calibrated_driver in
     let pos := calibration_search table half 0 in
     let min_out := sub (of_Z 1) (mul (of_Z pos) CALIBRATION_STEP) in
     let max_out := add min_out CALIBRATION_STEP in
     1 <= pos <= 19
     /\ ltb (fget table pos) half = true
     /\ ltb (fget table (pos - 1)) half = false
     /\ calibrated_brightness calibrated_driver half
        = remap half (fget table pos) (fget table (pos - 1)) min_out max_out.
Proof.
  split; [reflexivity |]. split; [reflexivity |].
  apply (calibrated_table_always_remaps calibrated_driver half);
    vm_compute; reflexivity.
Defined.


(** * The telemetry is finite *)

Lemma of_Z_rnd (z : Z) : 0 < z -> of_Z z = rnd (z * 2 ^ 149) 1.
Proof.
  intros Hz. destruct z as [| p | p]; try lia.
  unfold of_Z. cbn [binary_normalize].
  rewrite binary_round_rnd by (rewrite emin_value; lia).
  rewrite emin_value. reflexivity.
Qed.

Lemma ulps_one : ulps one = 2 ^ 149.
Proof. reflexivity. Qed.

Lemma of_Z_u32_finite (z : Z) :
  0 < z < 2 ^ 32 ->
  nonneg_finite (of_Z z) = true /\ 2 ^ 149 <= ulps (of_Z z).
Proof.
  intros Hz. rewrite of_Z_rnd by lia.
  set (top := S754_finite false 8388608 9).
  assert (Htop : nonneg_finite top = true) by reflexivity.
  assert (Hut : ulps top = 4294967296 * 2 ^ 149) by reflexivity.
  assert (Hp : 0 < 2 ^ 149) by (apply Z.pow_pos_nonneg; lia).
  change (2 ^ 32) with 4294967296 in Hz.
  destruct (rnd_le_finite (z * 2 ^ 149) 1 top) as [Hfin _];
    [nia | lia | exact Htop | rewrite Hut; nia |].
  split; [exact Hfin |].
  assert (Hle : leb (rnd (ulps one) 1) (rnd (z * 2 ^ 149) 1) = true).
  { rewrite ulps_one. apply rnd_mono; nia. }
  rewrite rnd_ulps in Hle by reflexivity.
  apply leb_ulps in Hle; [| reflexivity | exact Hfin].
  rewrite ulps_one in Hle. exact Hle.
Qed.

(** A reading is a non-negative finite float, at most the scaling
    factor. *)
Lemma reading_bounded (scale : f32) (raw : Z) :
  nonneg_finite scale = true -> 0 <= raw < 2 ^ 32 ->
  nonneg_finite (reading scale raw) = true
  /\ ulps (reading scale raw) <= ulps scale.
Proof.
  intros Hs Hraw. unfold reading.
  destruct (Z.gtb_spec raw 0) as [Hpos | Hzero].
  - destruct (of_Z_u32_finite raw ltac:(lia)) as [Hd Hd1].
    unfold div. rewrite div_rnd by (try assumption; lia).
    assert (Hp : 0 < 2 ^ 149) by (apply Z.pow_pos_nonneg; lia).
    pose proof (ulps_nonneg scale).
    apply rnd_le_finite; try assumption; nia.
  - split; [reflexivity |]. apply ulps_nonneg.
Qed.

Lemma encode_uint32_range (a b c d : Z) : 0 <= encode_uint32 a b c d < 2 ^ 32.
Proof.
  unfold encode_uint32, u32. apply Z.mod_pos_bound. lia.
Qed.

Lemma bounded_readings_publish (scale : f32) (s : option Sensor) (x : f32) :
  bounded_readings scale s ->
  nonneg_finite x = true /\ ulps x <= ulps scale ->
  bounded_readings scale (publish_state s x).
Proof.
  destruct s as [l |]; cbn; [| trivial]. intros Hl Hx. constructor; assumption.
Qed.

Lemma handle_frame_telemetry (st : ShellyDimmer) :
  telemetry_ok st -> telemetry_ok (snd (handle_frame_ st)).
Proof.
  intros (Hp & Hv & Hc). unfold handle_frame_.
  destruct (negb _); [repeat split; assumption |].
  destruct (_ =? SHELLY_DIMMER_PROTO_CMD_POLL).
  { destruct (_ <? 16); [repeat split; assumption |].
    cbn [snd]. unfold telemetry_ok.
    cbn [power_sensor_ voltage_sensor_ current_sensor_ with_sensors_].
    unfold poll_data. cbn [power_raw voltage_raw current_raw].
    repeat split; apply bounded_readings_publish; try assumption.
    - apply (reading_bounded POWER_SCALING_FACTOR);
        [reflexivity | apply encode_uint32_range].
    - apply (reading_bounded VOLTAGE_SCALING_FACTOR);
        [reflexivity | apply encode_uint32_range].
    - apply (reading_bounded CURRENT_SCALING_FACTOR);
        [reflexivity | apply encode_uint32_range]. }
  destruct (_ =? SHELLY_DIMMER_PROTO_CMD_VERSION).
  { destruct (_ <? 2); repeat split; assumption. }
  destruct (_ || _); repeat split; assumption.
Qed.

Section Telemetry.

Variable SHELLY_DIMMER_BUFFER_SIZE : Z.

Lemma read_frame_byte_telemetry (st : ShellyDimmer) (c : Z) :
  telemetry_ok st ->
  telemetry_ok (snd (read_frame_byte SHELLY_DIMMER_BUFFER_SIZE st c)).
Proof.
  intros H. unfold read_frame_byte.
  set (st1 := with_buffer_ st (aset (buffer_ st) (buffer_pos_ st) c)).
  assert (H1 : telemetry_ok st1) by exact H.
  destruct (handle_byte_ SHELLY_DIMMER_BUFFER_SIZE st1 c =? 0).
  { pose proof (handle_frame_telemetry st1 H1) as H2.
    destruct (handle_frame_ st1) as [b st2]. exact H2. }
  destruct (handle_byte_ SHELLY_DIMMER_BUFFER_SIZE st1 c =? -1); [exact H1 |].
  destruct (handle_byte_ SHELLY_DIMMER_BUFFER_SIZE st1 c =? 1); exact H1.
Qed.

Lemma read_frame_loop_telemetry (cs : list Z) (st : ShellyDimmer) :
  telemetry_ok st ->
  telemetry_ok (snd (fst (read_frame_loop SHELLY_DIMMER_BUFFER_SIZE st cs))).
Proof.
  revert st. induction cs as [| c cs IH]; intros st H; [exact H |].
  cbn [read_frame_loop].
  pose proof (read_frame_byte_telemetry st c H) as H1.
  destruct (read_frame_byte SHELLY_DIMMER_BUFFER_SIZE st c) as [r st1]. cbn [snd] in H1.
  destruct (r =? 0); [exact H1 | apply IH; exact H1].
Qed.

Lemma await_reply_telemetry (fuel : nat) (tx_time : Z) (st : ShellyDimmer)
    (w : World) (r : bool) (st' : ShellyDimmer) (w' : World) :
  telemetry_ok st ->
  await_reply SHELLY_DIMMER_BUFFER_SIZE fuel tx_time st w = Some (r, st', w') ->
  telemetry_ok st'.
Proof.
  revert st w. induction fuel as [| fuel IH]; intros st w Hok; [discriminate |].
  cbn [await_reply].
  destruct (_ <? SHELLY_DIMMER_ACK_TIMEOUT).
  2:{ intros H. injection H as _ <- _. exact Hok. }
  unfold read_frame_.
  pose proof (read_frame_loop_telemetry (rx w) st Hok) as H1.
  destruct (read_frame_loop SHELLY_DIMMER_BUFFER_SIZE st (rx w)) as [[b st1] rest].
  cbn [fst snd] in H1.
  destruct b.
  - intros H. injection H as _ <- _. exact H1.
  - intros H. eapply IH; [exact H1 | exact H].
Qed.

Lemma send_attempts_telemetry (fuel retries : nat) (frame : list Z)
    (st : ShellyDimmer) (w : World) (r : bool) (st' : ShellyDimmer) (w' : World) :
  telemetry_ok st ->
  send_attempts SHELLY_DIMMER_BUFFER_SIZE fuel retries frame st w = Some (r, st', w') ->
  telemetry_ok st'.
Proof.
  revert st w. induction retries as [| retries IH]; intros st w Hok.
  - cbn [send_attempts]. intros H. injection H as _ <- _. exact Hok.
  - cbn [send_attempts].
    destruct (await_reply _ _ _ _ _) as [[[b st1] w1] |] eqn:Ha; [| discriminate].
    pose proof (await_reply_telemetry _ _ _ _ _ _ _ Hok Ha) as H1.
    destruct b.
    + intros H. injection H as _ <- _. exact H1.
    + intros H. eapply IH; [exact H1 | exact H].
Qed.

End Telemetry.

(** X15. The telemetry is always finite: whatever bytes the UART delivers,
    every power, voltage and current that [send_command_] comes to publish
    while it waits is a non-negative finite float, at most the scaling
    factor of its sensor; a raw reading of 0 is published as 0.0 and no
    division by zero, infinity or NaN reaches a sensor. *)
Theorem telemetry_stays_finite (SHELLY_DIMMER_BUFFER_SIZE : Z) (fuel : nat)
    (st : ShellyDimmer) (w : World) (cmd : Z) (payload : option (list Z)) (len : Z)
    (r : bool) (st' : ShellyDimmer) (w' : World) :
  telemetry_ok st ->
  send_command_ SHELLY_DIMMER_BUFFER_SIZE fuel st w cmd payload len = Some (r, st', w') ->
  telemetry_ok st'.
Proof.
  intros Hok. unfold send_command_.
  destruct (frame_command_ st _ cmd payload len) as [[st1 data] frame_len] eqn:Hf.
  assert (H1 : telemetry_ok st1).
  { unfold frame_command_ in Hf. destruct payload; injection Hf as <- _ _; exact Hok. }
  apply send_attempts_telemetry. exact H1.
Qed.

Lemma telemetry_stays_finite_witness :
  telemetry_ok (fresh_driver 79)
  /\ exists r st' w',
       send_command_ 79 201 (fresh_driver 79)
                     (world_receiving [frame_of 1 SHELLY_DIMMER_PROTO_CMD_POLL
                                                poll_example_payload])
                     SHELLY_DIMMER_PROTO_CMD_POLL None 0
       = Some (r, st', w')
       /\ telemetry_ok st'.
Proof.
  assert (Hok : telemetry_ok (fresh_driver 79)) by (repeat split; constructor).
  split; [exact Hok |].
  destruct (send_command_ 79 201 (fresh_driver 79)
              (world_receiving [frame_of 1 SHELLY_DIMMER_PROTO_CMD_POLL
                                         poll_example_payload])
              SHELLY_DIMMER_PROTO_CMD_POLL None 0) as [[[r st'] w'] |] eqn:H.
  - exists r, st', w'. split; [reflexivity |].
    exact (telemetry_stays_finite 79 201 (fresh_driver 79) _ _ _ _ r st' w' Hok H).
  - vm_compute in H. discriminate.
Defined.

(** * The means of the calibration are finite *)

(** The sum of two non-negative finite floats is the exact sum rounded. *)
Lemma add_rnd (a b : spec_float) :
  nonneg_finite a = true -> nonneg_finite b = true ->
  SFadd prec emax a b = rnd (ulps a + ulps b) 1.
Proof.
  intros Ha Hb.
  destruct a as [sa | sa | | sa ma ea]; try destruct sa; try discriminate;
    destruct b as [sb | sb | | sb mb eb]; try destruct sb; try discriminate.
  - reflexivity.
  - change (ulps (S754_zero false)) with 0. rewrite Z.add_0_l.
    cbn [SFadd]. symmetry. apply rnd_ulps. exact Hb.
  - change (ulps (S754_zero false)) with 0. rewrite Z.add_0_r.
    cbn [SFadd]. symmetry. apply rnd_ulps. exact Ha.
  - cbn [nonneg_finite] in Ha, Hb.
    destruct (bounded_facts ma ea Ha) as (Hea & _).
    destruct (bounded_facts mb eb Hb) as (Heb & _).
    cbn [SFadd cond_Zopp]. set (ez := Z.min ea eb).
    rewrite !shl_align_value by (unfold ez; lia).
    assert (Hu : ulps (S754_finite false ma ea) + ulps (S754_finite false mb eb)
                 = (Zpos ma * 2 ^ (ea - ez) + Zpos mb * 2 ^ (eb - ez))
                   * 2 ^ (ez - emin prec emax)).
    { cbn [ulps]. rewrite Z.mul_add_distr_r, <- !Z.mul_assoc, <- !Z.pow_add_r
        by (unfold ez; lia).
      do 2 f_equal; f_equal; f_equal; lia. }
    rewrite Hu.
    assert (Ha0 : 0 < Zpos ma * 2 ^ (ea - ez))
      by (apply Z.mul_pos_pos; [lia | apply Z.pow_pos_nonneg; unfold ez; lia]).
    assert (Hb0 : 0 < Zpos mb * 2 ^ (eb - ez))
      by (apply Z.mul_pos_pos; [lia | apply Z.pow_pos_nonneg; unfold ez; lia]).
    destruct (Zpos ma * 2 ^ (ea - ez) + Zpos mb * 2 ^ (eb - ez)) as [| p | p] eqn:E;
      try lia.
    cbn [binary_normalize]. apply binary_round_rnd. unfold ez. lia.
Qed.

(** The float [j * 2^20], for [j] below [2^24]. *)
Lemma step_float (j : positive) :
  Zpos j < 2 ^ 24 ->
  exists v, nonneg_finite v = true /\ ulps v = Zpos j * 2 ^ 20 * 2 ^ 149.
Proof.
  intros Hj.
  assert (Hd : Zpos (digits2_pos j) <= 24) by (apply digits_small; lia).
  pose proof (canon_bounded j Hd) as Hb.
  destruct (bounded_facts _ _ Hb) as (He & Hm & Hnorm & Hfexp).
  exists (S754_finite false (canon_m j) (canon_e j + 20)).
  assert (Hce : -23 <= canon_e j <= 0).
  { unfold canon_e. pose proof (Pos2Z.is_pos (digits2_pos j)). lia. }
  split.
  - cbn [nonneg_finite]. unfold bounded, canonical_mantissa.
    apply andb_true_iff. split.
    + apply Z.eqb_eq. rewrite fexp_value in *. lia.
    + apply Z.leb_le. unfold emax, prec. lia.
  - cbn [ulps]. rewrite canon_m_value by exact Hd. rewrite emin_value.
    unfold canon_e.
    rewrite <- !Z.mul_assoc, <- !Z.pow_add_r by lia. do 2 f_equal. lia.
Qed.

(** Adding up readings of at most [2^20] from 0.0: after [k] of them the
    sum is a non-negative finite float of at most [k * 2^20]. *)
Lemma sum_bounded (rs : list f32) (acc : f32) (k : Z) :
  Forall (fun r => nonneg_finite r = true /\ ulps r <= 2 ^ 20 * 2 ^ 149) rs ->
  nonneg_finite acc = true ->
  0 <= k -> ulps acc <= k * 2 ^ 20 * 2 ^ 149 ->
  k + Z.of_nat (length rs) < 2 ^ 24 ->
  nonneg_finite (fold_left add rs acc) = true
  /\ ulps (fold_left add rs acc) <= (k + Z.of_nat (length rs)) * 2 ^ 20 * 2 ^ 149.
Proof.
  intros Hrs. revert acc k.
  induction Hrs as [| r rs [Hr Hrb] _ IH]; intros acc k Hacc Hk Hb Hroom.
  - cbn [fold_left length]. rewrite Z.add_0_r. split; assumption.
  - cbn [fold_left length] in *.
    assert (Hk1 : 0 < k + 1 < 2 ^ 24) by lia.
    destruct (k + 1) as [| j | j] eqn:Ej; try lia.
    destruct (step_float j ltac:(lia)) as (v & Hv & Huv).
    assert (Hstep : nonneg_finite (add acc r) = true
                    /\ ulps (add acc r) <= Zpos j * 2 ^ 20 * 2 ^ 149).
    { unfold add. rewrite add_rnd by assumption. rewrite <- Huv.
      pose proof (ulps_nonneg acc). pose proof (ulps_nonneg r).
      apply rnd_le_finite; try assumption; lia. }
    destruct Hstep as [Hs Hsb].
    destruct (IH (add acc r) (Zpos j) Hs ltac:(lia) Hsb ltac:(lia)) as [H1 H2].
    split; [exact H1 |].
    eapply Z.le_trans; [exact H2 |]. apply Z.eq_le_incl. do 2 f_equal. lia.
Qed.

(** The mean of fewer than [2^24] readings of at most [2^20] is a
    non-negative finite float. *)
Lemma mean_finite (rs : list f32) :
  Forall (fun r => nonneg_finite r = true /\ ulps r <= 2 ^ 20 * 2 ^ 149) rs ->
  (0 < length rs)%nat -> Z.of_nat (length rs) < 2 ^ 24 ->
  nonneg_finite (mean rs) = true.
Proof.
  intros Hrs Hpos Hlen.
  destruct (sum_bounded rs zero 0 Hrs eq_refl) as [Hs Hsb];
    [lia | cbn; lia | lia |].
  destruct (of_Z_u32_finite (Z.of_nat (length rs))) as [Hd Hd1].
  { change (2 ^ 24) with 16777216 in Hlen. change (2 ^ 32) with 4294967296. lia. }
  unfold mean, div.
  assert (Hp : 0 < 2 ^ 149) by (apply Z.pow_pos_nonneg; lia).
  rewrite div_rnd by (try assumption; lia).
  pose proof (ulps_nonneg (fold_left add rs zero)).
  apply rnd_le_finite with (v := fold_left add rs zero); try assumption; nia.
Qed.

(** * The converted brightness stays within its bounds *)

(** The product of two non-negative finite floats is the exact product
    rounded. *)
Lemma mul_rnd (x y : spec_float) :
  nonneg_finite x = true -> nonneg_finite y = true ->
  SFmul prec emax x y = rnd (ulps x * ulps y) (2 ^ 149).
Proof.
  intros Hx Hy.
  assert (Hp : 0 < 2 ^ 149) by (apply Z.pow_pos_nonneg; lia).
  destruct x as [sx | sx | | sx mx ex]; try destruct sx; try discriminate;
    destruct y as [sy | sy | | sy my ey]; try destruct sy; try discriminate.
  - cbn [SFmul xorb ulps]. rewrite Z.mul_0_l. symmetry. apply rnd_0. exact Hp.
  - cbn [SFmul xorb]. change (ulps (S754_zero false)) with 0.
    rewrite Z.mul_0_l. symmetry. apply rnd_0. exact Hp.
  - cbn [SFmul xorb]. change (ulps (S754_zero false)) with 0.
    rewrite Z.mul_0_r. symmetry. apply rnd_0. exact Hp.
  - cbn [nonneg_finite] in Hx, Hy.
    destruct (bounded_facts mx ex Hx) as (Hex & Hmx & Hnx & _).
    destruct (bounded_facts my ey Hy) as (Hey & Hmy & Hny & _).
    rewrite emin_value in *. unfold emax, prec in Hex, Hey.
    cbn [SFmul xorb ulps]. rewrite emin_value.
    assert (Hdig : ex + ey <= fexp prec emax (Zdigits2 (Zpos (mx * my)) + (ex + ey))).
    { rewrite fexp_value.
      destruct Hnx as [Ex | Nx]; destruct Hny as [Ey | Ny]; try lia.
      - assert (24 <= Zdigits2 (Zpos (mx * my))); [| lia].
        apply Zdigits2_ge; [| lia]. rewrite Pos2Z.inj_mul.
        change (2 ^ (24 - 1)) with 8388608 in *. change (2 ^ 23) with 8388608 in *. nia.
      - assert (24 <= Zdigits2 (Zpos (mx * my))); [| lia].
        apply Zdigits2_ge; [| lia]. rewrite Pos2Z.inj_mul.
        change (2 ^ (24 - 1)) with 8388608 in *. change (2 ^ 23) with 8388608 in *. nia.
      - assert (24 <= Zdigits2 (Zpos (mx * my))); [| lia].
        apply Zdigits2_ge; [| lia]. rewrite Pos2Z.inj_mul.
        change (2 ^ (24 - 1)) with 8388608 in *. change (2 ^ 23) with 8388608 in *. nia. }
    rewrite (binary_round_aux_rnd (Zpos (mx * my)) (ex + ey) loc_Exact
               (Zpos (mx * my)) 1); try lia; [| apply code_exact].
    rewrite emin_value, Pos2Z.inj_mul.
    replace (Zpos mx * 2 ^ (ex - -149) * (Zpos my * 2 ^ (ey - -149)))
      with (Zpos mx * Zpos my * 2 ^ (ex + ey + 298)).
    2:{ replace (ex + ey + 298) with ((ex - -149) + (ey - -149)) by lia.
        rewrite Z.pow_add_r by lia. ring. }
    rewrite <- (Z.mul_1_l (2 ^ 149)).
    apply rnd_ratio; lia.
Qed.

(** A small non-negative integer converts exactly. *)
Lemma of_Z_exact (z : Z) :
  0 <= z < 2 ^ 24 ->
  nonneg_finite (of_Z z) = true /\ ulps (of_Z z) = z * 2 ^ 149.
Proof.
  intros Hz. destruct z as [| p | p]; try lia.
  - split; reflexivity.
  - assert (Hd : Zpos (digits2_pos p) <= 24) by (apply digits_small; lia).
    rewrite of_Z_pos by exact Hd. split.
    + cbn [nonneg_finite]. apply canon_bounded. exact Hd.
    + cbn [ulps]. rewrite canon_m_value by exact Hd. rewrite emin_value.
      unfold canon_e. pose proof (Pos2Z.is_pos (digits2_pos p)).
      rewrite <- Z.mul_assoc, <- Z.pow_add_r by lia. do 2 f_equal. lia.
Qed.

(** Truncation of a non-negative finite float drops the fraction. *)
Lemma trunc_ulps (x : spec_float) :
  nonneg_finite x = true -> trunc x = Some (ulps x / 2 ^ 149).
Proof.
  intros Hx. destruct x as [s | s | | s m e]; try destruct s; try discriminate.
  - reflexivity.
  - cbn [nonneg_finite] in Hx. destruct (bounded_facts m e Hx) as (He & _).
    rewrite emin_value in *. cbn [trunc cond_Zopp ulps]. rewrite emin_value. f_equal.
    destruct (Z.le_gt_cases 0 e) as [Hpos | Hneg].
    + rewrite Z.shiftl_mul_pow2 by lia.
      replace (e - -149) with (e + 149) by lia.
      rewrite Z.pow_add_r, Z.mul_assoc by lia.
      rewrite Z.div_mul; [reflexivity |].
      apply Z.pow_nonzero; lia.
    + rewrite Z.shiftl_div_pow2 by lia.
      replace (2 ^ 149) with (2 ^ (- e) * 2 ^ (e - -149))
        by (rewrite <- Z.pow_add_r by lia; f_equal; lia).
      rewrite Z.div_mul_cancel_r; [reflexivity | |];
        apply Z.pow_nonzero; lia.
Qed.

(** X17. The brightness sent to the dimmer stays within its bounds: for
    a brightness above 0.0 and at most 1.0, and 16-bit brightness bounds
    with the minimum not above the maximum, [convert_brightness_] returns a
    value from [min_brightness_] to [max_brightness_]; the conversion to
    [uint16_t] is defined, and the rounding of the single-precision remap
    never carries the result past either bound. *)
Theorem convert_brightness_in_range (st : ShellyDimmer) (b : f32) :
  0 <= min_brightness_ st <= max_brightness_ st ->
  max_brightness_ st < 2 ^ 16 ->
  nonneg_finite b = true ->
  ltb zero b = true -> leb b one = true ->
  exists v,
    convert_brightness_ st b = Some v
    /\ min_brightness_ st <= v <= max_brightness_ st.
Proof.
  intros Hmm Hmax Hb Hpos Hle1.
  set (lo := min_brightness_ st) in *. set (hi := max_brightness_ st) in *.
  assert (Hp : 0 < 2 ^ 149) by (apply Z.pow_pos_nonneg; lia).
  change (2 ^ 16) with 65536 in Hmax.
  assert (Hub : 0 < ulps b <= 2 ^ 149).
  { split.
    - apply (ltb_ulps zero b eq_refl Hb) in Hpos. exact Hpos.
    - apply (leb_ulps b one Hb eq_refl) in Hle1. rewrite ulps_one in Hle1. exact Hle1. }
  destruct (of_Z_exact (hi - lo)) as [Hd Hdu];
    [change (2 ^ 24) with 16777216; lia |].
  destruct (of_Z_exact lo) as [Hl Hlu]; [change (2 ^ 24) with 16777216; lia |].
  destruct (of_Z_exact hi) as [Hh Hhu]; [change (2 ^ 24) with 16777216; lia |].
  unfold convert_brightness_. fold lo hi.
  assert (Hne : eqb b zero = false).
  { unfold eqb, SFeqb. rewrite (compare_ulps b zero Hb eq_refl).
    change (ulps zero) with 0.
    destruct (Z.compare_spec (ulps b) 0); try reflexivity; lia. }
  rewrite Hne. unfold remap_u16.
  assert (Hs : sub b zero = b).
  { unfold sub. rewrite sub_rnd by (try assumption; try reflexivity; cbn; lia).
    change (ulps zero) with 0. rewrite Z.sub_0_r. apply rnd_ulps. exact Hb. }
  rewrite Hs. change (sub one zero) with one.
  (* the product *)
  set (t0 := mul b (of_Z (hi - lo))).
  assert (Ht0 : nonneg_finite t0 = true /\ ulps t0 <= (hi - lo) * 2 ^ 149).
  { unfold t0, mul. rewrite mul_rnd by assumption. rewrite <- Hdu.
    pose proof (ulps_nonneg (of_Z (hi - lo))).
    apply rnd_le_finite; try assumption; nia. }
  destruct Ht0 as [Ht0 Ht0u].
  assert (Hdiv : div t0 one = t0).
  { unfold div. rewrite div_rnd by (try assumption; try reflexivity; rewrite ulps_one; lia).
    rewrite ulps_one. rewrite <- (Z.mul_1_l (2 ^ 149)) at 2.
    rewrite rnd_scale by lia. apply rnd_ulps. exact Ht0. }
  rewrite Hdiv.
  (* the sum *)
  set (t2 := add t0 (of_Z lo)).
  pose proof (ulps_nonneg t0) as Ht0n.
  assert (Ht2 : nonneg_finite t2 = true
                /\ lo * 2 ^ 149 <= ulps t2 <= hi * 2 ^ 149).
  { unfold t2, add. rewrite add_rnd by assumption.
    destruct (rnd_le_finite (ulps t0 + ulps (of_Z lo)) 1 (of_Z hi)) as [Hf Hu];
      [lia | lia | exact Hh | rewrite Hhu, Hlu; nia |].
    assert (Hm : leb (rnd (ulps (of_Z lo)) 1) (rnd (ulps t0 + ulps (of_Z lo)) 1) = true)
      by (apply rnd_mono; lia).
    rewrite rnd_ulps in Hm by exact Hl.
    apply (leb_ulps _ _ Hl Hf) in Hm. rewrite Hlu in Hm at 1. rewrite Hhu in Hu.
    split; [exact Hf |]. split; [exact Hm | exact Hu]. }
  destruct Ht2 as (Ht2 & Hlo2 & Hhi2).
  unfold to_u16. rewrite (trunc_ulps t2 Ht2).
  set (v := ulps t2 / 2 ^ 149).
  assert (Hv : lo <= v <= hi).
  { unfold v. split.
    - apply Z.div_le_lower_bound; lia.
    - apply Z.div_le_upper_bound; lia. }
  exists v. change (2 ^ 16) with 65536.
  destruct (Z.leb_spec 0 v); [| lia]. destruct (Z.ltb_spec v 65536); [| lia].
  split; [reflexivity | exact Hv].
Qed.

Lemma convert_brightness_in_range_witness :
  exists v,
    convert_brightness_ (fresh_driver 79) half = Some v
    /\ min_brightness_ (fresh_driver 79) <= v <= max_brightness_ (fresh_driver 79).
Proof.
  apply (convert_brightness_in_range (fresh_driver 79) half).
  - vm_compute. split; discriminate.
  - reflexivity.
  - reflexivity.
  - reflexivity.
  - reflexivity.
Defined.

(** * How long a command can block *)

Section Blocking.

Variable SHELLY_DIMMER_BUFFER_SIZE : Z.

Lemma await_reply_elapsed (fuel : nat) (tx_time : Z) (st : ShellyDimmer) (w : World)
    (r : bool) (st' : ShellyDimmer) (w' : World) :
  await_reply SHELLY_DIMMER_BUFFER_SIZE fuel tx_time st w = Some (r, st', w') ->
  u32 (millis w - tx_time) <= SHELLY_DIMMER_ACK_TIMEOUT ->
  u32 (millis w - tx_time) <= u32 (millis w' - tx_time) <= SHELLY_DIMMER_ACK_TIMEOUT.
Proof.
  revert st w. induction fuel as [| fuel IH]; intros st w; [discriminate |].
  cbn [await_reply].
  destruct (Z.ltb_spec (u32 (millis w - tx_time)) SHELLY_DIMMER_ACK_TIMEOUT)
    as [Hlt | Hge].
  2:{ intros H. injection H as _ _ <-. lia. }
  unfold read_frame_.
  destruct (read_frame_loop SHELLY_DIMMER_BUFFER_SIZE st (rx w)) as [[b st1] rest].
  destruct b.
  - intros H. injection H as _ _ <-. cbn [millis]. lia.
  - intros H _. apply IH in H.
    + cbn [millis delay_1] in H. rewrite elapsed_after_delay in H by exact Hlt. lia.
    + cbn [millis delay_1]. rewrite elapsed_after_delay by exact Hlt. lia.
Qed.

Lemma send_attempts_elapsed (fuel retries : nat) (frame : list Z)
    (st : ShellyDimmer) (w : World) (r : bool) (st' : ShellyDimmer) (w' : World) :
  send_attempts SHELLY_DIMMER_BUFFER_SIZE fuel retries frame st w = Some (r, st', w') ->
  (retries <= 3)%nat ->
  u32 (millis w' - millis w) <= SHELLY_DIMMER_ACK_TIMEOUT * Z.of_nat retries.
Proof.
  revert st w. induction retries as [| retries IH]; intros st w.
  - cbn [send_attempts]. intros H _. injection H as _ _ <-.
    rewrite Z.sub_diag. change (u32 0) with 0. unfold SHELLY_DIMMER_ACK_TIMEOUT. lia.
  - cbn [send_attempts]. intros H Hret.
    set (w1 := flush (write_array w frame)) in H.
    destruct (await_reply _ _ _ _ _) as [[[b st1] w2] |] eqn:Ha; [| discriminate].
    pose proof (await_reply_elapsed _ _ _ _ _ _ _ Ha) as Hel.
    rewrite Z.sub_diag in Hel. change (u32 0) with 0 in Hel.
    specialize (Hel ltac:(unfold SHELLY_DIMMER_ACK_TIMEOUT; lia)).
    change (millis w1) with (millis w) in Hel.
    destruct b.
    + injection H as _ _ <-. unfold SHELLY_DIMMER_ACK_TIMEOUT in *. lia.
    + apply IH in H; [| lia].
      unfold SHELLY_DIMMER_ACK_TIMEOUT in *. unfold u32 in *.
      change (2 ^ 32) with 4294967296 in *.
      Z.div_mod_to_equations. lia.
Qed.

End Blocking.



(** * The brightness on the wire *)

(** X19. The SWITCH command carries the brightness low byte first: for a
    16-bit brightness, [send_brightness_] writes, one to three times, the
    SWITCH frame with the next sequence number whose two payload bytes are
    the low and the high byte of the brightness, so that decoding them the
    way the POLL reply's brightness is decoded gives the brightness back;
    and it records the brightness as sent whether or not the dimmer
    acknowledged. *)
Theorem switch_carries_brightness (SHELLY_DIMMER_BUFFER_SIZE : Z) (fuel : nat)
    (st : ShellyDimmer) (w : World) (brightness : Z) :
  (Z.to_nat SHELLY_DIMMER_ACK_TIMEOUT < fuel)%nat ->
  0 <= brightness < 2 ^ 16 ->
  let lo := brightness mod 256 in
  let hi := brightness / 256 in
  encode_uint16 hi lo = brightness
  /\ exists st' w' n,
       send_brightness_ SHELLY_DIMMER_BUFFER_SIZE fuel st w brightness = Some (st', w')
       /\ (1 <= n <= 3)%nat
       /\ tx w' = tx w ++ replicate n (frame_of (u8 (seq_ st + 1))
                                                SHELLY_DIMMER_PROTO_CMD_SWITCH [lo; hi])
       /\ brightness_ st' = brightness
       /\ seq_ st' = u8 (seq_ st + 1).
Proof.
  intros Hfuel Hb lo hi. change (2 ^ 16) with 65536 in Hb.
  assert (Hlo : u8 (Z.land brightness 0xff) = lo).
  { change 0xff with 255. apply csum_lo_byte. }
  assert (Hhi : u8 (Z.shiftr brightness 8) = hi).
  { apply csum_hi_byte. exact Hb. }
  split.
  { unfold encode_uint16, hi, lo.
    rewrite lor_shiftl_8 by (apply Z.mod_pos_bound; lia).
    unfold u16. rewrite Z.mod_small by (change (2 ^ 16) with 65536; Z.div_mod_to_equations; lia).
    Z.div_mod_to_equations; lia. }
  unfold send_brightness_. rewrite Hlo, Hhi.
  destruct (send_command_frames SHELLY_DIMMER_BUFFER_SIZE fuel st w
              SHELLY_DIMMER_PROTO_CMD_SWITCH (Some [lo; hi])
              SHELLY_DIMMER_PROTO_CMD_SWITCH_SIZE Hfuel)
    as (r & st1 & w1 & n & Hrun & Hseq & Hn & Htx & _).
  { split; [reflexivity | vm_compute; discriminate]. }
  rewrite Hrun. exists (with_brightness_ st1 brightness), w1, n.
  split; [reflexivity |]. split; [exact Hn |].
  split; [rewrite Htx, Hseq; reflexivity |]. split; [reflexivity | exact Hseq].
Qed.

Lemma switch_carries_brightness_witness :
  encode_uint16 (1000 / 256) (1000 mod 256) = 1000
  /\ exists st' w' n,
       send_brightness_ 79 201 (fresh_driver 79) (world_receiving []) 1000
       = Some (st', w')
       /\ (1 <= n <= 3)%nat
       /\ tx w' = tx (world_receiving [])
                  ++ replicate n (frame_of (u8 (seq_ (fresh_driver 79) + 1))
                                           SHELLY_DIMMER_PROTO_CMD_SWITCH
                                           [1000 mod 256; 1000 / 256])
       /\ brightness_ st' = 1000
       /\ seq_ st' = u8 (seq_ (fresh_driver 79) + 1).
Proof.
  apply (switch_carries_brightness 79 201 (fresh_driver 79) (world_receiving []) 1000).
  - vm_compute. lia.
  - simpl. lia.
Defined.

(** * A calibration that measured the same power at every step *)

Lemma sort_desc_replicate (n : nat) (x : f32) :
  ltb x x = false -> sort_desc (replicate n x) = replicate n x.
Proof.
  intros Hx. unfold sort_desc. induction n as [| n IH]; [reflexivity |].
  cbn [replicate foldr]. rewrite IH.
  destruct n as [| n]; [reflexivity |].
  cbn [replicate insert_desc]. rewrite Hx. reflexivity.
Qed.

Lemma ltb_irrefl (x : f32) : ltb x x = false.
Proof.
  destruct (ltb x x) eqn:E; [| reflexivity].
  pose proof (ltb_asym x x E). congruence.
Qed.

Lemma calibration_search_none (data : list f32) (b : f32) (start : Z) :
  Forall (fun x => ltb x b = false) data ->
  calibration_search data b start = start + Z.of_nat (length data).
Proof.
  intros H. revert start. induction H as [| x data Hx _ IH]; intros start.
  - cbn [calibration_search length]. lia.
  - cbn [calibration_search length]. rewrite Hx, IH. lia.
Qed.

(** X20. A flat calibration leaves a table of NaNs that is never used:
    when all twenty mean powers are the same non-negative finite float,
    [complete_calibration_] divides 0 by 0 for every entry, so the
    finalised table (which is also what gets saved) holds twenty NaNs;
    afterwards [write_state] finds no entry below any brightness and passes
    every brightness through unchanged. *)
Theorem flat_calibration_is_nan (st : ShellyDimmer) (x : f32) :
  nonneg_finite x = true ->
  calibration_data_ st = replicate 20 x ->
  calibration_data_ (complete_calibration_ st) = replicate 20 S754_nan
  /\ rtc_ (complete_calibration_ st) = Some (replicate 20 S754_nan)
  /\ forall b, calibrated_brightness (complete_calibration_ st) b = b.
Proof.
  intros Hx Hdata.
  assert (Hsub : sub x x = zero).
  { unfold sub. rewrite sub_rnd by (try assumption; lia).
    rewrite Z.sub_diag. apply rnd_0. lia. }
  assert (Hremap : remap x x x zero one = S754_nan).
  { unfold remap. rewrite Hsub. reflexivity. }
  assert (Htable : calibration_data_ (complete_calibration_ st) = replicate 20 S754_nan).
  { unfold complete_calibration_.
    cbn [calibration_data_ with_calibration_ with_light_].
    rewrite Hdata, (sort_desc_replicate 20 x (ltb_irrefl x)).
    change (fget (replicate 20 x) 0) with x.
    change (fget (replicate 20 x) (Z.of_nat (length (replicate 20 x)) - 1)) with x.
    cbn [replicate map]. rewrite Hremap. reflexivity. }
  split; [exact Htable |]. split.
  { unfold complete_calibration_ in *.
    cbn [rtc_ calibration_data_ with_calibration_ with_light_] in *.
    rewrite Htable. reflexivity. }
  intros b. unfold calibrated_brightness. rewrite Htable.
  destruct (negb _ && _ && _ && _); [| reflexivity].
  rewrite calibration_search_none.
  - rewrite length_replicate. cbn [Z.add Z.of_nat Pos.of_succ_nat Pos.succ].
    rewrite Z.eqb_refl. reflexivity.
  - apply Forall_replicate. reflexivity.
Qed.

Lemma flat_calibration_is_nan_witness :
  let st := with_calibration_ (fresh_driver 79) true (replicate 20 (of_Z 60)) None in
  calibration_data_ (complete_calibration_ st) = replicate 20 S754_nan
  /\ rtc_ (complete_calibration_ st) = Some (replicate 20 S754_nan)
  /\ forall b, calibrated_brightness (complete_calibration_ st) b = b.
Proof.
  intros st.
  apply (flat_calibration_is_nan st (of_Z 60)); reflexivity.
Defined.

(** X21. The means of a calibration run are finite: when every power
    reading of a step is a non-negative finite float of at most the power
    scaling factor, as every reading that a POLL reply publishes is, and
    the step takes fewer than 2^24 of them, the mean that
    [complete_calibration_step_] stores is a non-negative finite float: the
    running sum never overflows and the table holds no infinity or NaN
    before it is normalised. *)
Theorem calibration_means_finite (groups : list (list (f32 * f32))) :
  Forall (fun g =>
            (0 < length g)%nat /\ Z.of_nat (length g) < 2 ^ 24
            /\ Forall (fun r => nonneg_finite r = true
                                /\ ulps r <= ulps POWER_SCALING_FACTOR)
                      (map fst g)) groups ->
  Forall (fun x => nonneg_finite x = true)
         (map (fun g => mean (map fst g)) groups).
Proof.
  intros H. apply Forall_map. eapply Forall_impl; [exact H |].
  intros g (Hpos & Hlen & Hrs). cbn beta.
  apply mean_finite.
  - eapply Forall_impl; [exact Hrs |]. intros r [Hr Hb]. split; [exact Hr |].
    eapply Z.le_trans; [exact Hb |].
    change (ulps POWER_SCALING_FACTOR) with (880373 * 2 ^ 149).
    apply Z.mul_le_mono_nonneg_r; [| change (2 ^ 20) with 1048576; lia].
    apply Z.pow_nonneg. lia.
  - rewrite length_map. exact Hpos.
  - rewrite length_map. exact Hlen.
Qed.

Lemma calibration_means_finite_witness :
  Forall (fun x => nonneg_finite x = true)
         (map (fun g => mean (map fst g)) example_groups).
Proof.
  apply (calibration_means_finite example_groups).
  repeat (constructor;
          [split; [simpl; lia
                  | split; [simpl; lia
                           | repeat (constructor; [split; [reflexivity | vm_compute; discriminate] |]);
                             constructor]] |]).
  constructor.
Defined.

(** * Reset and start-up *)

Lemma delay_world (n : nat) (w : World) :
  rx (delay n w) = rx w ++ concat (take n (line w))
  /\ line (delay n w) = drop n (line w)
  /\ tx (delay n w) = tx w
  /\ flushed (delay n w) = flushed w
  /\ u32 (millis (delay n w)) = u32 (millis w + Z.of_nat n).
Proof.
  unfold delay. induction n as [| n IH].
  - cbn [Nat.iter take drop concat]. rewrite app_nil_r, Z.add_0_r. repeat split.
  - rewrite Nat.iter_succ. destruct IH as (Hrx & Hline & Htx & Hfl & Hm).
    cbn [delay_1 rx line tx flushed millis]. rewrite Hrx, Hline.
    split; [| split; [| split; [exact Htx | split; [exact Hfl |]]]].
    + rewrite <- app_assoc. f_equal.
      destruct (drop n (line w)) as [| chunk rest] eqn:Hd.
      * cbn [hd]. rewrite app_nil_r.
        assert (Hlen : (length (line w) <= n)%nat).
        { apply (f_equal length) in Hd. rewrite length_drop in Hd. cbn in Hd. lia. }
        rewrite !take_ge by lia. reflexivity.
      * cbn [hd].
        assert (Hat : line w !! n = Some chunk).
        { rewrite <- (Nat.add_0_r n), <- lookup_drop, Hd. reflexivity. }
        rewrite (take_S_r _ _ _ Hat), concat_app. cbn [concat].
        rewrite app_nil_r. reflexivity.
    + destruct (drop n (line w)) as [| chunk rest] eqn:Hd.
      * cbn [tl]. symmetry. apply drop_ge.
        apply (f_equal length) in Hd. rewrite length_drop in Hd. cbn in Hd. lia.
      * cbn [tl].
        change (S n) with (1 + n)%nat. rewrite Nat.add_comm, <- drop_drop, Hd.
        reflexivity.
    + unfold u32 in *. rewrite Z.mod_mod by lia.
      rewrite <- Zplus_mod_idemp_l, Hm, Zplus_mod_idemp_l. f_equal. lia.
Qed.

Lemma delay_twice (n m : nat) (w : World) :
  let w1 := delay n w in
  let w2 := delay m (mkWorld (millis w1) [] (line w1) (tx w1) (flushed w1)) in
  rx w2 = concat (take m (drop n (line w)))
  /\ line w2 = drop (n + m) (line w)
  /\ tx w2 = tx w
  /\ flushed w2 = flushed w
  /\ u32 (millis w2) = u32 (millis w + Z.of_nat n + Z.of_nat m).
Proof.
  intros w1 w2.
  destruct (delay_world n w) as (_ & Hl1 & Ht1 & Hf1 & Hm1). fold w1 in Hl1, Ht1, Hf1, Hm1.
  destruct (delay_world m (mkWorld (millis w1) [] (line w1) (tx w1) (flushed w1)))
    as (Hr2 & Hl2 & Ht2 & Hf2 & Hm2).
  fold w2 in Hr2, Hl2, Ht2, Hf2, Hm2.
  cbn [rx line tx flushed millis] in Hr2, Hl2, Ht2, Hf2, Hm2.
  rewrite Hr2, Hl2, Ht2, Hf2, Hm2, Hl1, Ht1, Hf1, drop_drop.
  split; [reflexivity |]. split; [reflexivity |]. split; [reflexivity |].
  split; [reflexivity |].
  unfold u32 in *. rewrite <- Zplus_mod_idemp_l, Hm1, Zplus_mod_idemp_l. reflexivity.
Qed.

Lemma reset_world (boot0 : bool) (w : World) (b : Board) :
  let w' := fst (reset_ boot0 (flush w) b) in
  rx w' = concat (take 50 (drop 50 (line w)))
  /\ line w' = drop 100 (line w)
  /\ tx w' = tx w
  /\ flushed w' = flushed w + 1
  /\ u32 (millis w') = u32 (millis w + 100)
  /\ snd (reset_ boot0 (flush w) b) = mkBoard boot0 true (serial_ b).
Proof.
  destruct (delay_twice 50 50 (flush w)) as (H1 & H2 & H3 & H4 & H5).
  cbn [line tx flushed millis flush] in H1, H2, H3, H4, H5.
  change (Z.of_nat 50) with 50 in H5. change (50 + 50)%nat with 100%nat in H2.
  replace (millis w + 50 + 50) with (millis w + 100) in H5 by lia.
  split; [exact H1 |]. split; [exact H2 |]. split; [exact H3 |].
  split; [exact H4 |]. split; [exact H5 | reflexivity].
Qed.



